(* ===== verification/_CoqProject ===== *)
-Q . S2P
Prelude.v
GoErrors.v
GoStrconv.v
GoURL.v
GoText.v
GoNet.v
GoTime.v
GoJSON.v
GoJSONValue.v
Config.v
ApiTypes.v
CsiaddonsTypes.v
Effects.v
ControllerUtil.v
StringFacts.v
Connection.v
CSIAddonsNodeController.v
CSIAddonsNodeProofs.v
ManagerMain.v
ManagerMainProofs.v
SidecarEndpoint.v
NetworkFenceController.v
NetworkFenceProofs.v
JobController.v
JobProofs.v
CronJobController.v
CronJobProofs.v
PVCController.v
PVCProofs.v
PVCConvergence.v
Pipeline.v
Client.v
Conditions.v
Ownership.v
VolumeReplicationController.v
VolumeReplicationProofs.v
VolumeReplicationLiveness.v
VolumeGroupReplicationController.v
VolumeGroupReplicationProofs.v
VolumeGroupReplicationContentController.v
VolumeGroupReplicationContentProofs.v
GoCrypto.v
Sidecar.v
Token.v
SidecarNode.v
SidecarNodeProofs.v
VolumeCondition.v
VolumeConditionProofs.v
SidecarMain.v
SidecarMainProofs.v
Tool.v
ToolProofs.v
Watches.v
WatchesProofs.v
GoHeap.v
ObjectTypes.v
DeepCopy.v
DeepCopyProofs.v
CommandLine.v
