(* ===== verification/Prelude.v ===== *)
(** * CSI-Addons: a verification development

    ** The program

    The repository holds two long-running programs and a tool.  The _manager_
    (src/cmd/manager) runs Kubernetes controllers that reconcile custom
    resources: VolumeReplication, VolumeGroupReplication and
    VolumeGroupReplicationContent (src/internal/controller/replication.storage)
    and the csiaddons resources (src/internal/controller/csiaddons).  A
    _side-car_ (src/sidecar) runs next to each CSI driver, offers gRPC services
    (src/internal/sidecar/service) and forwards each request to the driver.  The
    controllers find the leading side-car of a driver in a connection pool
    (src/internal/connection) and call it through typed clients
    (src/internal/client).

    A VolumeGroupReplication (VGR) selects PVCs.  Its controller writes a
    VolumeGroupReplicationContent (VGRC) with the volume handles; the content
    controller groups the volumes at the driver and records the group handle;
    then the VGR controller writes a VolumeReplication (VR) for the group, and
    the VR controller drives the replication state at the driver.  A VR for a
    single PVC is written by the user.  The three controllers protect each
    other's objects with finalizers and owner annotations.

    The process of a side-car (src/sidecar/main.go) waits for its driver, announces
    itself with a CSIAddonsNode object, serves its services behind a token check,
    competes for the lease of its driver, and may report the condition of the
    volumes attached to its node as events of their claims.  The csi-addons tool
    (src/cmd/csi-addons) runs one operation of the services by hand.

    The manager's controller of CSIAddonsNode objects
    connects to the announced endpoint and puts the connection in the pool, where
    the other controllers look for the leader of a driver.  A NetworkFence is
    fenced and unfenced through the pool; a NetworkFenceClass is recorded in an
    annotation of every node of its driver, and the node controller asks for the
    clients to fence of each recorded class.

    Annotations of a claim, its namespace or its storage class ask for space
    reclamation and key rotation on a schedule.  The claim controllers (two
    generations of them) write one cron job object per feature beside the claim;
    the cron job controllers write jobs when a start time has passed, and delete
    old ones; the job controllers call the driver, with retries and a deadline.

    ** How it is modelled

    A Go function that calls the API server, a gRPC peer, the clock or the Go
    run-time's map iteration is a [prog] (this file): a tree of calls with a
    branch per answer.  [event] and [answer] of Effects.v list the calls of the
    manager, [sevent] and [sanswer] of Sidecar.v those of the side-car's services;
    the processes (SidecarNode.v, VolumeCondition.v, Tool.v, Token.v, the mains) list
    their own, and run programs of the others with [embed].  The
    world is a function [ρ] from the history so far and the call to an answer;
    statements quantify over all of them, so they cover failures, stale reads
    and concurrent writers.  A pure Go function is a Gallina function; an error
    is a value of [error] (GoErrors.v); a nil dereference or an index out of
    range is [Panic].  A pointer the code shares (the instance that helper
    functions mutate) is passed along and returned, in the order in which the
    code mutates it; where sharing is the point, in the deep copies, the heap is
    explicit.

    The two judgements of this file are [guarded] (a property of every call, given
    what happened before it) and [wp] (the same, with a postcondition); each
    operation has a [wp] lemma and the controllers' theorems follow from
    theirs.  [run_bind] and the [_run] lemmas compute concrete runs.

    ** Files

    - Prelude.v: [prog], runs, [guarded], [wp], [calls], [no_panic], their rules and
      tactics; Go slices and map ranges (a range over a map asks the world for
      an order; [pick_order_surjective] shows that every order is possible).
    - GoErrors.v: error values, gRPC status and API reasons, and
      src/internal/util/error.go.
    - GoStrconv.v: strconv.Atoi, time.ParseDuration, %q, on bytes and with
      64-bit bounds.
    - GoURL.v, GoText.v, GoNet.v, GoTime.v, GoJSON.v, GoJSONValue.v: net/url, small
      text functions, net.ParseIP and IP.String, RFC 3339 times and durations,
      encoding/json for lists of strings and for structs of strings, as far as the
      code uses them.  StringFacts.v: lemmas on cutting, splitting and joining.
    - Config.v: src/internal/util/config.go, strings.go, normalize.go.
    - ApiTypes.v: the records of src/api/replication.storage/v1alpha1 and the
      Kubernetes objects in use; [HasMeta] is the metav1.Object interface.
    - CsiaddonsTypes.v: the records of src/api/csiaddons/v1alpha1.
    - Effects.v: the calls of the manager; Connection's fields.
    - ControllerUtil.v: what the controllers use of the vendored controllerutil
      and apimachinery.
    - Connection.v: src/internal/connection.
    - CSIAddonsNodeController.v, CSIAddonsNodeProofs.v: csiaddonsnode_controller.go.
    - ManagerMain.v, ManagerMainProofs.v: src/cmd/manager/main.go.
    - SidecarEndpoint.v: src/sidecar/internal/util/util.go, against the parser of the
      node controller.
    - NetworkFenceController.v, NetworkFenceProofs.v: networkfence_controller.go and
      networkfenceclass_controller.go, a Module each.
    - JobController.v, JobProofs.v: reclaimspacejob_controller.go and
      encryptionkeyrotationjob_controller.go.  Their common life cycle is
      [lifecycle], for an object of the class [Job]; it is verified against the
      interface [JobWork], which each controller's request code implements.
    - CronJobController.v, CronJobProofs.v: the two cron job controllers, one
      [reconcile_cron] with the differences of the sources as parameters.
    - PVCController.v, PVCProofs.v: persistentvolumeclaim_controller.go,
      pvc_new_controller.go and src/internal/controller/utils; [Slot] is the
      interface between a claim and one kind of cron job.  PVCConvergence.v: the
      newer controller against an API server that keeps the objects ([exec]).
    - Pipeline.v: claim, cron job and job controllers composed.
    - Client.v: src/internal/client, with the interface as the record
      [VolumeReplicationClient] and its law as the class [ReplicationClientSpec];
      the operations of replication/replication.go.
    - Conditions.v: status.go, utils.go: the conditions and states.
    - Ownership.v: parameters.go, finalizers.go, pvc.go, the class getters and the
      owner annotations of the three controllers.
    - VolumeReplicationController.v: volumereplication_controller.go, the whole
      Reconcile, cut into phases that are named with their lines;
      VolumeReplicationProofs.v: its invariants; VolumeReplicationLiveness.v:
      complete runs.
    - VolumeGroupReplicationController.v and VolumeGroupReplicationProofs.v:
      volumegroupreplication_controller.go with the watch predicates and event
      mappers.
    - VolumeGroupReplicationContentController.v and
      VolumeGroupReplicationContentProofs.v:
      volumegroupreplicationcontent_controller.go.
    - GoCrypto.v: crypto/sha256 and path/filepath for the staging paths.
    - Sidecar.v: src/internal/sidecar/service, src/internal/kubernetes/secret.go
      and the server side of src/internal/kubernetes/token/grpc.go; Token.v: its
      client side.
    - SidecarNode.v, SidecarNodeProofs.v: src/sidecar/internal/client/client.go and
      src/sidecar/internal/csiaddonsnode/csiaddonsnode.go.
    - VolumeCondition.v, VolumeConditionProofs.v: src/sidecar/internal/volume-condition;
      Module kubelet is platform/kubelet.go.
    - SidecarMain.v, SidecarMainProofs.v: src/sidecar/main.go and
      src/sidecar/internal/server/server.go, with what they use of csi-lib-utils'
      leader election; the goroutines of main are programs of their own.
    - Tool.v, ToolProofs.v: src/cmd/csi-addons.
    - CommandLine.v: Go's flag package and the flags of the tool (Module ToolFlags,
      init of src/cmd/csi-addons/main.go), of the manager (ManagerFlags) and of the
      side-car (SidecarFlags); their results are the commands and flags that the
      three mains start from.
    - Watches.v, WatchesProofs.v: SetupWithManager of every controller, a Module
      each, with what they use of controller-runtime: predicates, handlers, the
      builder, and [requests], the requests that an event on a watched object
      leads to.  The event mappers and predicates are those of the controllers'
      files.
    - GoHeap.v: pointers, slices, maps and structs on a heap of cells, the declared
      types [ty], the contents [view] of a value, and the copy [deepcopy] along a
      type.  ObjectTypes.v: the declared types of src/api.  DeepCopy.v,
      DeepCopyProofs.v: the functions of the two zz_generated.deepcopy.go files,
      field statement by field statement.

    ** What the theorems show

    - The VR controller (VR_...): a volume is enabled, promoted, demoted, resynced
      and disabled only in the situations the API asks for and in the right
      order; the status tells what the driver confirmed; requests carry the right
      identity and no reserved parameter; every run ends, and the panics are
      listed; and when every call succeeds a volume does become primary.
    - The VGR and content controllers (VGR_..., content_...): replication starts
      only for an existing group, a group is created once, and deletion takes
      everything apart in an order that never orphans a group; create-or-update
      converges; group membership and handles are what the selector says.
    - The node controller (node_...): a connection enters the pool only under the
      name of its own node and after the checks; a deleted node leaves the pool;
      a side-car that stays unreachable is deleted after the last attempt; the
      panics are listed.
    - The fence controllers (fence_..., class_...): fencing carries exactly the
      specified networks, unfencing precedes the release of the finalizer, and the
      annotation of a node is read back as it was written.
    - The jobs and cron jobs (reclaimspace_..., keyrotation_..., cron_...): a job
      runs once its turn has come, never after its end, and every job ends; a cron
      job starts a job only for a time that has passed and not twice for one time;
      the next start is the exact one or is refused, for calendar schedules and for
      constant delays, and a schedule that never fires is refused as well; only
      surplus jobs are deleted.
    - The claim controllers (pvc_..., claim_...) and the pipeline: what is written
      beside a claim is what its annotations, namespace and classes ask for;
      the newer controller refines this specification in one reconcile and is then
      idle; each stage's output is well-formed for the next, and is found again.
    - The supporting components: conditions refine a map update, the configuration
      is read exactly ([config_map_exact]), in any order, and is always valid,
      parameters are validated exactly,
      claims are exclusive, connections do not leak and the leader lookup is
      sound, the side-car forwards faithfully and only for authenticated callers.
    - The side-car's process (announcement_..., sidecar_startup, leader_is_found,
      authorization_handshake): it writes only its own node object, never one that is
      being deleted, under a name of admissible length, with an endpoint that the
      manager reads back; nothing is started before the driver is ready, and no
      server listens without its services or, where enabled, its checks; the lease it
      competes for and the holder it writes there lead the manager back to the
      connection of its node; the token the manager sends is the one reviewed.
    - The reporter (reporter_..., abnormal_volume_reported): only new conditions are
      recorded, about the right claim; an abnormal volume is reported in the next
      round; [staging_paths_agree] compares its paths with those of the services.
    - The wiring (setup_with_manager_contract, field_indexes_registered,
      own_events_exact, dependents_wake_owners, group_dependents_wake_group,
      nodes_wake_controllers): a controller is built after its field indexes are
      registered and its CRDs are there, it lists only by these indexes, and what
      happens to its objects and to what it has written wakes it.
    - The deep copies (generated_copies_follow_types, deep_copies_independent,
      deep_copy_objects_independent): each generated function copies every field of
      its type, and a copy has the same contents and shares no memory.
    - The command lines (tool_command_line_roundtrip, manager_defaults_stand): every
      command of the tool can be written and is read back; refused_command_lines
      shows the exit status of a refused one.
    - The manager's start-up (manager_startup) sets up one controller per kind, with
      one pool and the configuration that was read; retry_delay_is_nanoseconds shows
      a unit lost on the way.  The tool (tool_..., replication_operations_fail) sends
      what the command line asks for, but for the path of NodeReclaimSpace
      ([node_reclaim_path_doubled]), and cannot run its replication operations.

    ** Bounds and fuel

    [WaitForVolumeReplicationResource] has an unbounded loop: [Wait_terminates]
    gives the fuel that is enough, for every sequence of answers that ends.
    [parse_loop] of ParseDuration consumes input in each round, so the length of the
    string is enough ([parse_loop_total]); the same holds for [replace_runes]
    and for the SHA-256 [blocks].  [missed_loop] of the cron jobs has the
    code's own bound of 100 rounds.  [jobs_end] gives the number of reconciles
    after which a job has ended: its retry limit and one.  The loops of the
    side-car that need not end (probe, watch, dispatcher, reporter) take numbers of
    rounds and answer [None] when these are used up; their theorems hold for all
    numbers, and [dispatch_ends] and [deploy_tries_once] say when they return.  JSON values are parsed with
    fuel that [json_value_enough] shows to suffice, an IPv6 address has at most eight
    groups.  The copies recurse over the declared types, which are finite, and
    flag.Parse over its arguments: neither needs fuel.  Integers that Go keeps at 64 bits are Z with
    their bounds proved ([Atoi_range], [ParseDuration_range], [info_interval]).

    ** What is not modelled

    The API server and the driver are the world [ρ].  Go's mutexes and goroutines
    are not modelled: a pool operation is one sequence of calls, and the goroutines
    of the side-car are verified one by one: their interleavings are covered by the
    world being arbitrary, not as schedules.  Of controller-runtime, the caches, the
    work queues and their rate limits are left out: an event leads to requests, and
    a request to a run of Reconcile.  Parameters of the model: label selectors and
    REST mappings (apimachinery), the cron library's schedules ([Calendar] and [Delay] say
    what the cron jobs need of them), the printing of protocol buffers, scheme
    lookups, and the flags that the logging libraries register.  The text of JSON
    errors is not modelled, and a nil map of annotations is not told apart from an
    empty one, except where the code does.  Cryptography (keys, certificates, TLS)
    is calls of the world.  Logging, the registration of the gRPC services and the
    constructors that only fill a struct have no counterpart.  Nothing of the
    protocol buffer code (generated by protoc on a run-time library), of the fake
    clients for the unit tests and of the version strings, which the linker sets,
    is modelled. *)

From Stdlib Require Export Ascii.
From stdpp Require Export base tactics list gmap strings fin_maps sorting pretty.

#[export] Set Default Goal Selector "!".
#[export] Set Warnings "-clear-no-such-hyp".

(** ** Effectful programs

    A Go function that talks to the outside world (the Kubernetes API server,
    a gRPC peer, the clock, the run-time's map iteration order) is a [prog]:
    a finite tree whose inner nodes are calls and whose branches are the
    possible answers.  Nothing about the answers is fixed here, so a statement
    about all answers covers failures and concurrent changes by other
    processes alike.  [Panic] is a Go run-time panic. *)
Section prog.
Context {E : Type} {R : E -> Type}.

Inductive prog (A : Type) : Type :=
| Ret (a : A)
| Panic (msg : string)
| Call (e : E) (k : R e -> prog A).

Inductive outcome (A : Type) : Type :=
| Done (a : A)
| Panicked (msg : string).
End prog.

Arguments prog {E} R A.
Arguments Ret {E R A} a.
Arguments Panic {E R A} msg.
Arguments Call {E R A} e k.
Arguments Done {A} a.
Arguments Panicked {A} msg.

#[global] Instance prog_ret {E} {R : E -> Type} : MRet (prog R) := fun A a => Ret a.
#[global] Instance prog_bind {E} {R : E -> Type} : MBind (prog R) :=
  fun A B f => fix go p :=
    match p with
    | Ret a => f a
    | Panic m => Panic m
    | Call e k => Call e (fun r => go (k r))
    end.

(** [call e] performs the call [e] and returns its answer. *)
Definition call {E} {R : E -> Type} (e : E) : prog R (R e) := Call e Ret.

(** ** Histories, runs and the two verification judgements *)
Section semantics.
Context {E : Type} {R : E -> Type}.

(** A history lists the calls made so far with their answers, most recent
    first. *)
Definition history : Type := list { e : E & R e }.

(** An environment answers each call, knowing everything that happened. *)
Definition env : Type := history -> forall e : E, R e.

Fixpoint run {A} (ρ : env) (h : history) (p : prog R A) : history * outcome A :=
  match p with
  | Ret a => (h, Done a)
  | Panic m => (h, Panicked m)
  | Call e k => let r := ρ h e in run ρ (existT e r :: h) (k r)
  end.

Lemma run_bind {A B} ρ (p : prog R A) (f : A -> prog R B) :
  forall h, run ρ h (p ≫= f) =
    match run ρ h p with
    | (h', Done a) => run ρ h' (f a)
    | (h', Panicked m) => (h', Panicked m)
    end.
Proof. induction p as [a|m|e k IH]; intros h; [done..|]. apply IH. Qed.

(** A run against a server with a state of its own. *)
Fixpoint exec {S A} (serve : S -> forall e : E, S * R e) (s : S) (p : prog R A) : S * outcome A :=
  match p with
  | Ret a => (s, Done a)
  | Panic m => (s, Panicked m)
  | Call e k => let '(s, r) := serve s e in exec serve s (k r)
  end.

Lemma exec_bind {S A B} serve (s : S) (p : prog R A) (f : A -> prog R B) :
  exec serve s (p ≫= f) =
    match exec serve s p with
    | (s', Done a) => exec serve s' (f a)
    | (s', Panicked m) => (s', Panicked m)
    end.
Proof. revert s. induction p as [a|m|e k IH]; intros s; [done..|]. simpl. destruct (serve s e) as [s' r]. apply IH. Qed.

(** [guarded G h]: every call of [h] was permitted by [G], which may look at
    the calls (and answers) that preceded it. *)
Fixpoint guarded (G : history -> E -> Prop) (h : history) : Prop :=
  match h with
  | [] => True
  | existT e _ :: h' => G h' e /\ guarded G h'
  end.

(** [wp G Q h p]: from history [h], whatever the answers are, every call of
    [p] is permitted by [G] and [p] ends with [Q]. *)
Fixpoint wp {A} (G : history -> E -> Prop) (Q : history -> outcome A -> Prop)
    (h : history) (p : prog R A) : Prop :=
  match p with
  | Ret a => Q h (Done a)
  | Panic m => Q h (Panicked m)
  | Call e k => G h e /\ forall r, wp G Q (existT e r :: h) (k r)
  end.

Lemma wp_run {A} G Q (p : prog R A) :
  forall h, wp G Q h p -> guarded G h ->
  forall ρ, guarded G (fst (run ρ h p)) /\ Q (fst (run ρ h p)) (snd (run ρ h p)).
Proof.
  induction p as [a|m|e k IH]; simpl; intros h Hwp Hg ρ; [done..|].
  destruct Hwp as [HG Hk]. by apply IH.
Qed.

(** The two uses of [wp_run]: what holds at the end of every run, and that
    every call of every run is permitted. *)
Lemma wp_final {A} (Q : history -> outcome A -> Prop) (p : prog R A) ρ :
  wp (fun _ _ => True) Q [] p -> Q (fst (run ρ [] p)) (snd (run ρ [] p)).
Proof. intros H. by apply (wp_run _ Q p [] H). Qed.

Lemma guarded_mono (G G' : history -> E -> Prop) h :
  (forall h e, G h e -> G' h e) -> guarded G h -> guarded G' h.
Proof. intros HG. induction h as [|[e r] h IH]; naive_solver. Qed.

Lemma wp_result {A} (Q : history -> outcome A -> Prop) (p : prog R A) ρ h o :
  run ρ [] p = (h, o) -> wp (fun _ _ => True) Q [] p -> Q h o.
Proof. intros Hrun H. pose proof (wp_final Q p ρ H) as HQ. by rewrite Hrun in HQ. Qed.

Lemma wp_guarded {A} G (p : prog R A) ρ :
  wp G (fun _ _ => True) [] p -> guarded G (fst (run ρ [] p)).
Proof. intros H. by apply (wp_run G _ p [] H). Qed.

Lemma wp_mono {A} (G G' : history -> E -> Prop)
    (Q Q' : history -> outcome A -> Prop) (p : prog R A) :
  forall h, wp G Q h p ->
  (forall h e, G h e -> G' h e) -> (forall h o, Q h o -> Q' h o) ->
  wp G' Q' h p.
Proof. induction p; naive_solver. Qed.

Lemma wp_post {A} G (Q Q' : history -> outcome A -> Prop) (p : prog R A) h :
  wp G Q h p -> (forall h o, Q h o -> Q' h o) -> wp G Q' h p.
Proof. intros. by eapply wp_mono. Qed.

(** The continuation of a postcondition through [bind]. *)
Definition after {A B} G (Q : history -> outcome B -> Prop) (f : A -> prog R B)
    (h : history) (o : outcome A) : Prop :=
  match o with
  | Done a => wp G Q h (f a)
  | Panicked m => Q h (Panicked m)
  end.

Lemma wp_bind {A B} G Q (p : prog R A) (f : A -> prog R B) :
  forall h, wp G Q h (p ≫= f) <-> wp G (after G Q f) h p.
Proof. induction p; naive_solver. Qed.

Lemma wp_assoc {A B C} G Q (p : prog R A) (f : A -> prog R B) (g : B -> prog R C) h :
  wp G Q h (p ≫= (fun a => f a ≫= g)) -> wp G Q h ((p ≫= f) ≫= g).
Proof.
  rewrite !wp_bind. intros H. eapply wp_post; [exact H|].
  intros h' [a|m]; simpl; [|done]. by rewrite wp_bind.
Qed.

(** The sequencing rule: a specification of the first part, then the rest. *)
Lemma wp_seq {A B} G (Q : history -> outcome B -> Prop) (P : history -> outcome A -> Prop)
    (p : prog R A) (f : A -> prog R B) h :
  wp G P h p -> (forall h' o, P h' o -> after G Q f h' o) -> wp G Q h (p ≫= f).
Proof. intros Hp Hf. apply wp_bind. by eapply wp_post. Qed.

Lemma wp_and {A} G (Q1 Q2 : history -> outcome A -> Prop) (p : prog R A) :
  forall h, wp G Q1 h p -> wp G Q2 h p ->
  wp G (fun h o => Q1 h o /\ Q2 h o) h p.
Proof. induction p; naive_solver. Qed.

(** A postcondition that needs no guard. *)
Lemma wp_and_any {A} G (Q1 Q2 : history -> outcome A -> Prop) (p : prog R A) :
  forall h, wp G Q1 h p -> wp (fun _ _ => True) Q2 h p ->
  wp G (fun h o => Q1 h o /\ Q2 h o) h p.
Proof. induction p; naive_solver. Qed.

Lemma wp_ret {A} G Q h (a : A) : Q h (Done a) -> wp G Q h (Ret a).
Proof. done. Qed.

Lemma wp_panic {A} G (Q : history -> outcome A -> Prop) h m :
  Q h (Panicked m) -> wp G Q h (Panic m).
Proof. done. Qed.

Lemma wp_call {A} G (Q : history -> outcome A -> Prop) h e k :
  G h e -> (forall r, wp G Q (existT e r :: h) (k r)) -> wp G Q h (Call e k).
Proof. done. Qed.

(** [extends P h h']: [h'] is [h] after some more calls, all of them in [P]. *)
Definition extends (P : E -> Prop) (h h' : history) : Prop :=
  exists t : history, h' = t ++ h /\ Forall (fun c => P (projT1 c)) t.

Lemma extends_refl P h : extends P h h.
Proof. by exists []. Qed.

Lemma extends_cons P h h' e r :
  extends P h h' -> P e -> extends P h (existT e r :: h').
Proof. intros (t & -> & Ht) He. exists (existT e r :: t). by repeat constructor. Qed.

Lemma extends_trans P h1 h2 h3 :
  extends P h1 h2 -> extends P h2 h3 -> extends P h1 h3.
Proof.
  intros (t1 & -> & H1) (t2 & -> & H2). exists (t2 ++ t1).
  rewrite <- app_assoc. by split; [|apply Forall_app].
Qed.

Lemma extends_mono (P P' : E -> Prop) h h' :
  (forall e, P e -> P' e) -> extends P h h' -> extends P' h h'.
Proof. intros HP (t & -> & Ht). exists t. split; [done|]. eapply Forall_impl; [exact Ht|]. naive_solver. Qed.

Lemma extends_one (P : E -> Prop) e r h : P e -> extends P h (existT e r :: h).
Proof. intros. by apply extends_cons; [apply extends_refl|]. Qed.

(** [calls P p]: every call [p] can ever make is in [P]. *)
Fixpoint calls {A} (P : E -> Prop) (p : prog R A) : Prop :=
  match p with
  | Ret _ | Panic _ => True
  | Call e k => P e /\ forall r, calls P (k r)
  end.

Lemma calls_bind {A B} P (p : prog R A) (f : A -> prog R B) :
  calls P p -> (forall a, calls P (f a)) -> calls P (p ≫= f).
Proof. induction p; naive_solver. Qed.

Lemma calls_mono {A} (P P' : E -> Prop) (p : prog R A) :
  calls P p -> (forall e, P e -> P' e) -> calls P' p.
Proof. induction p; naive_solver. Qed.

(** [no_panic p]: [p] returns whatever the answers are. *)
Fixpoint no_panic {A} (p : prog R A) : Prop :=
  match p with
  | Ret _ => True
  | Panic _ => False
  | Call e k => forall r, no_panic (k r)
  end.

Lemma no_panic_bind {A B} (p : prog R A) (f : A -> prog R B) :
  no_panic p -> (forall a, no_panic (f a)) -> no_panic (p ≫= f).
Proof. induction p; naive_solver. Qed.

Lemma no_panic_wp {A} (p : prog R A) G Q h :
  no_panic p -> wp G Q h p -> wp G (fun h' o => Q h' o /\ exists a, o = Done a) h p.
Proof. revert h. induction p; naive_solver. Qed.

(** A program that only makes calls in [P] satisfies every guard that [P]
    implies, and extends the history by calls in [P]. *)
Lemma calls_wp {A} P (G : history -> E -> Prop) (p : prog R A) h :
  calls P p -> (forall h e, P e -> G h e) ->
  wp G (fun h' _ => extends P h h') h p.
Proof.
  intros Hp HG.
  assert (forall h', extends P h h' -> wp G (fun h' _ => extends P h h') h' p) as Hgen;
    [|by apply Hgen, extends_refl].
  revert Hp. induction p as [a|m|e k IH]; simpl; intros Hp h' Hext; [done..|].
  destruct Hp as [He Hk]. split; [by apply HG|]. intros r.
  by apply IH, extends_cons.
Qed.

(** A program keeps what its calls cannot change, before each call and at the
    end. *)
Lemma wp_calls {A} P (G : history -> E -> Prop) (Q : history -> outcome A -> Prop) (p : prog R A) h :
  calls P p -> wp G Q h p ->
  wp (fun h' e => extends P h h' /\ G h' e) (fun h' o => extends P h h' /\ Q h' o) h p.
Proof.
  assert (forall h', extends P h h' -> calls P p -> wp G Q h' p ->
    wp (fun h' e => extends P h h' /\ G h' e) (fun h' o => extends P h h' /\ Q h' o) h' p) as Hgen;
    [|intros; by apply Hgen; [apply extends_refl|..]].
  induction p as [a|m|e k IH]; simpl; intros h' Hext Hp Hwp; [done..|].
  destruct Hp as [He Hk], Hwp as [HG Hwp]. split; [done|]. intros r. apply IH; [by apply extends_cons|done..].
Qed.
Lemma calls_any {A} (p : prog R A) : calls (fun _ => True) p.
Proof. induction p; simpl; auto. Qed.

Lemma guarded_any (h : history) : guarded (fun _ _ => True) h.
Proof. induction h as [|[e r] h IH]; [done|by split]. Qed.

(** A run only adds to the history. *)
Lemma run_grows {A} ρ (p : prog R A) h : exists t, fst (run ρ h p) = t ++ h.
Proof.
  revert h. induction p as [a|m|e k IH]; intros h; [by exists []..|].
  destruct (IH (ρ h e) (existT e (ρ h e) :: h)) as [t Ht]. exists (t ++ [existT e (ρ h e)]).
  etransitivity; [exact Ht|]. by rewrite <- app_assoc.
Qed.

Lemma run_keeps {A} ρ (p : prog R A) h h' o c : run ρ h p = (h', o) -> c ∈ h -> c ∈ h'.
Proof.
  intros Hrun Hc. destruct (run_grows ρ p h) as [t Ht]. rewrite Hrun in Ht. cbn in Ht. subst h'.
  apply elem_of_app. by right.
Qed.

(** A program that does not panic returns. *)
Lemma run_done {A} (p : prog R A) ρ h : no_panic p -> exists h' a, run ρ h p = (h', Done a).
Proof. revert h. induction p as [a|m|e k IH]; intros h Hp; [by eexists _, _|done|]. apply IH, Hp. Qed.
End semantics.

Arguments history {E} R.
Arguments env {E} R.

(** ** A program run by another process

    [embed inj out p] makes the calls of [p] as the calls [inj e] of a larger world,
    whose answers [out] reads back. *)
Section embed.
Context {E E' : Type} {R : E -> Type} {R' : E' -> Type}.
Context (inj : E -> E') (out : forall e, R' (inj e) -> R e).

Fixpoint embed {A} (p : prog R A) : prog R' A :=
  match p with
  | Ret a => Ret a
  | Panic m => Panic m
  | Call e k => Call (inj e) (fun r => embed (k (out e r)))
  end.

Lemma calls_embed {A} (P : E' -> Prop) (p : prog R A) : (forall e, P (inj e)) -> calls P (embed p).
Proof. intros HP. induction p; simpl; auto. Qed.

(** [inner] finds the calls of [p] again in the history of the larger world. *)
Lemma wp_embed {A} (inner : history R' -> history R) (G : history R -> E -> Prop)
    (G' : history R' -> E' -> Prop) (Q : history R -> outcome A -> Prop) (p : prog R A) :
  (forall h e r, inner (existT (inj e) r :: h) = existT e (out e r) :: inner h) ->
  (forall h e, G (inner h) e -> G' h (inj e)) ->
  forall h, wp G Q (inner h) p -> wp G' (fun h o => Q (inner h) o) h (embed p).
Proof.
  intros Hinner HG. induction p as [a|m|e k IH]; intros h; [done..|]. intros [He Hk].
  split; [by apply HG|]. intros r. apply IH. rewrite Hinner. apply Hk.
Qed.
End embed.

(** ** Go slices and maps *)

(** [slices.Contains] and [slices.DeleteFunc (== x)]. *)
Definition contains (l : list string) (x : string) : bool := bool_decide (x ∈ l).
Definition delete_eq (l : list string) (x : string) : list string :=
  filter (fun v => x ≠ v) l.

(** Reading a [map[string]string]: the zero value for a missing key (a nil map
    reads as the empty one). *)
Definition map_get (m : gmap string string) (k : string) : string := default "" (m !! k).

Lemma contains_true l x : contains l x = true <-> x ∈ l.
Proof. unfold contains. by rewrite bool_decide_eq_true. Qed.

Lemma contains_false l x : contains l x = false <-> x ∉ l.
Proof. unfold contains. by rewrite bool_decide_eq_false. Qed.

Lemma elem_of_delete_eq l x y : y ∈ delete_eq l x <-> y ≠ x /\ y ∈ l.
Proof. unfold delete_eq. rewrite list_elem_of_filter. naive_solver. Qed.

Lemma contains_delete_eq l x : contains (delete_eq l x) x = false.
Proof. apply contains_false. rewrite elem_of_delete_eq. naive_solver. Qed.

Lemma contains_delete_eq_ne l x y :
  x ≠ y -> contains (delete_eq l x) y = contains l y.
Proof.
  intros Hne. unfold contains. apply bool_decide_ext.
  rewrite elem_of_delete_eq. naive_solver.
Qed.

Lemma contains_app l1 l2 x : contains (l1 ++ l2) x = contains l1 x || contains l2 x.
Proof.
  apply eq_bool_prop_intro. rewrite orb_True. unfold contains.
  rewrite !bool_decide_spec. apply elem_of_app.
Qed.

Lemma delete_eq_not_in l x : x ∉ l -> delete_eq l x = l.
Proof.
  intros Hx. unfold delete_eq. induction l as [|y l IH]; [done|].
  rewrite filter_cons_True by set_solver. f_equal. apply IH. set_solver.
Qed.

Lemma delete_eq_app l1 l2 x : delete_eq (l1 ++ l2) x = delete_eq l1 x ++ delete_eq l2 x.
Proof. apply filter_app. Qed.

(** Adding a string to a slice that lacks it and deleting it again. *)
Lemma delete_eq_snoc l x : x ∉ l -> delete_eq (l ++ [x]) x = l.
Proof.
  intros Hx. rewrite delete_eq_app, (delete_eq_not_in l) by done.
  unfold delete_eq. rewrite filter_cons_False by naive_solver. apply app_nil_r.
Qed.

Lemma filter_ext_in {A} (P Q : A -> Prop) `{forall x, Decision (P x), forall x, Decision (Q x)} (l : list A) :
  (forall x, x ∈ l -> P x <-> Q x) -> filter P l = filter Q l.
Proof.
  induction l as [|x l IH]; intros Hl; [done|]. rewrite !filter_cons, IH by set_solver.
  assert (P x <-> Q x) by set_solver. repeat case_decide; tauto.
Qed.

Lemma NoDup_fmap_inj {A B} (f : A -> B) (l : list A) x y :
  NoDup (f <$> l) -> x ∈ l -> y ∈ l -> f x = f y -> x = y.
Proof.
  intros Hnd [i Hi]%list_elem_of_lookup [j Hj]%list_elem_of_lookup Hf.
  assert (i = j) as ->; [|congruence].
  apply (NoDup_lookup (f <$> l) i j (f x)); [done|..]; rewrite list_lookup_fmap, ?Hi, ?Hj; simpl; congruence.
Qed.

(** Go ranges over a map in an unspecified order.  The run-time's choice is a
    list of numbers, each the (reduced) index of the next entry; every order is
    the outcome of some choice, and every choice is an order. *)
Fixpoint pick_order {A} (seed : list nat) (l : list A) : list A :=
  match seed with
  | [] => l
  | n :: seed =>
    let i := n mod length l in
    match l !! i with
    | Some x => x :: pick_order seed (delete i l)
    | None => []
    end
  end.

Lemma pick_order_Permutation {A} seed (l : list A) : pick_order seed l ≡ₚ l.
Proof.
  revert l. induction seed as [|n seed IH]; intros l; simpl; [done|].
  destruct (l !! (n mod length l)) as [x|] eqn:Hx.
  - rewrite IH. by rewrite <- delete_Permutation.
  - destruct l as [|y l]; [done|]. apply lookup_ge_None in Hx.
    pose proof (Nat.mod_upper_bound n (length (y :: l))). simpl in *. lia.
Qed.

Lemma pick_order_surjective {A} (l l' : list A) :
  l' ≡ₚ l -> exists seed, pick_order seed l = l'.
Proof.
  revert l. induction l' as [|x l' IH]; intros l Hl.
  - apply Permutation_nil in Hl as ->. by exists [].
  - assert (x ∈ l) as [i Hi]%list_elem_of_lookup by (rewrite <- Hl; set_solver).
    pose proof (lookup_lt_Some _ _ _ Hi) as Hlt.
    destruct (IH (delete i l)) as [seed Hseed].
    { apply (Permutation_cons_inv (a:=x)). by rewrite <- delete_Permutation. }
    exists (i :: seed). simpl. rewrite Nat.mod_small by done. by rewrite Hi, Hseed.
Qed.

(** The entries of a map in the order the run-time picked. *)
Definition map_range {V} (seed : list nat) (m : gmap string V) : list (string * V) :=
  pick_order seed (map_to_list m).

Lemma elem_of_map_range {V} seed (m : gmap string V) k v :
  (k, v) ∈ map_range seed m <-> m !! k = Some v.
Proof.
  unfold map_range. rewrite pick_order_Permutation. apply elem_of_map_to_list.
Qed.

(** ** Strings *)

(** [strconv.Quote] on bytes: ASCII is escaped as Go does; bytes above 0x7f are
    kept (they are UTF-8 continuations of printable runes). *)
Definition hex_digit (n : nat) : ascii :=
  match n with
  | 0 => "0" | 1 => "1" | 2 => "2" | 3 => "3" | 4 => "4" | 5 => "5" | 6 => "6" | 7 => "7"
  | 8 => "8" | 9 => "9" | 10 => "a" | 11 => "b" | 12 => "c" | 13 => "d" | 14 => "e"
  | _ => "f"
  end%char.

Definition escape_byte (quote : nat) (n : nat) (c : ascii) : string :=
  if n =? quote then String "\" (String c "")
  else match n with
  | 92 => "\\" | 7 => "\a" | 8 => "\b" | 12 => "\f" | 10 => "\n" | 13 => "\r"
  | 9 => "\t" | 11 => "\v"
  | _ => if (n <? 32) || (n =? 127)
         then "\x" +:+ String (hex_digit (n / 16)) (String (hex_digit (n mod 16)) "")
         else String c ""
  end.

Fixpoint escape (s : string) : string :=
  match s with
  | EmptyString => ""
  | String c s => escape_byte 34 (nat_of_ascii c) c +:+ escape s
  end.

Definition dquote : string := String "034"%char "".
Definition go_quote (s : string) : string := dquote +:+ escape s +:+ dquote.

(** [fmt]'s %q applied to an integer: the character literal of that code point
    (printable above 0x7f), and of U+FFFD when it is out of range. *)
Definition utf8 (n : N) : string :=
  let b k := ascii_of_N k in
  (if n <? 128 then escape_byte 39 (N.to_nat n) (b n)
   else if n <? 2048 then String (b (192 + n / 64)) (String (b (128 + n mod 64)) "")
   else if n <? 65536 then
     String (b (224 + n / 4096))
       (String (b (128 + n / 64 mod 64)) (String (b (128 + n mod 64)) ""))
   else
     String (b (240 + n / 262144))
       (String (b (128 + n / 4096 mod 64))
         (String (b (128 + n / 64 mod 64)) (String (b (128 + n mod 64)) ""))))%N.

Definition go_quote_int (z : Z) : string :=
  if ((z <? 0) || (1114111 <? z))%Z
  then "'" +:+ String "239" (String "191" (String "189" "'"))
  else "'" +:+ utf8 (Z.to_N z) +:+ "'".

(** ** Automation *)

(** [prog_simpl] exposes the next calls of a program. *)
Ltac prog_simpl := cbn [wp calls mbind prog_bind mret prog_ret call fst snd].

(** [calls_solve] proves [calls P p] for a program given by its source text:
    it follows the program's structure, using the lemmas of database [calls]
    for the functions it calls. *)
Create HintDb calls discriminated.

Ltac calls_step :=
  match goal with
  | |- forall _, _ => intro
  | |- True => exact I
  | |- _ /\ _ => split
  | |- calls _ (Ret _) => exact I
  | |- calls _ (Panic _) => exact I
  | |- calls _ (mret _) => exact I
  | |- calls _ (call _) => split; [|intro; exact I]
  | |- calls _ (Call _ _) => split
  | |- calls _ (_ ≫= _) => apply calls_bind
  | |- calls _ (let '_ := ?x in _) => destruct x
  | |- calls _ (match ?x with _ => _ end) => destruct x
  | |- calls _ _ => solve [eauto with calls nocore]
  end.

Ltac calls_solve := repeat (calls_step; cbn [fst snd]); try done.

(** [np_solve] proves [no_panic p] in the same way. *)
Create HintDb no_panic discriminated.

Ltac np_step :=
  match goal with
  | |- forall _, _ => intro
  | |- no_panic (Ret _) => exact I
  | |- no_panic (mret _) => exact I
  | |- no_panic (call _) => intro; exact I
  | |- no_panic (Call _ _) => intro
  | |- no_panic (_ ≫= _) => apply no_panic_bind
  | |- no_panic (let '_ := ?x in _) => destruct x
  | |- no_panic (match ?x with _ => _ end) => destruct x
  | |- no_panic _ => solve [eauto with no_panic nocore]
  end.

Ltac np_solve := repeat (np_step; cbn [fst snd]); try done.

(** [wp_step] runs a program that is given by its source text symbolically,
    splitting on every answer and every test; it leaves the guards and the
    postconditions. *)
Ltac wp_step :=
  match goal with
  | |- wp _ _ _ (Ret _) => apply wp_ret
  | |- wp _ _ _ (Panic _) => apply wp_panic
  | |- wp _ _ _ (mret _) => apply wp_ret
  | |- wp _ _ _ (Call _ _) => apply wp_call; [|intro]
  | |- wp _ _ _ (call _) => apply wp_call; [|intro]
  | |- wp _ _ _ ((match ?x with _ => _ end) ≫= _) => destruct x eqn:?
  | |- wp _ _ _ (match ?x with _ => _ end) => destruct x eqn:?
  | |- wp _ _ _ (call _ ≫= _) => apply wp_call; [|intro; cbn [mbind prog_bind]; cbn beta iota]
  | |- wp _ _ _ (mret ?x ≫= ?f) => change (mret x ≫= f) with (f x); cbn beta iota
  | |- wp _ _ _ (Ret ?x ≫= ?f) => change (Ret x ≫= f) with (f x); cbn beta iota
  | |- wp _ _ _ ((_ ≫= _) ≫= _) => apply wp_assoc
  end.

(** Calls observed in a history, most recent first. *)
Definition observe {E} {R : E -> Type} {A} (f : {e : E & R e} -> option A)
  (h : history R) : list A := omap f h.

Lemma observe_cons {E} {R : E -> Type} {A} (f : {e : E & R e} -> option A) c h :
  observe f (c :: h) = match f c with Some a => a :: observe f h | None => observe f h end.
Proof. done. Qed.

Lemma observe_extends {E} {R : E -> Type} {A} (f : {e : E & R e} -> option A) P (h h' : history R) :
  extends P h h' -> (forall e r, P e -> f (existT e r) = None) ->
  observe f h' = observe f h.
Proof.
  intros (t & -> & Ht) Hf. induction Ht as [|[e r] t He Ht IH]; [done|].
  simpl. unfold observe in *. simpl. rewrite Hf by done. apply IH.
Qed.
