(* ===== verification/GoErrors.v ===== *)
(** * Go errors, gRPC status errors and Kubernetes API errors

    The error values the controllers and side-cars inspect, with the functions
    they inspect them with: [errors.As]-style unwrapping, grpc's
    [status.FromError] and [status.Code], apimachinery's [IsNotFound], and the
    helpers of src/internal/util/error.go. *)

From S2P Require Import Prelude.

(** gRPC status codes (google.golang.org/grpc/codes). *)
Inductive Code :=
| OK | Canceled | Unknown | InvalidArgument | DeadlineExceeded | NotFound
| AlreadyExists | PermissionDenied | ResourceExhausted | FailedPrecondition
| Aborted | OutOfRange | Unimplemented | Internal | Unavailable | DataLoss
| Unauthenticated.

#[global] Instance Code_eq_dec : EqDecision Code.
Proof. solve_decision. Defined.

Definition Code_String (c : Code) : string :=
  match c with
  | OK => "OK" | Canceled => "Canceled" | Unknown => "Unknown"
  | InvalidArgument => "InvalidArgument" | DeadlineExceeded => "DeadlineExceeded"
  | NotFound => "NotFound" | AlreadyExists => "AlreadyExists"
  | PermissionDenied => "PermissionDenied" | ResourceExhausted => "ResourceExhausted"
  | FailedPrecondition => "FailedPrecondition" | Aborted => "Aborted"
  | OutOfRange => "OutOfRange" | Unimplemented => "Unimplemented"
  | Internal => "Internal" | Unavailable => "Unavailable" | DataLoss => "DataLoss"
  | Unauthenticated => "Unauthenticated"
  end.

(** The reasons of a Kubernetes API status the code distinguishes; the other
    known reasons are [ReasonOther]. *)
Inductive StatusReason :=
| ReasonUnknown | ReasonNotFound | ReasonAlreadyExists | ReasonConflict | ReasonOther (r : string).

#[global] Instance StatusReason_eq_dec : EqDecision StatusReason.
Proof. solve_decision. Defined.

(** A non-nil Go [error].  [WrapError msg inner] is [fmt.Errorf] with one [%w]:
    [msg] is its whole text. *)
Inductive error :=
| ErrorString (msg : string)
| WrapError (msg : string) (inner : error)
| APIStatus (reason : StatusReason) (code : Z) (msg : string)
| GRPCStatus (c : Code) (msg : string)
| NoMatchError (msg : string).

#[global] Instance error_eq_dec : EqDecision error.
Proof. solve_decision. Defined.

(** [err.Error()]. *)
Definition Error (err : error) : string :=
  match err with
  | ErrorString m | WrapError m _ | NoMatchError m => m
  | APIStatus _ _ m => m
  | GRPCStatus c m => "rpc error: code = " +:+ Code_String c +:+ " desc = " +:+ m
  end.

(** [errors.As] for the two status interfaces. *)
Fixpoint as_grpc (err : error) : option (Code * string) :=
  match err with
  | GRPCStatus c m => Some (c, m)
  | WrapError _ inner => as_grpc inner
  | _ => None
  end.

Fixpoint as_api (err : error) : option (StatusReason * Z) :=
  match err with
  | APIStatus r c _ => Some (r, c)
  | WrapError _ inner => as_api inner
  | _ => None
  end.

Fixpoint as_nomatch (err : error) : bool :=
  match err with
  | NoMatchError _ => true
  | WrapError _ inner => as_nomatch inner
  | _ => false
  end.

(** [status.FromError] on a non-nil error: the code, the message, and whether
    the error carries a gRPC status.  A wrapped status keeps its code, and its
    message is the text of the whole error. *)
Definition FromError (err : error) : Code * string * bool :=
  match err with
  | GRPCStatus c m => (c, m, true)
  | _ => match as_grpc err with
         | Some (c, _) => (c, Error err, true)
         | None => (Unknown, Error err, false)
         end
  end.

(** [status.Code]. *)
Definition status_Code (err : option error) : Code :=
  match err with
  | None => OK
  | Some err => (FromError err).1.1
  end.

(** apimachinery's [errors.IsNotFound]; [ReasonUnknown] is the only reason that
    is not in its table of known reasons. *)
Definition IsNotFound (err : error) : bool :=
  match as_api err with
  | Some (ReasonNotFound, _) => true
  | Some (ReasonUnknown, code) => (code =? 404)%Z
  | _ => false
  end.

(** ** src/internal/util/error.go *)

Definition GetErrorMessage (err : error) : string :=
  let '(_, m, ok) := FromError err in
  if negb ok then Error err else m.

Definition IsUnimplementedError (err : error) : bool :=
  let '(c, _, ok) := FromError err in
  if negb ok then false else bool_decide (c = Unimplemented).

(** ** Facts *)

Lemma FromError_wrap m err :
  FromError (WrapError m err) =
    match as_grpc err with
    | Some (c, _) => (c, m, true)
    | None => (Unknown, m, false)
    end.
Proof. done. Qed.

Lemma FromError_code err c m : as_grpc err = Some (c, m) -> (FromError err).1.1 = c.
Proof. destruct err; simpl; intros H; try done; [|by inversion H]. by rewrite H. Qed.

Lemma as_api_not_grpc err : is_Some (as_api err) -> as_grpc err = None.
Proof. induction err; simpl; intros [? H]; eauto; done. Qed.

(** A NotFound answer of the API server is never mistaken for a gRPC status,
    however often it was wrapped on the way. *)
Lemma IsNotFound_not_grpc err : IsNotFound err = true -> (FromError err).2 = false.
Proof.
  unfold IsNotFound. destruct (as_api err) eqn:Ha; [|done]. intros _.
  assert (as_grpc err = None) as Hg by (apply as_api_not_grpc; by eexists).
  destruct err; simpl in *; try done. by rewrite Hg.
Qed.

(** Both message helpers agree with the text for errors that did not come from
    a gRPC call, and strip the "rpc error" prefix from those that did. *)
Lemma GetErrorMessage_spec err :
  GetErrorMessage err = match err with GRPCStatus _ m => m | _ => Error err end.
Proof.
  unfold GetErrorMessage, FromError. destruct err as [| m inner | | |]; try done. simpl.
  by destruct (as_grpc inner) as [[]|].
Qed.

Lemma IsUnimplementedError_spec err :
  IsUnimplementedError err = true <-> exists m, as_grpc err = Some (Unimplemented, m).
Proof.
  unfold IsUnimplementedError, FromError.
  destruct err as [| m inner | | c m |]; simpl; try naive_solver.
  - destruct (as_grpc inner) as [[c m']|]; simpl; [|naive_solver].
    rewrite bool_decide_eq_true. naive_solver.
  - rewrite bool_decide_eq_true. naive_solver.
Qed.
