(* ===== verification/GoStrconv.v ===== *)
(** * Number and duration parsing of the Go standard library

    [strconv.Atoi] and [time.ParseDuration] as the configuration reader
    (src/internal/util/config.go) and [getInfoReconcileInterval]
    (src/internal/controller/replication.storage/volumereplication_controller.go)
    use them: 64-bit arithmetic with its overflow checks and wrap-around, and
    the binary64 arithmetic Go uses for fractions. *)

From Stdlib Require SpecFloat.
From S2P Require Import Prelude.
From S2P Require Import GoErrors.
Local Open Scope Z_scope.

(** ** Digits *)

Definition digit_value (c : ascii) : option Z :=
  let n := Z.of_nat (nat_of_ascii c) in
  if (48 <=? n) && (n <=? 57) then Some (n - 48) else None.

Definition max_int64 : Z := 2 ^ 63 - 1.
Definition min_int64 : Z := - 2 ^ 63.

(** ** strconv.Atoi *)

Fixpoint digits_value (acc : Z) (s : string) : option Z :=
  match s with
  | EmptyString => Some acc
  | String c s =>
    match digit_value c with
    | Some d => digits_value (acc * 10 + d) s
    | None => None
    end
  end.

Definition num_error (s reason : string) : error :=
  WrapError ("strconv.Atoi: parsing " +:+ go_quote s +:+ ": " +:+ reason) (ErrorString reason).

Definition Atoi (s : string) : error + Z :=
  let '(neg, s') :=
    match s with
    | String c s' =>
      if bool_decide (c = "-"%char) then (true, s')
      else if bool_decide (c = "+"%char) then (false, s') else (false, s)
    | EmptyString => (false, s)
    end in
  match s' with
  | EmptyString => inl (num_error s "invalid syntax")
  | _ =>
    match digits_value 0 s' with
    | None => inl (num_error s "invalid syntax")
    | Some n =>
      let v := if neg then - n else n in
      if (min_int64 <=? v) && (v <=? max_int64) then inr v
      else inl (num_error s "value out of range")
    end
  end.

(** ** time.ParseDuration *)

Definition nanosecond : Z := 1.
Definition microsecond : Z := 1000 * nanosecond.
Definition millisecond : Z := 1000 * microsecond.
Definition second : Z := 1000 * millisecond.
Definition minute : Z := 60 * second.
Definition hour : Z := 60 * minute.

Definition wrap64 (z : Z) : Z := z mod 2 ^ 64.

(** [leadingInt]: the digits at the front of [s], unless they exceed 1<<63. *)
Fixpoint leadingInt (x : Z) (s : string) : option (Z * string) :=
  match s with
  | EmptyString => Some (x, s)
  | String c s' =>
    match digit_value c with
    | None => Some (x, s)
    | Some d =>
      if 2 ^ 63 / 10 <? x then None
      else let x := x * 10 + d in
           if 2 ^ 63 <? x then None else leadingInt x s'
    end
  end.

(** [leadingFraction]: the digits after a period, as an integer and the power of
    ten that scales it; digits that would overflow are skipped. *)
Fixpoint leadingFraction (x scale : Z) (overflow : bool) (s : string) : Z * Z * string :=
  match s with
  | EmptyString => (x, scale, s)
  | String c s' =>
    match digit_value c with
    | None => (x, scale, s)
    | Some d =>
      if overflow then leadingFraction x scale true s'
      else if (2 ^ 63 - 1) / 10 <? x then leadingFraction x scale true s'
      else let y := x * 10 + d in
           if 2 ^ 63 <? y then leadingFraction x scale true s'
           else leadingFraction y (scale * 10) false s'
    end
  end.

(** binary64 conversions: [float64(z)] and [uint64(x)]. *)
Definition float64 (z : Z) : SpecFloat.spec_float :=
  SpecFloat.binary_normalize 53 1024 z 0 false.

Definition uint64_of_float (x : SpecFloat.spec_float) : Z :=
  match x with
  | SpecFloat.S754_finite false m e => Z.shiftl (Zpos m) e
  | _ => 0
  end.

(** [uint64(float64(f) * (float64(unit) / scale))]. *)
Definition fraction_ns (f unit scale : Z) : Z :=
  uint64_of_float
    (SpecFloat.SFmul 53 1024 (float64 f)
       (SpecFloat.SFdiv 53 1024 (float64 unit) (float64 scale))).

(** The unit: everything up to the next digit or period. *)
Fixpoint span_unit (s : string) : string * string :=
  match s with
  | EmptyString => ("", "")
  | String c s' =>
    if bool_decide (c = "."%char) || bool_decide (is_Some (digit_value c))
    then ("", s)
    else let '(u, r) := span_unit s' in (String c u, r)
  end.

(** [unitMap]; the micro sign U+00B5 and the Greek letter mu U+03BC are two
    bytes each. *)
Definition unit_value (u : string) : option Z :=
  if bool_decide (u = "ns") then Some nanosecond
  else if bool_decide (u = "us") then Some microsecond
  else if bool_decide (u = String "194" (String "181" "s")) then Some microsecond
  else if bool_decide (u = String "206" (String "188" "s")) then Some microsecond
  else if bool_decide (u = "ms") then Some millisecond
  else if bool_decide (u = "s") then Some second
  else if bool_decide (u = "m") then Some minute
  else if bool_decide (u = "h") then Some hour
  else None.

Definition invalid_duration (orig : string) : error :=
  ErrorString ("time: invalid duration " +:+ go_quote orig).

(** The optional fraction: its digits, their scale, the rest, and whether there
    were any digits. *)
Definition parse_fraction (s : string) : Z * Z * string * bool :=
  match s with
  | String c s' =>
    if bool_decide (c = "."%char)
    then let '(f, scale, r) := leadingFraction 0 1 false s' in
         (f, scale, r, negb (String.length s' =? String.length r)%nat)
    else (0, 1, s, false)
  | EmptyString => (0, 1, s, false)
  end.

(** One round of the loop: a number, its unit, and the rest of the string. *)
Definition parse_component (orig s : string) : error + Z * string :=
  match s with
  | EmptyString => inl (invalid_duration orig)
  | String c _ =>
    if negb (bool_decide (c = "."%char) || bool_decide (is_Some (digit_value c)))
    then inl (invalid_duration orig)
    else
    match leadingInt 0 s with
    | None => inl (invalid_duration orig)
    | Some (v, s1) =>
      let pre := negb (String.length s =? String.length s1)%nat in
      let '(f, scale, s2, post) := parse_fraction s1 in
      if negb pre && negb post then inl (invalid_duration orig)
      else
      let '(u, s3) := span_unit s2 in
      if bool_decide (u = "") then
        inl (ErrorString ("time: missing unit in duration " +:+ go_quote orig))
      else
      match unit_value u with
      | None =>
        inl (ErrorString ("time: unknown unit " +:+ go_quote u +:+
                          " in duration " +:+ go_quote orig))
      | Some unit =>
        if 2 ^ 63 / unit <? v then inl (invalid_duration orig)
        else
        let v := v * unit in
        let v := if 0 <? f then v + fraction_ns f unit scale else v in
        if (0 <? f) && (2 ^ 63 <? v) then inl (invalid_duration orig)
        else inr (v, s3)
      end
    end
  end.

(** The loop, with the number of rounds bounded by [fuel]; [None] when the bound
    was too small. *)
Fixpoint parse_loop (fuel : nat) (orig : string) (d : Z) (s : string) : option (error + Z) :=
  match s with
  | EmptyString => Some (inr d)
  | _ =>
    match fuel with
    | O => None
    | S fuel =>
      match parse_component orig s with
      | inl e => Some (inl e)
      | inr (v, s') =>
        let d := wrap64 (d + v) in
        if 2 ^ 63 <? d then Some (inl (invalid_duration orig))
        else parse_loop fuel orig d s'
      end
    end
  end.

Definition ParseDuration (orig : string) : error + Z :=
  let '(neg, s) :=
    match orig with
    | String c s' =>
      if bool_decide (c = "-"%char) then (true, s')
      else if bool_decide (c = "+"%char) then (false, s') else (false, orig)
    | EmptyString => (false, orig)
    end in
  if bool_decide (s = "0") then inr 0
  else if bool_decide (s = "") then inl (invalid_duration orig)
  else
  match parse_loop (String.length s) orig 0 s with
  | None => inl (invalid_duration orig)
  | Some (inl e) => inl e
  | Some (inr d) =>
    if neg then inr (- d)
    else if max_int64 <? d then inl (invalid_duration orig) else inr d
  end.

Example parse_10m : ParseDuration "10m" = inr (10 * minute).
Proof. vm_compute. reflexivity. Qed.
Example parse_1h15m30s : ParseDuration "1h15m30.918273645s" = inr 4530918273645.
Proof. vm_compute. reflexivity. Qed.
Example parse_neg : ParseDuration "-1.5h" = inr (-5400000000000).
Proof. vm_compute. reflexivity. Qed.
Example parse_hours : ParseDuration "hours" = inl (ErrorString ("time: invalid duration " +:+ go_quote "hours")).
Proof. vm_compute. reflexivity. Qed.
Example parse_min : ParseDuration "-9223372036854775808ns" = inr (-2^63).
Proof. vm_compute. reflexivity. Qed.
Example parse_over : ParseDuration "9223372036854775808ns" = inl (invalid_duration "9223372036854775808ns").
Proof. vm_compute. reflexivity. Qed.
Example parse_prec : ParseDuration "0.3333333333333333333h" = inr 1200000000000.
Proof. vm_compute. reflexivity. Qed.
Example atoi_neg : Atoi "-12" = inr (-12).
Proof. vm_compute. reflexivity. Qed.

(** ** Termination and range *)

Lemma digit_value_range c d : digit_value c = Some d -> 0 <= d <= 9.
Proof. unfold digit_value. case_match eqn:H; [|done]. intros [= <-]. lia. Qed.

Lemma leadingInt_spec x s v s' :
  leadingInt x s = Some (v, s') -> 0 <= x <= 2 ^ 63 ->
  0 <= v <= 2 ^ 63 /\ (String.length s' <= String.length s)%nat.
Proof.
  revert x. induction s as [|c s IH]; intros x; cbn [leadingInt]; [intros [= <- <-] ?; done|].
  destruct (digit_value c) as [d|] eqn:Hd; [|intros [= <- <-] ?; done].
  apply digit_value_range in Hd.
  destruct (2 ^ 63 / 10 <? x); [done|].
  destruct (2 ^ 63 <? x * 10 + d) eqn:Hb; [done|]. apply Z.ltb_ge in Hb.
  intros H Hx. apply IH in H; [|lia]. simpl. split; [tauto|lia].
Qed.

Lemma leadingFraction_length x scale o s :
  (String.length (leadingFraction x scale o s).2 <= String.length s)%nat.
Proof.
  revert x scale o. induction s as [|c s IH]; intros x scale o; simpl; [lia|].
  destruct (digit_value c) as [d|]; [|simpl; lia].
  repeat case_match; (etrans; [apply IH|lia]).
Qed.

Lemma span_unit_length s :
  (String.length (span_unit s).1 + String.length (span_unit s).2 = String.length s)%nat.
Proof.
  induction s as [|c s IH]; simpl; [done|]. case_match; [done|].
  destruct (span_unit s) as [u r]; simpl in *; lia.
Qed.

Lemma parse_fraction_length s :
  (String.length (parse_fraction s).1.2 <= String.length s)%nat.
Proof.
  destruct s as [|c s]; simpl; [lia|]. case_bool_decide; simpl; [|lia].
  pose proof (leadingFraction_length 0 1 false s).
  destruct (leadingFraction 0 1 false s) as [[]]; simpl in *; lia.
Qed.

Lemma unit_value_pos u n : unit_value u = Some n -> 0 < n.
Proof. unfold unit_value. repeat case_bool_decide; by intros [= <-]. Qed.

Lemma fraction_ns_nonneg f unit scale : 0 <= fraction_ns f unit scale.
Proof.
  unfold fraction_ns, uint64_of_float. repeat case_match; try lia.
  by apply Z.shiftl_nonneg.
Qed.

(** Each round consumes input and yields at most 1<<63 nanoseconds. *)
Lemma parse_component_spec orig s v s' :
  parse_component orig s = inr (v, s') ->
  (String.length s' < String.length s)%nat /\ 0 <= v <= 2 ^ 63.
Proof.
  unfold parse_component. destruct s as [|c s0]; [done|].
  set (s := String c s0) in *. clearbody s. case_match; [done|].
  destruct (leadingInt 0 s) as [[v0 s1]|] eqn:Hint; [|done].
  apply leadingInt_spec in Hint as [Hv0 Hl1]; [|lia].
  pose proof (parse_fraction_length s1) as Hl2.
  destruct (parse_fraction s1) as [[[f scale] s2] post]. simpl in Hl2.
  case_match; [done|].
  pose proof (span_unit_length s2) as Hu. destruct (span_unit s2) as [u s3].
  destruct (bool_decide (u = "")) eqn:Hne; [done|]. apply bool_decide_eq_false in Hne.
  destruct (unit_value u) as [unit|] eqn:Hunit; [|done]. apply unit_value_pos in Hunit.
  destruct (2 ^ 63 / unit <? v0) eqn:Hov; [done|]. apply Z.ltb_ge in Hov.
  assert (v0 * unit <= 2 ^ 63) as Hmul.
  { transitivity (2 ^ 63 / unit * unit); [by apply Z.mul_le_mono_nonneg_r; lia|].
    rewrite Z.mul_comm. by apply Z.mul_div_le. }
  pose proof (fraction_ns_nonneg f unit scale). set (fr := fraction_ns f unit scale) in *.
  destruct (0 <? f).
  - destruct (2 ^ 63 <? v0 * unit + fr) eqn:Hb; [done|]. apply Z.ltb_ge in Hb.
    simpl. intros [= <- <-]. destruct u; [done|]. simpl in Hu. split; [lia|]. nia.
  - simpl. intros [= <- <-]. destruct u; [done|]. simpl in Hu. split; [lia|]. nia.
Qed.

(** The bound on the number of rounds that [ParseDuration] uses is enough. *)
Lemma parse_loop_total fuel orig d s :
  (String.length s <= fuel)%nat -> is_Some (parse_loop fuel orig d s).
Proof.
  revert d s. induction fuel as [|fuel IH]; intros d s Hlen;
    (destruct s as [|c s]; [by eexists|]); [simpl in Hlen; lia|].
  cbn [parse_loop]. destruct (parse_component orig (String c s)) as [e|[v s']] eqn:Hc; [by eexists|].
  apply parse_component_spec in Hc as [Hlt _].
  case_match; [by eexists|]. apply IH. simpl in *; lia.
Qed.

Lemma parse_loop_range fuel orig d s d' :
  0 <= d <= 2 ^ 63 -> parse_loop fuel orig d s = Some (inr d') -> 0 <= d' <= 2 ^ 63.
Proof.
  revert d s. induction fuel as [|fuel IH]; intros d s Hd; destruct s as [|c s];
    [by intros [= <-]|done|by intros [= <-]|].
  cbn [parse_loop]. destruct (parse_component orig (String c s)) as [e|[v s']]; [done|].
  case_match eqn:Hb; [done|]. apply Z.ltb_ge in Hb. apply IH.
  split; [|done]. by apply Z.mod_pos_bound.
Qed.

Lemma ParseDuration_range s d : ParseDuration s = inr d -> min_int64 <= d <= max_int64.
Proof.
  unfold ParseDuration, min_int64, max_int64. case_match eqn:Hs. clear Hs.
  repeat (case_bool_decide; [by intros [= <-]|]).
  destruct (parse_loop _ _ _ _) as [[e|d']|] eqn:Hl; [done| |done].
  apply parse_loop_range in Hl; [|lia].
  case_match; [intros [= <-]; lia|]. case_match eqn:Hm; [done|]. apply Z.ltb_ge in Hm.
  intros [= <-]. lia.
Qed.

Lemma Atoi_range s n : Atoi s = inr n -> min_int64 <= n <= max_int64.
Proof.
  unfold Atoi. case_match eqn:Hs. clear Hs. case_match; [done|].
  case_match; [|done]. case_match eqn:Hb; [|done]. intros [= <-]. lia.
Qed.
