(* ===== verification/GoURL.v ===== *)
(** * net/url and the string functions around it

    url.Parse of the Go standard library (1.25), as far as the scheme, the host
    and the errors go, with URL.Hostname and URL.Port; strings.Cut,
    strings.LastIndex and friends on bytes. *)

From S2P Require Import Prelude.
From S2P Require Import GoErrors.

(** ** strings *)

(** strings.Cut at the first byte [c]: what precedes it, and what follows if it
    occurs. *)
Fixpoint cut (c : ascii) (s : string) : string * option string :=
  match s with
  | EmptyString => ("", None)
  | String d s =>
    if Ascii.eqb d c then ("", Some s)
    else let '(a, b) := cut c s in (String d a, b)
  end.

(** The two sides of the last byte [c], if it occurs. *)
Fixpoint cut_last (c : ascii) (s : string) : option (string * string) :=
  match s with
  | EmptyString => None
  | String d s =>
    match cut_last c s with
    | Some (a, b) => Some (String d a, b)
    | None => if Ascii.eqb d c then Some ("", s) else None
    end
  end.

(** [before c s], [from c s]: up to the first [c], and from there. *)
Fixpoint from (c : ascii) (s : string) : string :=
  match s with
  | EmptyString => ""
  | String d s' => if Ascii.eqb d c then s else from c s'
  end.
Definition before (c : ascii) (s : string) : string := (cut c s).1.

Fixpoint all_bytes (P : ascii -> bool) (s : string) : bool :=
  match s with
  | EmptyString => true
  | String c s => P c && all_bytes P s
  end.
Definition has_byte (c : ascii) (s : string) : bool := negb (all_bytes (fun d => negb (Ascii.eqb d c)) s).
Fixpoint count_byte (c : ascii) (s : string) : nat :=
  match s with
  | EmptyString => 0
  | String d s => (if Ascii.eqb d c then 1 else 0) + count_byte c s
  end.

Definition code (c : ascii) : nat := nat_of_ascii c.
Definition in_range (lo hi : ascii) (c : ascii) : bool := (code lo <=? code c) && (code c <=? code hi).
Definition is_lower := in_range "a" "z".
Definition is_upper := in_range "A" "Z".
Definition is_digit := in_range "0" "9".
Definition is_alpha (c : ascii) : bool := is_lower c || is_upper c.
Definition one_of (l : string) (c : ascii) : bool := has_byte c l.

(** strings.ToLower on a string of ASCII letters, digits and punctuation. *)
Fixpoint to_lower (s : string) : string :=
  match s with
  | EmptyString => ""
  | String c s => String (if is_upper c then ascii_of_nat (code c + 32) else c) (to_lower s)
  end.

(** ** Escapes *)

Definition hex_val (c : ascii) : option nat :=
  if is_digit c then Some (code c - 48)
  else if in_range "a" "f" c then Some (code c - 87)
  else if in_range "A" "F" c then Some (code c - 55)
  else None.

Inductive encoding := encodePath | encodeHost | encodeZone | encodeUserPassword | encodeFragment.

(** [shouldEscape c mode] for the two host modes. *)
Definition shouldEscape_host (c : ascii) : bool :=
  negb (is_alpha c || is_digit c || one_of "!$&'()*+,;=:[]<>-_.~" c || Ascii.eqb c "034").

Definition escape_error (s : string) : error :=
  ErrorString ("invalid URL escape " +:+ go_quote s).
Definition host_error (c : ascii) : error :=
  ErrorString ("invalid character " +:+ go_quote (String c "") +:+ " in host name").

Definition host_mode (m : encoding) : bool :=
  match m with encodeHost | encodeZone => true | _ => false end.

(** An escape [%ab] of value [v] that the mode does not allow. *)
Definition bad_escape (mode : encoding) (a b : ascii) (v : nat) : bool :=
  let is25 := Ascii.eqb a "2" && Ascii.eqb b "5" in
  match mode with
  | encodeHost => (v / 16 <? 8) && negb is25
  | encodeZone => negb is25 && negb (v =? 32) && shouldEscape_host (ascii_of_nat v)
  | _ => false
  end.

Fixpoint unescape (mode : encoding) (s : string) : error + string :=
  match s with
  | EmptyString => inr ""
  | String "%" s' =>
    match s' with
    | String a (String b rest) =>
      match hex_val a, hex_val b with
      | Some x, Some y =>
        let v := 16 * x + y in
        if bad_escape mode a b v then inl (escape_error (String "%" (String a (String b ""))))
        else match unescape mode rest with
             | inl err => inl err
             | inr r => inr (String (ascii_of_nat v) r)
             end
      | _, _ => inl (escape_error (String "%" (String a (String b ""))))
      end
    | _ => inl (escape_error s)
    end
  | String c s =>
    if host_mode mode && (code c <? 128) && shouldEscape_host c then inl (host_error c)
    else match unescape mode s with
         | inl err => inl err
         | inr r => inr (String c r)
         end
  end.

(** ** Parsing *)

Record URL := mkURL { Scheme : string; Host : string }.

(** [None] for "missing protocol scheme". *)
Fixpoint scheme_from (first : bool) (s : string) : option (option (string * string)) :=
  match s with
  | EmptyString => Some None
  | String c s =>
    if is_alpha c then
      match scheme_from false s with
      | Some (Some (a, b)) => Some (Some (String c a, b))
      | r => r
      end
    else if is_digit c || one_of "+-." c then
      if first then Some None
      else match scheme_from false s with
           | Some (Some (a, b)) => Some (Some (String c a, b))
           | r => r
           end
    else if Ascii.eqb c ":" then if first then None else Some (Some ("", s))
    else Some None
  end.

Definition getScheme (rawURL : string) : error + string * string :=
  match scheme_from true rawURL with
  | None => inl (ErrorString "missing protocol scheme")
  | Some None => inr ("", rawURL)
  | Some (Some (a, b)) => inr (a, b)
  end.

Definition validOptionalPort (port : string) : bool :=
  match port with
  | EmptyString => true
  | String c s => Ascii.eqb c ":" && all_bytes is_digit s
  end.

Definition port_error (p : string) : error :=
  ErrorString ("invalid port " +:+ go_quote p +:+ " after host").

(** The first occurrence of "%25" in [s]: what precedes it, and the rest from
    there. *)
Fixpoint find_zone (s : string) : option (string * string) :=
  match s with
  | EmptyString => None
  | String c s' =>
    if String.prefix "%25" s then Some ("", s)
    else match find_zone s' with Some (a, b) => Some (String c a, b) | None => None end
  end.

Definition parseHost (host : string) : error + string :=
  if String.prefix "[" host then
    match cut_last "]" host with
    | None => inl (ErrorString "missing ']' in host")
    | Some (lit, colonPort) =>
      if negb (validOptionalPort colonPort) then inl (port_error colonPort)
      else
      match find_zone lit with
      | Some (h1, h2) =>
        match unescape encodeHost h1, unescape encodeZone h2, unescape encodeHost (String "]" colonPort) with
        | inr a, inr b, inr c => inr (a +:+ b +:+ c)
        | inl err, _, _ | inr _, inl err, _ | inr _, inr _, inl err => inl err
        end
      | None => unescape encodeHost host
      end
    end
  else
    match cut_last ":" host with
    | Some (_, port) =>
      if negb (validOptionalPort (String ":" port)) then inl (port_error (String ":" port))
      else unescape encodeHost host
    | None => unescape encodeHost host
    end.

Definition validUserinfo : string -> bool :=
  all_bytes (fun c => is_alpha c || is_digit c || one_of "-._:~!$&'()*+,;=%@" c).

Definition parseAuthority (authority : string) : error + string :=
  match cut_last "@" authority with
  | None => parseHost authority
  | Some (userinfo, host) =>
    match parseHost host with
    | inl err => inl err
    | inr host =>
      if negb (validUserinfo userinfo) then inl (ErrorString "net/url: invalid userinfo")
      else
      let '(user, password) := cut ":" userinfo in
      match unescape encodeUserPassword user with
      | inl err => inl err
      | inr _ =>
        match unescape encodeUserPassword (default "" password) with
        | inl err => inl err
        | inr _ => inr host
        end
      end
    end
  end.

(** stringContainsCTLByte. *)
Definition control (c : ascii) : bool := (code c <? 32) || (code c =? 127).

Definition drop_query (rest : string) : string := before "?" rest.

(** [parse(rawURL, false)]. *)
Definition parse (rawURL : string) : error + URL :=
  if negb (all_bytes (fun c => negb (control c)) rawURL)
  then inl (ErrorString "net/url: invalid control character in URL")
  else if bool_decide (rawURL = "*") then inr (mkURL "" "")
  else
  match getScheme rawURL with
  | inl err => inl err
  | inr (scheme, rest) =>
    let scheme := to_lower scheme in
    let rest := drop_query rest in
    if negb (String.prefix "/" rest) && negb (bool_decide (scheme = "")) then inr (mkURL scheme "")
    else if negb (String.prefix "/" rest) && has_byte ":" (before "/" rest)
    then inl (ErrorString "first path segment in URL cannot contain colon")
    else
    let '(host, path) :=
      if (negb (bool_decide (scheme = "")) || negb (String.prefix "///" rest)) && String.prefix "//" rest
      then let authority := String.substring 2 (String.length rest) rest in
           (parseAuthority (before "/" authority), from "/" authority)
      else (inr "", rest) in
    match host with
    | inl err => inl err
    | inr host =>
      match unescape encodePath path with
      | inl err => inl err
      | inr _ => inr (mkURL scheme host)
      end
    end
  end.

Definition url_error (u : string) (err : error) : error :=
  WrapError ("parse " +:+ go_quote u +:+ ": " +:+ Error err) err.

(** url.Parse. *)
Definition Parse (rawURL : string) : error + URL :=
  let '(u, frag) := cut "#" rawURL in
  match parse u with
  | inl err => inl (url_error u err)
  | inr url =>
    match unescape encodeFragment (default "" frag) with
    | inl err => inl (url_error rawURL err)
    | inr _ => inr url
    end
  end.

(** splitHostPort, the base of URL.Hostname and URL.Port. *)
Definition splitHostPort (hostPort : string) : string * string :=
  let '(host, port) :=
    match cut_last ":" hostPort with
    | Some (h, p) => if validOptionalPort (String ":" p) then (h, p) else (hostPort, "")
    | None => (hostPort, "")
    end in
  match host with
  | String "[" s =>
    match cut_last "]" s with
    | Some (h, "") => (h, port)
    | _ => (host, port)
    end
  | _ => (host, port)
  end.
Definition Hostname (u : URL) : string := (splitHostPort u.(Host)).1.
Definition Port (u : URL) : string := (splitHostPort u.(Host)).2.

Example parse_pod : Parse "pod://plugin-0.ns:9070" = inr (mkURL "pod" "plugin-0.ns:9070").
Proof. reflexivity. Qed.
Example parse_opaque : Parse "10.0.0.1:9070" = inl (url_error "10.0.0.1:9070"
  (ErrorString "first path segment in URL cannot contain colon")).
Proof. reflexivity. Qed.
Example parse_v6 : Hostname (mkURL "pod" "[fe80::1]:80") = "fe80::1".
Proof. reflexivity. Qed.
