(* ===== verification/GoText.v ===== *)
(** * Text helpers of the Go standard library

    fmt's %d, strconv.ParseUint with its bit size, strings.TrimSpace,
    strings.ReplaceAll, and signed 64-bit wrap-around. *)

From S2P Require Import Prelude.
From S2P Require Import GoErrors.
From S2P Require Import GoStrconv.
From S2P Require Import GoURL.
Local Open Scope Z_scope.

(** ** Integers *)

(** A two's complement integer of [w] bits. *)
Definition wrap_signed (w z : Z) : Z := let half := 2 ^ (w - 1) in (z + half) mod (2 * half) - half.
Definition int64 : Z -> Z := wrap_signed 64.
Definition int32 : Z -> Z := wrap_signed 32.

(** %d, strconv.Itoa. *)
Definition Itoa (z : Z) : string := pretty z.

(** strconv.ParseUint(s, 10, bits). *)
Definition parse_uint_error (s reason : string) : error :=
  WrapError ("strconv.ParseUint: parsing " +:+ go_quote s +:+ ": " +:+ reason) (ErrorString reason).

Definition ParseUint (bits : Z) (s : string) : error + Z :=
  match s with
  | EmptyString => inl (parse_uint_error s "invalid syntax")
  | _ =>
    match digits_value 0 s with
    | None => inl (parse_uint_error s "invalid syntax")
    | Some n => if n <? 2 ^ bits then inr n else inl (parse_uint_error s "value out of range")
    end
  end.

(** ** strings *)

Fixpoint drop_bytes (n : nat) (s : string) : string :=
  match n, s with
  | S n, String _ s => drop_bytes n s
  | _, _ => s
  end.

(** The encodings of the code points for which unicode.IsSpace holds. *)
Definition bytes (l : list Z) : string :=
  foldr (fun n s => String (ascii_of_nat (Z.to_nat n)) s) "" l.
Definition space_runes : list string :=
  map bytes ([[9]; [10]; [11]; [12]; [13]; [32]; [194; 133]; [194; 160]; [225; 154; 128]] ++
    map (fun k => [226; 128; k]) [128; 129; 130; 131; 132; 133; 134; 135; 136; 137; 138; 168; 169; 175] ++
    [[226; 129; 159]; [227; 128; 128]]).

Definition space_prefix (s : string) : option string :=
  match filter (fun r => String.prefix r s = true) space_runes with
  | r :: _ => Some (drop_bytes (String.length r) s)
  | [] => None
  end.

Fixpoint trim_left (fuel : nat) (s : string) : string :=
  match fuel with
  | O => s
  | S fuel => match space_prefix s with Some s => trim_left fuel s | None => s end
  end.

(** A suffix of spaces is cut where it begins. *)
Fixpoint trim_right (s : string) : string :=
  match s with
  | EmptyString => ""
  | String c s' =>
    if bool_decide (trim_left (String.length s) s = "") then "" else String c (trim_right s')
  end.

Definition TrimSpace (s : string) : string := trim_right (trim_left (String.length s) s).

(** strings.ReplaceAll for a non-empty [old]; each round consumes a byte. *)
Fixpoint replace_all (fuel : nat) (old new s : string) : string :=
  match fuel, s with
  | S fuel, String c s' =>
    if String.prefix old s then new +:+ replace_all fuel old new (drop_bytes (String.length old) s)
    else String c (replace_all fuel old new s')
  | _, _ => ""
  end.
Definition ReplaceAll (s old new : string) : string := replace_all (String.length s) old new s.

Example trim_1 : TrimSpace (bytes [32; 194; 160; 55; 226; 128; 168; 10]) = "7".
Proof. reflexivity. Qed.
Example replace_1 : ReplaceAll "service:{type:NODE_SERVICE}" ":{type:" "." = "service.NODE_SERVICE}".
Proof. reflexivity. Qed.

(** ** Facts *)

Lemma wrap_signed_id w z : - 2 ^ (w - 1) <= z < 2 ^ (w - 1) -> wrap_signed w z = z.
Proof.
  intros Hz. unfold wrap_signed.
  cbv zeta. rewrite Z.mod_small by lia. lia.
Qed.

Lemma int64_id z : min_int64 <= z <= max_int64 -> int64 z = z.
Proof. unfold min_int64, max_int64. intros. apply wrap_signed_id; lia. Qed.

Lemma digit_value_char d : (d < 10)%N -> digit_value (pretty_N_char d) = Some (Z.of_N d).
Proof.
  intros Hd. destruct d as [|p]; [done|].
  do 4 (destruct p as [p|p|]; try done; try lia).
Qed.

Lemma digits_value_pretty n s :
  digits_value 0 (pretty_N_go n s) = digits_value (Z.of_N n) s.
Proof.
  revert s. induction (N.lt_wf_0 n) as [n _ IH]; intros s.
  destruct (decide (n = 0)%N) as [->|Hn]; [by rewrite pretty_N_go_0|].
  rewrite pretty_N_go_step, IH by (try apply N.div_lt; lia).
  cbn [digits_value]. rewrite digit_value_char by (by apply N.mod_lt).
  f_equal. pose proof (N.div_mod n 10). lia.
Qed.

(** The decimal digits of a natural number: digits only, and at least one. *)
Lemma pretty_N_go_digits n s : all_bytes is_digit s = true -> all_bytes is_digit (pretty_N_go n s) = true.
Proof.
  revert s. induction (N.lt_wf_0 n) as [n _ IH]; intros s Hs.
  destruct (decide (n = 0)%N) as [->|Hn]; [by rewrite pretty_N_go_0|].
  rewrite pretty_N_go_step by lia. apply IH; [apply N.div_lt; lia|].
  cbn [all_bytes]. rewrite Hs, andb_true_r. unfold pretty_N_char. repeat case_match; reflexivity.
Qed.

Lemma pretty_N_go_nonempty n s : s ≠ "" -> pretty_N_go n s ≠ "".
Proof.
  revert s. induction (N.lt_wf_0 n) as [n _ IH]; intros s Hs.
  destruct (decide (n = 0)%N) as [->|Hn]; [by rewrite pretty_N_go_0|].
  rewrite pretty_N_go_step by lia. apply IH; [apply N.div_lt; lia|done].
Qed.

Definition digits_of (n : N) : string := pretty n.

Lemma digits_of_spec n :
  all_bytes is_digit (digits_of n) = true /\ digits_of n ≠ "" /\
  digits_value 0 (digits_of n) = Some (Z.of_N n).
Proof.
  unfold digits_of, pretty, pretty_N. case_decide as Hn; [subst; by split_and!|].
  split_and!; [by apply pretty_N_go_digits| |by rewrite digits_value_pretty].
  rewrite pretty_N_go_step by lia. by apply pretty_N_go_nonempty.
Qed.

Lemma Itoa_cases z :
  (0 <= z /\ Itoa z = digits_of (Z.to_N z)) \/ (z < 0 /\ Itoa z = "-" +:+ digits_of (Z.to_N (- z))).
Proof. destruct z as [|p|p]; [left|left|right]; (split; [lia|reflexivity]). Qed.

Lemma digits_head n : exists c s, digits_of n = String c s /\ is_digit c = true /\ c ≠ "-"%char /\ c ≠ "+"%char.
Proof.
  destruct (digits_of_spec n) as (Hall & Hne & _). destruct (digits_of n) as [|c s]; [done|].
  exists c, s. cbn [all_bytes] in Hall. apply andb_prop in Hall as [Hc _].
  split_and!; [done|done|by intros ->..].
Qed.

(** Printing and parsing an int. *)
Lemma Atoi_Itoa z : min_int64 <= z <= max_int64 -> Atoi (Itoa z) = inr z.
Proof.
  intros Hz. destruct (Itoa_cases z) as [[Hs ->]|[Hs ->]].
  - destruct (digits_of_spec (Z.to_N z)) as (_ & _ & Hv), (digits_head (Z.to_N z)) as (c & s & Hd & _ & H1 & H2).
    unfold Atoi. rewrite Hd in *. rewrite !bool_decide_false by done. rewrite Hv, Z2N.id by lia.
    by rewrite (proj2 (Z.leb_le _ _)), (proj2 (Z.leb_le _ _)) by lia.
  - destruct (digits_of_spec (Z.to_N (- z))) as (_ & Hne & Hv).
    change ("-" +:+ ?x) with (String "-" x). unfold Atoi.
    rewrite bool_decide_true by done. destruct (digits_of (Z.to_N (- z))) as [|c s] eqn:Hd; [done|].
    rewrite Hv, Z2N.id, Z.opp_involutive by lia.
    by rewrite (proj2 (Z.leb_le _ _)), (proj2 (Z.leb_le _ _)) by lia.
Qed.

Lemma ParseUint_Itoa bits z : 0 <= z < 2 ^ bits -> ParseUint bits (Itoa z) = inr z.
Proof.
  intros Hz. destruct (Itoa_cases z) as [[Hs ->]|[Hs ->]]; [|lia].
  destruct (digits_of_spec (Z.to_N z)) as (_ & Hne & Hv).
  unfold ParseUint. destruct (digits_of (Z.to_N z)) as [|c s] eqn:Hd; [done|].
  rewrite Hv, Z2N.id by lia. by rewrite (proj2 (Z.ltb_lt _ _)) by lia.
Qed.

Lemma ParseUint_range bits s n : ParseUint bits s = inr n -> 0 <= n < 2 ^ bits.
Proof.
  assert (forall acc s v, 0 <= acc -> digits_value acc s = Some v -> 0 <= v) as Hpos.
  { intros acc s'. revert acc. induction s' as [|c s' IH]; intros acc v Hacc; cbn; [naive_solver|].
    destruct (digit_value c) as [d|] eqn:Hd; [|done]. apply IH.
    pose proof (digit_value_range c d Hd). lia. }
  unfold ParseUint. destruct s as [|c s]; [done|].
  destruct (digits_value 0 (String c s)) as [v|] eqn:Hv; [|done].
  case_match eqn:Hlt; intros [= <-]. apply Z.ltb_lt in Hlt. split; [|done]. by eapply Hpos.
Qed.

(** Text that starts and ends with a byte that is no part of a space. *)
Definition plain_byte (c : ascii) : bool := negb (one_of (bytes [9; 10; 11; 12; 13; 32]) c) && (code c <? 128)%nat.

Lemma space_prefix_plain c s : plain_byte c = true -> space_prefix (String c s) = None.
Proof.
  intros Hc. unfold space_prefix.
  destruct c as [[] [] [] [] [] [] [] []]; try discriminate Hc; reflexivity.
Qed.

Lemma trim_left_plain fuel c s : plain_byte c = true -> trim_left fuel (String c s) = String c s.
Proof. intros Hc. destruct fuel; cbn [trim_left]; [done|]. by rewrite space_prefix_plain. Qed.

Lemma trim_right_plain s : all_bytes plain_byte s = true -> trim_right s = s.
Proof.
  induction s as [|c s IH]; [done|]. cbn [all_bytes trim_right]. intros [Hc Hs]%andb_prop.
  rewrite (trim_left_plain _ c s Hc), bool_decide_false by done. by rewrite IH.
Qed.

Lemma TrimSpace_plain s : all_bytes plain_byte s = true -> TrimSpace s = s.
Proof.
  intros Hs. unfold TrimSpace. destruct s as [|c s]; [done|].
  pose proof Hs as [Hc _]%andb_prop. rewrite trim_left_plain by done. by apply trim_right_plain.
Qed.

Lemma TrimSpace_leading_space s : all_bytes plain_byte s = true -> TrimSpace (String " " s) = s.
Proof.
  intros Hs. unfold TrimSpace. cbn [String.length trim_left].
  assert (space_prefix (String " " s) = Some s) as -> by (by destruct s).
  destruct s as [|c s]; [reflexivity|].
  pose proof Hs as [Hc _]%andb_prop. rewrite trim_left_plain by done. by apply trim_right_plain.
Qed.

Lemma all_bytes_impl (P Q : ascii -> bool) s :
  (forall c, P c = true -> Q c = true) -> all_bytes P s = true -> all_bytes Q s = true.
Proof. intros HPQ. induction s as [|c s IH]; [done|]. cbn. intros [? ?]%andb_prop. rewrite HPQ, IH; done. Qed.

Lemma Itoa_plain z : all_bytes plain_byte (Itoa z) = true.
Proof.
  assert (forall n, all_bytes plain_byte (digits_of n) = true) as Hd.
  { intros n. apply (all_bytes_impl is_digit), digits_of_spec.
    intros c Hc. destruct c as [[] [] [] [] [] [] [] []]; try discriminate Hc; reflexivity. }
  destruct (Itoa_cases z) as [[_ ->]|[_ ->]]; [apply Hd|]. apply (Hd (Z.to_N (- z))).
Qed.
