(* ===== verification/GoNet.v ===== *)
(** * net.ParseIP and net.IP.String

    The parser and the printer of IP addresses of the Go standard library (1.25),
    on the 16 bytes of a net.IP. *)

From S2P Require Import Prelude.
From S2P Require Import GoStrconv.
From S2P Require Import GoURL.
From S2P Require Import GoText.
Local Open Scope Z_scope.

(** ** Parsing *)

(** parseIPv4Fields: [start] at the beginning and after a dot. *)
Fixpoint v4_fields (start : bool) (val : Z) (digLen pos : nat) (fields : list Z) (s : string)
    : option (list Z) :=
  match s with
  | EmptyString => if (pos <? 3)%nat then None else Some (fields ++ [val])
  | String c rest =>
    match digit_value c with
    | Some d =>
      if (digLen =? 1)%nat && (val =? 0) then None
      else
      let val := val * 10 + d in
      if 255 <? val then None else v4_fields false val (S digLen) pos fields rest
    | None =>
      if negb (Ascii.eqb c ".") then None
      else if start || bool_decide (rest = "") then None
      else if (pos =? 3)%nat then None
      else v4_fields true 0 0 (S pos) (fields ++ [val]) rest
    end
  end.
Definition parseIPv4Fields : string -> option (list Z) := v4_fields true 0 0 0 [].

(** The hexadecimal digits at the head of [s]: how many, their value and what
    follows; [None] for more than four. *)
Fixpoint hex_group (off : nat) (acc : Z) (s : string) : option (nat * Z * string) :=
  match s with
  | EmptyString => Some (off, acc, s)
  | String c rest =>
    match hex_val c with
    | None => Some (off, acc, s)
    | Some d => if (3 <? off)%nat then None else hex_group (S off) (acc * 16 + Z.of_nat d) rest
    end
  end.

(** The loop of parseIPv6, for [fuel] more groups: the bytes so far, where the
    ellipsis is, and what is left of the string. *)
Fixpoint v6_groups (fuel : nat) (ip : list Z) (ellipsis : option nat) (s : string)
    : option (list Z * option nat * string) :=
  match fuel with
  | O => Some (ip, ellipsis, s)
  | S fuel =>
    match hex_group 0 0 s with
    | None | Some (O, _, _) => None
    | Some (_, acc, rest) =>
      let ip' := ip ++ [acc / 256; acc mod 256] in
      match rest with
      | EmptyString => Some (ip', ellipsis, "")
      | String c rest =>
        if Ascii.eqb c "." then
          if bool_decide (ellipsis = None) && negb (length ip =? 12)%nat then None
          else if (16 <? length ip + 4)%nat then None
          else match parseIPv4Fields s with
               | None => None
               | Some l => Some (ip ++ l, ellipsis, "")
               end
        else if negb (Ascii.eqb c ":") then None
        else
        match rest with
        | EmptyString => None
        | String d rest' =>
          if Ascii.eqb d ":" then
            if bool_decide (ellipsis ≠ None) then None
            else if bool_decide (rest' = "") then Some (ip', Some (length ip'), "")
            else v6_groups fuel ip' (Some (length ip')) rest'
          else v6_groups fuel ip' ellipsis rest
        end
      end
    end
  end.

Definition v6_finish (r : option (list Z * option nat * string)) : option (list Z) :=
  match r with
  | Some (ip, ellipsis, "") =>
    if (length ip <? 16)%nat then
      match ellipsis with
      | None => None
      | Some e => Some (take e ip ++ replicate (16 - length ip) 0 ++ drop e ip)
      end
    else if bool_decide (ellipsis = None) then Some ip else None
  | _ => None
  end.

(** parseIPv6 of a string without a zone. *)
Definition parseIPv6 (s : string) : option (list Z) :=
  if String.prefix "::" s then
    let rest := drop_bytes 2 s in
    if bool_decide (rest = "") then Some (replicate 16 0)
    else v6_finish (v6_groups 8 [] (Some 0%nat) rest)
  else v6_finish (v6_groups 8 [] None s).

Definition v4_prefix : list Z := replicate 10 0 ++ [255; 255].

(** The first of the three bytes that tell the kinds of address apart. *)
Fixpoint address_kind (s : string) : option ascii :=
  match s with
  | EmptyString => None
  | String c s => if one_of ".:%" c then Some c else address_kind s
  end.

(** net.ParseIP: the 16 bytes of the address; an address with a zone is none. *)
Definition ParseIP (s : string) : option (list Z) :=
  match address_kind s with
  | Some "."%char => app v4_prefix <$> parseIPv4Fields s
  | Some ":"%char => if has_byte "%" s then None else parseIPv6 s
  | _ => None
  end.

(** ** Printing *)

Definition To4 (ip : list Z) : option (list Z) :=
  if bool_decide (take 12 ip = v4_prefix) then Some (drop 12 ip) else None.

Fixpoint join (sep : string) (l : list string) : string :=
  match l with
  | [] => ""
  | [w] => w
  | w :: l => w +:+ sep +:+ join sep l
  end.

Fixpoint groups (ip : list Z) : list Z :=
  match ip with
  | a :: b :: ip => a * 256 + b :: groups ip
  | _ => []
  end.

(** A group of up to four hexadecimal digits without leading zeros. *)
Definition appendHex (x : Z) : string :=
  let d k := String (hex_digit (Z.to_nat (x / 16 ^ k mod 16))) "" in
  (if 4096 <=? x then d 3 else "") +:+ (if 256 <=? x then d 2 else "") +:+
  (if 16 <=? x then d 1 else "") +:+ d 0.

Fixpoint zeros (l : list Z) : nat :=
  match l with
  | x :: l => if x =? 0 then S (zeros l) else 0
  | [] => 0
  end.

(** The first of the longest runs of two or more zero groups: where it starts and
    its length (0 for none). *)
Fixpoint zero_run (i : nat) (best : nat * nat) (l : list Z) : nat * nat :=
  match l with
  | [] => best
  | _ :: l' =>
    let n := zeros l in
    zero_run (S i) (if (2 <=? n)%nat && (best.2 <? n)%nat then (i, n) else best) l'
  end.

Definition string6 (ip : list Z) : string :=
  let g := groups ip in
  let '(i, n) := zero_run 0 (0%nat, 0%nat) g in
  if (n =? 0)%nat then join ":" (appendHex <$> g)
  else join ":" (appendHex <$> take i g) +:+ "::" +:+ join ":" (appendHex <$> drop (i + n) g).

Definition IP_String (ip : list Z) : string :=
  match To4 ip with
  | Some p4 => join "." (Itoa <$> p4)
  | None => string6 ip
  end.

Example parse_v4 : IP_String <$> ParseIP "192.168.61.228" = Some "192.168.61.228".
Proof. reflexivity. Qed.
Example parse_v4_zero : ParseIP "192.168.061.228" = None.
Proof. reflexivity. Qed.
Example parse_v6_1 : IP_String <$> ParseIP "2001:DB8:0:0:1:0:0:1" = Some "2001:db8::1:0:0:1".
Proof. reflexivity. Qed.
Example parse_v6_2 : IP_String <$> ParseIP "::ffff:10.0.0.1" = Some "10.0.0.1".
Proof. reflexivity. Qed.
Example parse_v6_3 : IP_String <$> ParseIP "fe80::" = Some "fe80::".
Proof. reflexivity. Qed.
Example parse_v6_zone : ParseIP "fe80::1%eth0" = None.
Proof. reflexivity. Qed.
Example parse_v6_full : ParseIP "1:2:3:4:5:6:7::8" = None.
Proof. reflexivity. Qed.
Example parse_v6_eight : IP_String <$> ParseIP "::2:3:4:5:6:7:8" = Some "0:2:3:4:5:6:7:8".
Proof. reflexivity. Qed.

(** ** Facts: an address has 16 bytes, and none is negative *)

Definition octets (l : list Z) : Prop := Forall (fun b => 0 <= b) l.

Lemma v4_fields_ok s start val digLen pos fields l :
  0 <= val -> octets fields -> length fields = pos -> (pos <= 3)%nat ->
  v4_fields start val digLen pos fields s = Some l -> octets l /\ length l = 4%nat.
Proof.
  revert start val digLen pos fields. induction s as [|c s IH]; intros start val digLen pos fields Hval Hf Hlen Hpos.
  - cbn [v4_fields]. case_match eqn:Hlt; [done|]. intros [= <-]. apply Nat.ltb_ge in Hlt. split.
    + apply Forall_app. by repeat constructor.
    + rewrite length_app. simpl. lia.
  - cbn [v4_fields]. destruct (digit_value c) as [d|] eqn:Hd.
    + repeat (case_match; [done|]). pose proof (digit_value_range c d Hd). apply IH; [lia|done..].
    + repeat (case_match; [done|]). apply IH; [done| |rewrite length_app; simpl; lia|].
      * apply Forall_app. by repeat constructor.
      * apply Nat.eqb_neq in H1. lia.
Qed.

Lemma hex_group_pos off acc s n v rest : 0 <= acc -> hex_group off acc s = Some (n, v, rest) -> 0 <= v.
Proof.
  revert off acc. induction s as [|c s IH]; intros off acc Hacc; cbn [hex_group]; [naive_solver|].
  destruct (hex_val c); [|naive_solver]. case_match; [done|]. apply IH. lia.
Qed.

Definition v6_ok (r : option (list Z * option nat * string)) : Prop :=
  forall ip e s, r = Some (ip, e, s) -> octets ip /\ (length ip <= 16)%nat.

Lemma v6_groups_ok fuel ip e s :
  octets ip -> (length ip + 2 * fuel = 16)%nat -> v6_ok (v6_groups fuel ip e s).
Proof.
  revert ip e s. induction fuel as [|fuel IH]; intros ip e s Hip Hlen; cbn [v6_groups]; [intros ? ? ? [= <- <- <-]; split; [done|lia]|].
  destruct (hex_group 0 0 s) as [[[[|n] acc] rest]|] eqn:Hg; [done| |done].
  apply hex_group_pos in Hg; [|done].
  assert (octets (ip ++ [acc / 256; acc mod 256])) as Hip'.
  { apply Forall_app. repeat constructor; [done|apply Z.div_pos; lia|apply Z.mod_pos_bound; lia]. }
  pose proof (length_app ip [acc / 256; acc mod 256]) as Hl. cbn [length] in Hl.
  cbv zeta. destruct rest as [|c rest].
  { intros ? ? ? [= <- <- <-]. split; [done|lia]. }
  destruct (Ascii.eqb c "."); [|destruct (negb _); [done|]].
  - repeat case_match; try done. intros ? ? ? [= <- <- <-].
    destruct (v4_fields_ok s true 0 0 0 [] l) as [Ho H4]; [done|constructor|done|lia|done|].
    apply Nat.ltb_ge in H0. split; [by apply Forall_app|rewrite length_app; lia].
  - destruct rest as [|d rest]; [done|]. destruct (Ascii.eqb d ":"); [|apply IH; [done|lia]].
    case_match; [done|]. case_match; [|apply IH; [done|lia]].
    intros ? ? ? [= <- <- <-]. split; [done|lia].
Qed.

Lemma v6_finish_ok r l : v6_ok r -> v6_finish r = Some l -> octets l /\ length l = 16%nat.
Proof.
  intros Hr. unfold v6_finish. destruct r as [[[ip e] [|c s]]|]; [|done..].
  destruct (Hr ip e "") as [Ho Hl]; [done|]. case_match eqn:Hlt.
  - destruct e as [e|]; [|done]. intros [= <-]. apply Nat.ltb_lt in Hlt. split.
    + repeat apply Forall_app_2; [by apply Forall_take|by apply Forall_replicate|by apply Forall_drop].
    + rewrite !length_app, length_replicate, length_take, length_drop. lia.
  - apply Nat.ltb_ge in Hlt. case_match; [|done]. intros [= <-]. split; [done|lia].
Qed.

Lemma ParseIP_ok s l : ParseIP s = Some l -> octets l /\ length l = 16%nat.
Proof.
  unfold ParseIP. destruct (address_kind s) as [k|]; [|done].
  assert (forall l, app v4_prefix <$> parseIPv4Fields s = Some l -> octets l /\ length l = 16%nat) as H4.
  { intros l' [f [Hf ->]]%fmap_Some. destruct (v4_fields_ok s true 0 0 0 [] f) as [Ho Hl]; [done|constructor|done|lia|done|].
    split; [|rewrite length_app, Hl; done]. apply Forall_app. split; [|done]. repeat constructor; lia. }
  assert (forall l, parseIPv6 s = Some l -> octets l /\ length l = 16%nat) as H6.
  { intros l'. unfold parseIPv6. case_match; [case_match|].
    - intros [= <-]. split; [repeat constructor; lia|done].
    - apply v6_finish_ok, v6_groups_ok; [constructor|done].
    - apply v6_finish_ok, v6_groups_ok; [constructor|done]. }
  destruct k as [[] [] [] [] [] [] [] []]; try done; [apply H4|]. case_match; [done|]. apply H6.
Qed.
