(* ===== verification/GoTime.v ===== *)
(** * Times of the Go standard library

    An instant is a number of nanoseconds since the Unix epoch.  time.Time.Format
    and time.Parse for time.RFC3339, with the proleptic Gregorian calendar, and
    the saturating time.Until. *)

From S2P Require Import Prelude.
From S2P Require Import GoStrconv.
From S2P Require Import GoText.
From S2P Require Import GoURL.
Local Open Scope Z_scope.

(** The zero time.Time, January 1 of year 1. *)
Definition zero_time : Z := -62135596800 * second.

(** Time.Unix, and Time.Sub, which saturates. *)
Definition Unix (t : Z) : Z := t / second.
Definition time_Sub (t u : Z) : Z := Z.max min_int64 (Z.min max_int64 (t - u)).

(** ** The calendar *)

Definition is_leap (y : Z) : bool := (y mod 4 =? 0) && (negb (y mod 100 =? 0) || (y mod 400 =? 0)).
Definition daysIn (m y : Z) : Z :=
  if m =? 2 then if is_leap y then 29 else 28
  else if (m =? 4) || (m =? 6) || (m =? 9) || (m =? 11) then 30 else 31.

(** Years start in March here, so that the leap day comes last; an era is 400
    years. *)
Definition era_days : Z := 146097.
Definition epoch_days : Z := 719468.
Definition year_of_era (doe : Z) : Z := (doe - doe / 1460 + doe / 36524 - doe / 146096) / 365.
Definition days_before_year (yoe : Z) : Z := 365 * yoe + yoe / 4 - yoe / 100.

(** Day of an era to year of the era, month and day, and back. *)
Definition civil_of_era (doe : Z) : Z * Z * Z :=
  let yoe := year_of_era doe in
  let doy := doe - days_before_year yoe in
  let mp := (5 * doy + 2) / 153 in
  (yoe, (if mp <? 10 then mp + 3 else mp - 9), doy - (153 * mp + 2) / 5 + 1).
Definition era_of_civil (yoe m d : Z) : Z :=
  days_before_year yoe + (153 * (if 2 <? m then m - 3 else m + 9) + 2) / 5 + d - 1.

Definition january_shift (m : Z) : Z := if m <=? 2 then 1 else 0.

(** Days since 1970-01-01 to the civil date, and back. *)
Definition civil_from_days (z : Z) : Z * Z * Z :=
  let era := (z + epoch_days) / era_days in
  let '(yoe, m, d) := civil_of_era ((z + epoch_days) mod era_days) in
  (400 * era + yoe + january_shift m, m, d).
Definition days_from_civil (y m d : Z) : Z :=
  let y := y - january_shift m in
  era_days * (y / 400) + era_of_civil (y mod 400) m d - epoch_days.

Example civil_1 : civil_from_days 20000 = (2024, 10, 4).
Proof. reflexivity. Qed.

(** ** Format *)

Definition digit (n : Z) : ascii := ascii_of_nat (Z.to_nat (48 + n)).
Definition two (n : Z) : string := String (digit (n / 10 mod 10)) (String (digit (n mod 10)) "").
(** appendInt with width 4. *)
Definition year4 (y : Z) : string :=
  if (0 <=? y) && (y <? 10000) then two (y / 100) +:+ two (y mod 100)
  else if y <? 0 then "-" +:+ (if - y <? 10000 then two (- y / 100) +:+ two (- y mod 100) else Itoa (- y))
  else Itoa y.

(** The offset from UTC, in seconds; its seconds are dropped. *)
Definition zone_text (off : Z) : string :=
  if off =? 0 then "Z"
  else let zone := Z.quot off 60 in
       (if zone <? 0 then "-" else "+") +:+ two (Z.abs zone / 60) +:+ ":" +:+ two (Z.abs zone mod 60).

Definition FormatRFC3339 (off t : Z) : string :=
  let abs := Unix t + off in
  let '(y, m, d) := civil_from_days (abs / 86400) in
  let s := abs mod 86400 in
  year4 y +:+ "-" +:+ two m +:+ "-" +:+ two d +:+ "T" +:+
  two (s / 3600) +:+ ":" +:+ two (s / 60 mod 60) +:+ ":" +:+ two (s mod 60) +:+ zone_text off.

Example format_1 : FormatRFC3339 0 (1700000000 * second) = "2023-11-14T22:13:20Z".
Proof. reflexivity. Qed.
Example format_2 : FormatRFC3339 (-12600) (1700000000 * second) = "2023-11-14T18:43:20-03:30".
Proof. reflexivity. Qed.

(** ** Parse *)

(** getnum: one or two digits, or exactly two. *)
Definition getnum (fixed : bool) (s : string) : option (Z * string) :=
  match s with
  | String a s1 =>
    match digit_value a with
    | None => None
    | Some x =>
      match s1 with
      | String b s2 =>
        match digit_value b with
        | Some y => Some (x * 10 + y, s2)
        | None => if fixed then None else Some (x, s1)
        end
      | EmptyString => if fixed then None else Some (x, s1)
      end
    end
  | EmptyString => None
  end.

Definition literal (c : ascii) (s : string) : option string :=
  match s with String d s => if Ascii.eqb d c then Some s else None | EmptyString => None end.

Definition get_year (s : string) : option (Z * string) :=
  match getnum true s with
  | Some (a, s) => match getnum true s with Some (b, s) => Some (100 * a + b, s) | None => None end
  | None => None
  end.

Fixpoint digits_prefix (s : string) : string * string :=
  match s with
  | String c s' =>
    match digit_value c with
    | Some _ => let '(a, b) := digits_prefix s' in (String c a, b)
    | None => ("", s)
    end
  | EmptyString => ("", "")
  end.

(** A fraction of the second, of which nine digits count. *)
Definition get_fraction (s : string) : Z * string :=
  match s with
  | String c s' =>
    if Ascii.eqb c "." || Ascii.eqb c "," then
      match digits_prefix s' with
      | ("", _) => (0, s)
      | (ds, rest) =>
        let ds := String.substring 0 9 ds in
        (default 0 (digits_value 0 ds) * 10 ^ (9 - Z.of_nat (String.length ds)), rest)
      end
    else (0, s)
  | EmptyString => (0, s)
  end.

(** The offset, in seconds. *)
Definition get_zone (s : string) : option (Z * string) :=
  match s with
  | String "Z" s => Some (0, s)
  | String sign s =>
    match getnum true s with
    | Some (hr, s) =>
      match literal ":" s with
      | Some s =>
        match getnum true s with
        | Some (mm, s) =>
          if (24 <? hr) || (60 <? mm) then None
          else if Ascii.eqb sign "+" then Some ((hr * 60 + mm) * 60, s)
          else if Ascii.eqb sign "-" then Some (- ((hr * 60 + mm) * 60), s)
          else None
        | None => None
        end
      | None => None
      end
    | None => None
    end
  | EmptyString => None
  end.

(** A number with its range, and the literal after it. *)
Definition ranged (fixed : bool) (lo hi : Z) (s : string) : option (Z * string) :=
  match getnum fixed s with
  | Some (n, s) => if (lo <=? n) && (n <=? hi) then Some (n, s) else None
  | None => None
  end.

Definition then_literal {A} (c : ascii) (r : option (A * string)) : option (A * string) :=
  match r with
  | Some (a, s) => match literal c s with Some s => Some (a, s) | None => None end
  | None => None
  end.

(** time.Parse(time.RFC3339, s); [None] on an error. *)
Definition ParseRFC3339 (s : string) : option Z :=
  '(y, s) ← then_literal "-" (get_year s);
  '(m, s) ← then_literal "-" (ranged true 1 12 s);
  '(d, s) ← then_literal "T" (getnum true s);
  '(hh, s) ← then_literal ":" (ranged false 0 23 s);
  '(mi, s) ← then_literal ":" (ranged true 0 59 s);
  '(ss, s) ← ranged true 0 59 s;
  let '(ns, s) := get_fraction s in
  '(off, s) ← get_zone s;
  if bool_decide (s = "") && (1 <=? d) && (d <=? daysIn m y) then
    Some ((days_from_civil y m d * 86400 + hh * 3600 + mi * 60 + ss - off) * second + ns)
  else None.

Example parse_1 : ParseRFC3339 "2023-11-14T18:43:20-03:30" = Some (1700000000 * second).
Proof. reflexivity. Qed.
Example parse_2 : ParseRFC3339 "2023-02-29T00:00:00Z" = None.
Proof. reflexivity. Qed.
Example parse_3 : ParseRFC3339 "2024-02-29T0:00:00.25Z" = Some (1709164800 * second + 250000000).
Proof. reflexivity. Qed.

(** ** The calendar: 400 years and 366 days *)

(** The days before a year of an era, with the end of the era. *)
Definition year_start (y : Z) : Z := if y =? 400 then era_days else days_before_year y.

Definition year_ok (y : Z) : bool :=
  (year_of_era (year_start y) =? y) && (year_of_era (year_start (y + 1) - 1) =? y) &&
  (year_start (y + 1) - year_start y =? if is_leap (y + 1) then 366 else 365).

Definition day_ok (doy : Z) : bool :=
  let mp := (5 * doy + 2) / 153 in
  let m := if mp <? 10 then mp + 3 else mp - 9 in
  let d := doy - (153 * mp + 2) / 5 + 1 in
  (1 <=? m) && (m <=? 12) && (1 <=? d) &&
  ((153 * (if 2 <? m then m - 3 else m + 9) + 2) / 5 + d - 1 =? doy) &&
  ((d <=? daysIn m 1) || ((doy =? 365) && (m =? 2) && (d =? 29))).

Fixpoint check_from (ok : Z -> bool) (n : nat) (x : Z) : bool :=
  match n with O => true | S n => ok x && check_from ok n (x + 1) end.

Lemma check_from_spec ok n x y : check_from ok n x = true -> x <= y < x + Z.of_nat n -> ok y = true.
Proof.
  revert x. induction n as [|n IH]; intros x Hc Hy; [lia|].
  cbn [check_from] in Hc. apply andb_prop in Hc as [Hx Hc].
  destruct (decide (y = x)) as [->|]; [done|]. apply (IH (x + 1)); [done|lia].
Qed.

Lemma years_ok y : 0 <= y < 400 -> year_ok y = true.
Proof. intros Hy. apply (check_from_spec _ 400 0); [vm_compute; reflexivity|lia]. Qed.
Lemma days_ok doy : 0 <= doy < 366 -> day_ok doy = true.
Proof. intros Hd. apply (check_from_spec _ 366 0); [vm_compute; reflexivity|lia]. Qed.

Ltac split_checks :=
  repeat match goal with H : _ && _ = true |- _ => apply andb_prop in H as [H ?] end;
  rewrite ?Z.leb_le, ?Z.ltb_lt, ?Z.eqb_eq in *.

Lemma year_of_era_mono a b : 0 <= a <= b -> b < era_days -> year_of_era a <= year_of_era b.
Proof.
  intros Hab Hb. unfold year_of_era, era_days in *. apply Z.div_le_mono; [done|].
  Z.div_mod_to_equations. lia.
Qed.

Lemma year_exists doe : 0 <= doe < era_days -> exists y, 0 <= y < 400 /\ year_start y <= doe < year_start (y + 1).
Proof.
  intros Hdoe. assert (forall n : nat, (n <= 400)%nat -> doe < year_start (Z.of_nat n) ->
    exists y, 0 <= y < Z.of_nat n /\ year_start y <= doe < year_start (y + 1)) as Hgen.
  { induction n as [|n IH]; intros Hn Hlt; [change (year_start (Z.of_nat 0)) with 0 in Hlt; lia|].
    destruct (Z.lt_ge_cases doe (year_start (Z.of_nat n))) as [Hl|Hge].
    - destruct (IH ltac:(lia) Hl) as (y & ? & ?). exists y. lia.
    - exists (Z.of_nat n). replace (Z.of_nat n + 1) with (Z.of_nat (S n)) by lia. lia. }
  destruct (Hgen 400%nat) as (y & Hy & Hr); [done| |by exists y]. simpl. apply Hdoe.
Qed.

Definition era_ok (doe : Z) : Prop :=
  let '(yoe, m, d) := civil_of_era doe in
  0 <= yoe < 400 /\ 1 <= m <= 12 /\ 1 <= d <= daysIn m (yoe + january_shift m) /\ era_of_civil yoe m d = doe.

Lemma era_all_ok doe : 0 <= doe < era_days -> era_ok doe.
Proof.
  intros Hdoe. destruct (year_exists doe Hdoe) as (y & Hy & Hrange).
  pose proof (years_ok y Hy) as Hyear. unfold year_ok in Hyear. split_checks.
  assert (year_start (y + 1) <= era_days) as Hend.
  { unfold year_start. destruct (Z.eqb_spec (y + 1) 400); [apply Z.le_refl|]. unfold days_before_year, era_days. Z.div_mod_to_equations. lia. }
  assert (0 <= year_start y) as Hstart by (unfold year_start, days_before_year, era_days; destruct (y =? 400); [lia|]; Z.div_mod_to_equations; lia).
  assert (year_of_era doe = y) as Hyoe.
  { pose proof (year_of_era_mono (year_start y) doe). pose proof (year_of_era_mono doe (year_start (y + 1) - 1)). lia. }
  assert (year_start y = days_before_year y) as Hys by (unfold year_start; destruct (Z.eqb_spec y 400); [lia|done]).
  unfold era_ok, civil_of_era, era_of_civil. rewrite Hyoe, <- Hys. set (doy := doe - year_start y) in *.
  assert (0 <= doy < 366) as Hdoy by (unfold doy; destruct (is_leap (y + 1)); lia).
  pose proof (days_ok doy Hdoy) as Hday. unfold day_ok in Hday. cbv zeta in Hday |- *. split_checks.
  set (mp := (5 * doy + 2) / 153) in *. set (m := if mp <? 10 then mp + 3 else mp - 9) in *.
  set (d := doy - (153 * mp + 2) / 5 + 1) in *. split_and!; try lia.
  - match goal with H : _ || _ = true |- _ => apply orb_prop in H as [H|H] end; split_checks.
    + unfold daysIn in *. destruct (m =? 2); [|done]. change (is_leap 1) with false in *. cbn iota in *.
      destruct (is_leap (y + january_shift m)); lia.
    + assert (is_leap (y + 1) = true) as Hleap by (destruct (is_leap (y + 1)); [done|unfold doy in *; lia]).
      unfold daysIn, january_shift. replace m with 2 by lia. simpl. rewrite Hleap. lia.
Qed.

Lemma is_leap_era y era : is_leap (400 * era + y) = is_leap y.
Proof.
  unfold is_leap.
  assert ((400 * era + y) mod 4 = y mod 4) as -> by (replace (400 * era + y) with (y + (100 * era) * 4) by lia; apply Z_mod_plus_full).
  assert ((400 * era + y) mod 100 = y mod 100) as -> by (replace (400 * era + y) with (y + (4 * era) * 100) by lia; apply Z_mod_plus_full).
  assert ((400 * era + y) mod 400 = y mod 400) as -> by (replace (400 * era + y) with (y + era * 400) by lia; apply Z_mod_plus_full).
  done.
Qed.

(** Every day has a civil date, which denotes that day. *)
Lemma civil_spec z y m d : civil_from_days z = (y, m, d) ->
  1 <= m <= 12 /\ 1 <= d <= daysIn m y /\ days_from_civil y m d = z.
Proof.
  unfold civil_from_days. pose proof (Z.mod_pos_bound (z + epoch_days) era_days ltac:(done)) as Hr.
  apply era_all_ok in Hr. unfold era_ok in Hr.
  destruct (civil_of_era ((z + epoch_days) mod era_days)) as [[yoe m'] d'] eqn:Hc. intros [= <- <- <-].
  destruct Hr as (Hy & Hm & Hd & Hera). split_and!; try lia.
  - unfold daysIn in *. rewrite <- Z.add_assoc, is_leap_era. apply Hd.
  - unfold days_from_civil. rewrite Z.add_simpl_r.
    replace (400 * ((z + epoch_days) / era_days) + yoe) with (yoe + (z + epoch_days) / era_days * 400) by lia.
    rewrite Z_mod_plus_full, Z.mod_small, Z_div_plus_full, Z.div_small by lia.
    rewrite Hera.
    pose proof (Z_div_mod_eq_full (z + epoch_days) era_days). lia.
Qed.

(** ** The round trip *)

Lemma digit_value_digit n : 0 <= n < 10 -> digit_value (digit n) = Some n.
Proof.
  intros Hn. destruct n as [|p|p]; [done| |lia].
  do 4 (destruct p as [p|p|]; try done; try lia).
Qed.

Lemma getnum_two fixed n s : 0 <= n < 100 -> getnum fixed (two n +:+ s) = Some (n, s).
Proof.
  intros Hn. assert (0 <= n / 10 < 10) by (split; [apply Z.div_pos; lia|apply Z.div_lt_upper_bound; lia]).
  unfold two. change (String ?a (String ?b "") +:+ s) with (String a (String b s)). unfold getnum.
  rewrite Z.mod_small, !digit_value_digit by (done || apply Z.mod_pos_bound; lia).
  do 2 f_equal. pose proof (Z_div_mod_eq_full n 10). lia.
Qed.

Lemma ranged_two fixed lo hi n s : 0 <= n < 100 -> lo <= n <= hi -> ranged fixed lo hi (two n +:+ s) = Some (n, s).
Proof.
  intros H1 H2. unfold ranged. rewrite getnum_two by done.
  by rewrite (proj2 (Z.leb_le lo n)), (proj2 (Z.leb_le n hi)) by lia.
Qed.

Lemma get_year_year4 y s : 0 <= y < 10000 -> get_year (year4 y +:+ s) = Some (y, s).
Proof.
  intros Hy. unfold year4. rewrite (proj2 (Z.leb_le 0 y)), (proj2 (Z.ltb_lt y 10000)) by lia. cbn [andb].
  assert (0 <= y / 100 < 100) by (split; [apply Z.div_pos; lia|apply Z.div_lt_upper_bound; lia]).
  pose proof (Z.mod_pos_bound y 100 ltac:(done)).
  assert (forall a b c, (a +:+ b) +:+ c = a +:+ b +:+ c) as Hassoc
    by (intros a b c; induction a as [|x a IH]; [done|]; change (String x ((a +:+ b) +:+ c) = String x (a +:+ b +:+ c)); by rewrite IH).
  unfold get_year. rewrite Hassoc, !getnum_two by done.
  do 2 f_equal. pose proof (Z_div_mod_eq_full y 100). lia.
Qed.

Lemma then_literal_cons {A} c (a : A) s : then_literal c (Some (a, String c s)) = Some (a, s).
Proof. unfold then_literal, literal. by rewrite Ascii.eqb_refl. Qed.

Lemma get_zone_text off : (60 | off) -> - 86400 < off < 86400 -> get_zone (zone_text off) = Some (off, "").
Proof.
  intros [zone ->] Hoff. unfold zone_text. destruct (Z.eqb_spec (zone * 60) 0) as [->|Hne]; [done|].
  rewrite Z.quot_mul by done.
  assert (0 <= Z.abs zone / 60 < 24) by (split; [apply Z.div_pos; lia|apply Z.div_lt_upper_bound; lia]).
  pose proof (Z.mod_pos_bound (Z.abs zone) 60 ltac:(done)). pose proof (Z_div_mod_eq_full (Z.abs zone) 60).
  assert (forall sign, sign ≠ "Z"%char ->
    get_zone (String sign (two (Z.abs zone / 60) +:+ String ":" (two (Z.abs zone mod 60) +:+ ""))) =
    if Ascii.eqb sign "+" then Some (Z.abs zone * 60, "")
    else if Ascii.eqb sign "-" then Some (- (Z.abs zone * 60), "") else None) as Hz.
  { intros sign Hs. unfold get_zone.
    assert (forall A (x y : A), match sign with "Z"%char => x | _ => y end = y) as ->
      by (intros; destruct sign as [[] [] [] [] [] [] [] []]; done).
    rewrite getnum_two by lia. cbn [literal]. rewrite Ascii.eqb_refl, getnum_two by lia.
    rewrite (proj2 (Z.ltb_ge 24 _)), (proj2 (Z.ltb_ge 60 _)) by lia. cbn [orb].
    replace (Z.abs zone / 60 * 60 + Z.abs zone mod 60) with (Z.abs zone) by lia. done. }
  destruct (Z.ltb_spec zone 0) as [Hneg|Hpos].
  - transitivity (Some (- (Z.abs zone * 60), "")); [exact (Hz "-"%char ltac:(done))|]. do 2 f_equal. lia.
  - transitivity (Some (Z.abs zone * 60, "")); [exact (Hz "+"%char ltac:(done))|]. do 2 f_equal. lia.
Qed.

Lemma zone_text_head off : exists c s, zone_text off = String c s /\ Ascii.eqb c "." || Ascii.eqb c "," = false.
Proof. unfold zone_text. case_match; [by eexists _, _|]. case_match; by eexists _, _. Qed.

Lemma get_fraction_zone off : get_fraction (zone_text off) = (0, zone_text off).
Proof. destruct (zone_text_head off) as (c & s & -> & Hc). unfold get_fraction. by rewrite Hc. Qed.

Lemma civil_year z y m d : 0 <= z < 2786860 -> civil_from_days z = (y, m, d) -> 0 <= y < 10000.
Proof.
  unfold civil_from_days. intros Hz. pose proof (Z.mod_pos_bound (z + epoch_days) era_days ltac:(done)) as Hr.
  apply era_all_ok in Hr. unfold era_ok in Hr.
  destruct (civil_of_era ((z + epoch_days) mod era_days)) as [[yoe m'] d'] eqn:Hc. intros [= <- <- <-].
  assert (0 <= (z + epoch_days) / era_days < 24)
    by (unfold epoch_days, era_days; split; [apply Z.div_pos; lia|apply Z.div_lt_upper_bound; lia]).
  unfold january_shift. case_match; lia.
Qed.

(** What Format writes, Parse reads, to the second: for every instant from 1970 to
    9600 and every zone whose offset is a whole number of minutes. *)
Lemma ParseRFC3339_Format off t :
  (60 | off) -> - 86400 < off < 86400 -> 0 <= Unix t + off < 240784704000 ->
  ParseRFC3339 (FormatRFC3339 off t) = Some (Unix t * second).
Proof.
  intros Hdiv Hoff Ht. unfold FormatRFC3339. set (abs := Unix t + off) in *.
  assert (0 <= abs / 86400 < 2786860) as Hday by (split; [apply Z.div_pos; lia|apply Z.div_lt_upper_bound; lia]).
  destruct (civil_from_days (abs / 86400)) as [[y m] d] eqn:Hc.
  pose proof (civil_year _ _ _ _ Hday Hc) as Hy. apply civil_spec in Hc as (Hm & Hd & Hback).
  assert (d <= 31) by (unfold daysIn in Hd; repeat case_match; lia).
  pose proof (Z.mod_pos_bound abs 86400 ltac:(done)) as Hs. set (sod := abs mod 86400) in *.
  assert (0 <= sod / 3600 < 24) by (split; [apply Z.div_pos; lia|apply Z.div_lt_upper_bound; lia]).
  pose proof (Z.mod_pos_bound (sod / 60) 60 ltac:(done)). pose proof (Z.mod_pos_bound sod 60 ltac:(done)).
  unfold ParseRFC3339. repeat change ("-" +:+ ?x) with (String "-" x). repeat change (":" +:+ ?x) with (String ":" x).
  change ("T" +:+ ?x) with (String "T" x).
  rewrite get_year_year4, then_literal_cons by done. cbn [mbind option_bind].
  rewrite ranged_two, then_literal_cons by lia. cbn [mbind option_bind].
  rewrite getnum_two, then_literal_cons by lia. cbn [mbind option_bind].
  rewrite ranged_two, then_literal_cons by lia. cbn [mbind option_bind].
  rewrite ranged_two, then_literal_cons by lia. cbn [mbind option_bind].
  rewrite ranged_two by lia. cbn [mbind option_bind]. rewrite get_fraction_zone, get_zone_text by done.
  cbn [mbind option_bind]. rewrite bool_decide_true, (proj2 (Z.leb_le 1 d)), (proj2 (Z.leb_le d _)) by (done || lia).
  cbn [andb]. rewrite Hback. f_equal.
  assert (sod = sod / 3600 * 3600 + sod / 60 mod 60 * 60 + sod mod 60) as Hsod.
  { pose proof (Z_div_mod_eq_full sod 60). pose proof (Z_div_mod_eq_full (sod / 60) 60).
    rewrite Z.div_div in * by lia. change (60 * 60) with 3600 in *. lia. }
  pose proof (Z_div_mod_eq_full abs 86400) as Habs. change (abs mod 86400) with sod in Habs.
  assert (abs = Unix t + off) as Hdef by done. rewrite Z.add_0_r. f_equal. lia.
Qed.

(** ** time.Duration.String *)

(** fmtFrac: the last [prec] decimal digits of [v] after a point, without the
    zeros at the end; [shown] once a digit has been printed. *)
Fixpoint fmtFrac (prec : nat) (v : Z) (shown : bool) (acc : string) : string :=
  match prec with
  | O => if shown then "." +:+ acc else acc
  | S prec =>
    let d := v mod 10 in
    let shown := shown || negb (d =? 0) in
    fmtFrac prec (v / 10) shown (if shown then String (digit d) acc else acc)
  end.

Definition Duration_String (d : Z) : string :=
  let u := Z.abs d in
  let text :=
    if u =? 0 then "0s"
    else if u <? microsecond then Itoa u +:+ "ns"
    else if u <? millisecond then Itoa (u / microsecond) +:+ fmtFrac 3 u false "" +:+ bytes [194; 181; 115]
    else if u <? second then Itoa (u / millisecond) +:+ fmtFrac 6 u false "" +:+ "ms"
    else
    let s := u / second in
    (if s <? 60 then "" else (if s / 60 <? 60 then "" else Itoa (s / 3600) +:+ "h") +:+ Itoa (s / 60 mod 60) +:+ "m") +:+
    Itoa (s mod 60) +:+ fmtFrac 9 u false "" +:+ "s" in
  if d <? 0 then "-" +:+ text else text.

Example duration_1 : Duration_String (90 * second) = "1m30s".
Proof. reflexivity. Qed.
Example duration_2 : Duration_String (- (3600 * second + 50 * millisecond)) = "-1h0m0.05s".
Proof. reflexivity. Qed.
Example duration_3 : Duration_String 1500 = "1.5" +:+ bytes [194; 181; 115].
Proof. reflexivity. Qed.
