(* ===== verification/GoJSON.v ===== *)
(** * encoding/json for lists of strings

    json.Marshal and json.Unmarshal of the Go standard library for []string, the
    only type the controllers encode.  Strings are bytes; invalid UTF-8 is
    replaced by U+FFFD in both directions, as Go does. *)

From S2P Require Import Prelude.
From S2P Require Import GoURL.

(** ** UTF-8 *)

Definition cont (lo hi : nat) (c : ascii) : bool := (lo <=? code c) && (code c <=? hi).

(** The well-formed rune at the head of a string and what follows it. *)
Definition take_rune (s : string) : option (string * string) :=
  match s with
  | EmptyString => None
  | String a s1 =>
    let n := code a in
    if n <? 128 then Some (String a "", s1)
    else
    match s1 with
    | EmptyString => None
    | String b s2 =>
      if cont 194 223 a then
        if cont 128 191 b then Some (String a (String b ""), s2) else None
      else
      match s2 with
      | EmptyString => None
      | String c s3 =>
        if cont 224 239 a then
          let lo := if n =? 224 then 160 else 128 in
          let hi := if n =? 237 then 159 else 191 in
          if cont lo hi b && cont 128 191 c then Some (String a (String b (String c "")), s3) else None
        else
        match s3 with
        | EmptyString => None
        | String d s4 =>
          if cont 240 244 a then
            let lo := if n =? 240 then 144 else 128 in
            let hi := if n =? 244 then 143 else 191 in
            if cont lo hi b && cont 128 191 c && cont 128 191 d
            then Some (String a (String b (String c (String d ""))), s4) else None
          else None
        end
      end
    end
  end.

(** The bytes of U+FFFD. *)
Definition replacement : string := String "239" (String "191" (String "189" "")).

(** ** Marshal *)

Definition u_escape (n : nat) : string :=
  "\u00" +:+ String (hex_digit (n / 16)) (String (hex_digit (n mod 16)) "").

(** One ASCII byte, with HTML escaping as json.Marshal does it. *)
Definition json_byte (c : ascii) : string :=
  let n := code c in
  match n with
  | 34 => String "\" dquote
  | 92 => "\\" | 8 => "\b" | 12 => "\f" | 10 => "\n" | 13 => "\r" | 9 => "\t"
  | _ => if (n <? 32) || one_of "<>&" c then u_escape n else String c ""
  end.

Fixpoint json_chars (fuel : nat) (s : string) : string :=
  match fuel, s with
  | S fuel, String a rest =>
    if code a <? 128 then json_byte a +:+ json_chars fuel rest
    else match take_rune s with
         | None => "\ufffd" +:+ json_chars fuel rest
         | Some (r, rest) =>
           (if bool_decide (r = String "226" (String "128" (String "168" ""))) then "\u2028"
            else if bool_decide (r = String "226" (String "128" (String "169" ""))) then "\u2029"
            else r) +:+ json_chars fuel rest
         end
  | _, _ => ""
  end.

Definition json_string (s : string) : string := dquote +:+ json_chars (String.length s) s +:+ dquote.

Fixpoint json_elements (l : list string) : string :=
  match l with
  | [] => ""
  | [s] => json_string s
  | s :: l => json_string s +:+ "," +:+ json_elements l
  end.

(** json.Marshal of a non-nil slice; it never fails. *)
Definition Marshal (l : list string) : string := "[" +:+ json_elements l +:+ "]".

(** ** Unmarshal *)

Definition space (c : ascii) : bool :=
  match code c with 32 | 9 | 10 | 13 => true | _ => false end.
Fixpoint skip_space (s : string) : string :=
  match s with
  | String c s' => if space c then skip_space s' else s
  | EmptyString => ""
  end.

Definition hex4 (a b c d : ascii) : option N :=
  match hex_val a, hex_val b, hex_val c, hex_val d with
  | Some a, Some b, Some c, Some d =>
    Some (4096 * N.of_nat a + 256 * N.of_nat b + 16 * N.of_nat c + N.of_nat d)%N
  | _, _, _, _ => None
  end.

(** utf16.IsSurrogate and utf16.DecodeRune. *)
Definition IsSurrogate (r : N) : bool := ((55296 <=? r) && (r <? 57344))%N.
Definition surrogate_pair (hi lo : N) : option N :=
  if ((55296 <=? hi) && (hi <? 56320) && (56320 <=? lo) && (lo <? 57344))%N
  then Some (65536 + 1024 * (hi - 55296) + (lo - 56320))%N else None.

(** utf8.AppendRune. *)
Definition encode_rune (n : N) : string :=
  let b k := ascii_of_N k in
  (if n <? 128 then String (b n) ""
   else if n <? 2048 then String (b (192 + n / 64)) (String (b (128 + n mod 64)) "")
   else if IsSurrogate n then replacement
   else if n <? 65536 then
     String (b (224 + n / 4096)) (String (b (128 + n / 64 mod 64)) (String (b (128 + n mod 64)) ""))
   else
     String (b (240 + n / 262144)) (String (b (128 + n / 4096 mod 64))
       (String (b (128 + n / 64 mod 64)) (String (b (128 + n mod 64)) ""))))%N.

(** A unicode escape of value [r]; a surrogate looks for its other half. *)
Definition json_unicode (r : N) (rest : string) : string * string :=
  if negb (IsSurrogate r) then (encode_rune r, rest)
  else
  match rest with
  | String "\" (String "u" (String y1 (String y2 (String y3 (String y4 rest2))))) =>
    match hex4 y1 y2 y3 y4 with
    | Some r' =>
      match surrogate_pair r r' with
      | Some v => (encode_rune v, rest2)
      | None => (replacement, rest)
      end
    | None => (replacement, rest)
    end
  | _ => (replacement, rest)
  end.

(** A backslash and one more byte. *)
Definition json_escape (e : ascii) (rest : string) : option (string * string) :=
  match code e with
  | 34 | 92 | 47 => Some (String e "", rest)
  | 98 => Some (String "008" "", rest)
  | 102 => Some (String "012" "", rest)
  | 110 => Some (String "010" "", rest)
  | 114 => Some (String "013" "", rest)
  | 116 => Some (String "009" "", rest)
  | _ => None
  end.

(** The next unit inside a string literal: the bytes it stands for and the rest. *)
Definition json_unit (s : string) : option (string * string) :=
  match s with
  | EmptyString => None
  | String c s1 =>
    if (code c =? 34) || (code c <? 32) then None
    else if code c =? 92 then
      match s1 with
      | String "u" (String x1 (String x2 (String x3 (String x4 rest)))) =>
        match hex4 x1 x2 x3 x4 with
        | None => None
        | Some r => Some (json_unicode r rest)
        end
      | String e rest => json_escape e rest
      | EmptyString => None
      end
    else match take_rune s with
         | Some r => Some r
         | None => Some (replacement, s1)
         end
  end.

(** The rest of a string literal, after the opening quote. *)
Fixpoint json_literal (fuel : nat) (s : string) : option (string * string) :=
  match fuel with
  | O => None
  | S fuel =>
    match s with
    | String c rest => 
      if code c =? 34 then Some ("", rest)
      else match json_unit s with
           | None => None
           | Some (u, rest) =>
             match json_literal fuel rest with
             | Some (v, rest) => Some (u +:+ v, rest)
             | None => None
             end
           end
    | EmptyString => None
    end
  end.

(** An element of a []string: a string, or null for the zero value. *)
Definition json_element (s : string) : option (string * string) :=
  match s with
  | String c rest =>
    if code c =? 34 then json_literal (String.length s) rest
    else if String.prefix "null" s then Some ("", String.substring 4 (String.length s) s)
    else None
  | EmptyString => None
  end.

Fixpoint json_array (fuel : nat) (s : string) : option (list string * string) :=
  match fuel with
  | O => None
  | S fuel =>
    match json_element (skip_space s) with
    | None => None
    | Some (v, rest) =>
      match skip_space rest with
      | String "," rest =>
        match json_array fuel rest with
        | Some (l, rest) => Some (v :: l, rest)
        | None => None
        end
      | String "]" rest => Some ([v], rest)
      | _ => None
      end
    end
  end.

(** json.Unmarshal into a nil []string; [None] when it returns an error. *)
Definition Unmarshal (s : string) : option (list string) :=
  let s := skip_space s in
  match s with
  | String "[" rest =>
    let r := match skip_space rest with
             | String "]" rest => Some ([], rest)
             | _ => json_array (String.length rest) rest
             end in
    match r with
    | Some (l, rest) => if bool_decide (skip_space rest = "") then Some l else None
    | None => None
    end
  | _ =>
    if String.prefix "null" s && bool_decide (skip_space (String.substring 4 (String.length s) s) = "")
    then Some [] else None
  end.

Example unmarshal_1 : Unmarshal (" [" +:+ dquote +:+ "a\u0041" +:+ dquote +:+ " , null] ") = Some ["aA"; ""].
Proof. reflexivity. Qed.
Example unmarshal_2 : Unmarshal "[1]" = None.
Proof. reflexivity. Qed.
Example marshal_1 : Marshal ["a<b"; "c"] =
  "[" +:+ dquote +:+ "a\u003cb" +:+ dquote +:+ "," +:+ dquote +:+ "c" +:+ dquote +:+ "]".
Proof. reflexivity. Qed.

(** ** The round trip *)

Definition is_ascii : string -> bool := all_bytes (fun c => code c <? 128).

Lemma app_assoc_string (a b c : string) : (a +:+ b) +:+ c = a +:+ b +:+ c.
Proof. induction a as [|x a IH]; [done|]. change (String x ((a +:+ b) +:+ c) = String x (a +:+ b +:+ c)). by rewrite IH. Qed.

Lemma app_cons_string x (a b : string) : String x a +:+ b = String x (a +:+ b).
Proof. done. Qed.

(** Every ASCII byte reads back as it was written. *)
Lemma json_byte_unit c s : (code c <? 128) = true ->
  json_unit (json_byte c +:+ s) = Some (String c "", s) /\
  exists d t, json_byte c = String d t /\ (code d =? 34) = false.
Proof.
  intros Hc.
  destruct c as [[] [] [] [] [] [] [] []]; try discriminate Hc; (split; [reflexivity|]);
    eexists _, _; (split; [reflexivity|reflexivity]).
Qed.

Lemma string_app_length (a b : string) : String.length (a +:+ b) = String.length a + String.length b.
Proof. induction a as [|x a IH]; [done|]. cbn. by rewrite <- IH. Qed.

Lemma json_literal_step fuel c rest v rest' :
  (code c <? 128) = true ->
  json_literal fuel rest = Some (v, rest') ->
  json_literal (S fuel) (json_byte c +:+ rest) = Some (String c v, rest').
Proof.
  intros Hc Hr. destruct (json_byte_unit c rest Hc) as (Hu & d & t & Hb & Hd).
  rewrite Hb in *. cbn [json_literal]. rewrite app_cons_string in *.
  rewrite Hd, Hu, Hr. done.
Qed.

Lemma json_chars_literal f s rest fuel :
  is_ascii s = true -> String.length s <= f -> String.length s < fuel ->
  json_literal fuel (json_chars f s +:+ dquote +:+ rest) = Some (s, rest).
Proof.
  revert f fuel. induction s as [|c s IH]; intros f fuel Hs Hf Hfuel.
  - destruct fuel; [simpl in *; lia|]. by destruct f.
  - destruct f as [|f]; [simpl in *; lia|]. destruct fuel as [|fuel]; [simpl in *; lia|].
    cbn [is_ascii all_bytes] in Hs. apply andb_prop in Hs as [Hc Hs].
    cbn [json_chars]. rewrite Hc, app_assoc_string.
    apply json_literal_step; [done|]. apply IH; [done|simpl in *; lia..].
Qed.

Lemma json_byte_length c : 1 <= String.length (json_byte c).
Proof. by destruct c as [[] [] [] [] [] [] [] []]; vm_compute; lia. Qed.

Lemma json_chars_length f s : is_ascii s = true -> String.length s <= f ->
  String.length s <= String.length (json_chars f s).
Proof.
  revert f. induction s as [|c s IH]; intros f Hs Hf; [simpl; lia|].
  destruct f as [|f]; [simpl in *; lia|]. cbn [is_ascii all_bytes] in Hs. apply andb_prop in Hs as [Hc Hs].
  cbn [json_chars]. rewrite Hc, string_app_length. pose proof (json_byte_length c).
  specialize (IH f Hs). simpl in *. lia.
Qed.

Lemma json_string_unfold s rest :
  json_string s +:+ rest = String "034" (json_chars (String.length s) s +:+ dquote +:+ rest).
Proof. unfold json_string. by rewrite !app_assoc_string. Qed.

Lemma json_element_string s rest : is_ascii s = true ->
  json_element (skip_space (json_string s +:+ rest)) = Some (s, rest).
Proof.
  intros Hs. rewrite json_string_unfold.
  change (json_literal (S (String.length (json_chars (String.length s) s +:+ dquote +:+ rest)))
            (json_chars (String.length s) s +:+ dquote +:+ rest) = Some (s, rest)).
  apply json_chars_literal; [done..|]. rewrite string_app_length.
  pose proof (json_chars_length (String.length s) s Hs). lia.
Qed.

Lemma json_elements_array l fuel rest :
  l ≠ [] -> Forall (fun s => is_ascii s = true) l -> length l <= fuel ->
  json_array fuel (json_elements l +:+ String "]" rest) = Some (l, rest).
Proof.
  intros Hl Hs. revert fuel. induction Hs as [|s l Hs Hall IH]; intros fuel Hf; [done|].
  destruct fuel as [|fuel]; [simpl in *; lia|]. destruct l as [|s' l].
  - cbn [json_array json_elements]. by rewrite json_element_string.
  - change (json_elements (s :: s' :: l)) with (json_string s +:+ "," +:+ json_elements (s' :: l)).
    rewrite !app_assoc_string. cbn [json_array]. rewrite json_element_string by done.
    cbn [skip_space String.append app]. 
    change ("," +:+ ?x) with (String "," x). cbn [skip_space].
    change (space ",") with false. cbn iota beta.
    rewrite IH; [done|done|simpl in *; lia].
Qed.

Lemma json_elements_length l : length l <= S (String.length (json_elements l)).
Proof.
  induction l as [|s [|s' l] IH]; [simpl; lia..|].
  change (json_elements (s :: s' :: l)) with (json_string s +:+ "," +:+ json_elements (s' :: l)).
  rewrite !string_app_length. simpl in *. lia.
Qed.

Lemma Unmarshal_Marshal l :
  Forall (fun s => is_ascii s = true) l -> Unmarshal (Marshal l) = Some l.
Proof.
  intros Hl. destruct l as [|s l]; [reflexivity|].
  pose proof (json_elements_array (s :: l) (String.length (json_elements (s :: l) +:+ "]")) ""
    ltac:(done) Hl) as H.
  assert (exists t, json_elements (s :: l) +:+ "]" = String "034" t) as [t Ht].
  { destruct l as [|s' l]; cbn [json_elements]; rewrite ?app_assoc_string, json_string_unfold; by eexists. }
  unfold Unmarshal, Marshal. change ("[" +:+ ?x) with (String "[" x).
  cbn [skip_space]. change (space "[") with false. cbn iota beta.
  rewrite Ht in *. cbn [skip_space]. change (space "034") with false. cbn iota beta zeta.
  rewrite H; [done|]. rewrite <- Ht, string_app_length. pose proof (json_elements_length (s :: l)).
  change (String.length "]") with 1. lia.
Qed.
