(* ===== verification/GoJSONValue.v ===== *)
(** * encoding/json for a struct of strings

    json.Unmarshal of the Go standard library into a struct whose fields are all
    strings: the text is checked as a whole first, then the members of the object
    are assigned in order, under names that are compared without regard to case. *)

From S2P Require Import Prelude.
From S2P Require Import GoURL.
From S2P Require Import GoText.
From S2P Require Import GoJSON.
Local Open Scope Z_scope.

#[local] Set Warnings "-register-all".
Inductive json :=
| JNull | JBool (b : bool) | JNumber (text : string) | JString (s : string)
| JArray (l : list json) | JObject (members : list (string * json)).

(** ** Numbers *)

Fixpoint digit_run (s : string) : string * string :=
  match s with
  | String c rest => if is_digit c then let '(a, b) := digit_run rest in (String c a, b) else ("", s)
  | EmptyString => ("", "")
  end.

(** At least one digit. *)
Definition digits1 (s : string) : option (string * string) :=
  match digit_run s with
  | (EmptyString, _) => None
  | r => Some r
  end.

(** 0, or a digit other than 0 and more. *)
Definition number_int (s : string) : option (string * string) :=
  match s with
  | String "0" rest => Some ("0", rest)
  | _ => digits1 s
  end.

Definition number_frac (s : string) : option (string * string) :=
  match s with
  | String "." rest => match digits1 rest with Some (d, rest) => Some (String "." d, rest) | None => None end
  | _ => Some ("", s)
  end.

Definition number_exp (s : string) : option (string * string) :=
  match s with
  | String e rest =>
    if one_of "eE" e then
      let '(sign, rest) := match rest with
                           | String c rest' => if one_of "+-" c then (String c "", rest') else ("", rest)
                           | EmptyString => ("", rest)
                           end in
      match digits1 rest with Some (d, rest) => Some (String e (sign +:+ d), rest) | None => None end
    else Some ("", s)
  | EmptyString => Some ("", "")
  end.

Definition json_number (s : string) : option (string * string) :=
  let '(minus, s) := match s with String "-" rest => ("-", rest) | _ => ("", s) end in
  '(i, s) ← number_int s;
  '(f, s) ← number_frac s;
  '(e, s) ← number_exp s;
  Some (minus +:+ i +:+ f +:+ e, s).

(** ** Values *)

Definition maxNestingDepth : Z := 10000.

(** The value at the head of the text and what follows it.  Objects and arrays
    take two rounds of fuel per byte they consume. *)
Fixpoint json_value (fuel : nat) (depth : Z) (s : string) : option (json * string) :=
  match fuel with
  | O => None
  | S fuel =>
    match skip_space s with
    | EmptyString => None
    | String c rest =>
      if (code c =? 34)%nat then '(v, rest) ← json_literal (String.length rest) rest; Some (JString v, rest)
      else if Ascii.eqb c "{" then
        if maxNestingDepth <=? depth then None else
        match skip_space rest with
        | String "}" rest => Some (JObject [], rest)
        | _ => '(l, rest) ← json_members fuel (depth + 1) rest; Some (JObject l, rest)
        end
      else if Ascii.eqb c "[" then
        if maxNestingDepth <=? depth then None else
        match skip_space rest with
        | String "]" rest => Some (JArray [], rest)
        | _ => '(l, rest) ← json_elems fuel (depth + 1) rest; Some (JArray l, rest)
        end
      else let s := String c rest in
      if String.prefix "null" s then Some (JNull, drop_bytes 4 s)
      else if String.prefix "true" s then Some (JBool true, drop_bytes 4 s)
      else if String.prefix "false" s then Some (JBool false, drop_bytes 5 s)
      else '(n, rest) ← json_number s; Some (JNumber n, rest)
    end
  end
with json_elems (fuel : nat) (depth : Z) (s : string) : option (list json * string) :=
  match fuel with
  | O => None
  | S fuel =>
    '(v, rest) ← json_value fuel depth s;
    match skip_space rest with
    | String "," rest => '(l, rest) ← json_elems fuel depth rest; Some (v :: l, rest)
    | String "]" rest => Some ([v], rest)
    | _ => None
    end
  end
with json_members (fuel : nat) (depth : Z) (s : string) : option (list (string * json) * string) :=
  match fuel with
  | O => None
  | S fuel =>
    match skip_space s with
    | String c rest =>
      if negb (code c =? 34)%nat then None
      else
      '(k, rest) ← json_literal (String.length rest) rest;
      match skip_space rest with
      | String ":" rest =>
        '(v, rest) ← json_value fuel depth rest;
        match skip_space rest with
        | String "," rest => '(l, rest) ← json_members fuel depth rest; Some ((k, v) :: l, rest)
        | String "}" rest => Some ([(k, v)], rest)
        | _ => None
        end
      | _ => None
      end
    | EmptyString => None
    end
  end.

(** A whole text, with nothing but space after the value. *)
Definition parse_json (s : string) : option json :=
  '(v, rest) ← json_value (2 * String.length s + 2) 0 s;
  if bool_decide (skip_space rest = "") then Some v else None.

(** ** Structs of strings *)

(** foldName: ASCII letters, and the two other characters that fold to one. *)
Fixpoint fold_name (s : string) : string :=
  match s with
  | EmptyString => ""
  | String "197" (String "191" rest) => String "s" (fold_name rest)
  | String "226" (String "132" (String "170" rest)) => String "k" (fold_name rest)
  | String c rest => String (if is_upper c then ascii_of_nat (code c + 32) else c) (fold_name rest)
  end.

(** The fields, by name; the flag says that a value had the wrong type. *)
Definition assign_member (fields : list (string * string)) (m : string * json) : list (string * string) * bool :=
  let '(k, v) := m in
  if negb (existsb (fun f => bool_decide (fold_name f.1 = fold_name k)) fields) then (fields, false)
  else match v with
       | JNull => (fields, false)
       | JString s => ((fun f => if bool_decide (fold_name f.1 = fold_name k) then (f.1, s) else f) <$> fields, false)
       | _ => (fields, true)
       end.

Fixpoint assign_members (fields : list (string * string)) (l : list (string * json)) : list (string * string) * bool :=
  match l with
  | [] => (fields, false)
  | m :: l =>
    let '(fields, bad) := assign_member fields m in
    let '(fields, bad') := assign_members fields l in
    (fields, bad || bad')
  end.

(** json.Unmarshal into a zero struct with these fields, whose names differ in
    more than case; [None] when it returns an error. *)
Definition UnmarshalStruct (names : list string) (s : string) : option (list (string * string)) :=
  let fields := (fun n => (n, "")) <$> names in
  match parse_json s with
  | None => None
  | Some JNull => Some fields
  | Some (JObject l) => let '(fields, bad) := assign_members fields l in if bad then None else Some fields
  | Some _ => None
  end.

(** [q] quotes a name for the examples. *)
Definition q (s : string) : string := dquote +:+ s +:+ dquote.

Example unmarshal_struct_1 :
  UnmarshalStruct ["driverName"; "specVolID"]
    (" { " +:+ q "x" +:+ ": [1, {" +:+ q "y" +:+ ": -0.5e+3}], " +:+ q "DRIVERNAME" +:+ ":" +:+ q "d\u0041" +:+ "} ")
  = Some [("driverName", "dA"); ("specVolID", "")].
Proof. vm_compute. reflexivity. Qed.
Example unmarshal_struct_2 : UnmarshalStruct ["a"] ("{" +:+ q "a" +:+ ": 1}") = None.
Proof. vm_compute. reflexivity. Qed.
Example unmarshal_struct_3 : UnmarshalStruct ["a"] ("{" +:+ q "a" +:+ ": " +:+ q "b" +:+ ",}") = None.
Proof. vm_compute. reflexivity. Qed.
Example unmarshal_struct_4 : UnmarshalStruct ["a"] ("{" +:+ q "a" +:+ ": 01}") = None.
Proof. vm_compute. reflexivity. Qed.

(** ** The fuel is enough

    A text that parses with some fuel parses with the fuel of [parse_json], to the
    same value. *)

Lemma skip_space_length s : (String.length (skip_space s) <= String.length s)%nat.
Proof. induction s as [|c s IH]; [done|]. cbn [skip_space]. case_match; simpl in *; lia. Qed.

Lemma drop_bytes_length n s : (String.length (drop_bytes n s) <= String.length s)%nat.
Proof. revert s. induction n as [|n IH]; intros [|c s]; simpl; [lia..|]. specialize (IH s). lia. Qed.

Lemma take_rune_length s r rest : take_rune s = Some (r, rest) -> (String.length rest <= String.length s)%nat.
Proof. unfold take_rune. repeat case_match; try done; intros [= <- <-]; cbn [String.length]; lia. Qed.

Lemma json_unicode_length n rest u rest' :
  json_unicode n rest = (u, rest') -> (String.length rest' <= String.length rest)%nat.
Proof. unfold json_unicode. repeat case_match; intros [= <- <-]; cbn [String.length]; lia. Qed.

Lemma json_unit_length s u rest : json_unit s = Some (u, rest) -> (String.length rest <= String.length s)%nat.
Proof.
  unfold json_unit. destruct s as [|c s1]; [done|].
  case_match; [done|]. destruct (code c =? 92)%nat.
  - destruct s1 as [|e s2]; [done|].
    assert (json_escape e s2 = Some (u, rest) -> (String.length rest <= S (S (String.length s2)))%nat) as Hplain.
    { unfold json_escape. repeat case_match; try done; intros [= <- <-]; lia. }
    cbn [String.length].
    destruct (Ascii.eqb e "u") eqn:He.
    + apply Ascii.eqb_eq in He as ->. destruct s2 as [|x1 [|x2 [|x3 [|x4 s3]]]]; try exact Hplain.
      cbn [String.length]. destruct (hex4 x1 x2 x3 x4); [|done]. intros [= E]. apply json_unicode_length in E. lia.
    + destruct e as [[] [] [] [] [] [] [] []]; try exact Hplain. discriminate He.
  - destruct (take_rune (String c s1)) as [[r rest']|] eqn:Ht; intros [= <- <-]; [|cbn [String.length]; lia].
    by apply take_rune_length in Ht.
Qed.

Lemma json_literal_length fuel s v rest :
  json_literal fuel s = Some (v, rest) -> (String.length rest <= String.length s)%nat.
Proof.
  revert s v rest. induction fuel as [|fuel IH]; intros s v rest; [done|]. cbn [json_literal].
  destruct s as [|c s]; [done|]. case_match; [intros [= <- <-]; cbn; lia|].
  destruct (json_unit (String c s)) as [[u rest1]|] eqn:Hu; [|done]. apply json_unit_length in Hu.
  destruct (json_literal fuel rest1) as [[v' rest2]|] eqn:Hl; [|done]. intros [= <- <-].
  apply IH in Hl. lia.
Qed.

Lemma digit_run_length s : (String.length (digit_run s).2 <= String.length s)%nat.
Proof.
  induction s as [|c s IH]; [done|]. cbn [digit_run]. case_match; [|done].
  destruct (digit_run s). cbn in *. lia.
Qed.

Lemma digits1_length s d rest : digits1 s = Some (d, rest) -> (String.length rest <= String.length s)%nat.
Proof.
  unfold digits1. pose proof (digit_run_length s) as Hl. destruct (digit_run s) as [[|c a] b]; [done|].
  by intros [= <- <-].
Qed.

(** A step of the number's grammar consumes or keeps its text. *)
Ltac number_step H :=
  repeat case_match; simplify_eq; cbn [String.length];
  repeat match goal with E : digits1 _ = Some _ |- _ => apply digits1_length in E; cbn [String.length] in E end; lia.

Lemma number_int_length s d rest : number_int s = Some (d, rest) -> (String.length rest <= String.length s)%nat.
Proof. unfold number_int. intros H. number_step H. Qed.
Lemma number_frac_length s d rest : number_frac s = Some (d, rest) -> (String.length rest <= String.length s)%nat.
Proof. unfold number_frac. intros H. number_step H. Qed.
Lemma number_exp_length s d rest : number_exp s = Some (d, rest) -> (String.length rest <= String.length s)%nat.
Proof. unfold number_exp. intros H. number_step H. Qed.

Lemma json_number_length s n rest : json_number s = Some (n, rest) -> (String.length rest <= String.length s)%nat.
Proof.
  unfold json_number.
  assert (forall minus s0, (String.length s0 <= String.length s)%nat ->
    ('(i, s) ← number_int s0; '(f, s) ← number_frac s; '(e, s) ← number_exp s;
     Some (minus +:+ i +:+ f +:+ e, s)) = Some (n, rest) -> (String.length rest <= String.length s)%nat) as Hgo.
  { intros minus s0 Hs0. destruct (number_int s0) as [[i s1]|] eqn:H1; [|done]. cbn.
    destruct (number_frac s1) as [[f s2]|] eqn:H2; [|done]. cbn.
    destruct (number_exp s2) as [[e s3]|] eqn:H3; [|done]. cbn. intros [= <- <-].
    apply number_int_length in H1. apply number_frac_length in H2. apply number_exp_length in H3. lia. }
  case_match eqn:Hm. intros H. eapply Hgo; [|exact H].
  repeat case_match; simplify_eq; cbn [String.length]; lia.
Qed.

(** What a parser of [json_value]'s family consumes, and the fuel it needs. *)
Definition enough {A} (extra : nat) (p : nat -> string -> option (A * string)) (fuel : nat) : Prop :=
  forall s a rest, p fuel s = Some (a, rest) ->
    (String.length rest <= String.length s)%nat /\
    forall fuel', (2 * String.length s + extra <= fuel')%nat -> p fuel' s = Some (a, rest).

Lemma enough_O {A} extra (p : nat -> string -> option (A * string)) : (forall s, p O s = None) -> enough extra p O.
Proof. intros Hp s a rest. by rewrite Hp. Qed.

(** The three parsers, one round deeper. *)
Lemma json_elems_enough fuel d :
  enough 1 (fun f => json_value f d) fuel -> enough 2 (fun f => json_elems f d) fuel ->
  enough 2 (fun f => json_elems f d) (S fuel).
Proof.
  intros Hv He s l rest. cbn [json_elems]. destruct (json_value fuel d s) as [[v rest1]|] eqn:Ev; [|done].
  apply Hv in Ev as [L1 Ev]. cbn. pose proof (skip_space_length rest1) as L2.
  intros H. assert ((String.length rest <= String.length s)%nat /\
    forall fuel', (2 * String.length s <= fuel')%nat ->
      match skip_space rest1 with
      | String "," rest => '(l, rest) ← json_elems fuel' d rest; Some (v :: l, rest)
      | String "]" rest => Some ([v], rest)
      | _ => None
      end = Some (l, rest)) as [Hlen Hmore].
  { destruct (skip_space rest1) as [|c rest2]; [done|].
    destruct (Ascii.eqb c ",") eqn:Hc; [|destruct (Ascii.eqb c "]") eqn:Hc'].
    - apply Ascii.eqb_eq in Hc as ->. cbn [String.length] in L2.
      destruct (json_elems fuel d rest2) as [[l' rest3]|] eqn:Ee; [|done]. cbn in H. simplify_eq.
      apply He in Ee as [L3 Ee]. split; [lia|]. intros fuel' Hf. rewrite Ee by lia. done.
    - apply Ascii.eqb_eq in Hc' as ->. cbn [String.length] in L2. simplify_eq. split; [lia|done].
    - exfalso. destruct c as [[] [] [] [] [] [] [] []]; done. }
  split; [done|]. intros [|fuel'] Hf; [lia|]. cbn [json_elems]. rewrite Ev by lia. cbn. apply Hmore. lia.
Qed.

Lemma json_members_enough fuel d :
  enough 1 (fun f => json_value f d) fuel -> enough 2 (fun f => json_members f d) fuel ->
  enough 2 (fun f => json_members f d) (S fuel).
Proof.
  intros Hv He s l rest. cbn [json_members]. pose proof (skip_space_length s) as L0.
  destruct (skip_space s) as [|c s1] eqn:Es; [done|]. destruct (negb _) eqn:Hq; [done|].
  destruct (json_literal (String.length s1) s1) as [[k s2]|] eqn:Hk; [|done]. cbn [mbind option_bind].
  apply json_literal_length in Hk as Lk. pose proof (skip_space_length s2) as L2.
  cbn [String.length] in L0.
  intros H. assert ((String.length rest <= String.length s)%nat /\
    forall fuel', (2 * String.length s <= fuel')%nat ->
      match skip_space s2 with
      | String ":" rest =>
        '(v, rest) ← json_value fuel' d rest;
        match skip_space rest with
        | String "," rest => '(l, rest) ← json_members fuel' d rest; Some ((k, v) :: l, rest)
        | String "}" rest => Some ([(k, v)], rest)
        | _ => None
        end
      | _ => None
      end = Some (l, rest)) as [Hlen Hmore].
  { destruct (skip_space s2) as [|c' s3]; [done|].
    destruct (Ascii.eqb c' ":") eqn:Hc; [|exfalso; destruct c' as [[] [] [] [] [] [] [] []]; done].
    apply Ascii.eqb_eq in Hc as ->. cbn [String.length] in L2.
    destruct (json_value fuel d s3) as [[v s4]|] eqn:Ev; [|done]. apply Hv in Ev as [L4 Ev]. cbn [mbind option_bind] in H.
    pose proof (skip_space_length s4) as L5. cbn beta in Ev.
    assert ((String.length rest <= String.length s)%nat /\
      forall fuel', (2 * String.length s <= fuel')%nat ->
        match skip_space s4 with
        | String "," rest => '(l, rest) ← json_members fuel' d rest; Some ((k, v) :: l, rest)
        | String "}" rest => Some ([(k, v)], rest)
        | _ => None
        end = Some (l, rest)) as [Hlen Hmore].
    { destruct (skip_space s4) as [|c' s5]; [done|].
      destruct (Ascii.eqb c' ",") eqn:Hc; [|destruct (Ascii.eqb c' "}") eqn:Hc'].
      - apply Ascii.eqb_eq in Hc as ->. cbn [String.length] in L5.
        destruct (json_members fuel d s5) as [[l' rest3]|] eqn:Ee; [|done]. cbn in H. simplify_eq.
        apply He in Ee as [L6 Ee]. split; [lia|]. intros fuel' Hf. rewrite Ee by lia. done.
      - apply Ascii.eqb_eq in Hc' as ->. cbn [String.length] in L5. simplify_eq. split; [lia|done].
      - exfalso. destruct c' as [[] [] [] [] [] [] [] []]; done. }
    split; [done|]. intros fuel' Hf. rewrite Ev by lia. by apply Hmore. }
  split; [done|]. intros [|fuel'] Hf; [lia|]. cbn [json_members]. rewrite Es, Hq, Hk. apply Hmore. lia.
Qed.

Lemma json_value_enough_step fuel :
  (forall d, enough 2 (fun f => json_elems f d) fuel) -> (forall d, enough 2 (fun f => json_members f d) fuel) ->
  forall d, enough 1 (fun f => json_value f d) (S fuel).
Proof.
  intros He Hm d s v rest H. pose proof (skip_space_length s) as L0.
  destruct (skip_space s) as [|c s1] eqn:Es; [by cbn [json_value] in H; rewrite Es in H|].
  cbn [String.length] in L0. pose proof (skip_space_length s1) as L1.
  assert (forall fuel', (2 * String.length s <= fuel')%nat ->
    json_value (S fuel') d s = Some (v, rest) /\ (String.length rest <= String.length s)%nat) as Hgo.
  { intros fuel' Hf. cbn [json_value] in *. rewrite Es in *. destruct (code c =? 34)%nat.
    { destruct (json_literal _ s1) as [[k s2]|] eqn:Hk; [|done]. cbn in *. simplify_eq. split; [done|].
      apply json_literal_length in Hk. lia. }
    destruct (Ascii.eqb c "{"); [|destruct (Ascii.eqb c "[")].
    - destruct (maxNestingDepth <=? d); [done|].
      assert (('(l, rest) ← json_members fuel (d + 1) s1; Some (JObject l, rest)) = Some (v, rest) ->
        ('(l, rest) ← json_members fuel' (d + 1) s1; Some (JObject l, rest)) = Some (v, rest) /\
        (String.length rest <= String.length s)%nat) as Hsub.
      { destruct (json_members fuel (d + 1) s1) as [[l s2]|] eqn:El; [|done]. apply Hm in El as [L2 El]. cbn.
        intros [= <- <-]. cbn beta in El. rewrite El by lia. split; [done|lia]. }
      revert H Hsub. destruct (skip_space s1) as [|c' s2]; [tauto|]. cbn [String.length] in L1. intros H Hsub.
      destruct c' as [[] [] [] [] [] [] [] []]; try exact (Hsub H). simplify_eq. split; [done|lia].
    - destruct (maxNestingDepth <=? d); [done|].
      assert (('(l, rest) ← json_elems fuel (d + 1) s1; Some (JArray l, rest)) = Some (v, rest) ->
        ('(l, rest) ← json_elems fuel' (d + 1) s1; Some (JArray l, rest)) = Some (v, rest) /\
        (String.length rest <= String.length s)%nat) as Hsub.
      { destruct (json_elems fuel (d + 1) s1) as [[l s2]|] eqn:El; [|done]. apply He in El as [L2 El]. cbn.
        intros [= <- <-]. cbn beta in El. rewrite El by lia. split; [done|lia]. }
      revert H Hsub. destruct (skip_space s1) as [|c' s2]; [tauto|]. cbn [String.length] in L1. intros H Hsub.
      destruct c' as [[] [] [] [] [] [] [] []]; try exact (Hsub H). simplify_eq. split; [done|lia].
    - split; [done|]. revert H. cbv zeta.
      pose proof (drop_bytes_length 4 (String c s1)) as D4. pose proof (drop_bytes_length 5 (String c s1)) as D5.
      revert D4 D5. generalize (drop_bytes 4 (String c s1)) (drop_bytes 5 (String c s1)). cbn [String.length].
      intros r4 r5 D4 D5. do 3 (case_match; [intros; simplify_eq; lia|]).
      destruct (json_number (String c s1)) as [[n s2]|] eqn:Hn; [|done]. apply json_number_length in Hn.
      cbn. intros [= <- <-]. cbn [String.length] in Hn. lia. }
  split; [by apply (Hgo (2 * String.length s)%nat)|]. intros [|fuel'] Hf; [lia|]. apply Hgo. lia.
Qed.

(** The fuel of [parse_json] is enough: more would not give another result. *)
Lemma json_value_enough fuel d s v rest fuel' :
  json_value fuel d s = Some (v, rest) -> (2 * String.length s + 1 <= fuel')%nat ->
  json_value fuel' d s = Some (v, rest).
Proof.
  intros H Hf. assert (forall n, (forall d, enough 1 (fun f => json_value f d) n) /\
    (forall d, enough 2 (fun f => json_elems f d) n) /\ (forall d, enough 2 (fun f => json_members f d) n)) as Hall.
  { induction n as [|n (Hv & He & Hm)]; [by split_and!; intros d'; apply enough_O|].
    split_and!; intros d'; [by apply json_value_enough_step|by apply json_elems_enough|by apply json_members_enough]. }
  by eapply (proj1 (Hall fuel)).
Qed.
