(* ===== verification/Config.v ===== *)
(** * The manager's configuration and the string helpers

    src/internal/util/config.go, strings.go and normalize.go. *)

From S2P Require Import Prelude.
From S2P Require Import GoErrors.
From S2P Require Import GoStrconv.
Local Open Scope Z_scope.

(** ** Config (config.go) *)

Record Config := mkConfig {
  Namespace : string;
  ReclaimSpaceTimeout : Z;        (* time.Duration, nanoseconds *)
  MaxConcurrentReconciles : Z;
  SchedulePrecedence : string;
  MaxGroupPVC : Z;
  CSIAddonsNodeRetryDelay : Z
}.

#[global] Instance Config_eq_dec : EqDecision Config.
Proof. solve_decision. Defined.

Definition csiAddonsConfigMapName := "csi-addons-config".
Definition ReclaimSpaceTimeoutKey := "reclaim-space-timeout".
Definition MaxConcurrentReconcilesKey := "max-concurrent-reconciles".
Definition defaultNamespace := "csi-addons-system".
Definition defaultMaxConcurrentReconciles : Z := 100.
Definition defaultReclaimSpaceTimeout : Z := minute * 3.
Definition SchedulePrecedenceKey := "schedule-precedence".
Definition ScheduleSC := "storageclass".
Definition SchedulePVC := "pvc".
Definition MaxGroupPVCKey := "max-group-pvcs".
Definition defaultMaxGroupPVC : Z := 100.
Definition defaultCSIAddonsNodeRetryDelay : Z := 5.
Definition CsiaddonsNodeRetryDelayKey := "csi-addons-node-retry-delay".

Definition NewConfig : Config := {|
  Namespace := defaultNamespace;
  ReclaimSpaceTimeout := defaultReclaimSpaceTimeout;
  MaxConcurrentReconciles := defaultMaxConcurrentReconciles;
  SchedulePrecedence := SchedulePVC;
  MaxGroupPVC := defaultMaxGroupPVC;
  CSIAddonsNodeRetryDelay := defaultCSIAddonsNodeRetryDelay
|}.

Definition set_ReclaimSpaceTimeout (cfg : Config) v :=
  mkConfig cfg.(Namespace) v cfg.(MaxConcurrentReconciles) cfg.(SchedulePrecedence)
    cfg.(MaxGroupPVC) cfg.(CSIAddonsNodeRetryDelay).
Definition set_MaxConcurrentReconciles (cfg : Config) v :=
  mkConfig cfg.(Namespace) cfg.(ReclaimSpaceTimeout) v cfg.(SchedulePrecedence)
    cfg.(MaxGroupPVC) cfg.(CSIAddonsNodeRetryDelay).
Definition set_SchedulePrecedence (cfg : Config) v :=
  mkConfig cfg.(Namespace) cfg.(ReclaimSpaceTimeout) cfg.(MaxConcurrentReconciles) v
    cfg.(MaxGroupPVC) cfg.(CSIAddonsNodeRetryDelay).
Definition set_MaxGroupPVC (cfg : Config) v :=
  mkConfig cfg.(Namespace) cfg.(ReclaimSpaceTimeout) cfg.(MaxConcurrentReconciles)
    cfg.(SchedulePrecedence) v cfg.(CSIAddonsNodeRetryDelay).
Definition set_CSIAddonsNodeRetryDelay (cfg : Config) v :=
  mkConfig cfg.(Namespace) cfg.(ReclaimSpaceTimeout) cfg.(MaxConcurrentReconciles)
    cfg.(SchedulePrecedence) cfg.(MaxGroupPVC) v.

Definition parse_key_error (key val kind : string) (err : error) : error :=
  WrapError ("failed to parse key " +:+ go_quote key +:+ " value " +:+ go_quote val +:+
             " as " +:+ kind +:+ ": " +:+ Error err) err.

Definition invalid_value_error (val key : string) : error :=
  ErrorString ("invalid value " +:+ go_quote val +:+ " for key " +:+ go_quote key).

(** The configuration is mutated in place; an operation returns the new
    configuration and the error, if any. *)
Definition validateAndSetSchedulePrecedence (cfg : Config) (val : string)
    : Config * option error :=
  if negb (contains [SchedulePVC; ScheduleSC; "sc-only"; ""] val)
  then (cfg, Some (invalid_value_error val SchedulePrecedenceKey))
  else
    let cfg := set_SchedulePrecedence cfg val in
    let cfg :=
      if bool_decide (val = "sc-only") then set_SchedulePrecedence cfg ScheduleSC
      else if bool_decide (val = "") then set_SchedulePrecedence cfg SchedulePVC
      else cfg in
    (cfg, None).

Definition validateAndSetCSIAddonsNodeRetryDelay (cfg : Config) (val : string)
    : Config * option error :=
  match Atoi val with
  | inl err =>
    (cfg, Some (WrapError ("failed to parse value: " +:+ go_quote val +:+ " for key: " +:+
                           go_quote CsiaddonsNodeRetryDelayKey +:+ " as int, " +:+ Error err) err))
  | inr delay =>
    if delay <? 1
    then (* %q of an int prints a character literal *)
      (cfg, Some (ErrorString ("got an invalid value: " +:+ go_quote_int delay +:+
                               " for key: " +:+ go_quote CsiaddonsNodeRetryDelayKey)))
    else (set_CSIAddonsNodeRetryDelay cfg delay, None)
  end.

(** One entry of the config map: the body of [readConfig]'s loop. *)
Definition readConfigEntry (cfg : Config) (key val : string) : Config * option error :=
  if bool_decide (key = ReclaimSpaceTimeoutKey) then
    match ParseDuration val with
    | inl err => (cfg, Some (parse_key_error ReclaimSpaceTimeoutKey val "duration" err))
    | inr timeout => (set_ReclaimSpaceTimeout cfg timeout, None)
    end
  else if bool_decide (key = MaxConcurrentReconcilesKey) then
    match Atoi val with
    | inl err => (cfg, Some (parse_key_error MaxConcurrentReconcilesKey val "int" err))
    | inr n => (set_MaxConcurrentReconciles cfg n, None)
    end
  else if bool_decide (key = SchedulePrecedenceKey) then
    validateAndSetSchedulePrecedence cfg val
  else if bool_decide (key = MaxGroupPVCKey) then
    match Atoi val with
    | inl err => (cfg, Some (parse_key_error MaxGroupPVCKey val "int" err))
    | inr n =>
      if (n <=? 0) || (100 <? n)
      then (cfg, Some (invalid_value_error val MaxGroupPVCKey))
      else (set_MaxGroupPVC cfg n, None)
    end
  else if bool_decide (key = CsiaddonsNodeRetryDelayKey) then
    validateAndSetCSIAddonsNodeRetryDelay cfg val
  else (cfg, Some (ErrorString ("unknown config key " +:+ go_quote key))).

Fixpoint readConfigEntries (cfg : Config) (entries : list (string * string))
    : Config * option error :=
  match entries with
  | [] => (cfg, None)
  | (key, val) :: entries =>
    match readConfigEntry cfg key val with
    | (cfg, Some err) => (cfg, Some err)
    | (cfg, None) => readConfigEntries cfg entries
    end
  end.

(** [readConfig]: [seed] is the order in which the run-time ranges over the
    map. *)
Definition readConfig (seed : list nat) (cfg : Config) (dataMap : gmap string string)
    : Config * option error :=
  readConfigEntries cfg (map_range seed dataMap).

(** [ReadConfigMap]: [cm] is what the API server answered for the config map. *)
Definition ReadConfigMap (seed : list nat) (cfg : Config)
    (cm : error + gmap string string) : Config * option error :=
  match cm with
  | inl err =>
    if IsNotFound err then (cfg, None)
    else (cfg, Some (WrapError ("failed to get configmap " +:+ go_quote csiAddonsConfigMapName +:+
                                ": " +:+ Error err) err))
  | inr data => readConfig seed cfg data
  end.

(** ** RemoveFromSlice (strings.go) *)
Definition RemoveFromSlice (slice : list string) (s : string) : list string :=
  delete_eq slice s.

(** ** NormalizeLeaseName (normalize.go) *)

Definition lease_char (c : ascii) : bool :=
  let n := nat_of_ascii c in
  ((97 <=? n) && (n <=? 122) || (65 <=? n) && (n <=? 90) ||
   (48 <=? n) && (n <=? 57) || (n =? 45))%nat.

(** The bytes of the rune that starts with [c], beyond the first: the regular
    expression replaces whole runes.  Only well-formed UTF-8 is longer than one
    byte. *)
Definition continuation (c : ascii) : bool :=
  let n := nat_of_ascii c in ((128 <=? n) && (n <=? 191))%nat.

Definition rune_tail (c : ascii) (s : string) : string :=
  let n := nat_of_ascii c in
  let between lo hi x := ((lo <=? nat_of_ascii x) && (nat_of_ascii x <=? hi))%nat in
  let lo2 := (if n =? 224 then 160 else if n =? 240 then 144 else 128)%nat in
  let hi2 := (if n =? 237 then 159 else if n =? 244 then 143 else 191)%nat in
  if ((194 <=? n) && (n <=? 223))%nat then
    match s with
    | String c1 s1 => if between lo2 hi2 c1 then s1 else s
    | _ => s
    end
  else if ((224 <=? n) && (n <=? 239))%nat then
    match s with
    | String c1 (String c2 s2) => if between lo2 hi2 c1 && continuation c2 then s2 else s
    | _ => s
    end
  else if ((240 <=? n) && (n <=? 244))%nat then
    match s with
    | String c1 (String c2 (String c3 s3)) =>
      if between lo2 hi2 c1 && continuation c2 && continuation c3 then s3 else s
    | _ => s
    end
  else s.

(** [re.ReplaceAllString(name, "-")] for the class [[^a-zA-Z0-9-]]; the fuel
    bounds the number of runes. *)
Fixpoint replace_runes (fuel : nat) (s : string) : string :=
  match fuel, s with
  | S fuel, String c s' =>
    if lease_char c then String c (replace_runes fuel s')
    else String "-" (replace_runes fuel (rune_tail c s'))
  | _, _ => ""
  end.

Fixpoint last_byte (s : string) : option ascii :=
  match s with
  | EmptyString => None
  | String c EmptyString => Some c
  | String _ s => last_byte s
  end.

(** [None] is the index-out-of-range panic on the empty name. *)
Definition NormalizeLeaseName (name : string) : option string :=
  let name := replace_runes (String.length name) name in
  match last_byte name with
  | None => None
  | Some c => Some (if bool_decide (c = "-"%char) then name +:+ "X" else name)
  end.

Example normalize_1 : NormalizeLeaseName "rook-ceph.rbd.csi.ceph.com" = Some "rook-ceph-rbd-csi-ceph-com".
Proof. vm_compute. reflexivity. Qed.
Example normalize_2 : NormalizeLeaseName "some.driver." = Some "some-driver-X".
Proof. vm_compute. reflexivity. Qed.

(** ** What a configuration promises *)

Definition valid_config (cfg : Config) : Prop :=
  (cfg.(SchedulePrecedence) = SchedulePVC \/ cfg.(SchedulePrecedence) = ScheduleSC) /\
  1 <= cfg.(MaxGroupPVC) <= 100 /\
  1 <= cfg.(CSIAddonsNodeRetryDelay) <= max_int64 /\
  min_int64 <= cfg.(ReclaimSpaceTimeout) <= max_int64 /\
  min_int64 <= cfg.(MaxConcurrentReconciles) <= max_int64.

Lemma NewConfig_valid : valid_config NewConfig.
Proof. repeat split; try done. by left. Qed.

Lemma validateAndSetSchedulePrecedence_valid cfg v :
  valid_config cfg -> valid_config (validateAndSetSchedulePrecedence cfg v).1.
Proof.
  intros (? & ? & ? & ? & ?). unfold validateAndSetSchedulePrecedence.
  case_match eqn:Hc; [done|]. apply negb_false_iff, contains_true in Hc.
  repeat case_bool_decide; subst; (split; [|done]); simpl; set_solver.
Qed.

Lemma validateAndSetCSIAddonsNodeRetryDelay_valid cfg v :
  valid_config cfg -> valid_config (validateAndSetCSIAddonsNodeRetryDelay cfg v).1.
Proof.
  intros (? & ? & ? & ? & ?). unfold validateAndSetCSIAddonsNodeRetryDelay.
  destruct (Atoi v) eqn:Hp; [done|]. apply Atoi_range in Hp.
  case_match eqn:Hb; [done|]. apply Z.ltb_ge in Hb. split_and!; simpl; try done; lia.
Qed.

Lemma readConfigEntry_valid cfg k v :
  valid_config cfg -> valid_config (readConfigEntry cfg k v).1.
Proof.
  intros Hcfg. pose proof Hcfg as (? & ? & ? & ? & ?). unfold readConfigEntry.
  repeat case_bool_decide; try done.
  - destruct (ParseDuration v) eqn:Hp; [done|]. by apply ParseDuration_range in Hp.
  - destruct (Atoi v) eqn:Hp; [done|]. by apply Atoi_range in Hp.
  - by apply validateAndSetSchedulePrecedence_valid.
  - destruct (Atoi v) eqn:Hp; [done|]. case_match eqn:Hb; [done|].
    split_and!; simpl; try done; lia.
  - by apply validateAndSetCSIAddonsNodeRetryDelay_valid.
Qed.

Lemma readConfigEntries_valid cfg l :
  valid_config cfg -> valid_config (readConfigEntries cfg l).1.
Proof.
  revert cfg. induction l as [|[k v] l IH]; intros cfg Hcfg; simpl; [done|].
  pose proof (readConfigEntry_valid cfg k v Hcfg).
  destruct (readConfigEntry cfg k v) as [cfg' [e|]]; [done|]. by apply IH.
Qed.

(** *** The abstract reading of a config map

    Each key of the map sets one field, independently of the others. *)

Definition entry_ok (k v : string) : Prop := (readConfigEntry NewConfig k v).2 = None.

Lemma readConfigEntry_error_indep cfg cfg' k v :
  (readConfigEntry cfg k v).2 = (readConfigEntry cfg' k v).2.
Proof.
  unfold readConfigEntry, validateAndSetSchedulePrecedence, validateAndSetCSIAddonsNodeRetryDelay.
  repeat case_bool_decide; try done; repeat case_match; done.
Qed.

Definition field (m : gmap string string) (k : string) {A} (get : Config -> A) (old : A) : A :=
  match m !! k with
  | Some v => get (readConfigEntry NewConfig k v).1
  | None => old
  end.

Definition read_spec (m : gmap string string) (cfg : Config) : Config := {|
  Namespace := cfg.(Namespace);
  ReclaimSpaceTimeout := field m ReclaimSpaceTimeoutKey ReclaimSpaceTimeout cfg.(ReclaimSpaceTimeout);
  MaxConcurrentReconciles :=
    field m MaxConcurrentReconcilesKey MaxConcurrentReconciles cfg.(MaxConcurrentReconciles);
  SchedulePrecedence := field m SchedulePrecedenceKey SchedulePrecedence cfg.(SchedulePrecedence);
  MaxGroupPVC := field m MaxGroupPVCKey MaxGroupPVC cfg.(MaxGroupPVC);
  CSIAddonsNodeRetryDelay :=
    field m CsiaddonsNodeRetryDelayKey CSIAddonsNodeRetryDelay cfg.(CSIAddonsNodeRetryDelay)
|}.

(** The five cases of the switch, as equations. *)
Lemma entry_timeout cfg v :
  readConfigEntry cfg ReclaimSpaceTimeoutKey v =
    match ParseDuration v with
    | inl err => (cfg, Some (parse_key_error ReclaimSpaceTimeoutKey v "duration" err))
    | inr timeout => (set_ReclaimSpaceTimeout cfg timeout, None)
    end.
Proof. reflexivity. Qed.

Lemma entry_reconciles cfg v :
  readConfigEntry cfg MaxConcurrentReconcilesKey v =
    match Atoi v with
    | inl err => (cfg, Some (parse_key_error MaxConcurrentReconcilesKey v "int" err))
    | inr n => (set_MaxConcurrentReconciles cfg n, None)
    end.
Proof. reflexivity. Qed.

Lemma entry_precedence cfg v :
  readConfigEntry cfg SchedulePrecedenceKey v = validateAndSetSchedulePrecedence cfg v.
Proof. reflexivity. Qed.

Lemma entry_group cfg v :
  readConfigEntry cfg MaxGroupPVCKey v =
    match Atoi v with
    | inl err => (cfg, Some (parse_key_error MaxGroupPVCKey v "int" err))
    | inr n =>
      if (n <=? 0) || (100 <? n) then (cfg, Some (invalid_value_error v MaxGroupPVCKey))
      else (set_MaxGroupPVC cfg n, None)
    end.
Proof. reflexivity. Qed.

Lemma entry_delay cfg v :
  readConfigEntry cfg CsiaddonsNodeRetryDelayKey v = validateAndSetCSIAddonsNodeRetryDelay cfg v.
Proof. reflexivity. Qed.

Lemma entry_cases cfg k v :
  (readConfigEntry cfg k v).2 = None ->
  k ∈ [ReclaimSpaceTimeoutKey; MaxConcurrentReconcilesKey; SchedulePrecedenceKey;
       MaxGroupPVCKey; CsiaddonsNodeRetryDelayKey].
Proof. unfold readConfigEntry. repeat case_bool_decide; set_solver. Qed.

Lemma field_other {A} m k v K (get : Config -> A) old :
  k ≠ K -> field (<[k:=v]> m) K get old = field m K get old.
Proof. intros. unfold field. by rewrite lookup_insert_ne. Qed.

Lemma field_set {A} m v K (get : Config -> A) old :
  field (<[K:=v]> m) K get old = get (readConfigEntry NewConfig K v).1.
Proof. unfold field. by rewrite lookup_insert_eq. Qed.

Lemma field_unset {A} m K (get : Config -> A) old : m !! K = None -> field m K get old = old.
Proof. unfold field. by intros ->. Qed.

Lemma read_spec_step cfg k v m :
  (readConfigEntry cfg k v).2 = None -> m !! k = None ->
  read_spec m (readConfigEntry cfg k v).1 = read_spec (<[k:=v]> m) cfg.
Proof.
  intros Hok Hk. pose proof (entry_cases _ _ _ Hok) as Hin.
  unfold read_spec.
  rewrite !elem_of_cons, elem_of_nil in Hin.
  destruct Hin as [->|[->|[->|[->|[->|[]]]]]];
    rewrite field_set, !field_other, (field_unset m _ _ _ Hk) by discriminate; revert Hok.
  - rewrite !entry_timeout. by destruct (ParseDuration v).
  - rewrite !entry_reconciles. by destruct (Atoi v).
  - rewrite !entry_precedence. unfold validateAndSetSchedulePrecedence.
    destruct (negb _); [done|]. by repeat case_bool_decide.
  - rewrite !entry_group. destruct (Atoi v); [done|]. by destruct (_ || _).
  - rewrite !entry_delay. unfold validateAndSetCSIAddonsNodeRetryDelay.
    destruct (Atoi v); [done|]. by destruct (_ <? 1).
Qed.

Lemma readConfigEntries_spec cfg l :
  NoDup l.*1 -> Forall (fun kv => entry_ok kv.1 kv.2) l ->
  readConfigEntries cfg l = (read_spec (list_to_map l) cfg, None).
Proof.
  revert cfg. induction l as [|[k v] l IH]; intros cfg Hnd Hok; simpl.
  { unfold read_spec, field. by destruct cfg. }
  apply NoDup_cons in Hnd as [Hk Hnd]. apply Forall_cons in Hok as [Hkv Hok].
  assert ((readConfigEntry cfg k v).2 = None) as He
    by (by rewrite (readConfigEntry_error_indep cfg NewConfig)).
  rewrite <- (read_spec_step cfg k v) by (done || by apply not_elem_of_list_to_map_1).
  destruct (readConfigEntry cfg k v) as [cfg' e]; simpl in *; subst. by apply IH.
Qed.

Lemma readConfigEntries_ok cfg l :
  (readConfigEntries cfg l).2 = None <-> Forall (fun kv => entry_ok kv.1 kv.2) l.
Proof.
  revert cfg. induction l as [|[k v] l IH]; intros cfg; simpl; [by split|].
  rewrite Forall_cons. unfold entry_ok at 1. simpl.
  rewrite (readConfigEntry_error_indep NewConfig cfg).
  destruct (readConfigEntry cfg k v) as [cfg' [e|]]; simpl; [naive_solver|].
  rewrite IH. naive_solver.
Qed.

Lemma map_range_entry_ok seed m :
  Forall (fun kv => entry_ok kv.1 kv.2) (map_range seed m) <-> map_Forall entry_ok m.
Proof.
  rewrite Forall_forall. split.
  - intros H k v Hkv. by apply (H (k, v)), elem_of_map_range.
  - intros H [k v] Hkv%elem_of_map_range. by apply H.
Qed.

Lemma map_range_NoDup {V} seed (m : gmap string V) : NoDup (map_range seed m).*1.
Proof.
  unfold map_range. rewrite pick_order_Permutation. apply NoDup_fst_map_to_list.
Qed.

Lemma map_range_map {V} seed (m : gmap string V) : list_to_map (map_range seed m) = m.
Proof.
  rewrite <- (list_to_map_to_list m) at 2. apply list_to_map_proper.
  - apply map_range_NoDup.
  - apply pick_order_Permutation.
Qed.

(** *** Lease names *)

Fixpoint string_forall (P : ascii -> bool) (s : string) : bool :=
  match s with
  | EmptyString => true
  | String c s => P c && string_forall P s
  end.

Lemma replace_runes_lease fuel s : string_forall lease_char (replace_runes fuel s) = true.
Proof.
  revert s. induction fuel as [|fuel IH]; intros [|c s]; simpl; try done.
  destruct (lease_char c) eqn:Hc; cbn [string_forall]; rewrite IH; [by rewrite Hc|done].
Qed.

Lemma replace_runes_id fuel s :
  (String.length s <= fuel)%nat -> string_forall lease_char s = true ->
  replace_runes fuel s = s.
Proof.
  revert s. induction fuel as [|fuel IH]; intros [|c s]; simpl; try (done || lia).
  intros Hl [Hc Hs]%andb_true_iff. rewrite Hc, IH; [done|lia|done].
Qed.

Lemma last_byte_snoc s c : last_byte (s +:+ String c "") = Some c.
Proof.
  induction s as [|c' s IH]; [done|]. simpl. rewrite IH.
  by destruct s.
Qed.

Lemma string_forall_app P s1 s2 :
  string_forall P (s1 +:+ s2) = string_forall P s1 && string_forall P s2.
Proof. induction s1 as [|c s1 IH]; [done|]. simpl. rewrite IH. apply andb_assoc. Qed.

Lemma last_byte_None s : last_byte s = None <-> s = "".
Proof.
  split; [|by intros ->]. induction s as [|c s IH]; [done|]. simpl.
  destruct s; [done|]. intros H. by specialize (IH H).
Qed.

Lemma replace_runes_nonempty s : s ≠ "" -> replace_runes (String.length s) s ≠ "".
Proof. destruct s as [|c s]; [done|]. simpl. by destruct (lease_char c). Qed.

Lemma NormalizeLeaseName_None name : NormalizeLeaseName name = None -> name = "".
Proof.
  unfold NormalizeLeaseName. destruct (last_byte _) eqn:Hl; [done|]. intros _.
  apply last_byte_None in Hl. destruct (decide (name = "")) as [|Hne]; [done|].
  by apply replace_runes_nonempty in Hne.
Qed.

(** ** Properties *)

(** However the run-time orders the config map and whether or not reading it
    fails, the manager is left with a valid configuration: a known schedule
    precedence, a group size between 1 and 100, a retry delay of at least a
    second, and 64-bit numbers. *)
Theorem readConfig_keeps_valid seed cm :
  valid_config (ReadConfigMap seed NewConfig cm).1.
Proof.
  unfold ReadConfigMap. destruct cm as [err|m].
  - destruct (IsNotFound err); apply NewConfig_valid.
  - apply readConfigEntries_valid, NewConfig_valid.
Qed.

(** Reading a config map succeeds exactly when every entry is acceptable on
    its own, and then sets each field from its own key only: the order in which
    Go ranges over the map does not matter. *)
Theorem readConfig_refines_spec seed cfg m :
  match readConfig seed cfg m with
  | (cfg', None) => map_Forall entry_ok m /\ cfg' = read_spec m cfg
  | (_, Some _) => ~ map_Forall entry_ok m
  end.
Proof.
  unfold readConfig. pose proof (readConfigEntries_ok cfg (map_range seed m)) as Hok.
  rewrite map_range_entry_ok in Hok.
  destruct (readConfigEntries cfg (map_range seed m)) as [cfg' [e|]] eqn:Hr;
    simpl in Hok; [naive_solver|].
  assert (map_Forall entry_ok m) as Hm by naive_solver. split; [done|].
  rewrite readConfigEntries_spec in Hr;
    [|apply map_range_NoDup|by apply map_range_entry_ok].
  rewrite map_range_map in Hr. by simplify_eq.
Qed.

(** The entries that the documentation of the operator allows, and the older spellings
    of the precedence. *)
Definition acceptable (k v : string) : Prop :=
  (k = "reclaim-space-timeout" /\ exists d, ParseDuration v = inr d) \/
  (k = "max-concurrent-reconciles" /\ exists n, Atoi v = inr n) \/
  (k = "schedule-precedence" /\ v ∈ ["pvc"; "storageclass"; "sc-only"; ""]) \/
  (k = "max-group-pvcs" /\ exists n, Atoi v = inr n /\ 1 <= n <= 100) \/
  (k = "csi-addons-node-retry-delay" /\ exists n, Atoi v = inr n /\ 1 <= n).

(** The value of a key, if it is there. *)
Definition given {A} (m : gmap string string) (k : string) (parse : string -> option A) (old : A) : A :=
  default old (m !! k ≫= parse).
Definition number (v : string) : option Z := match Atoi v with inr n => Some n | inl _ => None end.

Definition configured (m : gmap string string) (cfg : Config) : Config := {|
  Namespace := cfg.(Namespace);
  ReclaimSpaceTimeout :=
    given m "reclaim-space-timeout" (fun v => match ParseDuration v with inr d => Some d | inl _ => None end) cfg.(ReclaimSpaceTimeout);
  MaxConcurrentReconciles := given m "max-concurrent-reconciles" number cfg.(MaxConcurrentReconciles);
  SchedulePrecedence := given m "schedule-precedence"
    (fun v => Some (if bool_decide (v ∈ ["storageclass"; "sc-only"]) then "storageclass" else "pvc")) cfg.(SchedulePrecedence);
  MaxGroupPVC := given m "max-group-pvcs" number cfg.(MaxGroupPVC);
  CSIAddonsNodeRetryDelay := given m "csi-addons-node-retry-delay" number cfg.(CSIAddonsNodeRetryDelay)
|}.

Lemma entry_ok_acceptable k v : entry_ok k v <-> acceptable k v.
Proof.
  unfold entry_ok, acceptable. split.
  - intros Hok. pose proof (entry_cases _ _ _ Hok) as Hin. rewrite !elem_of_cons, elem_of_nil in Hin.
    destruct Hin as [->|[->|[->|[->|[->|[]]]]]].
    + rewrite entry_timeout in Hok. destruct (ParseDuration v) as [|d] eqn:Hd; [done|]. left. eauto.
    + rewrite entry_reconciles in Hok. destruct (Atoi v) as [|n] eqn:Hn; [done|]. right; left. eauto.
    + rewrite entry_precedence in Hok. unfold validateAndSetSchedulePrecedence in Hok.
      destruct (contains _ v) eqn:Hc; [|done]. apply contains_true in Hc. right; right; left. split; [done|]. set_solver.
    + rewrite entry_group in Hok. destruct (Atoi v) as [|n] eqn:Hn; [done|]. do 3 right; left. split; [done|]. exists n.
      split; [done|]. destruct (Z.leb_spec n 0), (Z.ltb_spec 100 n); cbn in Hok; (done || lia).
    + rewrite entry_delay in Hok. unfold validateAndSetCSIAddonsNodeRetryDelay in Hok.
      destruct (Atoi v) as [|n] eqn:Hn; [done|]. do 4 right. split; [done|]. exists n. split; [done|].
      destruct (Z.ltb_spec n 1); (done || lia).
  - intros [[-> [d Hd]]|[[-> [n Hn]]|[[-> Hv]|[[-> (n & Hn & Hr)]|[-> (n & Hn & Hr)]]]]].
    + change (readConfigEntry NewConfig _ v) with (readConfigEntry NewConfig ReclaimSpaceTimeoutKey v).
      by rewrite entry_timeout, Hd.
    + change (readConfigEntry NewConfig _ v) with (readConfigEntry NewConfig MaxConcurrentReconcilesKey v).
      by rewrite entry_reconciles, Hn.
    + change (readConfigEntry NewConfig _ v) with (readConfigEntry NewConfig SchedulePrecedenceKey v).
      rewrite entry_precedence. unfold validateAndSetSchedulePrecedence.
      by rewrite (proj2 (contains_true _ _)) by set_solver.
    + change (readConfigEntry NewConfig _ v) with (readConfigEntry NewConfig MaxGroupPVCKey v).
      rewrite entry_group, Hn. destruct (Z.leb_spec n 0), (Z.ltb_spec 100 n); (done || lia).
    + change (readConfigEntry NewConfig _ v) with (readConfigEntry NewConfig CsiaddonsNodeRetryDelayKey v).
      rewrite entry_delay. unfold validateAndSetCSIAddonsNodeRetryDelay. rewrite Hn.
      destruct (Z.ltb_spec n 1); (done || lia).
Qed.

(** A field of the specification is the value given for its key. *)
Lemma field_given {A} (m : gmap string string) k (get : Config -> A) parse old :
  map_Forall entry_ok m ->
  (forall v, entry_ok k v -> parse v = Some (get (readConfigEntry NewConfig k v).1)) ->
  field m k get old = given m k parse old.
Proof.
  intros Hm Hp. unfold field, given. destruct (m !! k) as [v|] eqn:Hk; [|done]. cbn. by rewrite (Hp v (Hm k v Hk)).
Qed.

Lemma read_spec_configured m cfg : map_Forall entry_ok m -> read_spec m cfg = configured m cfg.
Proof.
  intros Hm. unfold read_spec, configured, number. f_equal; apply (field_given m); try done; intros v; unfold entry_ok.
  - rewrite entry_timeout. by destruct (ParseDuration v).
  - rewrite entry_reconciles. by destruct (Atoi v).
  - rewrite entry_precedence. unfold validateAndSetSchedulePrecedence. destruct (contains _ v) eqn:Hc; [|done].
    apply contains_true in Hc. cbn [negb]. intros _. repeat (apply elem_of_cons in Hc as [->|Hc]); try done. by apply elem_of_nil in Hc.
  - rewrite entry_group. destruct (Atoi v); [done|]. by destruct (_ || _).
  - rewrite entry_delay. unfold validateAndSetCSIAddonsNodeRetryDelay. destruct (Atoi v); [done|]. by destruct (_ <? 1).
Qed.

(** C28: Reading the configuration, whatever the API server answers and in whatever order
    the entries are ranged over: without a config map nothing changes and any other
    error is returned; with one the reading fails exactly when some entry has an
    unknown key or a value that is not allowed for it (a duration, a number, a known
    precedence, a group size from 1 to 100, a delay of at least 1), and otherwise every
    field has the value given for its key, older spellings of the precedence
    translated, or the one it had. *)
Theorem config_map_exact seed cfg cm :
  match cm with
  | inl err =>
    (ReadConfigMap seed cfg cm).1 = cfg /\ ((ReadConfigMap seed cfg cm).2 = None <-> IsNotFound err = true)
  | inr m =>
    match ReadConfigMap seed cfg cm with
    | (cfg', None) => map_Forall acceptable m /\ cfg' = configured m cfg
    | (_, Some _) => exists k v, m !! k = Some v /\ ~ acceptable k v
    end
  end.
Proof.
  destruct cm as [err|m]; unfold ReadConfigMap; [by destruct (IsNotFound err)|].
  pose proof (readConfig_refines_spec seed cfg m) as Hspec. destruct (readConfig seed cfg m) as [cfg' [err|]].
  - apply map_not_Forall in Hspec as (k & v & Hk & Hno); [|intros k v; unfold entry_ok; apply _].
    exists k, v. split; [done|]. by rewrite <- entry_ok_acceptable.
  - destruct Hspec as [Hm ->]. split; [|by apply read_spec_configured]. intros k v Hk. by apply entry_ok_acceptable, Hm.
Qed.

(** NormalizeLeaseName panics exactly on the empty name; otherwise its
    result is a valid lease-name fragment (alphanumerics and dashes, not ending
    in a dash) on which it is the identity. *)
Theorem NormalizeLeaseName_spec name :
  match NormalizeLeaseName name with
  | None => name = ""
  | Some n => string_forall lease_char n = true /\ last_byte n ≠ Some "-"%char /\
              NormalizeLeaseName n = Some n
  end.
Proof.
  assert (forall n c, string_forall lease_char n = true -> last_byte n = Some c ->
    c ≠ "-"%char -> NormalizeLeaseName n = Some n) as Hid.
  { intros n c Hn Hl Hc. unfold NormalizeLeaseName.
    rewrite replace_runes_id, Hl by done. by rewrite bool_decide_eq_false_2. }
  pose proof (replace_runes_lease (String.length name) name) as Hlc.
  pose proof (NormalizeLeaseName_None name) as HNone. revert HNone.
  unfold NormalizeLeaseName at 1 2. set (n := replace_runes _ _) in *. intros HNone.
  destruct (last_byte n) as [c|] eqn:Hl; [|by apply HNone].
  - case_bool_decide as Hc.
    + rewrite last_byte_snoc. assert (string_forall lease_char (n +:+ "X") = true) as HX
        by (by rewrite string_forall_app, Hlc).
      split_and!; [done..|]. by apply (Hid _ "X"%char); [|apply last_byte_snoc|].
    + rewrite Hl. split_and!; [done|naive_solver|]. by apply (Hid _ c).
Qed.
