(* ===== verification/ApiTypes.v ===== *)
(** * Kubernetes objects

    The replication.storage API types (src/api/replication.storage/v1alpha1) and
    the parts of the core types the replication controllers use.  Pointers that
    may be nil are options; a nil map or slice is the empty one, except where
    the code distinguishes them ([PersistentVolumeClaimsRefList]). *)

From S2P Require Import Prelude.

(** ** metav1 *)

Record OwnerReference := mkOwnerReference {
  or_APIVersion : string; or_Kind : string; or_Name : string; or_UID : string;
  or_Controller : option bool; or_BlockOwnerDeletion : option bool
}.

Record ObjectMeta := mkObjectMeta {
  Name : string;
  Namespace : string;
  UID : string;
  Generation : Z;
  CreationTimestamp : option Z;
  DeletionTimestamp : option Z;
  Annotations : gmap string string;
  Labels : gmap string string;
  Finalizers : list string;
  OwnerReferences : list OwnerReference
}.

(** An object under the given name with every other field at its zero value. *)
Definition new_meta (ns name : string) : ObjectMeta := {|
  Name := name; Namespace := ns; UID := ""; Generation := 0;
  CreationTimestamp := None; DeletionTimestamp := None;
  Annotations := ∅; Labels := ∅; Finalizers := []; OwnerReferences := []
|}.

Definition set_Annotations (m : ObjectMeta) (a : gmap string string) : ObjectMeta :=
  mkObjectMeta m.(Name) m.(Namespace) m.(UID) m.(Generation) m.(CreationTimestamp)
    m.(DeletionTimestamp) a m.(Labels) m.(Finalizers) m.(OwnerReferences).
Definition set_Finalizers (m : ObjectMeta) (f : list string) : ObjectMeta :=
  mkObjectMeta m.(Name) m.(Namespace) m.(UID) m.(Generation) m.(CreationTimestamp)
    m.(DeletionTimestamp) m.(Annotations) m.(Labels) f m.(OwnerReferences).
Definition set_OwnerReferences (m : ObjectMeta) (o : list OwnerReference) : ObjectMeta :=
  mkObjectMeta m.(Name) m.(Namespace) m.(UID) m.(Generation) m.(CreationTimestamp)
    m.(DeletionTimestamp) m.(Annotations) m.(Labels) m.(Finalizers) o.

(** metav1.Condition and its statuses. *)
Inductive ConditionStatus := ConditionTrue | ConditionFalse | ConditionUnknown.

Record Condition := mkCondition {
  c_Type : string;
  c_Status : ConditionStatus;
  c_ObservedGeneration : Z;
  c_LastTransitionTime : Z;
  c_Reason : string;
  c_Message : string
}.

(** types.NamespacedName; cluster-scoped objects have the empty namespace. *)
Record NamespacedName := mkNamespacedName { nn_Namespace : string; nn_Name : string }.

#[global] Instance ConditionStatus_eq_dec : EqDecision ConditionStatus.
Proof. solve_decision. Defined.
#[global] Instance Condition_eq_dec : EqDecision Condition.
Proof. solve_decision. Defined.
#[global] Instance OwnerReference_eq_dec : EqDecision OwnerReference.
Proof. solve_decision. Defined.
#[global] Instance ObjectMeta_eq_dec : EqDecision ObjectMeta.
Proof. solve_decision. Defined.
#[global] Instance NamespacedName_eq_dec : EqDecision NamespacedName.
Proof. solve_decision. Defined.

(** The interface of metav1.Object: every API object carries metadata. *)
Class HasMeta (A : Type) := {
  meta : A -> ObjectMeta;
  set_meta : A -> ObjectMeta -> A;
  meta_set_meta : forall a m, meta (set_meta a m) = m
}.

Definition obj_Name {A} `{HasMeta A} (a : A) : string := (meta a).(Name).
Definition obj_Namespace {A} `{HasMeta A} (a : A) : string := (meta a).(Namespace).
Definition obj_key {A} `{HasMeta A} (a : A) : NamespacedName :=
  mkNamespacedName (obj_Namespace a) (obj_Name a).
Definition annotation {A} `{HasMeta A} (a : A) (k : string) : string :=
  map_get (meta a).(Annotations) k.
Definition finalizers {A} `{HasMeta A} (a : A) : list string := (meta a).(Finalizers).
Definition is_deleting {A} `{HasMeta A} (a : A) : bool :=
  bool_decide (is_Some (meta a).(DeletionTimestamp)).
Definition with_annotations {A} `{HasMeta A} (a : A) (m : gmap string string) : A :=
  set_meta a (set_Annotations (meta a) m).
Definition with_finalizers {A} `{HasMeta A} (a : A) (l : list string) : A :=
  set_meta a (set_Finalizers (meta a) l).

Lemma finalizers_with {A} `{HasMeta A} (a : A) l : finalizers (with_finalizers a l) = l.
Proof. unfold finalizers, with_finalizers. by rewrite meta_set_meta. Qed.

Lemma annotation_with {A} `{HasMeta A} (a : A) m k :
  annotation (with_annotations a m) k = map_get m k.
Proof. unfold annotation, with_annotations. by rewrite meta_set_meta. Qed.

Lemma is_deleting_with_finalizers {A} `{HasMeta A} (a : A) l :
  is_deleting (with_finalizers a l) = is_deleting a.
Proof. unfold is_deleting, with_finalizers. by rewrite meta_set_meta. Qed.

(** ** Core objects *)

Record CSIVolumeSource := mkCSI { csi_Driver : string; csi_VolumeHandle : string }.

Record PersistentVolume := mkPV {
  pv_meta : ObjectMeta;
  pv_CSI : option CSIVolumeSource
}.

Record PersistentVolumeClaim := mkPVC {
  pvc_meta : ObjectMeta;
  pvc_VolumeName : string;
  pvc_StorageClassName : option string;
  pvc_Phase : string
}.

Definition ClaimBound : string := "Bound".

(** coordination.k8s.io Lease. *)
Record Lease := mkLease {
  lease_meta : ObjectMeta;
  HolderIdentity : option string
}.

Record ObjectReference := mkObjectReference {
  ref_APIVersion : string; ref_Kind : string; ref_Name : string;
  ref_Namespace : string; ref_UID : string
}.

(** corev1.TypedLocalObjectReference. *)
Record DataSourceRef := mkDataSource {
  ds_APIGroup : option string; ds_Kind : string; ds_Name : string
}.

(** ** replication.storage/v1alpha1 *)

Definition VolumeReplicationNameAnnotation :=
  "replication.storage.openshift.io/volume-replication-name".
Definition VolumeGroupReplicationNameAnnotation :=
  "replication.storage.openshift.io/volume-group-replication-name".
Definition VolumeGroupReplicationContentNameAnnotation :=
  "replication.storage.openshift.io/volume-group-replication-content-name".

(** ReplicationState: the operation the user asks for. *)
Definition Primary := "primary".
Definition Secondary := "secondary".
Definition Resync := "resync".

(** State: what the operator last achieved. *)
Definition PrimaryState := "Primary".
Definition SecondaryState := "Secondary".
Definition UnknownState := "Unknown".

Record VolumeReplicationSpec := mkVRSpec {
  VolumeReplicationClass : string;
  vr_ReplicationState : string;
  DataSource : DataSourceRef;
  vr_AutoResync : bool;
  ReplicationHandle : string
}.

Record VolumeReplicationStatus := mkVRStatus {
  State : string;
  Message : string;
  Conditions : list Condition;
  ObservedGeneration : Z;
  LastStartTime : option Z;
  LastCompletionTime : option Z;
  LastSyncTime : option Z;
  LastSyncBytes : option Z;
  LastSyncDuration : option Z
}.

Record VolumeReplication := mkVR {
  vr_meta : ObjectMeta;
  vr_Spec : VolumeReplicationSpec;
  vr_Status : VolumeReplicationStatus
}.

(** VolumeReplicationClass and VolumeGroupReplicationClass have the same spec. *)
Record ReplicationClass := mkClass {
  class_meta : ObjectMeta;
  Provisioner : string;
  Parameters : gmap string string
}.

(** metav1.LabelSelector, of which only the identity matters here: its meaning
    is apimachinery's. *)
Record LabelSelector := mkLabelSelector {
  MatchLabels : gmap string string;
  MatchExpressions : list (string * string * list string)
}.

Record VolumeGroupReplicationSpec := mkVGRSpec {
  vgr_VolumeGroupReplicationClassName : string;
  vgr_VolumeReplicationClassName : string;
  vgr_VolumeReplicationName : string;
  vgr_VolumeGroupReplicationContentName : string;
  vgr_Selector : option LabelSelector;
  vgr_ReplicationState : string;
  vgr_AutoResync : bool;
  vgr_External : bool
}.

(** [PersistentVolumeClaimsRefList] is [None] when nil: [reflect.DeepEqual] and
    the deletion path tell nil from empty. *)
Record VolumeGroupReplicationStatus := mkVGRStatus {
  VolumeReplicationStatusOf : VolumeReplicationStatus;
  PersistentVolumeClaimsRefList : option (list string)
}.

Record VolumeGroupReplication := mkVGR {
  vgr_APIVersion : string;
  vgr_Kind : string;
  vgr_meta : ObjectMeta;
  vgr_Spec : VolumeGroupReplicationSpec;
  vgr_Status : VolumeGroupReplicationStatus
}.

Record VolumeGroupReplicationContentSpec := mkVGRCSpec {
  vgrc_VolumeGroupReplicationRef : option ObjectReference;
  vgrc_VolumeGroupReplicationHandle : string;
  vgrc_Provisioner : string;
  vgrc_VolumeGroupReplicationClassName : string;
  vgrc_VolumeGroupAttributes : gmap string string;
  vgrc_VolumeHandles : list string
}.

Record VolumeGroupReplicationContent := mkVGRC {
  vgrc_meta : ObjectMeta;
  vgrc_Spec : VolumeGroupReplicationContentSpec;
  vgrc_PersistentVolumeRefList : list string
}.

#[global] Instance ObjectReference_eq_dec : EqDecision ObjectReference.
Proof. solve_decision. Defined.
#[global] Instance DataSourceRef_eq_dec : EqDecision DataSourceRef.
Proof. solve_decision. Defined.
#[global] Instance VolumeReplicationSpec_eq_dec : EqDecision VolumeReplicationSpec.
Proof. solve_decision. Defined.
#[global] Instance VolumeReplicationStatus_eq_dec : EqDecision VolumeReplicationStatus.
Proof. solve_decision. Defined.
#[global] Instance VolumeReplication_eq_dec : EqDecision VolumeReplication.
Proof. solve_decision. Defined.
#[global] Instance VGRCSpec_eq_dec : EqDecision VolumeGroupReplicationContentSpec.
Proof. solve_decision. Defined.
#[global] Instance VGRC_eq_dec : EqDecision VolumeGroupReplicationContent.
Proof. solve_decision. Defined.

#[global, refine] Instance VR_HasMeta : HasMeta VolumeReplication := {|
  meta := vr_meta; set_meta vr m := mkVR m vr.(vr_Spec) vr.(vr_Status) |}.
Proof. done. Defined.
#[global, refine] Instance PVC_HasMeta : HasMeta PersistentVolumeClaim := {|
  meta := pvc_meta; set_meta p m := mkPVC m p.(pvc_VolumeName) p.(pvc_StorageClassName) p.(pvc_Phase) |}.
Proof. done. Defined.
#[global, refine] Instance VGR_HasMeta : HasMeta VolumeGroupReplication := {|
  meta := vgr_meta;
  set_meta v m := mkVGR v.(vgr_APIVersion) v.(vgr_Kind) m v.(vgr_Spec) v.(vgr_Status) |}.
Proof. done. Defined.
#[global, refine] Instance VGRC_HasMeta : HasMeta VolumeGroupReplicationContent := {|
  meta := vgrc_meta;
  set_meta v m := mkVGRC m v.(vgrc_Spec) v.(vgrc_PersistentVolumeRefList) |}.
Proof. done. Defined.
#[global, refine] Instance Lease_HasMeta : HasMeta Lease := {|
  meta := lease_meta; set_meta l m := mkLease m l.(HolderIdentity) |}.
Proof. done. Defined.

(** Field updates of the VolumeReplication status. *)
Definition vr_set_status (vr : VolumeReplication) (s : VolumeReplicationStatus) :=
  mkVR vr.(vr_meta) vr.(vr_Spec) s.
Definition set_Conditions (s : VolumeReplicationStatus) (c : list Condition) :=
  mkVRStatus s.(State) s.(Message) c s.(ObservedGeneration) s.(LastStartTime)
    s.(LastCompletionTime) s.(LastSyncTime) s.(LastSyncBytes) s.(LastSyncDuration).
Definition set_LastStartTime (s : VolumeReplicationStatus) (t : option Z) :=
  mkVRStatus s.(State) s.(Message) s.(Conditions) s.(ObservedGeneration) t
    s.(LastCompletionTime) s.(LastSyncTime) s.(LastSyncBytes) s.(LastSyncDuration).
Definition set_LastCompletionTime (s : VolumeReplicationStatus) (t : option Z) :=
  mkVRStatus s.(State) s.(Message) s.(Conditions) s.(ObservedGeneration) s.(LastStartTime)
    t s.(LastSyncTime) s.(LastSyncBytes) s.(LastSyncDuration).
Definition set_LastSync (s : VolumeReplicationStatus) (t b d : option Z) :=
  mkVRStatus s.(State) s.(Message) s.(Conditions) s.(ObservedGeneration) s.(LastStartTime)
    s.(LastCompletionTime) t b d.
Definition set_State (s : VolumeReplicationStatus) (st msg : string) (gen : Z) :=
  mkVRStatus st msg s.(Conditions) gen s.(LastStartTime)
    s.(LastCompletionTime) s.(LastSyncTime) s.(LastSyncBytes) s.(LastSyncDuration).
