(* ===== verification/CsiaddonsTypes.v ===== *)
(** * The csiaddons API types

    src/api/csiaddons/v1alpha1 and the core objects only the csiaddons
    controllers use.  The job and cron-job types of ReclaimSpace and
    EncryptionKeyRotation have the same fields (but for ReclaimedSpace), so they
    share their spec and status records; the objects themselves are distinct. *)

From S2P Require Import Prelude.
From S2P Require Import ApiTypes.

(** ** Core objects *)

(** storage.k8s.io VolumeAttachment: the volume it names, if it names one. *)
Record VolumeAttachment := mkVA {
  va_meta : ObjectMeta;
  va_PersistentVolumeName : option string;
  va_NodeName : string;
  va_Attached : bool
}.

Record Pod := mkPod { pod_meta : ObjectMeta; PodIP : string }.
Record NamespaceObj := mkNamespace { ns_meta : ObjectMeta }.
Record StorageClass := mkStorageClass { sc_meta : ObjectMeta }.

(** ** CSIAddonsNode *)

Definition CSIAddonsNodeStateConnected := "Connected".
Definition CSIAddonsNodeStateFailed := "Failed".
Definition CSIAddonsNodeStateRetrying := "Retrying".

Record ClientDetail := mkClientDetail { cd_Id : string; cd_Cidrs : list string }.

Record NetworkFenceClientStatus := mkNFClientStatus {
  NetworkFenceClassName : string;
  ClientDetails : list ClientDetail
}.

Record CSIAddonsNodeDriver := mkNodeDriver {
  drv_Name : string; drv_EndPoint : string; drv_NodeID : string
}.

Record CSIAddonsNodeStatus := mkNodeStatus {
  ns_State : string;
  ns_Message : string;
  ns_Reason : string;
  ns_Capabilities : list string;
  ns_NetworkFenceClientStatus : list NetworkFenceClientStatus
}.

Record CSIAddonsNode := mkNode {
  node_meta : ObjectMeta;
  node_Driver : CSIAddonsNodeDriver;
  node_Status : CSIAddonsNodeStatus
}.

(** ** NetworkFence *)

Definition Fenced := "Fenced".
Definition Unfenced := "Unfenced".
Definition FencingOperationResultSucceeded := "Succeeded".
Definition FencingOperationResultFailed := "Failed".
Definition FenceOperationSuccessfulMessage := "fencing operation successful".
Definition UnFenceOperationSuccessfulMessage := "unfencing operation successful".

(** [nf_Cidrs] and [nf_Parameters] are [None] when nil: validation tells nil from
    empty, and a non-nil parameter map is shared with the request. *)
Record NetworkFenceSpec := mkNFSpec {
  nf_NetworkFenceClassName : string;
  nf_Driver : string;
  nf_FenceState : string;
  nf_Cidrs : option (list string);
  nf_SecretName : string;
  nf_SecretNamespace : string;
  nf_Parameters : option (gmap string string)
}.

Record NetworkFenceStatus := mkNFStatus { nf_Result : string; nf_Message : string }.

Record NetworkFence := mkNF {
  nf_meta : ObjectMeta;
  nf_Spec : NetworkFenceSpec;
  nf_Status : NetworkFenceStatus
}.

Record NetworkFenceClass := mkNFClass {
  nfc_meta : ObjectMeta;
  nfc_Provisioner : string;
  nfc_Parameters : gmap string string
}.

(** ** Jobs *)

Definition OperationResultSucceeded := "Succeeded".
Definition OperationResultFailed := "Failed".

(** int32 BackoffLimit, int64 RetryDeadlineSeconds, *int64 Timeout. *)
Record JobSpec := mkJobSpec {
  TargetPVC : string;
  BackoffLimit : Z;
  RetryDeadlineSeconds : Z;
  job_Timeout : option Z
}.

Record JobStatus := mkJobStatus {
  js_Result : string;
  js_Message : string;
  js_ReclaimedSpace : option Z;
  js_Conditions : list Condition;
  js_Retries : Z;
  js_StartTime : option Z;
  js_CompletionTime : option Z
}.

Record ReclaimSpaceJob := mkRSJob {
  rsj_meta : ObjectMeta; rsj_Spec : JobSpec; rsj_Status : JobStatus
}.
Record EncryptionKeyRotationJob := mkKRJob {
  krj_meta : ObjectMeta; krj_Spec : JobSpec; krj_Status : JobStatus
}.

(** ** Cron jobs *)

Definition ForbidConcurrent := "Forbid".
Definition ReplaceConcurrent := "Replace".

Record JobTemplate := mkJobTemplate {
  jt_Labels : gmap string string;
  jt_Annotations : gmap string string;
  jt_Spec : JobSpec
}.

Record CronJobSpec := mkCronJobSpec {
  Schedule : string;
  StartingDeadlineSeconds : option Z;
  ConcurrencyPolicy : string;
  Suspend : option bool;
  cj_JobSpec : JobTemplate;
  SuccessfulJobsHistoryLimit : option Z;
  FailedJobsHistoryLimit : option Z
}.

Record CronJobStatus := mkCronJobStatus {
  cj_Active : option ObjectReference;
  LastScheduleTime : option Z;
  LastSuccessfulTime : option Z
}.

Record ReclaimSpaceCronJob := mkRSCronJob {
  rscj_meta : ObjectMeta; rscj_Spec : CronJobSpec; rscj_Status : CronJobStatus
}.
Record EncryptionKeyRotationCronJob := mkKRCronJob {
  krcj_meta : ObjectMeta; krcj_Spec : CronJobSpec; krcj_Status : CronJobStatus
}.

#[global] Instance ClientDetail_eq_dec : EqDecision ClientDetail.
Proof. solve_decision. Defined.
#[global] Instance NetworkFenceClientStatus_eq_dec : EqDecision NetworkFenceClientStatus.
Proof. solve_decision. Defined.
#[global] Instance CSIAddonsNodeDriver_eq_dec : EqDecision CSIAddonsNodeDriver.
Proof. solve_decision. Defined.
#[global] Instance CSIAddonsNodeStatus_eq_dec : EqDecision CSIAddonsNodeStatus.
Proof. solve_decision. Defined.
#[global] Instance CSIAddonsNode_eq_dec : EqDecision CSIAddonsNode.
Proof. solve_decision. Defined.
#[global] Instance JobSpec_eq_dec : EqDecision JobSpec.
Proof. solve_decision. Defined.
#[global] Instance JobTemplate_eq_dec : EqDecision JobTemplate.
Proof. solve_decision. Defined.
#[global] Instance CronJobSpec_eq_dec : EqDecision CronJobSpec.
Proof. solve_decision. Defined.

#[global, refine] Instance VA_HasMeta : HasMeta VolumeAttachment := {|
  meta := va_meta;
  set_meta v m := mkVA m v.(va_PersistentVolumeName) v.(va_NodeName) v.(va_Attached) |}.
Proof. done. Defined.
#[global, refine] Instance PV_HasMeta : HasMeta PersistentVolume := {|
  meta := pv_meta; set_meta p m := mkPV m p.(pv_CSI) |}.
Proof. done. Defined.
#[global, refine] Instance Namespace_HasMeta : HasMeta NamespaceObj := {|
  meta := ns_meta; set_meta n m := mkNamespace m |}.
Proof. done. Defined.
#[global, refine] Instance StorageClass_HasMeta : HasMeta StorageClass := {|
  meta := sc_meta; set_meta s m := mkStorageClass m |}.
Proof. done. Defined.
#[global, refine] Instance Node_HasMeta : HasMeta CSIAddonsNode := {|
  meta := node_meta; set_meta n m := mkNode m n.(node_Driver) n.(node_Status) |}.
Proof. done. Defined.
#[global, refine] Instance NF_HasMeta : HasMeta NetworkFence := {|
  meta := nf_meta; set_meta n m := mkNF m n.(nf_Spec) n.(nf_Status) |}.
Proof. done. Defined.
#[global, refine] Instance NFClass_HasMeta : HasMeta NetworkFenceClass := {|
  meta := nfc_meta; set_meta n m := mkNFClass m n.(nfc_Provisioner) n.(nfc_Parameters) |}.
Proof. done. Defined.
#[global, refine] Instance RSJob_HasMeta : HasMeta ReclaimSpaceJob := {|
  meta := rsj_meta; set_meta j m := mkRSJob m j.(rsj_Spec) j.(rsj_Status) |}.
Proof. done. Defined.
#[global, refine] Instance KRJob_HasMeta : HasMeta EncryptionKeyRotationJob := {|
  meta := krj_meta; set_meta j m := mkKRJob m j.(krj_Spec) j.(krj_Status) |}.
Proof. done. Defined.
#[global, refine] Instance RSCronJob_HasMeta : HasMeta ReclaimSpaceCronJob := {|
  meta := rscj_meta; set_meta j m := mkRSCronJob m j.(rscj_Spec) j.(rscj_Status) |}.
Proof. done. Defined.
#[global, refine] Instance KRCronJob_HasMeta : HasMeta EncryptionKeyRotationCronJob := {|
  meta := krcj_meta; set_meta j m := mkKRCronJob m j.(krcj_Spec) j.(krcj_Status) |}.
Proof. done. Defined.
