(* ===== verification/Effects.v ===== *)
(** * The manager's outside world

    The calls the controllers make: controller-runtime's client (the Kubernetes
    API server), gRPC connections to the side-cars, the shared connection pool,
    the clock, and the run-time's choice of map iteration order.  Each call has
    an answer type; an environment may answer anything of that type, so failures
    and changes made by other processes are always possible.  For Update,
    Status().Update and Create the answer is the object the server returns, which
    controller-runtime stores back into the caller's object.  The deadline of an
    RPC is given with it; [no_timeout] where the code sets none. *)

From S2P Require Import Prelude.
From S2P Require Import GoErrors.
From S2P Require Import ApiTypes.
From S2P Require Import CsiaddonsTypes.

(** ** API kinds *)
Inductive kind :=
| KVolumeReplication | KVolumeReplicationClass | KVolumeGroupReplication
| KVolumeGroupReplicationClass | KVolumeGroupReplicationContent
| KPersistentVolumeClaim | KPersistentVolume | KLease
| KCSIAddonsNode | KNetworkFence | KNetworkFenceClass
| KReclaimSpaceJob | KReclaimSpaceCronJob
| KEncryptionKeyRotationJob | KEncryptionKeyRotationCronJob
| KVolumeAttachment | KPod | KNamespace | KStorageClass.

Definition obj_of (k : kind) : Type :=
  match k with
  | KVolumeReplication => VolumeReplication
  | KVolumeReplicationClass | KVolumeGroupReplicationClass => ReplicationClass
  | KVolumeGroupReplication => VolumeGroupReplication
  | KVolumeGroupReplicationContent => VolumeGroupReplicationContent
  | KPersistentVolumeClaim => PersistentVolumeClaim
  | KPersistentVolume => PersistentVolume
  | KLease => Lease
  | KCSIAddonsNode => CSIAddonsNode
  | KNetworkFence => NetworkFence
  | KNetworkFenceClass => NetworkFenceClass
  | KReclaimSpaceJob => ReclaimSpaceJob
  | KReclaimSpaceCronJob => ReclaimSpaceCronJob
  | KEncryptionKeyRotationJob => EncryptionKeyRotationJob
  | KEncryptionKeyRotationCronJob => EncryptionKeyRotationCronJob
  | KVolumeAttachment => VolumeAttachment
  | KPod => Pod
  | KNamespace => NamespaceObj
  | KStorageClass => StorageClass
  end.

(** ** gRPC messages (src/internal/proto/*.proto) *)

Inductive ReplicationSource :=
| SourceVolume (volume_id : string)
| SourceVolumeGroup (volume_group_id : string).

(** The fields shared by the replication requests; [Force] and [Parameters] are
    zero where a message lacks them. *)
Record ReplicationRequest := mkRequest {
  rq_Source : ReplicationSource;
  rq_ReplicationId : string;
  rq_Force : bool;
  rq_Parameters : gmap string string;
  rq_SecretName : string;
  rq_SecretNamespace : string
}.

Inductive InfoStatus := INFO_UNKNOWN | INFO_HEALTHY | INFO_DEGRADED | INFO_ERROR | INFO_OTHER (n : Z).

Record GetVolumeReplicationInfoResponse := mkInfo {
  info_LastSyncTime : option Z;
  info_LastSyncDuration : option Z;
  info_LastSyncBytes : Z;
  info_Status : InfoStatus;
  info_StatusMessage : string
}.

(** [VolumeGroup] of the responses: identifier and context; a missing message
    reads as empty. *)
Record VolumeGroup := mkVolumeGroup {
  vg_Id : string; vg_Context : gmap string string; vg_VolumeIds : list string
}.

Inductive Capability :=
| CapService (t : Z) | CapReclaimSpace (t : Z) | CapNetworkFence (t : Z)
| CapVolumeReplication (t : Z) | CapVolumeGroup (t : Z)
| CapEncryptionKeyRotation (t : Z) | CapUnset.

Definition Service_CONTROLLER_SERVICE : Z := 1.
Definition VolumeReplication_VOLUME_REPLICATION : Z := 1.
Definition VolumeGroup_VOLUME_GROUP : Z := 1.
Definition NetworkFence_NETWORK_FENCE : Z := 1.
Definition NetworkFence_GET_CLIENTS_TO_FENCE : Z := 2.
Definition ReclaimSpace_OFFLINE : Z := 1.
Definition ReclaimSpace_ONLINE : Z := 2.
Definition EncryptionKeyRotation_ENCRYPTIONKEYROTATION : Z := 1.

(** ReclaimSpaceResponse: the usage before and after, where given. *)
Record ReclaimSpaceResponse := mkReclaimed { PreUsage : option Z; PostUsage : option Z }.

Inductive rpc :=
| GetCapabilities
| EnableVolumeReplication (req : ReplicationRequest)
| DisableVolumeReplication (req : ReplicationRequest)
| PromoteVolume (req : ReplicationRequest)
| DemoteVolume (req : ReplicationRequest)
| ResyncVolume (req : ReplicationRequest)
| GetVolumeReplicationInfo (req : ReplicationRequest)
| CreateVolumeGroup (name : string) (ids : list string) (params : gmap string string)
    (secret secretNs : string)
| ModifyVolumeGroupMembership (id : string) (ids : list string) (params : gmap string string)
    (secret secretNs : string)
| DeleteVolumeGroup (id secret secretNs : string)
| ControllerGetVolumeGroup (id secret secretNs : string)
| FenceClusterNetwork (params : gmap string string) (cidrs : list string) (secret secretNs : string)
| UnFenceClusterNetwork (params : gmap string string) (cidrs : list string) (secret secretNs : string)
| GetFenceClients (params : gmap string string) (secret secretNs : string)
| ControllerReclaimSpace (pvName : string)
| NodeReclaimSpace (pvName : string)
| EncryptionKeyRotate (pvName : string).

Definition rpc_response (m : rpc) : Type :=
  match m with
  | GetCapabilities => list Capability
  | EnableVolumeReplication _ | DisableVolumeReplication _ | PromoteVolume _
  | DemoteVolume _ | DeleteVolumeGroup _ _ _ => unit
  | ResyncVolume _ => bool                       (* Ready *)
  | GetVolumeReplicationInfo _ => GetVolumeReplicationInfoResponse
  | CreateVolumeGroup _ _ _ _ _ | ModifyVolumeGroupMembership _ _ _ _ _
  | ControllerGetVolumeGroup _ _ _ => VolumeGroup
  | FenceClusterNetwork _ _ _ _ | UnFenceClusterNetwork _ _ _ _ | EncryptionKeyRotate _ => unit
  | GetFenceClients _ _ _ => list ClientDetail
  | ControllerReclaimSpace _ | NodeReclaimSpace _ => ReclaimSpaceResponse
  end.

Definition no_timeout : Z := 0.

(** A *grpc.ClientConn; its identity tells two dials of one target apart. *)
Record ClientConn := mkClientConn { cc_id : N; cc_target : string; cc_auth : bool }.

Inductive ConnState := Shutdown | NotShutdown.

(** ** Connections (src/internal/connection/connection.go) *)
Record Connection := mkConnection {
  Client : option ClientConn;
  Capabilities : list Capability;
  conn_Namespace : string;
  conn_Name : string;
  NodeID : string;
  DriverName : string;
  Timeout : Z;
  enableAuth : bool;
  endpoint : string;
  podName : string
}.

#[global] Instance Capability_eq_dec : EqDecision Capability.
Proof. solve_decision. Defined.
#[global] Instance ClientConn_eq_dec : EqDecision ClientConn.
Proof. solve_decision. Defined.
#[global] Instance Connection_eq_dec : EqDecision Connection.
Proof. solve_decision. Defined.

(** ** Calls *)
Inductive event :=
| EGet (k : kind) (key : NamespacedName)
| EList (k : kind) (selector : option string) (ns : string)
| ECreate (k : kind) (o : obj_of k)
| EUpdate (k : kind) (o : obj_of k)
| EStatusUpdate (k : kind) (o : obj_of k)
| EDelete (k : kind) (o : obj_of k)
| EEventf (k : kind) (regarding : NamespacedName) (etype reason action note : string)
| ERpc (cc : ClientConn) (timeout : Z) (m : rpc)
| ENewClient (target : string) (auth : bool)
| EGetState (cc : ClientConn)
| ECloseConn (cc : ClientConn)
| EReadPool                          (* cp.pool under the read lock *)
| EStoreConn (key : string) (c : Connection)   (* a pooled connection changed in place *)
| ENow                               (* time.Now *)
| EClock                             (* the time.Now readings of a call that sets conditions *)
| ERange                             (* the order of ranging over a map *)
| ESleep (d : Z)
| EListField (k : kind) (field value ns : string)        (* client.MatchingFields *)
| EPatch (k : kind) (o : obj_of k) (annotations : gmap string (option string))
    (* a merge patch of the annotations; [None] removes the key *)
| EWritePool (cp : gmap string Connection).    (* cp.pool under the write lock *)

Definition answer (e : event) : Type :=
  match e with
  | EGet k _ | ECreate k _ | EUpdate k _ | EStatusUpdate k _ => error + obj_of k
  | EList k _ _ => error + list (obj_of k)
  | EDelete _ _ => option error
  | EEventf _ _ _ _ _ _ => unit
  | ERpc _ _ m => error + rpc_response m
  | ENewClient _ _ => error + ClientConn
  | EGetState _ => ConnState
  | ECloseConn _ => option error
  | EReadPool => gmap string Connection
  | EStoreConn _ _ => unit
  | ENow => Z
  | EClock => string -> Z
  | ERange => list nat
  | ESleep _ => unit
  | EListField k _ _ _ => error + list (obj_of k)
  | EPatch k _ _ => error + obj_of k
  | EWritePool _ => unit
  end.

Abbreviation M := (prog answer).
Abbreviation hist := (history answer).

(** A call that answers with the updated object: on failure the caller's object
    stays as it is. *)
Definition update_obj (k : kind) (o : obj_of k) : M (obj_of k * option error) :=
  r ← call (EUpdate k o);
  mret match r with inl e => (o, Some e) | inr o' => (o', None) end.

Definition status_update_obj (k : kind) (o : obj_of k) : M (obj_of k * option error) :=
  r ← call (EStatusUpdate k o);
  mret match r with inl e => (o, Some e) | inr o' => (o', None) end.

Definition get_obj (k : kind) (key : NamespacedName) : M (error + obj_of k) :=
  call (EGet k key).

(** A loop over a slice that stops at the first error. *)
Fixpoint range_err {A S} (body : S -> A -> M (S * option error)) (s : S) (l : list A)
    : M (S * option error) :=
  match l with
  | [] => mret (s, None)
  | a :: l =>
    '(s, e) ← body s a;
    match e with
    | Some err => mret (s, Some err)
    | None => range_err body s l
    end
  end.

(** ctrl.Result. *)
Record Result := mkResult { Requeue : bool; RequeueAfter : Z }.
Definition no_requeue : Result := mkResult false 0.

(** ** Classes of calls *)

(** Kubernetes API calls on objects of kinds in [K]. *)
Definition api_call (K : kind -> bool) (e : event) : Prop :=
  match e with
  | EGet k _ | EList k _ _ | ECreate k _ | EUpdate k _ | EStatusUpdate k _
  | EDelete k _ | EEventf k _ _ _ _ _ | EListField k _ _ _ | EPatch k _ _ => K k = true
  | _ => False
  end.

(** Calls that read only. *)
Definition read_call (e : event) : Prop :=
  match e with
  | EGet _ _ | EList _ _ _ | EListField _ _ _ _ | EReadPool | ENow | EClock | ERange | EGetState _ => True
  | _ => False
  end.

(** The calls made while looking for a connection: no replication RPC and no
    write to the API server. *)
Definition connect_call (e : event) : Prop :=
  match e with
  | EGet KLease _ | EReadPool | EStoreConn _ _ | ERange | EGetState _ | ECloseConn _
  | ENewClient _ _ | ERpc _ _ GetCapabilities => True
  | _ => False
  end.

(** No RPC other than the capability query. *)
Definition no_rpc (e : event) : Prop :=
  match e with ERpc _ _ GetCapabilities => True | ERpc _ _ _ => False | _ => True end.

Lemma connect_no_rpc e : connect_call e -> no_rpc e.
Proof. destruct e as [| | | | | | |? ? []| | | | | | | | | | | |]; simpl; tauto. Qed.

Lemma calls_range_err {A S} P (body : S -> A -> M (S * option error)) s l :
  (forall s a, calls P (body s a)) -> calls P (range_err body s l).
Proof.
  intros Hb. revert s. induction l as [|a l IH]; intros s; simpl; [done|].
  apply calls_bind; [apply Hb|]. intros [s' [e|]]; [done|apply IH].
Qed.

#[export] Hint Resolve calls_range_err : calls.

(** ** What a history tells *)

#[global] Instance kind_eq_dec : EqDecision kind.
Proof. solve_decision. Defined.

(** The object, if it is of kind [k]. *)
Definition obj_in (k : kind) {k' : kind} (o : obj_of k') : option (obj_of k) :=
  match decide (k' = k) with
  | left H => Some (eq_rect k' obj_of o k H)
  | right _ => None
  end.
Definition obj_answer (k : kind) {k' : kind} (r : error + obj_of k') : option (obj_of k) :=
  match r with inr o => obj_in k o | inl _ => None end.

Lemma obj_in_self (k : kind) (o : obj_of k) : obj_in k o = Some o.
Proof. unfold obj_in. destruct (decide (k = k)) as [Heq|]; [|done]. by rewrite (proof_irrel Heq eq_refl). Qed.

(** The object of kind [k] that this call read. *)
Definition fetched (k : kind) (c : {e & answer e}) : option (obj_of k) :=
  match c with
  | existT e r =>
    match e return answer e -> option (obj_of k) with
    | EGet k' _ => fun r => obj_answer k r
    | _ => fun _ => None
    end r
  end.

(** The object of kind [k] that this call left in memory: read, or stored back
    after a write. *)
Definition current (k : kind) (c : {e & answer e}) : option (obj_of k) :=
  match c with
  | existT e r =>
    match e return answer e -> option (obj_of k) with
    | EGet k' _ => fun r => obj_answer k r
    | ECreate k' _ => fun r => obj_answer k r
    | EUpdate k' _ => fun r => obj_answer k r
    | EStatusUpdate k' _ => fun r => obj_answer k r
    | _ => fun _ => None
    end r
  end.

(** The object of kind [k] that this call asks to delete. *)
Definition deleted (k : kind) (c : {e & answer e}) : option (obj_of k) :=
  match projT1 c with
  | EDelete k' o => obj_in k o
  | _ => None
  end.

Lemma deleted_self (k : kind) (o : obj_of k) r : deleted k (existT (EDelete k o) r) = Some o.
Proof. apply obj_in_self. Qed.

(** The newest thing a history tells. *)
Definition newest {A} (f : {e & answer e} -> option A) (h : hist) : option A := head (observe f h).

Lemma newest_cons {A} (f : {e & answer e} -> option A) c (h : hist) :
  newest f (c :: h) = match f c with Some a => Some a | None => newest f h end.
Proof. unfold newest. rewrite observe_cons. by destruct (f c). Qed.

Lemma newest_extends {A} (f : {e & answer e} -> option A) P (h h' : hist) :
  extends P h h' -> (forall e r, P e -> f (existT e r) = None) -> newest f h' = newest f h.
Proof. intros Hext Hf. unfold newest. by rewrite (observe_extends f P h h'). Qed.

Lemma extends_in {P : event -> Prop} (h h' : hist) c : extends P h h' -> c ∈ h -> c ∈ h'.
Proof. intros (t & -> & _) Hin. apply elem_of_app. by right. Qed.

(** ** Scripted environments

    [refused] answers every call with a failure (or the zero value); concrete
    environments override it where they say more. *)
Definition refused (e : event) : answer e :=
  match e return answer e with
  | EGet _ _ | ECreate _ _ | EUpdate _ _ | EStatusUpdate _ _ => inl (ErrorString "unreachable")
  | EList _ _ _ | EListField _ _ _ _ | EPatch _ _ _ | ENewClient _ _ | ERpc _ _ _ => inl (ErrorString "unreachable")
  | EDelete _ _ | ECloseConn _ => None
  | EGetState _ => NotShutdown
  | EReadPool => ∅
  | EEventf _ _ _ _ _ _ | EStoreConn _ _ | ESleep _ | EWritePool _ => tt
  | ENow => 0%Z
  | EClock => fun _ => 0%Z
  | ERange => []
  end.
