(* ===== verification/ControllerUtil.v ===== *)
(** * What the controllers use of the vendored Kubernetes libraries

    controllerutil's CreateOrUpdate and SetControllerReference, the owner
    reference helpers and ParseGroupVersion
    (src/vendor/sigs.k8s.io/controller-runtime/pkg/controller/controllerutil,
    src/vendor/k8s.io/apimachinery), and client.IgnoreNotFound. *)

From S2P Require Import Prelude.
From S2P Require Import GoErrors.
From S2P Require Import ApiTypes.
From S2P Require Import Effects.

(** metav1.SetMetaDataAnnotation. *)
Definition SetMetaDataAnnotation {A} `{HasMeta A} (a : A) (k v : string) : A :=
  with_annotations a (<[k := v]> (meta a).(Annotations)).

Definition is_new {A} `{HasMeta A} (a : A) : bool :=
  bool_decide ((meta a).(CreationTimestamp) = None).

(** CreateOrUpdate: the object is read into [o]; a missing one is mutated and
    created, an existing one is mutated and updated if that changed it.  On an
    error the caller sees the object as it was left. *)
Definition CreateOrUpdate (k : kind) `{HasMeta (obj_of k)} `{EqDecision (obj_of k)}
    (o : obj_of k) (f : obj_of k -> obj_of k * option error) : M (obj_of k * option error) :=
  let key := obj_key o in
  let mutate (o : obj_of k) : obj_of k * option error :=
    let '(o, err) := f o in
    match err with
    | Some err => (o, Some err)
    | None =>
      if bool_decide (obj_key o = key) then (o, None)
      else (o, Some (ErrorString "MutateFn cannot mutate object name and/or object namespace"))
    end in
  r ← get_obj k key;
  match r with
  | inl err =>
    if negb (IsNotFound err) then mret (o, Some err)
    else
      let '(o, err) := mutate o in
      match err with
      | Some err => mret (o, Some err)
      | None =>
        r ← call (ECreate k o);
        mret match r with inl err => (o, Some err) | inr o' => (o', None) end
      end
  | inr existing =>
    let '(o, err) := mutate existing in
    match err with
    | Some err => mret (o, Some err)
    | None => if bool_decide (existing = o) then mret (o, None) else update_obj k o
    end
  end.

(** strings.Split(s, sep) for a separator of one character. *)
Fixpoint split_at (sep : ascii) (s : string) : string * list string :=
  match s with
  | EmptyString => ("", [])
  | String c s =>
    let '(w, ws) := split_at sep s in
    if Ascii.eqb c sep then ("", w :: ws) else (String c w, ws)
  end.
Definition split (sep : ascii) (s : string) : list string := let '(w, ws) := split_at sep s in w :: ws.
Abbreviation split_slash := (split_at "/").
Definition Split (s : string) : list string := split "/" s.

(** schema.ParseGroupVersion: the group, [None] on an error. *)
Definition ParseGroup (gv : string) : option string :=
  if bool_decide (gv = "") || bool_decide (gv = "/") then Some ""
  else match Split gv with
       | [_] => Some ""
       | [g; _] => Some g
       | _ => None
       end.

Definition referSameObject (a b : OwnerReference) : bool :=
  match ParseGroup a.(or_APIVersion), ParseGroup b.(or_APIVersion) with
  | Some ga, Some gb =>
    bool_decide (ga = gb) && bool_decide (a.(or_Kind) = b.(or_Kind))
    && bool_decide (a.(or_Name) = b.(or_Name))
  | _, _ => false
  end.

Fixpoint upsertOwnerRef (ref : OwnerReference) (owners : list OwnerReference) : list OwnerReference :=
  match owners with
  | [] => [ref]
  | r :: owners => if referSameObject r ref then ref :: owners else r :: upsertOwnerRef ref owners
  end.

Definition validateOwner (ownerNs objNs : string) : option error :=
  if bool_decide (ownerNs = "") then None
  else if bool_decide (objNs = "") then
    Some (ErrorString ("cluster-scoped resource must not have a namespace-scoped owner, owner's namespace " +:+ ownerNs))
  else if negb (bool_decide (ownerNs = objNs)) then
    Some (ErrorString ("cross-namespace owner references are disallowed, owner's namespace " +:+
      ownerNs +:+ ", obj's namespace " +:+ objNs))
  else None.

(** metav1.GetControllerOf: the first reference with the Controller flag. *)
Fixpoint controller_of (refs : list OwnerReference) : option OwnerReference :=
  match refs with
  | [] => None
  | r :: refs => if default false r.(or_Controller) then Some r else controller_of refs
  end.
Definition GetControllerOf {A} `{HasMeta A} (a : A) : option OwnerReference :=
  controller_of (meta a).(OwnerReferences).

(** controllerutil.SetControllerReference; [gvk] is the scheme's answer for the
    owner: its API version and kind. *)
Definition SetControllerReference {O A} `{HasMeta O} `{HasMeta A}
    (gvk : error + string * string) (owner : O) (controlled : A) : A * option error :=
  match validateOwner (obj_Namespace owner) (obj_Namespace controlled) with
  | Some err => (controlled, Some err)
  | None =>
    match gvk with
    | inl err => (controlled, Some err)
    | inr (apiVersion, kind) =>
      let ref := mkOwnerReference apiVersion kind (obj_Name owner) (meta owner).(UID)
                   (Some true) (Some true) in
      let set := (set_meta controlled (set_OwnerReferences (meta controlled)
                    (upsertOwnerRef ref (meta controlled).(OwnerReferences))), None) in
      match GetControllerOf controlled with
      | Some existing =>
        if negb (referSameObject existing ref) then
          (controlled, Some (ErrorString ("Object " +:+ obj_Namespace controlled +:+ "/" +:+
             obj_Name controlled +:+ " is already owned by another " +:+ existing.(or_Kind) +:+
             " controller " +:+ existing.(or_Name))))
        else set
      | None => set
      end
    end
  end.

(** client.IgnoreNotFound. *)
Definition IgnoreNotFound (err : option error) : option error :=
  match err with
  | Some e => if IsNotFound e then None else Some e
  | None => None
  end.

(** [Get] and [Delete] of an object, with client.IgnoreNotFound on the latter. *)
Definition delete_ignoring_missing (k : kind) (o : obj_of k) : M (option error) :=
  err ← call (EDelete k o);
  mret (IgnoreNotFound err).

(** CreateOrUpdate with a MutateFn that makes calls of its own. *)
Definition CreateOrUpdateM (k : kind) `{HasMeta (obj_of k)} `{EqDecision (obj_of k)}
    (o : obj_of k) (f : obj_of k -> M (obj_of k * option error)) : M (obj_of k * option error) :=
  let key := obj_key o in
  let mutate (o : obj_of k) : M (obj_of k * option error) :=
    '(o, err) ← f o;
    match err with
    | Some err => mret (o, Some err)
    | None =>
      if bool_decide (obj_key o = key) then mret (o, None)
      else mret (o, Some (ErrorString "MutateFn cannot mutate object name and/or object namespace"))
    end in
  r ← get_obj k key;
  match r with
  | inl err =>
    if negb (IsNotFound err) then mret (o, Some err)
    else
      '(o, err) ← mutate o;
      match err with
      | Some err => mret (o, Some err)
      | None =>
        r ← call (ECreate k o);
        mret match r with inl err => (o, Some err) | inr o' => (o', None) end
      end
  | inr existing =>
    '(o, err) ← mutate existing;
    match err with
    | Some err => mret (o, Some err)
    | None => if bool_decide (existing = o) then mret (o, None) else update_obj k o
    end
  end.

(** A MutateFn without calls gives [CreateOrUpdate]: same calls, same results. *)
Lemma CreateOrUpdateM_pure k `{HasMeta (obj_of k)} `{EqDecision (obj_of k)} (o : obj_of k) f (ρ : env answer) h :
  run ρ h (CreateOrUpdateM k o (fun o => mret (f o))) = run ρ h (CreateOrUpdate k o f).
Proof.
  unfold CreateOrUpdateM, CreateOrUpdate, get_obj. cbn [mbind prog_bind call run]. cbv zeta.
  destruct (ρ h (EGet k (obj_key o))) as [err|o']; [destruct (negb _); [done|]|];
    cbn [mret prog_ret mbind prog_bind]; [destruct (f o) as [? []]|destruct (f o') as [? []]];
    cbn; repeat (case_match; cbn; simplify_eq); done.
Qed.
