(* ===== verification/StringFacts.v ===== *)
(** * Facts about the string functions

    Cutting and splitting at a byte, prefixes, and strings over a set of bytes. *)

From S2P Require Import Prelude.
From S2P Require Import GoURL.
From S2P Require Import GoText.
From S2P Require Import GoNet.
From S2P Require Import GoJSON.
From S2P Require Import ApiTypes.
From S2P Require Import Effects.
From S2P Require Import ControllerUtil.

(** ** Cutting *)

Lemma cut_none c s : all_bytes (fun d => negb (Ascii.eqb d c)) s = true -> cut c s = (s, None).
Proof.
  induction s as [|d s IH]; [done|]. cbn [all_bytes cut]. intros [->%negb_true_iff Hs]%andb_prop.
  by rewrite IH.
Qed.

Lemma from_none c s : all_bytes (fun d => negb (Ascii.eqb d c)) s = true -> from c s = "".
Proof.
  induction s as [|d s IH]; [done|]. cbn [all_bytes from]. intros [->%negb_true_iff Hs]%andb_prop.
  by rewrite IH.
Qed.

Lemma cut_last_none c s : all_bytes (fun d => negb (Ascii.eqb d c)) s = true -> cut_last c s = None.
Proof.
  induction s as [|d s IH]; [done|]. cbn [all_bytes cut_last]. intros [->%negb_true_iff Hs]%andb_prop.
  by rewrite IH.
Qed.

Lemma cut_last_app c a b :
  all_bytes (fun d => negb (Ascii.eqb d c)) b = true -> cut_last c (a +:+ String c b) = Some (a, b).
Proof.
  intros Hb. induction a as [|d a IH].
  - change ("" +:+ ?x) with x. cbn [cut_last]. by rewrite cut_last_none, Ascii.eqb_refl.
  - rewrite app_cons_string. cbn [cut_last]. by rewrite IH.
Qed.

Lemma all_bytes_app P a b : all_bytes P (a +:+ b) = all_bytes P a && all_bytes P b.
Proof. induction a as [|c a IH]; [done|]. rewrite app_cons_string. cbn. by rewrite IH, andb_assoc. Qed.

(** ** Sets of bytes *)

(** A byte outside [P] does not occur in a string over [P]. *)
Lemma lacks (P : ascii -> bool) (c : ascii) s : all_bytes P s = true -> P c = false ->
  all_bytes (fun d => negb (Ascii.eqb d c)) s = true.
Proof.
  intros Hs Hc. revert Hs. apply all_bytes_impl. intros d Hd. apply negb_true_iff, Ascii.eqb_neq. intros ->. congruence.
Qed.

Lemma substring_all n s : (String.length s <= n)%nat -> String.substring 0 n s = s.
Proof. revert s. induction n as [|n IH]; intros [|c s] Hn; simpl in *; [done|lia|done|]. by rewrite IH by lia. Qed.

(** ** Splitting *)

Definition lacks_byte (c : ascii) : string -> bool := all_bytes (fun d => negb (Ascii.eqb d c)).

Lemma split_at_none c s : lacks_byte c s = true -> split_at c s = (s, []).
Proof.
  induction s as [|d s IH]; [done|]. cbn. intros [Hd%negb_true_iff Hs]%andb_prop. by rewrite IH, Hd.
Qed.

Lemma split_at_app c a b : lacks_byte c a = true ->
  split_at c (a +:+ String c b) = (a, split c b).
Proof.
  unfold split. induction a as [|d a IH].
  - intros _. change ("" +:+ ?x) with x. cbn [split_at]. destruct (split_at c b). by rewrite Ascii.eqb_refl.
  - cbn [lacks_byte all_bytes]. intros [Hd%negb_true_iff Ha]%andb_prop. rewrite app_cons_string. cbn [split_at].
    by rewrite IH, Hd.
Qed.

Lemma split_at_inv c s w ws : split_at c s = (w, ws) ->
  lacks_byte c w = true /\
  match ws with
  | [] => s = w
  | _ => exists b, s = w +:+ String c b /\ split c b = ws
  end.
Proof.
  revert w ws. induction s as [|d s IH]; intros w ws; cbn [split_at]; [by intros [= <- <-]|].
  destruct (split_at c s) as [w' ws'] eqn:Hs. specialize (IH w' ws' eq_refl) as [Hw Hrest].
  destruct (Ascii.eqb d c) eqn:Hd; intros [= <- <-].
  - split; [done|]. apply Ascii.eqb_eq in Hd as ->. exists s. split; [done|]. unfold split. by rewrite Hs.
  - split; [by cbn; rewrite Hd|]. destruct ws' as [|x ws']; [by rewrite Hrest|].
    destruct Hrest as (b & -> & Hb). by exists b.
Qed.

Lemma split_one c s w : split c s = [w] -> s = w /\ lacks_byte c w = true.
Proof.
  unfold split. destruct (split_at c s) as [w' ws] eqn:Hs. apply split_at_inv in Hs as [Hw Hr].
  intros [= -> ->]. done.
Qed.

Lemma split_two c s a b : split c s = [a; b] <->
  s = a +:+ String c b /\ lacks_byte c a = true /\ lacks_byte c b = true.
Proof.
  split.
  - unfold split at 1. destruct (split_at c s) as [w ws] eqn:Hs. apply split_at_inv in Hs as [Hw Hr].
    intros [= -> ->]. destruct Hr as (b' & -> & Hb). by apply split_one in Hb as [-> ?].
  - intros (-> & Ha & Hb). unfold split. rewrite split_at_app by done. unfold split. by rewrite split_at_none.
Qed.

Lemma prefix_drop p s : String.prefix p s = true <-> s = p +:+ drop_bytes (String.length p) s.
Proof.
  revert s. induction p as [|c p IH]; intros s; [by destruct s|].
  destruct s as [|d s]; [done|]. cbn [String.prefix String.length drop_bytes]. rewrite app_cons_string.
  destruct (ascii_dec c d) as [->|Hne].
  - rewrite IH. split; [congruence|]. by intros [= <-].
  - split; [done|]. by intros [= ->].
Qed.

Lemma drop_bytes_app p s : drop_bytes (String.length p) (p +:+ s) = s.
Proof. induction p as [|c p IH]; [by destruct s|]. exact IH. Qed.

Lemma split_cons c a b : lacks_byte c a = true -> split c (a +:+ String c b) = a :: split c b.
Proof. intros Ha. unfold split at 1. by rewrite split_at_app. Qed.

Lemma split_join c l : l ≠ [] -> Forall (fun s => lacks_byte c s = true) l -> split c (join (String c "") l) = l.
Proof.
  intros Hl Hall. induction Hall as [|s [|s' l] Hs Hall IH]; [done| |].
  - cbn [join]. unfold split. by rewrite split_at_none.
  - change (join (String c "") (s :: s' :: l)) with (s +:+ String c (join (String c "") (s' :: l))).
    rewrite split_cons by done. by rewrite IH.
Qed.

Lemma cut_app c a b : lacks_byte c a = true -> cut c (a +:+ String c b) = (a, Some b).
Proof.
  induction a as [|d a IH].
  - intros _. change ("" +:+ ?x) with x. cbn [cut]. by rewrite Ascii.eqb_refl.
  - cbn [lacks_byte all_bytes]. intros [Hd%negb_true_iff Ha]%andb_prop. rewrite app_cons_string. cbn [cut].
    by rewrite IH, Hd.
Qed.
