(* ===== verification/Connection.v ===== *)
(** * Connections to the side-cars and their pool

    src/internal/connection/connection.go and connection_pool.go.  A pooled
    [*Connection] is shared: what [Connect] and [Close] change is visible in the
    pool, so the pool's operations return the changed pool.  Results that hold
    pointers into the pool are modelled as the set of their keys. *)

From S2P Require Import Prelude.
From S2P Require Import GoErrors.
From S2P Require Import GoStrconv.
From S2P Require Import ApiTypes.
From S2P Require Import Effects.
From S2P Require Config.

(** ** Connection (connection.go) *)

Definition set_Client (c : Connection) (cc : option ClientConn) : Connection :=
  mkConnection cc c.(Capabilities) c.(conn_Namespace) c.(conn_Name) c.(NodeID)
    c.(DriverName) c.(Timeout) c.(enableAuth) c.(endpoint) c.(podName).
Definition set_Capabilities (c : Connection) (caps : list Capability) : Connection :=
  mkConnection c.(Client) caps c.(conn_Namespace) c.(conn_Name) c.(NodeID)
    c.(DriverName) c.(Timeout) c.(enableAuth) c.(endpoint) c.(podName).

Definition fetchCapabilities (c : Connection) (cc : ClientConn)
    : M (Connection * option error) :=
  r ← call (ERpc cc c.(Timeout) GetCapabilities);
  match r with
  | inl err => mret (c, Some err)
  | inr caps => mret (set_Capabilities c caps, None)
  end.

(** The part of [Connect] after the reuse check: dial, then ask the side-car for
    its capabilities; a failed query closes the new client. *)
Definition dial (c : Connection) : M (Connection * option error) :=
  r ← call (ENewClient c.(endpoint) c.(enableAuth));
  match r with
  | inl err => mret (c, Some err)
  | inr cc =>
    let c := set_Client c (Some cc) in
    '(c, err) ← fetchCapabilities c cc;
    match err with
    | Some err =>
      _ ← call (ECloseConn cc);
      mret (set_Client c None, Some err)
    | None => mret (c, None)
    end
  end.

Definition Connect (c : Connection) : M (Connection * option error) :=
  match c.(Client) with
  | Some cc =>
    st ← call (EGetState cc);
    match st with
    | NotShutdown => mret (c, None)
    | Shutdown => dial (set_Client c None)
    end
  | None => dial c
  end.

Definition NewConnection (ep nodeID driverName namespace pod : string) (auth : bool)
    : M (error + Connection) :=
  let conn := {|
    Client := None; Capabilities := []; conn_Namespace := namespace; conn_Name := pod;
    NodeID := nodeID; DriverName := driverName; Timeout := minute;
    enableAuth := auth; endpoint := ep; podName := pod
  |} in
  '(conn, err) ← Connect conn;
  match err with
  | Some err => mret (inl err)
  | None => mret (inr conn)
  end.

Definition Close (c : Connection) : M (Connection * option error) :=
  match c.(Client) with
  | None => mret (c, None)
  | Some cc =>
    err ← call (ECloseConn cc);
    mret (set_Client c None, err)
  end.

Fixpoint has_controller_service (caps : list Capability) : bool :=
  match caps with
  | [] => false
  | CapService t :: caps =>
    if (t =? Service_CONTROLLER_SERVICE)%Z then true else has_controller_service caps
  | _ :: caps => has_controller_service caps
  end.

Definition HasControllerService (c : Connection) : bool :=
  has_controller_service c.(Capabilities).

(** ** ConnectionPool (connection_pool.go) *)

Abbreviation pool := (gmap string Connection).

Definition NewConnectionPool : pool := ∅.

Definition Put (cp : pool) (key : string) (conn : Connection) : M pool :=
  _ ← match cp !! key with
      | Some oldConn => _ ← Close oldConn; mret tt
      | None => mret tt
      end;
  mret (<[key := conn]> cp).

Definition Delete (cp : pool) (key : string) : M pool :=
  _ ← match cp !! key with
      | Some conn => _ ← Close conn; mret tt
      | None => mret tt
      end;
  mret (delete key cp).

Definition reconnect_error (err : error) : error :=
  WrapError ("failed to reconnect an inactive connection due to error: " +:+ Error err) err.

(** One round of the two loops: reconnect the entry [k] and add it to the result
    if [keep] holds of it. *)
Definition select_conn (keep : Connection -> bool) (st : pool * gset string)
    (kv : string * Connection) : M (pool * gset string * option error) :=
  let '(cp, newPool) := st in
  let '(k, v) := kv in
  if negb (keep v) then mret (cp, newPool, None)
  else
    '(v, err) ← Connect v;
    let cp := <[k := v]> cp in
    match err with
    | Some err => mret (cp, newPool, Some (reconnect_error err))
    | None => mret (cp, {[k]} ∪ newPool, None)
    end.

Definition getByDriverName (cp : pool) (driverName : string)
    : M (pool * (error + gset string)) :=
  seed ← call ERange;
  '(cp, newPool, err) ←
    range_err (select_conn (fun v => bool_decide (v.(DriverName) = driverName)))
      (cp, ∅) (map_range seed cp);
  match err with
  | Some err => mret (cp, inl err)
  | None => mret (cp, inr newPool)
  end.

Definition GetByNodeID (cp : pool) (driverName nodeID : string)
    : M (pool * (error + gset string)) :=
  '(cp, res) ← getByDriverName cp driverName;
  match res with
  | inl err => mret (cp, inl err)
  | inr keys =>
    seed ← call ERange;
    let sub := filter (fun kv => kv.1 ∈ keys) cp in
    '(cp, result, err) ←
      range_err (select_conn (fun v =>
          negb (negb (bool_decide (nodeID = "")) && negb (bool_decide (v.(NodeID) = nodeID)))))
        (cp, ∅) (map_range seed sub);
    match err with
    | Some err => mret (cp, inl err)
    | None => mret (cp, inr result)
    end
  end.

Fixpoint first_namespace (driverName : string) (conns : list (string * Connection))
    : option string :=
  match conns with
  | [] => None
  | (_, conn) :: conns =>
    if bool_decide (conn.(DriverName) = driverName) then Some conn.(conn_Namespace)
    else first_namespace driverName conns
  end.

Definition getNamespaceByDriverName (driverName : string) : M (error + string) :=
  cp ← call EReadPool;
  seed ← call ERange;
  match first_namespace driverName (map_range seed cp) with
  | Some ns => mret (inr ns)
  | None =>
    mret (inl (ErrorString ("failed to find the namespace where driver " +:+
                            go_quote driverName +:+ " is running")))
  end.

(** The pool is read under the lock twice; in between the lease is fetched. *)
Definition GetLeaderByDriver (driverName : string) : M (error + Connection) :=
  ns ← getNamespaceByDriverName driverName;
  match ns with
  | inl err => mret (inl err)
  | inr ns =>
    match Config.NormalizeLeaseName driverName with
    | None => Panic "index out of range [-1]"
    | Some base =>
      let leaseName := base +:+ "-csi-addons" in
      r ← get_obj KLease (mkNamespacedName ns leaseName);
      match r with
      | inl err =>
        mret (inl (WrapError ("no leader found for driver " +:+ go_quote driverName +:+
                              ": " +:+ Error err) err))
      | inr lease =>
        let holder := default "" lease.(HolderIdentity) in
        if bool_decide (holder = "") then
          mret (inl (ErrorString ("lease " +:+ go_quote leaseName +:+ " for driver " +:+
                                  go_quote driverName +:+ " does not have a leader")))
        else
        let key := obj_Namespace lease +:+ "/" +:+ holder in
        cp ← call EReadPool;
        match cp !! key with
        | None =>
          mret (inl (ErrorString ("no connection with key " +:+ go_quote key +:+
                     " found for driver " +:+ go_quote driverName +:+ ": %!w(<nil>)")))
        | Some conn =>
          '(conn, err) ← Connect conn;
          _ ← call (EStoreConn key conn);
          match err with
          | Some err => mret (inl (reconnect_error err))
          | None => mret (inr conn)
          end
        end
      end
    end
  end.

(** ** Which calls are made *)

Lemma dial_calls c : calls connect_call (dial c).
Proof. unfold dial, fetchCapabilities. calls_solve. Qed.
#[export] Hint Resolve dial_calls : calls.

Lemma Connect_calls c : calls connect_call (Connect c).
Proof. unfold Connect. calls_solve. Qed.
#[export] Hint Resolve Connect_calls : calls.

Lemma GetLeaderByDriver_calls d : calls connect_call (GetLeaderByDriver d).
Proof. unfold GetLeaderByDriver, getNamespaceByDriverName, get_obj. calls_solve. Qed.
#[export] Hint Resolve GetLeaderByDriver_calls : calls.

(** ** Properties of one connection *)

(** The clients dialled and closed in a history. *)
Definition dialled_by (c : {e & answer e}) : option ClientConn :=
  match c with
  | existT e r =>
    match e return answer e -> option ClientConn with
    | ENewClient _ _ => fun r => match r with inr cc => Some cc | inl _ => None end
    | _ => fun _ => None
    end r
  end.
Definition closed_by (c : {e & answer e}) : option ClientConn :=
  match c with existT (ECloseConn cc) _ => Some cc | _ => None end.
Definition dialled (h : hist) : list ClientConn := observe dialled_by h.
Definition closed (h : hist) : list ClientConn := observe closed_by h.

(** The fields that identify a connection; nothing ever changes them. *)
Definition identity (c : Connection) :=
  (c.(conn_Namespace), c.(conn_Name), c.(NodeID), c.(DriverName), c.(endpoint),
   c.(enableAuth), c.(Timeout)).

Definition connect_post (c : Connection) (h : hist) (o : outcome (Connection * option error)) :=
  exists c' err, o = Done (c', err) /\ identity c' = identity c /\
    (err = None <-> is_Some c'.(Client)) /\
    (forall cc, cc ∈ dialled h -> c'.(Client) = Some cc \/ cc ∈ closed h).

Lemma dial_wp G c h :
  (forall h e, connect_call e -> G h e) -> c.(Client) = None ->
  (forall cc, cc ∈ dialled h -> cc ∈ closed h) ->
  wp G (connect_post c) h (dial c).
Proof.
  intros HG Hc Hh. unfold dial, fetchCapabilities.
  repeat wp_step; simplify_eq; try (by apply HG); eexists _, _; (split; [done|]); (split; [done|]).
  - split; [rewrite Hc; split; [done|by intros [? ?]]|]. intros cc Hcc. right. by apply Hh.
  - split; [split; [done|by intros [? ?]]|].
    intros cc Hcc. right. unfold dialled, closed in *. simpl in *. set_solver.
  - split; [split; [by eexists|done]|].
    intros cc Hcc. unfold dialled, closed in *. simpl in *.
    apply elem_of_cons in Hcc as [->|Hcc]; [by left|]. right. by apply Hh.
Qed.

Lemma Connect_wp G c :
  (forall h e, connect_call e -> G h e) ->
  wp G (connect_post c) [] (Connect c).
Proof.
  intros HG. unfold Connect. destruct (Client c) as [cc|] eqn:Hc.
  - repeat wp_step; simplify_eq; try (by apply HG).
    + apply (wp_post _ (connect_post (set_Client c None))); [|done].
      apply dial_wp; [done|done|]. by intros ? ?%elem_of_nil.
    + eexists _, _. split; [done|]. split; [done|]. rewrite Hc.
      split; [by split; [eexists|]|]. by intros ? ?%elem_of_nil.
  - apply dial_wp; [done|done|]. by intros ? ?%elem_of_nil.
Qed.

Definition connect_ok (c : Connection) (o : outcome (Connection * option error)) : Prop :=
  exists c' err, o = Done (c', err) /\ identity c' = identity c /\
    (err = None <-> is_Some c'.(Client)).

Lemma Connect_ok G c h :
  (forall h e, connect_call e -> G h e) ->
  wp G (fun _ o => connect_ok c o) h (Connect c).
Proof.
  intros HG. unfold Connect, dial, fetchCapabilities.
  repeat wp_step; simplify_eq; try (by apply HG); unfold connect_ok;
    (eexists _, _; split; [reflexivity|]; split; [reflexivity|]; rewrite <- not_eq_None_Some; simpl);
    naive_solver.
Qed.

(** ** The pool *)

(** Reconnecting changes the clients of a pool, never which connections are in
    it. *)
Definition pool_equiv (cp cp' : pool) : Prop :=
  forall k, identity <$> cp !! k = identity <$> cp' !! k.

#[global] Instance pool_equiv_equivalence : Equivalence pool_equiv.
Proof.
  split.
  - by intros cp k.
  - by intros cp cp' H k.
  - intros cp1 cp2 cp3 H1 H2 k. by rewrite H1.
Qed.

#[global] Instance insert_pool_equiv k :
  Proper ((fun c c' => identity c = identity c') ==> pool_equiv ==> pool_equiv) (insert k).
Proof.
  intros c c' Hc cp cp' Hcp k'. destruct (decide (k = k')) as [->|].
  - rewrite !lookup_insert_eq. simpl. by rewrite Hc.
  - rewrite !lookup_insert_ne by done. apply Hcp.
Qed.

Lemma pool_equiv_reinsert cp k v v' :
  cp !! k = Some v -> identity v' = identity v -> pool_equiv cp (<[k:=v']> cp).
Proof.
  intros Hk Hv. rewrite <- (insert_id cp k v) at 1 by done.
  apply insert_pool_equiv; [done|reflexivity].
Qed.

Lemma pool_equiv_Some cp cp' k v :
  pool_equiv cp cp' -> cp !! k = Some v -> exists v', cp' !! k = Some v' /\ identity v' = identity v.
Proof.
  intros H Hk. specialize (H k). rewrite Hk in H. simpl in H.
  destruct (cp' !! k) as [v'|]; simpl in H; [|done]. apply (inj Some) in H. eauto.
Qed.

(** What a selection loop over the entries [l] achieves. *)
Definition selected (keep : Connection -> bool) (cp : pool) (acc : gset string)
    (l : list (string * Connection)) (o : outcome (pool * gset string * option error)) : Prop :=
  exists cp' acc' err, o = Done (cp', acc', err) /\ pool_equiv cp cp' /\
    (err = None -> forall k, k ∈ acc' <-> k ∈ acc \/ exists v, (k, v) ∈ l /\ keep v = true) /\
    (err = None -> forall k, k ∈ acc' -> k ∉ acc -> exists v, cp' !! k = Some v /\ is_Some v.(Client)) /\
    (forall k, k ∉ l.*1 -> cp' !! k = cp !! k).

Lemma selected_nil keep cp acc : selected keep cp acc [] (Done (cp, acc, None)).
Proof.
  exists cp, acc, None. split; [done|]. split; [done|].
  split; [set_solver|]. split; [|done]. intros _ k Hk Hk'. by destruct Hk'.
Qed.

Lemma selected_fail keep cp acc k v v' l e :
  cp !! k = Some v -> identity v' = identity v ->
  selected keep cp acc ((k, v) :: l) (Done (<[k:=v']> cp, acc, Some e)).
Proof.
  intros Hk Hid. eexists _, _, _. split; [done|].
  split; [by eapply pool_equiv_reinsert|]. do 2 (split; [done|]).
  intros k' Hk'. apply lookup_insert_ne. set_solver.
Qed.

Lemma selected_skip keep cp acc k v l o :
  keep v = false -> selected keep cp acc l o -> selected keep cp acc ((k, v) :: l) o.
Proof.
  intros Hkv (cp' & acc' & err & -> & Heq & Hacc & Hcl & Hrest).
  exists cp', acc', err. split; [done|]. split; [done|]. split; [|split; [done|]].
  - intros He k'. rewrite Hacc by done. split; [set_solver|].
    intros [?|(v1 & [?|?]%elem_of_cons & ?)]; [by left| |right; eauto].
    simplify_eq. congruence.
  - intros k' Hk'. apply Hrest. set_solver.
Qed.

Lemma selected_step keep cp acc k v v' l o :
  keep v = true -> cp !! k = Some v -> identity v' = identity v -> is_Some v'.(Client) ->
  k ∉ l.*1 -> selected keep (<[k:=v']> cp) ({[k]} ∪ acc) l o ->
  selected keep cp acc ((k, v) :: l) o.
Proof.
  intros Hkv Hk Hid Hc Hkl (cp' & acc' & err & -> & Heq & Hacc & Hcl & Hrest).
  exists cp', acc', err. split; [done|]. split; [|split; [|split]].
  - etrans; [|exact Heq]. by eapply pool_equiv_reinsert.
  - intros -> k'. rewrite Hacc by done. split; [|set_solver].
    intros [[->%elem_of_singleton|?]%elem_of_union|(v1 & ? & ?)]; [|by left|].
    + right. exists v. split; [set_solver|done].
    + right. exists v1. split; [set_solver|done].
  - intros -> k' Hk' Hn. destruct (decide (k' = k)) as [->|Hkk].
    + rewrite Hrest, lookup_insert_eq by done. eauto.
    + apply Hcl; [done|done|set_solver].
  - intros k' Hk'. simpl in Hk'. rewrite Hrest by set_solver. apply lookup_insert_ne. set_solver.
Qed.

Lemma select_conn_eq keep cp acc k v :
  select_conn keep (cp, acc) (k, v) =
    if negb (keep v) then mret (cp, acc, None)
    else '(v, err) ← Connect v;
         match err with
         | Some err => mret (<[k := v]> cp, acc, Some (reconnect_error err))
         | None => mret (<[k := v]> cp, {[k]} ∪ acc, None)
         end.
Proof. reflexivity. Qed.

Lemma select_loop G keep h cp acc l :
  (forall h e, connect_call e -> G h e) ->
  NoDup l.*1 -> (forall k v, (k, v) ∈ l -> cp !! k = Some v) ->
  wp G (fun _ o => selected keep cp acc l o) h (range_err (select_conn keep) (cp, acc) l).
Proof.
  intros HG. revert h cp acc. induction l as [|[k v] l IH]; intros h cp acc Hnd Hin.
  { apply wp_ret, selected_nil. }
  cbn [range_err]. apply NoDup_cons in Hnd as [Hk Hnd]. simpl in Hk.
  assert (forall k' v', (k', v') ∈ l -> k' ≠ k) as Hne
    by (intros k' v' H ->; apply Hk, list_elem_of_fmap; by exists (k, v')).
  assert (cp !! k = Some v) as Hcp by (apply Hin; set_solver).
  rewrite (select_conn_eq keep cp acc k v). destruct (keep v) eqn:Hkv; cbn [negb].
  - apply wp_assoc, wp_bind. eapply wp_post; [by apply Connect_ok|].
    intros h' o (v' & err & -> & Hid & Herr). cbn [after]. destruct err as [e|].
    { repeat wp_step. by apply selected_fail. }
    wp_step. eapply wp_post; [apply IH; [done|]|].
    { intros k' v1 H1. rewrite lookup_insert_ne; [|by apply not_eq_sym, (Hne k' v1)].
      apply Hin. set_solver. }
    intros h2 o Hsel. eapply selected_step; try done. by apply Herr.
  - wp_step. eapply wp_post; [apply IH; [done|]|].
    { intros k' v1 H1. apply Hin. set_solver. }
    intros h2 o Hsel. by apply selected_skip.
Qed.

(** The result of a selection: the chosen entries are exactly the ones wanted,
    and all of them are connected. *)
Definition chosen (want : Connection -> bool) (cp : pool) (o : outcome (pool * (error + gset string))) :=
  exists cp' res, o = Done (cp', res) /\ pool_equiv cp cp' /\
    forall keys, res = inr keys ->
      (forall k, k ∈ keys <-> exists v, cp !! k = Some v /\ want v = true) /\
      (forall k, k ∈ keys -> exists v, cp' !! k = Some v /\ is_Some v.(Client)).

Lemma getByDriverName_wp G h cp driver :
  (forall h e, connect_call e -> G h e) ->
  wp G (fun _ o => chosen (fun v => bool_decide (v.(DriverName) = driver)) cp o) h
    (getByDriverName cp driver).
Proof.
  intros HG. unfold getByDriverName. wp_step; [by apply HG|]. rename r into seed.
  apply wp_bind. eapply wp_post; [apply select_loop; [done|apply Config.map_range_NoDup|]|].
  { intros k v Hkv. by apply elem_of_map_range in Hkv. }
  intros h' o (cp' & acc & err & -> & Heq & Hacc & Hcl & _). cbn [after].
  destruct err as [e|]; apply wp_ret; eexists _, _; (split; [done|]); (split; [done|]);
    intros keys [= <-].
  split.
  - intros k. rewrite Hacc by done. rewrite elem_of_empty. setoid_rewrite elem_of_map_range.
    naive_solver.
  - intros k Hk. apply Hcl; [done|done|set_solver].
Qed.

(** The connections of a driver on a node; the empty node means all of them. *)
Definition on_node (driver nodeID : string) (v : Connection) : bool :=
  bool_decide (v.(DriverName) = driver) &&
  (bool_decide (nodeID = "") || bool_decide (v.(NodeID) = nodeID)).

Lemma identity_NodeID v v' : identity v = identity v' -> v.(NodeID) = v'.(NodeID).
Proof. intros H. exact (f_equal (fun t => t.1.1.1.1.2) H). Qed.

Lemma GetByNodeID_wp G h cp driver nodeID :
  (forall h e, connect_call e -> G h e) ->
  wp G (fun _ o => chosen (on_node driver nodeID) cp o) h (GetByNodeID cp driver nodeID).
Proof.
  intros HG. unfold GetByNodeID. apply wp_bind. eapply wp_post; [by apply getByDriverName_wp|].
  intros h1 o (cp1 & res & -> & Heq1 & Hres). cbn [after]. destruct res as [e|keys].
  { apply wp_ret. by eexists _, _. }
  destruct (Hres keys eq_refl) as [Hkeys _]. wp_step; [by apply HG|]. rename r into seed.
  apply wp_bind. eapply wp_post; [apply select_loop; [done|apply Config.map_range_NoDup|]|].
  { intros k v [? _]%elem_of_map_range%map_lookup_filter_Some. done. }
  intros h2 o (cp2 & acc & err & -> & Heq2 & Hacc & Hcl & _). cbn [after].
  destruct err as [e|]; apply wp_ret; eexists _, _; (split; [done|]); (split; [by transitivity cp1|]);
    intros ? [= <-].
  split; [|intros k Hk; apply Hcl; [done|done|set_solver]].
  intros k. rewrite Hacc by done. setoid_rewrite elem_of_map_range. setoid_rewrite map_lookup_filter_Some.
  rewrite elem_of_empty. setoid_rewrite Hkeys. simpl. unfold on_node. split.
  - intros [[]|(v1 & (Hv1 & v & Hv & Hd) & Hn)]. exists v. split; [done|]. rewrite Hd. simpl.
    destruct (pool_equiv_Some _ _ _ _ Heq1 Hv) as (v' & Hv' & Hid%identity_NodeID). simplify_eq.
    rewrite Hid in Hn. by repeat case_bool_decide.
  - intros (v & Hv & [Hd Hn]%andb_prop). right.
    destruct (pool_equiv_Some _ _ _ _ Heq1 Hv) as (v' & Hv' & Hid%identity_NodeID). exists v'.
    split; [by split; [|exists v]|]. rewrite Hid. by repeat case_bool_decide.
Qed.

Lemma GetByNodeID_calls cp driver nodeID : calls connect_call (GetByNodeID cp driver nodeID).
Proof.
  assert (forall keep l st, calls connect_call (range_err (select_conn keep) st l)) as Hloop.
  { intros keep l st. apply calls_range_err. intros [cp' acc] [k v]. rewrite select_conn_eq. calls_solve. }
  unfold GetByNodeID, getByDriverName. repeat (calls_step || apply Hloop); done.
Qed.
#[export] Hint Resolve GetByNodeID_calls : calls.

(** Where a connection comes from that a look-up hands out: [c0] of the pool, with
    its client or one dialled to its endpoint, and with its capabilities or those a
    side-car answered. *)
Definition reached (h : hist) (c0 c : Connection) : Prop :=
  identity c = identity c0 /\
  (forall cc, c.(Client) = Some cc ->
     c0.(Client) = Some cc \/ existT (ENewClient c0.(endpoint) c0.(enableAuth)) (inr cc) ∈ h) /\
  (c.(Capabilities) = c0.(Capabilities) \/
   exists cc, existT (ENewClient c0.(endpoint) c0.(enableAuth)) (inr cc) ∈ h /\
     existT (ERpc cc c0.(Timeout) GetCapabilities) (inr c.(Capabilities)) ∈ h).

Lemma reached_refl h c : reached h c c.
Proof. split_and!; auto. Qed.

Lemma reached_in h h' c0 c : (forall x, x ∈ h -> x ∈ h') -> reached h c0 c -> reached h' c0 c.
Proof.
  intros Hsub (Hid & Hcl & Hcap). split_and!; [done| |].
  - intros cc [?|?]%Hcl; auto.
  - destruct Hcap as [?|(cc & ? & ?)]; [by left|right; exists cc; auto].
Qed.

Lemma reached_trans h c0 c1 c2 : reached h c0 c1 -> reached h c1 c2 -> reached h c0 c2.
Proof.
  intros (Hid & Hcl & Hcap) (Hid' & Hcl' & Hcap').
  assert (endpoint c1 = endpoint c0 /\ enableAuth c1 = enableAuth c0 /\ Timeout c1 = Timeout c0) as (He & Ha & Ht)
    by (unfold identity in Hid; by simplify_eq).
  rewrite He, Ha in Hcl', Hcap'. rewrite Ht in Hcap'. split_and!; [congruence| |].
  - intros cc [?|?]%Hcl'; auto.
  - destruct Hcap' as [->|?]; auto.
Qed.

Lemma dial_reached c h :
  c.(Client) = None -> wp (fun _ _ => True) (fun h' o => extends (fun _ => True) h h' /\
      forall c' err, o = Done (c', err) -> reached h' c c') h (dial c).
Proof.
  intros Hc. unfold dial, fetchCapabilities.
  repeat wp_step; simplify_eq; try exact I; (split; [by repeat (apply extends_cons; [|done]); apply extends_refl|]);
    intros c' err [= <- <-]; split_and!; try done; auto.
  - intros cc [= <-]. right. set_solver.
  - right. eexists. split; [right; left|left].
Qed.

Lemma Connect_reached c h :
  wp (fun _ _ => True) (fun h' o => extends (fun _ => True) h h' /\
      forall c' err, o = Done (c', err) -> reached h' c c') h (Connect c).
Proof.
  unfold Connect. destruct (Client c) as [cc|] eqn:Hc; [|by apply dial_reached].
  split; [done|]. intros [].
  - eapply wp_post; [by apply dial_reached|]. intros h' o [Hext Hr]. split.
    { eapply extends_trans; [|exact Hext]. by apply extends_one. }
    intros c' err Ho. destruct (Hr c' err Ho) as (Hid & Hcl & Hcap). split_and!; [done| |done].
    intros cc' Hcc'. destruct (Hcl cc' Hcc') as [Hn|?]; [done|by right].
  - split; [by apply extends_one|]. intros c' err [= <- <-]. apply reached_refl.
Qed.

(** Every connection of a pool comes from one of [cp0]. *)
Definition pool_reached (cp0 : pool) (h : hist) (cp : pool) : Prop :=
  forall k c, cp !! k = Some c -> exists c0, cp0 !! k = Some c0 /\ reached h c0 c.

Lemma pool_reached_in cp0 h h' cp : (forall x, x ∈ h -> x ∈ h') -> pool_reached cp0 h cp -> pool_reached cp0 h' cp.
Proof. intros Hsub Hcp k c Hk. destruct (Hcp k c Hk) as (c0 & ? & ?). exists c0. eauto using reached_in. Qed.

Lemma select_reached cp0 keep l : forall h cp acc,
  NoDup l.*1 -> (forall k v, (k, v) ∈ l -> cp !! k = Some v) -> pool_reached cp0 h cp ->
  wp (fun _ _ => True) (fun h' o => forall cp' acc' err, o = Done (cp', acc', err) -> pool_reached cp0 h' cp')
    h (range_err (select_conn keep) (cp, acc) l).
Proof.
  induction l as [|[k v] l IH]; intros h cp acc Hnd Hin Hcp; [by intros ? ? ? [= <- <- <-]|].
  apply NoDup_cons in Hnd as [Hk Hnd]. simpl in Hk. cbn [range_err]. rewrite (select_conn_eq keep cp acc k v).
  destruct (keep v); cbn [negb].
  2: { wp_step. apply IH; [done| |done]. intros k' v' ?. apply Hin. set_solver. }
  apply wp_assoc. eapply wp_seq; [apply Connect_reached|]. intros h1 [[v' err]|m] [Hext Hr]; [|done]. cbn [after].
  assert (pool_reached cp0 h1 (<[k := v']> cp)) as Hcp1.
  { intros k' c. destruct (decide (k = k')) as [<-|Hne].
    - rewrite lookup_insert_eq. intros [= <-]. destruct (Hcp k v) as (c0 & Hc0 & Hc); [apply Hin; set_solver|].
      exists c0. split; [done|]. eapply reached_trans; [|by eapply Hr].
      eapply reached_in; [|exact Hc]. intros x. apply (extends_in _ _ _ Hext).
    - rewrite lookup_insert_ne by done. apply (pool_reached_in _ _ _ _ (fun x => extends_in _ _ x Hext) Hcp). }
  destruct err as [e|]; wp_step; [by intros ? ? ? [= <- <- <-]|].
  apply IH; [done| |done]. intros k' v1 H1. rewrite lookup_insert_ne; [apply Hin; set_solver|].
  intros <-. apply Hk, list_elem_of_fmap. by exists (k, v1).
Qed.

Lemma GetByNodeID_reached h cp driver nodeID :
  wp (fun _ _ => True) (fun h' o => forall cp' res, o = Done (cp', res) -> pool_reached cp h' cp')
    h (GetByNodeID cp driver nodeID).
Proof.
  unfold GetByNodeID, getByDriverName. apply wp_assoc. wp_step; [done|]. rename r into seed. apply wp_assoc.
  eapply wp_seq; [apply (select_reached cp); [apply Config.map_range_NoDup|by intros k v ?%elem_of_map_range|]|].
  { intros k c Hk. exists c. split; [done|]. apply reached_refl. }
  intros h1 [[[cp1 acc] err]|m] Hr; [|done]. cbn [after]. specialize (Hr _ _ _ eq_refl).
  destruct err as [e|]; wp_step; [by intros ? ? [= <- <-]|]. wp_step; [done|]. rename r into seed'.
  eapply wp_seq; [apply (select_reached cp); [apply Config.map_range_NoDup| |]|].
  { by intros k v [? _]%elem_of_map_range%map_lookup_filter_Some. }
  { eapply pool_reached_in; [|exact Hr]. set_solver. }
  intros h2 [[[cp2 acc2] err]|m] Hr2; [|done]. cbn [after]. specialize (Hr2 _ _ _ eq_refl).
  destruct err; by intros ? ? [= <- <-].
Qed.

Lemma first_namespace_spec d l ns :
  first_namespace d l = Some ns ->
  exists k v, (k, v) ∈ l /\ v.(DriverName) = d /\ v.(conn_Namespace) = ns.
Proof.
  induction l as [|[k v] l IH]; simpl; [done|]. case_bool_decide.
  - intros [= <-]. exists k, v. set_solver.
  - intros H'. destruct (IH H') as (k' & v' & ? & ? & ?). exists k', v'. set_solver.
Qed.

(** What the leader lookup observed: the pool snapshots and the lease. *)
Definition pool_read_by (c : {e & answer e}) : option pool :=
  match c with
  | existT e r =>
    match e return answer e -> option pool with
    | EReadPool => fun cp => Some cp
    | _ => fun _ => None
    end r
  end.
Definition lease_read_by (c : {e & answer e}) : option (NamespacedName * Lease) :=
  match c with
  | existT e r =>
    match e return answer e -> option (NamespacedName * Lease) with
    | EGet k key =>
      match k return error + obj_of k -> option (NamespacedName * Lease) with
      | KLease => fun r => match r with inr l => Some (key, l) | inl _ => None end
      | _ => fun _ => None
      end
    | _ => fun _ => None
    end r
  end.

Definition leader_post (driverName : string) (h : hist) (o : outcome (error + Connection)) : Prop :=
  match o with
  | Done (inr conn) =>
    exists cp1 cp2 key lease holder k v c,
      observe pool_read_by h = [cp2; cp1] /\ observe lease_read_by h = [(key, lease)] /\
      cp1 !! k = Some v /\ v.(DriverName) = driverName /\
      nn_Namespace key = v.(conn_Namespace) /\
      lease.(HolderIdentity) = Some holder /\ holder ≠ "" /\
      cp2 !! (obj_Namespace lease +:+ "/" +:+ holder) = Some c /\
      identity conn = identity c /\ is_Some conn.(Client)
  | Done (inl _) => True
  | Panicked _ => driverName = ""
  end.

(** The calls of [Connect] itself. *)
Definition dial_call (e : event) : Prop :=
  match e with
  | EGetState _ | ECloseConn _ | ENewClient _ _ | ERpc _ _ GetCapabilities => True
  | _ => False
  end.

Lemma Connect_quiet {A} (f : {e & answer e} -> option A) G c h :
  (forall h e, connect_call e -> G h e) ->
  (forall e r, dial_call e -> f (existT e r) = None) ->
  wp G (fun h' o => observe f h' = observe f h /\ connect_ok c o) h (Connect c).
Proof.
  intros HG Hf. apply wp_and; [|by apply Connect_ok].
  assert (calls dial_call (Connect c)) as Hc.
  { unfold Connect, dial, fetchCapabilities. calls_solve. }
  eapply wp_post; [eapply calls_wp; [exact Hc|]|].
  - intros h' e He. apply HG. by destruct e as [| | | | | | |? ? []| | | | | | | | | | | |].
  - intros h' o Hext. eapply observe_extends; [exact Hext|exact Hf].
Qed.

Lemma GetLeaderByDriver_wp G d :
  (forall h e, connect_call e -> G h e) ->
  wp G (leader_post d) [] (GetLeaderByDriver d).
Proof.
  intros HG. unfold GetLeaderByDriver, getNamespaceByDriverName, get_obj.
  repeat wp_step; try (by apply HG); try done; simplify_eq.
  2: { by apply Config.NormalizeLeaseName_None. }
  rename o into lease, r into cp1, r2 into cp2.
  apply first_namespace_spec in Heqo as (k & v & Hkv & Hd & <-).
  apply elem_of_map_range in Hkv.
  destruct (HolderIdentity lease) as [holder|] eqn:Hh; [|by apply bool_decide_eq_false in Heqb].
  apply bool_decide_eq_false in Heqb. simpl default in *.
  apply wp_bind. eapply wp_post; [apply wp_and|].
  - apply (Connect_quiet pool_read_by); [done|]. by intros [].
  - apply (Connect_quiet lease_read_by); [done|]. by intros [].
  - intros h' o [[Hp (c' & err & -> & Hid & Herr)] [Hl _]]. cbn [after].
    repeat wp_step; [by apply HG|done|]. subst. cbn [leader_post].
    eexists cp1, cp2, _, lease, holder, k, v, c.
    rewrite !observe_cons, Hp, Hl. split_and!; try done. by apply Herr.
Qed.

(** From any history: the leader's connection holds a client. *)
Lemma GetLeaderByDriver_client G d h :
  (forall h e, connect_call e -> G h e) ->
  wp G (fun h' o => extends connect_call h h' /\
      match o with
      | Done (inr conn) => is_Some conn.(Client)
      | Done (inl _) => True
      | Panicked _ => d = ""
      end) h (GetLeaderByDriver d).
Proof.
  intros HG. apply wp_and; [apply calls_wp; [apply GetLeaderByDriver_calls|done]|].
  unfold GetLeaderByDriver, getNamespaceByDriverName, get_obj.
  repeat wp_step; try (by apply HG); try done; simplify_eq.
  2: { by apply Config.NormalizeLeaseName_None. }
  apply wp_bind. eapply wp_post; [by apply Connect_ok|].
  intros h' o' (c' & err & -> & _ & Herr). cbn [after].
  repeat wp_step; [by apply HG|done|]. subst. by apply Herr.
Qed.

(** ** Properties *)

(** Connecting never leaks a client and never lies about its state.
    Whatever the dial, the capability query and the state check answer, Connect
    returns without an error exactly when the connection holds a client, it
    changes none of the identifying fields, and each client it dialled is either
    the one held or was closed. *)
Theorem Connect_no_leak ρ c :
  connect_post c (fst (run ρ [] (Connect c))) (snd (run ρ [] (Connect c))).
Proof.
  apply wp_final. by apply Connect_wp.
Qed.

(** Replacing or deleting a pool entry closes the client of the connection
    that was there, exactly once, and leaves every other entry alone. *)
Theorem Put_Delete_close ρ cp key conn :
  let old := match cp !! key with Some c => option_list c.(Client) | None => [] end in
  (let '(h, o) := run ρ [] (Put cp key conn) in
   o = Done (<[key := conn]> cp) /\ closed h = old) /\
  (let '(h, o) := run ρ [] (Delete cp key) in
   o = Done (delete key cp) /\ closed h = old).
Proof.
  simpl. unfold Put, Delete, Close. destruct (cp !! key) as [c|]; [|done].
  by destruct (Client c).
Qed.

(** Selecting the connections of a driver, or those on one node, returns exactly
    the pool entries wanted, all of them connected, in whatever order the map is
    ranged over; a failed reconnection is an error, and neither outcome adds,
    removes or renames an entry. *)
Theorem pool_selection_exact ρ cp driver nodeID :
  chosen (fun v => bool_decide (v.(DriverName) = driver)) cp
    (snd (run ρ [] (getByDriverName cp driver))) /\
  chosen (on_node driver nodeID) cp (snd (run ρ [] (GetByNodeID cp driver nodeID))).
Proof.
  split; apply (wp_final (fun _ => chosen _ cp)); [by apply getByDriverName_wp|by apply GetByNodeID_wp].
Qed.

(** The leader lookup only ever returns a connected entry of the pool, under
    the key "namespace/holder" of a lease fetched from a namespace in which the
    pool knew a connection of that driver; it panics only for the empty driver
    name. *)
Theorem GetLeaderByDriver_correct ρ driverName :
  leader_post driverName (fst (run ρ [] (GetLeaderByDriver driverName)))
    (snd (run ρ [] (GetLeaderByDriver driverName))).
Proof.
  apply wp_final. by apply GetLeaderByDriver_wp.
Qed.
