(* ===== verification/CSIAddonsNodeController.v ===== *)
(** * The CSIAddonsNode controller

    src/internal/controller/csiaddons/csiaddonsnode_controller.go: connects to
    the side-car a CSIAddonsNode announces, keeps the connection in the pool
    (Connection.v) under the name the leases use, asks for the clients to fence,
    and gives up on a side-car it cannot reach after a few attempts. *)

From S2P Require Import Prelude.
From S2P Require Import GoErrors.
From S2P Require Import GoStrconv.
From S2P Require Import GoURL.
From S2P Require Import GoText.
From S2P Require Import GoJSON.
From S2P Require Import ApiTypes.
From S2P Require Import CsiaddonsTypes.
From S2P Require Import Effects.
From S2P Require Import ControllerUtil.
From S2P Require Import Connection.
From S2P Require Config.

Abbreviation result := (Result * option error)%type.

(** ** Constants, also those of networkfenceclass_controller.go that are shared *)

Definition maxRetries : Z := 3.
Definition baseRequeueAfter : Z := 1 * hour.
Definition csiAddonsNodeFinalizer := "csiaddons.openshift.io/csiaddonsnode".

Definition networkFenceClassAnnotationKey := "csiaddons.openshift.io/networkfenceclass-names".
Definition networkFenceParameterPrefix := "csiaddons.openshift.io/".
Definition prefixedNetworkFenceSecretNameKey := networkFenceParameterPrefix +:+ "networkfence-secret-name".
Definition prefixedNetworkFenceSecretNamespaceKey := networkFenceParameterPrefix +:+ "networkfence-secret-namespace".

(** CSIAddonsNodeStateRetryingFmtStr applied to the attempt. *)
Definition retrying_reason (attempt : Z) : string := "currentAttempt: " +:+ Itoa attempt.

(** ** Status fields *)

Definition set_node_status (n : CSIAddonsNode) (s : CSIAddonsNodeStatus) : CSIAddonsNode :=
  mkNode n.(node_meta) n.(node_Driver) s.
Definition set_node_State (n : CSIAddonsNode) (state message reason : string) : CSIAddonsNode :=
  let s := n.(node_Status) in
  set_node_status n (mkNodeStatus state message reason s.(ns_Capabilities) s.(ns_NetworkFenceClientStatus)).
Definition set_node_Capabilities (n : CSIAddonsNode) (caps : list string) : CSIAddonsNode :=
  let s := n.(node_Status) in
  set_node_status n (mkNodeStatus s.(ns_State) s.(ns_Message) s.(ns_Reason) caps s.(ns_NetworkFenceClientStatus)).
Definition set_node_clients (n : CSIAddonsNode) (l : list NetworkFenceClientStatus) : CSIAddonsNode :=
  let s := n.(node_Status) in
  set_node_status n (mkNodeStatus s.(ns_State) s.(ns_Message) s.(ns_Reason) s.(ns_Capabilities) l).

(** ** Validation, endpoints, retry counts *)

Definition validateCSIAddonsNodeSpec (n : CSIAddonsNode) : option error :=
  if bool_decide (n.(node_Driver).(drv_Name) = "") then
    Some (ErrorString "required parameter 'Name' in CSIAddonsNode.Spec.Driver is empty")
  else if bool_decide (n.(node_Driver).(drv_EndPoint) = "") then
    Some (ErrorString "required parameter 'EndPoint' in CSIAddonsNode.Spec.Driver is empty")
  else None.

(** Namespace, pod name and port. *)
Definition parseEndpoint (rawURL : string) : error + string * string * string :=
  match Parse rawURL with
  | inl err =>
    inl (WrapError ("failed to parse endpoint " +:+ go_quote rawURL +:+ ": " +:+ Error err) err)
  | inr endpoint =>
    if negb (bool_decide (endpoint.(Scheme) = "pod")) then
      inl (ErrorString ("endpoint scheme " +:+ go_quote endpoint.(Scheme) +:+ " not supported"))
    else
    let hostName := Hostname endpoint in
    let bad := inl (ErrorString ("hostname " +:+ go_quote hostName +:+ " is not in <pod>.<namespace> format")) in
    match cut_last "." hostName with
    | None => bad
    | Some (podname, namespace) =>
      if bool_decide (podname = "") || bool_decide (namespace = "") then bad
      else inr (namespace, podname, Port endpoint)
    end
  end.

(** The pod name, which is also given on some errors, with the address or the
    error. *)
Definition resolveEndpoint (rawURL : string) : M (string * (error + string)) :=
  match parseEndpoint rawURL with
  | inl err => mret ("", inl err)
  | inr (namespace, podname, port) =>
    r ← get_obj KPod (mkNamespacedName namespace podname);
    match r with
    | inl err =>
      mret (podname, inl (WrapError ("failed to get pod " +:+ namespace +:+ "/" +:+ podname +:+ ": " +:+ Error err) err))
    | inr pod =>
      if bool_decide (pod.(PodIP) = "") then
        mret (podname, inl (ErrorString ("pod " +:+ namespace +:+ "/" +:+ podname +:+ " does not have an IP-address")))
      else
        let ip := if (2 <=? count_byte ":" pod.(PodIP)) then "[" +:+ pod.(PodIP) +:+ "]" else pod.(PodIP) in
        mret (podname, inr (ip +:+ ":" +:+ port))
    end
  end.

Definition getRetryCountFromReason (reason : string) : error + Z :=
  if bool_decide (reason = "") then inr 0%Z
  else match cut ":" reason with
       | (_, None) => inl (ErrorString "got an unexpected length after splitting the reason string")
       | (_, Some rest) =>
         match Atoi (TrimSpace rest) with
         | inr c => inr c
         | inl _ => inl (ErrorString "failed to parse the reason string to an integer")
         end
       end.

(** time.Duration(math.Pow(2, float64(n))) for n < 3: fractions truncate to 0. *)
Definition pow2_duration (n : Z) : Z := if (n <? 0)%Z then 0%Z else (2 ^ n)%Z.

Section controller.
(** The reconciler's fields; the text of an Unmarshal error; the protobuf text
    of a capability. *)
Variables (EnableAuth : bool) (BaseRetryDelay : Z).
Variable json_error : string -> error.
Variable cap_String : Capability -> string.

Definition backoffAndRetry (n : CSIAddonsNode) (err : error) : M result :=
  match getRetryCountFromReason n.(node_Status).(ns_Reason) with
  | inl e => mret (no_requeue, Some e)
  | inr currentRetries =>
    if (maxRetries <=? currentRetries)%Z then
      delErr ← call (EDelete KCSIAddonsNode n);
      match IgnoreNotFound delErr with
      | Some _ => mret (no_requeue, delErr)
      | None => mret (no_requeue, None)
      end
    else
      let attempt := int64 (currentRetries + 1) in
      let n := set_node_State n CSIAddonsNodeStateRetrying
        ("Connection failed: " +:+ GetErrorMessage err +:+ ". Retrying attempt " +:+ Itoa attempt +:+
         "/" +:+ Itoa maxRetries +:+ ".") (retrying_reason attempt) in
      '(_, statusErr) ← status_update_obj KCSIAddonsNode n;
      match statusErr with
      | Some statusErr => mret (no_requeue, Some statusErr)
      | None => mret (mkResult false (int64 (BaseRetryDelay * pow2_duration currentRetries)), None)
      end
  end.

(** ** Finalizers *)

Definition addFinalizer (n : CSIAddonsNode) : M (CSIAddonsNode * option error) :=
  if negb (contains (finalizers n) csiAddonsNodeFinalizer) then
    update_obj KCSIAddonsNode (with_finalizers n (finalizers n ++ [csiAddonsNodeFinalizer]))
  else mret (n, None).

Definition removeFinalizer (n : CSIAddonsNode) : M (CSIAddonsNode * option error) :=
  if contains (finalizers n) csiAddonsNodeFinalizer then
    update_obj KCSIAddonsNode
      (with_finalizers n (Config.RemoveFromSlice (finalizers n) csiAddonsNodeFinalizer))
  else mret (n, None).

(** ** Clients to fence *)

Fixpoint get_classes (classes : list string) (acc : list NetworkFenceClass)
    : M (error + list NetworkFenceClass) :=
  match classes with
  | [] => mret (inr acc)
  | class :: classes =>
    r ← get_obj KNetworkFenceClass (mkNamespacedName "" class);
    match r with
    | inl err => mret (inl err)
    | inr nfc => get_classes classes (acc ++ [nfc])
    end
  end.

Definition getNetworkFenceClassesForDriver (instance : CSIAddonsNode)
    : M (error + list NetworkFenceClass) :=
  match (meta instance).(Annotations) !! networkFenceClassAnnotationKey with
  | None => mret (inr [])
  | Some classesJSON =>
    match Unmarshal classesJSON with
    | None => mret (inl (json_error classesJSON))
    | Some classes => get_classes classes []
    end
  end.

(** The driver can list the clients to fence. *)
Definition fences_clients (cap : Capability) : bool :=
  match cap with CapNetworkFence t => (t =? NetworkFence_GET_CLIENTS_TO_FENCE)%Z | _ => false end.

(** [None] when the driver cannot list clients.  The secret's keys are deleted
    from the parameter map that is sent. *)
Definition getFenceClientDetails (conn : Connection) (nfc : NetworkFenceClass)
    : M (error + option (list ClientDetail)) :=
  let param := nfc.(nfc_Parameters) in
  let secretName := map_get param prefixedNetworkFenceSecretNameKey in
  let secretNamespace := map_get param prefixedNetworkFenceSecretNamespaceKey in
  let param := delete prefixedNetworkFenceSecretNamespaceKey
                 (delete prefixedNetworkFenceSecretNameKey param) in
  if existsb fences_clients conn.(Capabilities) then
    match conn.(Client) with
    | None => Panic "nil pointer dereference"
    | Some cc =>
      r ← call (ERpc cc no_timeout (GetFenceClients param secretName secretNamespace));
      match r with
      | inl err => mret (inl err)
      | inr clients => mret (inr (Some clients))
      end
    end
  else mret (inr None).

Definition getClientDetails (clients : list ClientDetail) : list ClientDetail :=
  map (fun client => mkClientDetail client.(cd_Id) client.(cd_Cidrs)) clients.

Fixpoint client_statuses (conn : Connection) (nfclasses : list NetworkFenceClass)
    (nfsc : list NetworkFenceClientStatus) : M (error + list NetworkFenceClientStatus) :=
  match nfclasses with
  | [] => mret (inr nfsc)
  | nfc :: nfclasses =>
    r ← getFenceClientDetails conn nfc;
    match r with
    | inl err => mret (inl err)
    | inr None => client_statuses conn nfclasses nfsc
    | inr (Some clients) =>
      client_statuses conn nfclasses (nfsc ++ [mkNFClientStatus (obj_Name nfc) (getClientDetails clients)])
    end
  end.

Definition getNetworkFenceClientStatus (conn : Connection) (n : CSIAddonsNode)
    : M (error + list NetworkFenceClientStatus) :=
  r ← getNetworkFenceClassesForDriver n;
  match r with
  | inl err => mret (inl err)
  | inr nfclasses => client_statuses conn nfclasses []
  end.

(** ** Capabilities in the status *)

Definition parseCapability (cap : Capability) : string :=
  ReplaceAll (ReplaceAll (cap_String cap) ":{type:" ".") "}" "".
Definition parseCapabilities (caps : list Capability) : list string := map parseCapability caps.

(** ** The pool, under its lock *)

Definition pool_Put (key : string) (conn : Connection) : M unit :=
  cp ← call EReadPool;
  cp ← Put cp key conn;
  _ ← call (EWritePool cp);
  mret tt.

Definition pool_Delete (key : string) : M unit :=
  cp ← call EReadPool;
  cp ← Delete cp key;
  _ ← call (EWritePool cp);
  mret tt.

(** ** Reconcile *)

(** The specification is invalid. *)
Definition reject_spec (n : CSIAddonsNode) (err : error) : M result :=
  let n := set_node_State n CSIAddonsNodeStateFailed
    ("Failed to validate CSIAddonsNode parameters: " +:+ Error err) n.(node_Status).(ns_Reason) in
  '(_, statusErr) ← status_update_obj KCSIAddonsNode n;
  mret (no_requeue, statusErr).

(** The end of a run that is connected. *)
Definition register (key : string) (conn : Connection) (n : CSIAddonsNode) : M result :=
  _ ← pool_Put key conn;
  let n := set_node_State n CSIAddonsNodeStateConnected
    "Successfully established connection with sidecar" "" in
  let n := set_node_Capabilities n (parseCapabilities conn.(Capabilities)) in
  '(_, err) ← status_update_obj KCSIAddonsNode n;
  match err with
  | Some err => mret (no_requeue, Some err)
  | None => mret (mkResult false baseRequeueAfter, None)
  end.

(** From the finalizer on. *)
Definition connect_node (n : CSIAddonsNode) (drv : CSIAddonsNodeDriver) (endPoint key : string) : M result :=
  '(n, err) ← addFinalizer n;
  match err with
  | Some err => mret (no_requeue, Some err)
  | None =>
    r ← NewConnection endPoint drv.(drv_NodeID) drv.(drv_Name) (obj_Namespace n) (obj_Name n) EnableAuth;
    match r with
    | inl err => backoffAndRetry n err
    | inr newConn =>
      r ← getNetworkFenceClientStatus newConn n;
      match r with
      | inl err => mret (no_requeue, Some err)
      | inr nfsc => register key newConn (set_node_clients n nfsc)
      end
    end
  end.

(** The node as fetched. *)
Definition reconcile_node (n : CSIAddonsNode) : M result :=
  match validateCSIAddonsNodeSpec n with
  | Some err => reject_spec n err
  | None =>
    '(podName, resolved) ← resolveEndpoint n.(node_Driver).(drv_EndPoint);
    match resolved, is_deleting n with
    | inl err, false =>
      backoffAndRetry n
        (WrapError ("failed to resolve endpoint " +:+ go_quote n.(node_Driver).(drv_EndPoint) +:+
                    ": " +:+ Error err) err)
    | _, deleting =>
      match Config.NormalizeLeaseName podName with
      | None => Panic "index out of range [-1]"
      | Some base =>
        let key := obj_Namespace n +:+ "/" +:+ base in
        if deleting then
          _ ← pool_Delete key;
          '(_, err) ← removeFinalizer n;
          mret (no_requeue, err)
        else
          let endPoint := match resolved with inr ep => ep | inl _ => "" end in
          connect_node n n.(node_Driver) endPoint key
      end
    end
  end.

Definition Reconcile (req : NamespacedName) : M result :=
  r ← get_obj KCSIAddonsNode req;
  match r with
  | inl err => if IsNotFound err then mret (no_requeue, None) else mret (no_requeue, Some err)
  | inr n => reconcile_node n
  end.
End controller.
