(* ===== verification/CSIAddonsNodeProofs.v ===== *)
(** * The CSIAddonsNode controller keeps its promises

    Which calls a reconcile makes, for every environment; where it panics; how
    the retries of an unreachable side-car end; the text formats it reads back. *)

From S2P Require Import Prelude.
From S2P Require Import GoErrors.
From S2P Require Import GoStrconv.
From S2P Require Import GoURL.
From S2P Require Import GoText.
From S2P Require Import GoJSON.
From S2P Require Import ApiTypes.
From S2P Require Import CsiaddonsTypes.
From S2P Require Import Effects.
From S2P Require Import ControllerUtil.
From S2P Require Import Connection.
From S2P Require Import CSIAddonsNodeController.
From S2P Require Config.

(** ** The contract *)

Definition pool_read (c : {e & answer e}) : option pool :=
  match c with
  | existT e r => match e return answer e -> option pool with EReadPool => fun cp => Some cp | _ => fun _ => None end r
  end.

(** The pool's key for the node. *)
Definition node_key (n : CSIAddonsNode) (key : string) : Prop :=
  exists ns pod port base, parseEndpoint n.(node_Driver).(drv_EndPoint) = inr (ns, pod, port) /\
    Config.NormalizeLeaseName pod = Some base /\ key = obj_Namespace n +:+ "/" +:+ base.

Definition dial_address (ip port : string) : string :=
  (if (2 <=? count_byte ":" ip) then "[" +:+ ip +:+ "]" else ip) +:+ ":" +:+ port.

(** The endpoint is the address of the pod that the node names. *)
Definition resolved_to (h : hist) (n : CSIAddonsNode) (ep : string) : Prop :=
  exists ns pod port p, parseEndpoint n.(node_Driver).(drv_EndPoint) = inr (ns, pod, port) /\
    existT (EGet KPod (mkNamespacedName ns pod)) (inr p) ∈ h /\ p.(PodIP) ≠ "" /\
    ep = dial_address p.(PodIP) port.

Section node.
Context (EnableAuth : bool) (BaseRetryDelay : Z)
  (json_error : string -> error) (cap_String : Capability -> string).

(** A live connection to the node's side-car, with what the side-car answered. *)
Definition connected_to (h : hist) (n : CSIAddonsNode) (conn : Connection) : Prop :=
  exists cc, conn.(Client) = Some cc /\
    existT (ENewClient conn.(endpoint) EnableAuth) (inr cc) ∈ h /\
    existT (ERpc cc minute GetCapabilities) (inr conn.(Capabilities)) ∈ h /\
    conn.(DriverName) = n.(node_Driver).(drv_Name) /\ conn.(NodeID) = n.(node_Driver).(drv_NodeID) /\
    resolved_to h n conn.(endpoint).

Definition put_permitted (h : hist) (cp' : pool) : Prop :=
  exists (n : CSIAddonsNode) key cp, newest (fetched KCSIAddonsNode) h = Some n /\ newest pool_read h = Some cp /\
    node_key n key /\
    ((is_deleting n = true /\ cp' = delete key cp) \/
     (is_deleting n = false /\ exists conn, connected_to h n conn /\ cp' = <[key := conn]> cp)).

(** The pool was written with the node's connection. *)
Definition registered (h : hist) (n : CSIAddonsNode) (conn : Connection) : Prop :=
  exists key cp, node_key n key /\ cp !! key = Some conn /\ existT (EWritePool cp) tt ∈ h /\
    connected_to h n conn.

(** What a status may say. *)
Definition honest_status (h : hist) (s : CSIAddonsNodeStatus) : Prop :=
  exists n0 n, newest (fetched KCSIAddonsNode) h = Some n0 /\ newest (current KCSIAddonsNode) h = Some n /\
    ((s.(ns_State) = CSIAddonsNodeStateConnected /\ s.(ns_Reason) = "" /\
      exists conn, registered h n0 conn /\
        s.(ns_Capabilities) = parseCapabilities cap_String conn.(Capabilities)) \/
     (s.(ns_State) = CSIAddonsNodeStateRetrying /\
      exists r, getRetryCountFromReason n.(node_Status).(ns_Reason) = inr r /\ (r < maxRetries)%Z /\
        s.(ns_Reason) = retrying_reason (int64 (r + 1))) \/
     (s.(ns_State) = CSIAddonsNodeStateFailed /\ is_Some (validateCSIAddonsNodeSpec n0))).

(** The finalizer goes only after the connection. *)
Definition unregistered (h : hist) (n : CSIAddonsNode) : Prop :=
  is_deleting n = true /\ exists key cp, node_key n key /\ cp !! key = None /\ existT (EWritePool cp) tt ∈ h.

Definition node_contract (h : hist) (e : event) : Prop :=
  match e with
  | EGet k _ => k = KCSIAddonsNode \/ k = KPod \/ k = KNetworkFenceClass
  | EReadPool | EGetState _ | ECloseConn _ | ENewClient _ _ => True
  | EWritePool cp => put_permitted h cp
  | ERpc _ _ m =>
    match m with
    | GetCapabilities => True
    | GetFenceClients ps _ _ =>
      ps !! prefixedNetworkFenceSecretNameKey = None /\ ps !! prefixedNetworkFenceSecretNamespaceKey = None
    | _ => False
    end
  | EStatusUpdate k o =>
    match k return obj_of k -> Prop with
    | KCSIAddonsNode => fun o => honest_status h o.(node_Status)
    | _ => fun _ => False
    end o
  | EUpdate k o =>
    match k return obj_of k -> Prop with
    | KCSIAddonsNode => fun o =>
      exists n, newest (fetched KCSIAddonsNode) h = Some n /\
        forall f, f ∈ finalizers n -> f ∈ finalizers o \/ (f = csiAddonsNodeFinalizer /\ unregistered h n)
    | _ => fun _ => False
    end o
  | EDelete k o =>
    match k return obj_of k -> Prop with
    | KCSIAddonsNode => fun o =>
      exists n r, newest (current KCSIAddonsNode) h = Some n /\ o = n /\
        getRetryCountFromReason n.(node_Status).(ns_Reason) = inr r /\ (maxRetries <= r)%Z
    | _ => fun _ => False
    end o
  | _ => False
  end.

(** ** The parts keep it *)

(** Calls that do not touch the node. *)
Definition aside (e : event) : Prop :=
  match e with
  | EGet k _ => k ≠ KCSIAddonsNode
  | EGetState _ | ECloseConn _ | ENewClient _ _ | ERpc _ _ _ => True
  | _ => False
  end.

Lemma aside_silent e r : aside e ->
  fetched KCSIAddonsNode (existT e r) = None /\ current KCSIAddonsNode (existT e r) = None /\
  pool_read (existT e r) = None.
Proof.
  destruct e as [k| | | | | | | | | | | | | | | | | | |]; try done. intros Hk. simpl.
  unfold obj_answer, obj_in. split_and!; [..|done]; destruct r; try done; by destruct decide.
Qed.

Lemma aside_newest h h' : extends aside h h' ->
  newest (fetched KCSIAddonsNode) h' = newest (fetched KCSIAddonsNode) h /\
  newest (current KCSIAddonsNode) h' = newest (current KCSIAddonsNode) h.
Proof. intros Hext. split; apply (newest_extends _ _ _ _ Hext); intros e r He; by apply aside_silent. Qed.

Lemma extends_aside_mono {P} (h h' : hist) : (forall e, P e -> aside e) -> extends P h h' -> extends aside h h'.
Proof. intros HP (t & -> & Ht). exists t. split; [done|]. eapply Forall_impl; [exact Ht|]. intros c. apply HP. Qed.

Lemma connected_extends {P} h h' n conn : extends P h h' -> connected_to h n conn -> connected_to h' n conn.
Proof.
  intros Hext (cc & Hcc & H1 & H2 & H3 & H4 & ns & pod & port & p & Hp & Hin & Hip & Hep).
  exists cc. split_and!; [done|by eapply extends_in..|done|done|].
  exists ns, pod, port, p. split_and!; [done|by eapply extends_in|done..].
Qed.

(** The calls of dialling a new connection. *)
Definition dial_call (e : event) : Prop :=
  match e with
  | ENewClient _ _ | ERpc _ _ GetCapabilities | ECloseConn _ => True
  | _ => False
  end.

Lemma NewConnection_wp (G : hist -> event -> Prop) ep id drv ns pod h :
  (forall h e, dial_call e -> G h e) ->
  wp G (fun h' o => extends dial_call h h' /\ exists r, o = Done r /\
      match r with
      | inl _ => True
      | inr c => exists cc, c.(Client) = Some cc /\ c.(endpoint) = ep /\ c.(DriverName) = drv /\ c.(NodeID) = id /\
          existT (ENewClient ep EnableAuth) (inr cc) ∈ h' /\
          existT (ERpc cc minute GetCapabilities) (inr c.(Capabilities)) ∈ h'
      end) h (NewConnection ep id drv ns pod EnableAuth).
Proof.
  intros HG. unfold NewConnection, Connect, dial, fetchCapabilities.
  repeat (wp_step || (cbn [Client set_Client Timeout endpoint enableAuth]; progress simplify_eq));
    try (by apply HG); (split; [by repeat apply extends_cons; [apply extends_refl|..]|]);
    eexists; (split; [done|]); [done..|].
  eexists. split_and!; try reflexivity; simpl; set_solver.
Qed.

Definition client_call (e : event) : Prop :=
  match e with
  | EGet k _ => k = KNetworkFenceClass
  | ERpc _ _ (GetFenceClients ps _ _) =>
    ps !! prefixedNetworkFenceSecretNameKey = None /\ ps !! prefixedNetworkFenceSecretNamespaceKey = None
  | _ => False
  end.

Lemma get_classes_calls l acc : calls client_call (get_classes l acc).
Proof. revert acc. induction l as [|c l IH]; intros acc; simpl; [done|]. split; [done|]. intros [e|nfc]; [done|apply IH]. Qed.

Lemma getFenceClientDetails_calls conn nfc : calls client_call (getFenceClientDetails conn nfc).
Proof.
  unfold getFenceClientDetails. calls_solve.
  simpl. split; [rewrite lookup_delete_ne by done|]; apply lookup_delete_eq.
Qed.

Lemma client_statuses_calls conn l acc : calls client_call (client_statuses conn l acc).
Proof.
  revert acc. induction l as [|c l IH]; intros acc; simpl; [done|].
  apply calls_bind; [apply getFenceClientDetails_calls|]. intros [e|[cl|]]; [done|apply IH..].
Qed.

Lemma getNetworkFenceClientStatus_calls conn n :
  calls client_call (getNetworkFenceClientStatus json_error conn n).
Proof.
  unfold getNetworkFenceClientStatus, getNetworkFenceClassesForDriver.
  apply calls_bind; [|intros [e|l]; [done|apply client_statuses_calls]].
  case_match; [|done]. case_match; [apply get_classes_calls|done].
Qed.

Lemma client_statuses_no_panic conn cc l acc : conn.(Client) = Some cc -> no_panic (client_statuses conn l acc).
Proof.
  intros Hc. revert acc. induction l as [|nfc l IH]; intros acc; simpl; [done|].
  apply no_panic_bind; [|intros [e|[cl|]]; [done|apply IH..]].
  unfold getFenceClientDetails. rewrite Hc. case_match; [|done]. intros [e|r]; done.
Qed.

Lemma get_classes_no_panic l acc : no_panic (get_classes l acc).
Proof. revert acc. induction l as [|c l IH]; intros acc; simpl; [done|]. intros [e|nfc]; [done|apply IH]. Qed.

Lemma getNetworkFenceClientStatus_no_panic conn cc n : conn.(Client) = Some cc ->
  no_panic (getNetworkFenceClientStatus json_error conn n).
Proof.
  intros Hc. unfold getNetworkFenceClientStatus, getNetworkFenceClassesForDriver.
  apply no_panic_bind; [|intros [e|l]; [done|by eapply client_statuses_no_panic]].
  case_match; [|done]. case_match; [apply get_classes_no_panic|done].
Qed.

(** ** The contract of the parts *)

(** How a run may end: it panics only for a deleted node whose endpoint names no
    pod. *)
Definition node_ends (n : CSIAddonsNode) (h : hist) (o : outcome result) : Prop :=
  match o with
  | Done _ => True
  | Panicked _ => is_deleting n = true /\ validateCSIAddonsNodeSpec n = None /\
      exists err, parseEndpoint n.(node_Driver).(drv_EndPoint) = inl err
  end.

Lemma backoffAndRetry_wp h n0 n err :
  newest (fetched KCSIAddonsNode) h = Some n0 -> newest (current KCSIAddonsNode) h = Some n ->
  wp node_contract (node_ends n0) h (backoffAndRetry BaseRetryDelay n err).
Proof.
  intros Hn0 Hn. unfold backoffAndRetry, status_update_obj.
  destruct (getRetryCountFromReason _) as [e|r] eqn:Hr; [done|].
  destruct (maxRetries <=? r)%Z eqn:Hmax; repeat wp_step; try done.
  - exists n, r. split_and!; [done..|]. by apply Z.leb_le.
  - exists n0, n. split_and!; [done..|]. right; left. simpl. split; [done|].
    exists r. split_and!; [done| |done]. by apply Z.leb_gt.
Qed.

Definition close_call (e : event) : Prop :=
  match e with ECloseConn _ => True | _ => False end.

Lemma close_aside e : close_call e -> aside e.
Proof. by destruct e. Qed.
Lemma close_permitted h e : close_call e -> node_contract h e.
Proof. by destruct e. Qed.

(** Writing the pool: the old connection is closed first. *)
Lemma pool_write_wp (G : hist -> event -> Prop) h (f : pool -> pool) (op : pool -> M pool) :
  (forall h cp, wp G (fun h' o => extends close_call h h' /\ o = Done (f cp)) h (op cp)) ->
  (forall h, G h EReadPool) ->
  (forall h' cp, extends close_call (existT EReadPool cp :: h) h' -> G h' (EWritePool (f cp))) ->
  wp G (fun h' o => exists h1 (cp : pool), extends close_call (existT EReadPool cp :: h) h1 /\
          h' = existT (EWritePool (f cp)) tt :: h1 /\ o = Done tt) h
    (cp ← call EReadPool; cp ← op cp; _ ← call (EWritePool cp); mret tt).
Proof.
  intros Hop Hread Hwrite. apply wp_call; [apply Hread|]. intros cp. cbn [mbind prog_bind].
  eapply wp_seq; [apply Hop|]. intros h1 o [Hext ->]. cbn [after].
  apply wp_call; [by apply Hwrite|]. intros []. by exists h1, cp.
Qed.

Lemma Put_wp (G : hist -> event -> Prop) key conn cp h : (forall h e, close_call e -> G h e) ->
  wp G (fun h' o => extends close_call h h' /\ o = Done (<[key := conn]> cp)) h (Put cp key conn).
Proof.
  intros HG. unfold Put, Close. repeat (wp_step || case_match); try (by apply HG); (split; [|done]);
    repeat apply extends_cons; by try apply extends_refl.
Qed.

Lemma Delete_wp (G : hist -> event -> Prop) key cp h : (forall h e, close_call e -> G h e) ->
  wp G (fun h' o => extends close_call h h' /\ o = Done (delete key cp)) h (Delete cp key).
Proof.
  intros HG. unfold Delete, Close. repeat (wp_step || case_match); try (by apply HG); (split; [|done]);
    repeat apply extends_cons; by try apply extends_refl.
Qed.

Lemma written_newest h h1 cp cp' :
  extends close_call (existT EReadPool cp :: h) h1 ->
  let h' := existT (EWritePool cp') tt :: h1 in
  newest (fetched KCSIAddonsNode) h' = newest (fetched KCSIAddonsNode) h /\
  newest (current KCSIAddonsNode) h' = newest (current KCSIAddonsNode) h /\
  newest pool_read h1 = Some cp.
Proof.
  intros Hext h'. subst h'. rewrite !newest_cons. cbn [fetched current].
  apply (extends_aside_mono _ _ close_aside) in Hext as Hext'. split_and!.
  - by rewrite (proj1 (aside_newest _ _ Hext')), newest_cons.
  - by rewrite (proj2 (aside_newest _ _ Hext')), newest_cons.
  - rewrite (newest_extends _ _ _ _ Hext); [by rewrite newest_cons|]. by intros [].
Qed.

Lemma register_wp h (n0 n : CSIAddonsNode) conn key n' :
  newest (fetched KCSIAddonsNode) h = Some n0 -> newest (current KCSIAddonsNode) h = Some n ->
  is_deleting n0 = false -> node_key n0 key -> connected_to h n0 conn ->
  wp node_contract (node_ends n0) h (register cap_String key conn n').
Proof.
  intros Hn0 Hn Hdel Hkey Hconn. unfold register, pool_Put.
  eapply wp_seq.
  - apply (pool_write_wp _ _ (fun cp => <[key := conn]> cp)); [|done|].
    + intros h' cp. apply Put_wp, close_permitted.
    + intros h1 cp Hext. destruct (written_newest h h1 cp ∅ Hext) as (Hf & _ & Hp).
      rewrite newest_cons in Hf. exists n0, key, cp. split_and!; [by rewrite <- Hn0|done..|].
      right. split; [done|]. exists conn. split; [|done].
      eapply connected_extends; [exact Hext|]. eapply connected_extends; [|exact Hconn].
      apply extends_cons with (P := fun _ => True); [apply extends_refl|done].
  - intros h' o (h1 & cp & Hext & -> & ->). destruct (written_newest h h1 cp (<[key := conn]> cp) Hext) as (Hf & Hc & _).
    cbn [after]. cbv beta. unfold status_update_obj. repeat wp_step; [|done..].
    exists n0, n. split_and!; [by rewrite Hf|by rewrite Hc|]. left. split_and!; [done..|].
    exists conn. split; [|done]. exists key, (<[key := conn]> cp).
    assert (connected_to (existT (EWritePool (<[key:=conn]> cp)) tt :: h1) n0 conn) as Hconn'.
    { eapply connected_extends; [|exact Hconn]. apply extends_cons with (P := fun _ => True); [|done].
      destruct Hext as (t & -> & _). exists (t ++ [existT EReadPool cp]). split; [|by apply Forall_true].
      by rewrite <- app_assoc. }
    split_and!; [done|apply lookup_insert_eq|set_solver|done].
Qed.

Lemma node_finalizer_wp h (n : CSIAddonsNode) :
  newest (fetched KCSIAddonsNode) h = Some n -> newest (current KCSIAddonsNode) h = Some n ->
  wp node_contract (fun h' o => exists n' err, o = Done (n', err) /\
      newest (fetched KCSIAddonsNode) h' = Some n /\
      (err = None -> newest (current KCSIAddonsNode) h' = Some n') /\ (forall c, c ∈ h -> c ∈ h'))
    h (addFinalizer n).
Proof.
  intros Hf Hc. unfold addFinalizer, update_obj.
  destruct (contains _ _) eqn:Hin; cbn [negb]; repeat wp_step.
  - by eexists _, _.
  - exists n. split; [done|]. intros f Hfin. left. rewrite finalizers_with. set_solver.
  - case_match; eexists _, _; (split_and!; [done|by rewrite newest_cons| |set_solver]);
      [done|by rewrite newest_cons].
Qed.

Lemma dial_permitted h e : dial_call e -> node_contract h e.
Proof. by destruct e as [| | | | | | |? ? []| | | | | | | | | | | |]. Qed.
Lemma client_permitted h e : client_call e -> node_contract h e.
Proof. destruct e as [| | | | | | |? ? []| | | | | | | | | | | |]; simpl; tauto. Qed.
Lemma dial_aside e : dial_call e -> aside e.
Proof. by destruct e as [| | | | | | |? ? []| | | | | | | | | | | |]. Qed.
Lemma client_aside e : client_call e -> aside e.
Proof. destruct e as [| | | | | | |? ? []| | | | | | | | | | | |]; simpl; intros; by subst. Qed.

Lemma connect_node_wp h (n : CSIAddonsNode) ep key :
  newest (fetched KCSIAddonsNode) h = Some n -> newest (current KCSIAddonsNode) h = Some n ->
  is_deleting n = false -> node_key n key -> resolved_to h n ep ->
  wp node_contract (node_ends n) h
    (connect_node EnableAuth BaseRetryDelay json_error cap_String n n.(node_Driver) ep key).
Proof.
  intros Hf Hc Hdel Hkey Hep. unfold connect_node.
  eapply wp_seq; [by apply node_finalizer_wp|]. intros h1 o (n' & err & -> & Hf1 & Hc1 & Hsub1). cbn [after].
  destruct err as [err|]; [done|]. specialize (Hc1 eq_refl).
  eapply wp_seq; [apply NewConnection_wp, dial_permitted|].
  intros h2 o (Hext & r & -> & Hr). cbn [after].
  destruct (aside_newest _ _ (extends_aside_mono _ _ dial_aside Hext)) as [Hf2 Hc2].
  rewrite Hf1 in Hf2. rewrite Hc1 in Hc2.
  destruct r as [err|conn]; [by eapply backoffAndRetry_wp|].
  destruct Hr as (cc & Hcc & He & Hdrv & Hid & Hin1 & Hin2).
  assert (connected_to h2 n conn) as Hconn.
  { exists cc. rewrite He. split_and!; [done..|].
    destruct Hep as (ns & pod & port & p & Hp & Hin & Hip & Hep). exists ns, pod, port, p.
    split_and!; [done|by eapply extends_in, Hsub1|done..]. }
  eapply wp_seq.
  { apply no_panic_wp; [by eapply getNetworkFenceClientStatus_no_panic|].
    apply (calls_wp client_call); [apply getNetworkFenceClientStatus_calls|apply client_permitted]. }
  intros h3 o [Hext3 [r ->]]. cbn [after]. destruct r as [err|nfsc]; [done|].
  destruct (aside_newest _ _ (extends_aside_mono _ _ client_aside Hext3)) as [Hf3 Hc3].
  eapply register_wp; [by rewrite Hf3|by rewrite Hc3|done..|]. by eapply connected_extends.
Qed.

Lemma resolveEndpoint_wp h raw :
  wp node_contract (fun h' o => exists pod res, o = Done (pod, res) /\ extends aside h h' /\
      match res with
      | inr ep => forall n, n.(node_Driver).(drv_EndPoint) = raw -> resolved_to h' n ep
      | inl _ => True
      end /\
      match parseEndpoint raw with inl _ => pod = "" /\ exists err, res = inl err | inr (_, p, _) => pod = p end)
    h (resolveEndpoint raw).
Proof.
  unfold resolveEndpoint, get_obj. destruct (parseEndpoint raw) as [err|[[ns pod] port]] eqn:Hp.
  - eexists _, _. split_and!; [done|apply extends_refl|done|done|by eexists].
  - repeat wp_step; try (by simpl; auto); eexists _, _; (split_and!; [done|..|done]);
      try (by apply extends_cons; [apply extends_refl|]); try done.
    intros n Hn. eexists ns, pod, port, _. rewrite Hn. split_and!; [done|apply list_elem_of_here| |done].
    by apply bool_decide_eq_false in Heqb.
Qed.

Lemma parseEndpoint_pod raw ns pod port : parseEndpoint raw = inr (ns, pod, port) -> pod ≠ "".
Proof.
  unfold parseEndpoint. repeat (case_match || done). intros [= <- <- <-].
  match goal with H : _ || _ = false |- _ => apply orb_false_elim in H as [Hpod _] end.
  by apply bool_decide_eq_false in Hpod.
Qed.

Lemma removeFinalizer_wp h (n : CSIAddonsNode) :
  newest (fetched KCSIAddonsNode) h = Some n -> unregistered h n ->
  wp node_contract (fun _ o => exists a, o = Done a) h (removeFinalizer n).
Proof.
  intros Hf Hun. unfold removeFinalizer, update_obj. case_match; repeat wp_step; [|by eexists..].
  exists n. split; [done|]. intros f Hin. rewrite finalizers_with. unfold Config.RemoveFromSlice.
  destruct (decide (f = csiAddonsNodeFinalizer)) as [->|Hne]; [by right|]. left. by apply elem_of_delete_eq.
Qed.

Lemma delete_node_wp h (n : CSIAddonsNode) key :
  newest (fetched KCSIAddonsNode) h = Some n -> is_deleting n = true -> node_key n key ->
  wp node_contract (node_ends n) h (_ ← pool_Delete key; '(_, err) ← removeFinalizer n; mret (no_requeue, err)).
Proof.
  intros Hf Hdel Hkey. eapply wp_seq.
  - apply (pool_write_wp _ _ (fun cp => delete key cp)); [|done|].
    + intros h' cp. apply Delete_wp, close_permitted.
    + intros h1 cp Hext. destruct (written_newest h h1 cp ∅ Hext) as (Hf1 & _ & Hp).
      rewrite newest_cons in Hf1. exists n, key, cp. split_and!; [by rewrite <- Hf|done..|]. by left.
  - intros h' o (h1 & cp & Hext & -> & ->).
    destruct (written_newest h h1 cp (delete key cp) Hext) as (Hf1 & _). cbn [after].
    eapply wp_seq; [apply removeFinalizer_wp; [by rewrite Hf1|]|].
    + split; [done|]. exists key, (delete key cp).
      split_and!; [done|apply lookup_delete_eq|apply list_elem_of_here].
    + intros h2 o [[n' err] ->]. done.
Qed.

Lemma reconcile_node_wp h (n : CSIAddonsNode) :
  newest (fetched KCSIAddonsNode) h = Some n -> newest (current KCSIAddonsNode) h = Some n ->
  wp node_contract (node_ends n) h (reconcile_node EnableAuth BaseRetryDelay json_error cap_String n).
Proof.
  intros Hf Hc. unfold reconcile_node.
  destruct (validateCSIAddonsNodeSpec n) as [err|] eqn:Hv.
  { unfold reject_spec, status_update_obj. repeat wp_step; [|done..].
    exists n, n. split_and!; [done..|]. right; right. by rewrite Hv. }
  eapply wp_seq; [apply resolveEndpoint_wp|].
  intros h' o (pod & res & -> & Hext & Hres & Hpod). cbn [after].
  destruct (aside_newest _ _ Hext) as [Hf' Hc']. rewrite Hf in Hf'. rewrite Hc in Hc'.
  assert (forall base, Config.NormalizeLeaseName pod = Some base ->
            node_key n (obj_Namespace n +:+ "/" +:+ base)) as Hkey.
  { intros base Hb. destruct (parseEndpoint _) as [e|[[ns p] port]] eqn:Hp.
    - by destruct Hpod as [-> _].
    - subst. by exists ns, p, port, base. }
  assert (Config.NormalizeLeaseName pod = None ->
    exists err, parseEndpoint n.(node_Driver).(drv_EndPoint) = inl err) as Hnone.
  { intros Hb%Config.NormalizeLeaseName_None. destruct (parseEndpoint _) as [e|[[ns p] port]] eqn:Hp; [by eexists|].
    subst. by apply parseEndpoint_pod in Hp. }
  destruct res as [err|ep], (is_deleting n) eqn:Hdel; [|by eapply backoffAndRetry_wp|..];
    destruct (Config.NormalizeLeaseName pod) as [base|] eqn:Hb.
  - by apply delete_node_wp; auto.
  - by split_and!; auto.
  - by apply delete_node_wp; auto.
  - by split_and!; auto.
  - apply connect_node_wp; auto.
  - destruct (parseEndpoint _) as [e|[[ns p] port]] eqn:Hp; [by destruct Hpod as [_ [? ?]]|].
    by destruct (Hnone eq_refl).
Qed.

Lemma node_reconcile_wp req :
  wp node_contract (fun _ _ => True) [] (Reconcile EnableAuth BaseRetryDelay json_error cap_String req).
Proof.
  unfold Reconcile, get_obj. apply wp_call; [by left|]. intros [err|n]; cbn [mbind prog_bind mret prog_ret].
  - by case_match.
  - eapply wp_post; [by apply reconcile_node_wp|done].
Qed.
End node.

(** ** Theorems *)

(** C11: A reconcile of a CSIAddonsNode, in every environment: the pool only gains the
    connection that was just dialled to the pod the node names, under the
    node's lease key, with the driver's name and node id and the capabilities
    the side-car answered, and only loses the connection of a deleted node;
    "Connected" is written only for a registered connection and with its
    capabilities, "Retrying" with the next attempt's number; the node is deleted
    only after the last attempt; its finalizer goes only after its connection;
    and the secret's keys never reach the driver as parameters. *)
Theorem node_reconcile_contract auth base jerr capstr ρ req :
  guarded (node_contract auth capstr) (fst (run ρ [] (Reconcile auth base jerr capstr req))).
Proof.
  apply wp_guarded. eapply wp_post; [apply node_reconcile_wp|done].
Qed.


(** ** Retries *)

Section retries.
Context (auth : bool) (base : Z) (json_error : string -> error) (cap_String : Capability -> string).
Context (req : NamespacedName).
Abbreviation reconcile := (Reconcile auth base json_error cap_String req).

(** The API server holds the node [n], and accepts what is written. *)
Definition stores (n : CSIAddonsNode) (ρ : env answer) : Prop :=
  ρ [] (EGet KCSIAddonsNode req) = inr n /\
  (forall h o, ρ h (EUpdate KCSIAddonsNode o) = inr o) /\
  (forall h o, ρ h (EStatusUpdate KCSIAddonsNode o) = inr o) /\
  (forall h o, ρ h (EDelete KCSIAddonsNode o) = None).

Definition failed {A} (r : error + A) : Prop := exists err, r = inl err.

(** The side-car cannot be reached: its pod is gone, or has no address, or cannot
    be dialled, or does not answer. *)
Definition unreachable (ρ : env answer) : Prop :=
  (forall h key, match ρ h (EGet KPod key) with inl _ => True | inr p => p.(PodIP) = "" end) \/
  (forall h ep, failed (ρ h (ENewClient ep auth))) \/
  (forall h cc t, failed (ρ h (ERpc cc t GetCapabilities))).

(** [n'] is the node, up to its finalizers. *)
Definition same_node (n n' : CSIAddonsNode) : Prop :=
  n'.(node_Driver) = n.(node_Driver) /\ n'.(node_Status) = n.(node_Status) /\
  is_deleting n' = is_deleting n.

Lemma NewConnection_unreachable (ρ : env answer) (h : hist) ep id drv ns pod :
  (forall h ep, failed (ρ h (ENewClient ep auth))) \/
  (forall h cc t, failed (ρ h (ERpc cc t GetCapabilities))) ->
  exists h' err, run ρ h (NewConnection ep id drv ns pod auth) = (h', Done (inl err)).
Proof.
  unfold NewConnection, Connect, dial, fetchCapabilities. intros [Hd|Hc]; cbn.
  - destruct (Hd h ep) as [err ->]. by eexists _, _.
  - destruct (ρ h (ENewClient ep auth)) as [err|cc]; [by eexists _, _|]. cbn.
    match goal with |- context [ρ ?h1 (ERpc cc ?t GetCapabilities)] => destruct (Hc h1 cc t) as [err ->] end.
    by eexists _, _.
Qed.

Lemma addFinalizer_accepted n (ρ : env answer) (h : hist) : stores n ρ ->
  exists h' n', run ρ h (addFinalizer n) = (h', Done (n', None)) /\ same_node n n'.
Proof.
  intros (_ & Hu & _). unfold addFinalizer, update_obj. case_match; cbn; [|by eexists _, _].
  rewrite Hu. eexists _, _. split; [done|]. by split_and!.
Qed.

Lemma resolveEndpoint_run (ρ : env answer) (h : hist) raw :
  exists h' pod res, run ρ h (resolveEndpoint raw) = (h', Done (pod, res)) /\
    match res with
    | inr _ => exists ns port, parseEndpoint raw = inr (ns, pod, port) /\
        exists p, ρ h (EGet KPod (mkNamespacedName ns pod)) = inr p /\ p.(PodIP) ≠ ""
    | inl _ => True
    end.
Proof.
  unfold resolveEndpoint, get_obj. destruct (parseEndpoint raw) as [err|[[ns pod] port]] eqn:Hp; [by eexists _, _, _|].
  cbn. destruct (ρ h (EGet KPod _)) as [err|p] eqn:He; [by eexists _, _, _|]. cbn.
  case_bool_decide; cbn; eexists _, _, _; (split; [reflexivity|]); [done|].
  exists ns, port. split; [done|]. by exists p.
Qed.

(** A reconcile of an unreachable node ends in [backoffAndRetry]. *)
Lemma unreachable_backoff n (ρ : env answer) :
  stores n ρ -> unreachable ρ -> validateCSIAddonsNodeSpec n = None -> is_deleting n = false ->
  exists h n' err, run ρ [] reconcile = run ρ h (backoffAndRetry base n' err) /\ same_node n n'.
Proof.
  intros Hs Hun Hv Hdel. unfold Reconcile, get_obj. cbn [call mbind prog_bind run].
  rewrite (proj1 Hs). cbn [mbind prog_bind]. unfold reconcile_node. rewrite Hv, Hdel, run_bind.
  destruct (resolveEndpoint_run ρ [existT (EGet KCSIAddonsNode req) (inr n)] n.(node_Driver).(drv_EndPoint))
    as (h1 & pod & [err|ep] & -> & Hr); cbn beta iota.
  { by eexists _, n, _. }
  destruct Hr as (ns & port & Hp & p & Hin & Hip).
  destruct (Config.NormalizeLeaseName pod) as [b|] eqn:Hb.
  2: { apply Config.NormalizeLeaseName_None in Hb. subst. by apply parseEndpoint_pod in Hp. }
  unfold connect_node. rewrite run_bind.
  destruct (addFinalizer_accepted n ρ h1 Hs) as (h2 & n' & -> & Hn'). rewrite run_bind.
  destruct (NewConnection_unreachable ρ h2 ep n.(node_Driver).(drv_NodeID) n.(node_Driver).(drv_Name)
              (obj_Namespace n') (obj_Name n')) as (h3 & err & ->); [|by eexists h3, n', err].
  destruct Hun as [Hun|Hun]; [|done]. pose proof (Hun [existT (EGet KCSIAddonsNode req) (inr n)] (mkNamespacedName ns pod)) as Hpod.
  by rewrite Hin in Hpod.
Qed.

(** The reconcile of an unreachable node at attempt [r]. *)
Lemma attempt_spec n (ρ : env answer) r :
  stores n ρ -> unreachable ρ -> validateCSIAddonsNodeSpec n = None -> is_deleting n = false ->
  getRetryCountFromReason n.(node_Status).(ns_Reason) = inr r -> (min_int64 <= r)%Z ->
  (r < maxRetries)%Z /\
  (exists h n', run ρ [] reconcile = (existT (EStatusUpdate KCSIAddonsNode n') (inr n') :: h,
      Done (mkResult false (int64 (base * pow2_duration r)), None)) /\
    n'.(node_Status).(ns_Reason) = retrying_reason (r + 1) /\
    n'.(node_Driver) = n.(node_Driver) /\ is_deleting n' = false) \/
  (maxRetries <= r)%Z /\
  (exists h n', run ρ [] reconcile = (existT (EDelete KCSIAddonsNode n') None :: h, Done (no_requeue, None))).
Proof.
  intros Hs Hun Hv Hdel Hr Hmin.
  destruct (unreachable_backoff n ρ Hs Hun Hv Hdel) as (h & n' & err & -> & Hdrv & Hst & Hd).
  destruct Hs as (_ & _ & Hsu & Hde). unfold backoffAndRetry. rewrite Hst, Hr.
  destruct (maxRetries <=? r)%Z eqn:Hmax; [right|left].
  - apply Z.leb_le in Hmax. split; [done|]. cbn. rewrite Hde. by eexists _, _.
  - apply Z.leb_gt in Hmax. split; [done|]. unfold status_update_obj. cbn. rewrite Hsu.
    eexists _, _. split_and!; [reflexivity| |done|by rewrite <- Hdel, <- Hd].
    simpl. rewrite int64_id; [done|]. unfold min_int64, max_int64, maxRetries in *. lia.
Qed.

Lemma getRetryCount_roundtrip r :
  (min_int64 <= r <= max_int64)%Z -> getRetryCountFromReason (retrying_reason r) = inr r.
Proof.
  intros Hr. unfold getRetryCountFromReason, retrying_reason.
  change ("currentAttempt: " +:+ Itoa r) with ("currentAttempt:" +:+ String " " (Itoa r)).
  rewrite bool_decide_false by done.
  change (cut ":" _) with ("currentAttempt", Some (String " " (Itoa r))). cbn iota beta.
  by rewrite TrimSpace_leading_space, Atoi_Itoa by (done || apply Itoa_plain).
Qed.

(** What a run left at the server: the new node, or nothing. *)
Definition written (h : hist) (n : CSIAddonsNode) : option CSIAddonsNode :=
  match h with
  | existT (EStatusUpdate KCSIAddonsNode n') _ :: _ => Some n'
  | existT (EDelete KCSIAddonsNode _) _ :: _ => None
  | _ => Some n
  end.

(** Reconciles one after the other, each in a world that holds the node the one
    before it left: the delays asked for, and whether the node is gone. *)
Fixpoint rounds (worlds : list (CSIAddonsNode -> env answer)) (n : CSIAddonsNode) : list Z * bool :=
  match worlds with
  | [] => ([], false)
  | w :: worlds =>
    let '(h, o) := run (w n) [] reconcile in
    match o, written h n with
    | Done (res, None), Some n' =>
      let '(delays, gone) := rounds worlds n' in (res.(RequeueAfter) :: delays, gone)
    | Done (_, None), None => ([], true)
    | _, _ => ([], false)
    end
  end.

Lemma rounds_retry w worlds n r :
  stores n (w n) -> unreachable (w n) -> validateCSIAddonsNodeSpec n = None -> is_deleting n = false ->
  getRetryCountFromReason n.(node_Status).(ns_Reason) = inr r -> (0 <= r < maxRetries)%Z ->
  exists n', rounds (w :: worlds) n =
      (int64 (base * 2 ^ r) :: (rounds worlds n').1, (rounds worlds n').2) /\
    validateCSIAddonsNodeSpec n' = None /\ is_deleting n' = false /\
    getRetryCountFromReason n'.(node_Status).(ns_Reason) = inr (r + 1)%Z.
Proof.
  intros Hs Hun Hv Hdel Hr Hrange.
  assert (min_int64 <= r <= max_int64 - 1)%Z by (unfold min_int64, max_int64, maxRetries in *; lia).
  destruct (attempt_spec n (w n) r Hs Hun Hv Hdel Hr) as
    [[_ (h & n' & Hrun & Hreason & Hdrv & Hd)]|[? _]]; [lia| |lia].
  exists n'. split_and!; [|by unfold validateCSIAddonsNodeSpec; rewrite Hdrv|done|].
  - cbn [rounds]. rewrite Hrun. cbn [written]. destruct (rounds worlds n') as [ds gone]. simpl.
    unfold pow2_duration. by rewrite (proj2 (Z.ltb_ge r 0)) by lia.
  - rewrite Hreason. apply getRetryCount_roundtrip. lia.
Qed.

Lemma rounds_delete w worlds n r :
  stores n (w n) -> unreachable (w n) -> validateCSIAddonsNodeSpec n = None -> is_deleting n = false ->
  getRetryCountFromReason n.(node_Status).(ns_Reason) = inr r -> (maxRetries <= r)%Z ->
  rounds (w :: worlds) n = ([], true).
Proof.
  intros Hs Hun Hv Hdel Hr Hmax.
  assert (min_int64 <= r)%Z by (unfold min_int64, maxRetries in *; lia).
  destruct (attempt_spec n (w n) r Hs Hun Hv Hdel Hr) as [[? _]|[_ (h & n' & Hrun)]]; [lia|lia|].
  cbn [rounds]. by rewrite Hrun.
Qed.

Lemma unreachable_rounds (worlds : list (CSIAddonsNode -> env answer)) n :
  length worlds = 4 -> Forall (fun w => forall n, stores n (w n) /\ unreachable (w n)) worlds ->
  validateCSIAddonsNodeSpec n = None -> is_deleting n = false -> n.(node_Status).(ns_Reason) = "" ->
  rounds worlds n = ([int64 base; int64 (base * 2); int64 (base * 4)], true).
Proof.
  intros Hlen Hw Hv Hd Hr.
  destruct worlds as [|w1 [|w2 [|w3 [|w4 [|]]]]]; try discriminate Hlen.
  apply Forall_cons in Hw as [H1 [H2 [H3 [H4 _]%Forall_cons]%Forall_cons]%Forall_cons].
  destruct (rounds_retry w1 [w2; w3; w4] n 0) as (n1 & -> & Hv1 & Hd1 & Hr1);
    [apply H1..|done|done|by rewrite Hr|done|].
  destruct (rounds_retry w2 [w3; w4] n1 1) as (n2 & -> & Hv2 & Hd2 & Hr2); [apply H2..|done|done|done|done|].
  destruct (rounds_retry w3 [w4] n2 2) as (n3 & -> & Hv3 & Hd3 & Hr3); [apply H3..|done|done|done|done|].
  rewrite (rounds_delete w4 [] n3 3); [|apply H4..|done|done|done|done]. cbn.
  by rewrite Z.mul_1_r.
Qed.

(** C36: A node whose side-car stays unreachable, for whatever reasons, is tried
    exactly four times: the delays between the attempts are the base delay, twice
    and four times that (the product at 64 bits), and the fourth failure
    deletes the node.  The retry counter lives in the status text and survives
    being printed and parsed. *)
Theorem unreachable_node_is_deleted (worlds : list (CSIAddonsNode -> env answer)) n :
  length worlds = 4 -> Forall (fun w => forall n, stores n (w n) /\ unreachable (w n)) worlds ->
  validateCSIAddonsNodeSpec n = None -> is_deleting n = false -> n.(node_Status).(ns_Reason) = "" ->
  rounds worlds n = ([int64 base; int64 (base * 2); int64 (base * 4)], true).
Proof. apply unreachable_rounds. Qed.
End retries.

(** ** Panics and leaks *)

(** The controller panics exactly when the node is being deleted, its
    specification passes validation, and its endpoint is not a
    pod://<pod>.<namespace> URL: the pool key is then computed from an empty
    pod name. *)
Theorem node_panics auth base jerr capstr (ρ : env answer) req (n : CSIAddonsNode) :
  ρ [] (EGet KCSIAddonsNode req) = inr n ->
  (exists m, snd (run ρ [] (Reconcile auth base jerr capstr req)) = Panicked m) <->
  (is_deleting n = true /\ validateCSIAddonsNodeSpec n = None /\
   exists err, parseEndpoint n.(node_Driver).(drv_EndPoint) = inl err).
Proof.
  intros Hn. unfold Reconcile, get_obj. cbn [call mbind prog_bind run]. rewrite Hn. cbn [mbind prog_bind].
  set (h := [existT (EGet KCSIAddonsNode req) (inr n)] : hist). split.
  - intros [m Hm]. pose proof (wp_run _ _ _ h (reconcile_node_wp auth base jerr capstr h n eq_refl eq_refl)) as Hwp.
    destruct (Hwp (conj (or_introl eq_refl) I) ρ) as [_ Hends]. by rewrite Hm in Hends.
  - intros (Hdel & Hv & err & Hp). unfold reconcile_node. rewrite Hv, Hdel. unfold resolveEndpoint.
    rewrite Hp. by eexists.
Qed.

(** The endpoints of the old format, an address and a port: their nodes cannot be
    deleted. *)
Definition legacy_node : CSIAddonsNode :=
  mkNode (mkObjectMeta "node" "ns" "uid" 1 (Some 1%Z) (Some 2%Z) ∅ ∅ [csiAddonsNodeFinalizer] [])
    (mkNodeDriver "driver" "10.0.0.1:9070" "node-1") (mkNodeStatus "" "" "" [] []).

Definition holds_node (n : CSIAddonsNode) : env answer := fun _ e =>
  match e return answer e with
  | EGet k key =>
    match k return answer (EGet k key) with
    | KCSIAddonsNode => inr n
    | k => refused (EGet k key)
    end
  | EUpdate k o => inr o
  | EStatusUpdate k o => inr o
  | e => refused e
  end.

Lemma node_panics_witness :
  exists m, snd (run (holds_node legacy_node) [] (Reconcile true 5 (fun _ => ErrorString "bad JSON") (fun _ => "") (mkNamespacedName "ns" "node"))) = Panicked m.
Proof.
  apply (proj2 (node_panics true 5 (fun _ => ErrorString "bad JSON") (fun _ => "") (holds_node legacy_node)
           (mkNamespacedName "ns" "node") legacy_node eq_refl)).
  split_and!; [reflexivity..|by eexists].
Defined.

Definition fresh_node : CSIAddonsNode :=
  mkNode (mkObjectMeta "node" "ns" "uid" 1 (Some 1%Z) None ∅ ∅ [] [])
    (mkNodeDriver "driver" "pod://plugin.ns:9070" "node-1") (mkNodeStatus "" "" "" [] []).

Lemma unreachable_node_is_deleted_witness :
  rounds true 5 (fun _ => ErrorString "bad JSON") (fun _ => "") (mkNamespacedName "ns" "node")
    [holds_node; holds_node; holds_node; holds_node] fresh_node = ([5; 10; 20]%Z, true).
Proof.
  apply (unreachable_node_is_deleted true 5 (fun _ => ErrorString "bad JSON") (fun _ => "")
           (mkNamespacedName "ns" "node") [holds_node; holds_node; holds_node; holds_node] fresh_node);
    [reflexivity| |reflexivity..].
  repeat constructor; intros; by eexists.
Defined.

(** When the clients to fence cannot be read, the run returns the error and drops
    the connection it dialled: it is neither closed nor in the pool.  Here the
    class named in the annotation does not exist. *)
Definition annotated_node : CSIAddonsNode :=
  mkNode (mkObjectMeta "node" "ns" "uid" 1 (Some 1%Z) None
            {[networkFenceClassAnnotationKey := Marshal ["class"]]} ∅ [csiAddonsNodeFinalizer] [])
    (mkNodeDriver "driver" "pod://plugin.ns:9070" "node-1") (mkNodeStatus "" "" "" [] []).

Definition reachable_node (n : CSIAddonsNode) : env answer := fun h e =>
  match e return answer e with
  | EGet k key =>
    match k return answer (EGet k key) with
    | KPod => inr (mkPod (new_meta "ns" "plugin") "10.0.0.1")
    | k => holds_node n h (EGet k key)
    end
  | ENewClient ep auth => inr (mkClientConn 1 ep auth)
  | ERpc cc t m =>
    match m return answer (ERpc cc t m) with
    | GetCapabilities => inr [CapNetworkFence NetworkFence_GET_CLIENTS_TO_FENCE]
    | m => refused (ERpc cc t m)
    end
  | e => holds_node n h e
  end.

Theorem failed_client_query_leaks_connection :
  let '(h, o) := run (reachable_node annotated_node) []
    (Reconcile true 5 (fun _ => ErrorString "bad JSON") (fun _ => "") (mkNamespacedName "ns" "node")) in
  o = Done (no_requeue, Some (ErrorString "unreachable")) /\
  dialled h = [mkClientConn 1 "10.0.0.1:9070" true] /\ closed h = [] /\
  Forall (fun c => match projT1 c with EWritePool _ => False | _ => True end) h.
Proof.
  vm_compute. split_and!; [reflexivity..|]. repeat constructor.
Qed.
