(* ===== verification/ManagerMain.v ===== *)
(** * The manager process

    src/cmd/manager/main.go: reads the configuration, creates the connection pool,
    sets up one controller per reconciler with its share of the configuration, adds
    the health checks and starts the manager. *)

From S2P Require Import Prelude.
From S2P Require Import GoErrors.
From S2P Require Import GoStrconv.
From S2P Require Import Config.
Local Open Scope Z_scope.

(** ** The command line, as flag.Parse leaves it *)

(** The flags that point into the configuration have set its fields. *)
Record flags := mkFlags {
  metricsAddr : string;
  probeAddr : string;
  enableLeaderElection : bool;
  enableHTTP2 : bool;
  leaderElectionLeaseDuration : Z;
  leaderElectionRenewDeadline : Z;
  leaderElectionRetryPeriod : Z;
  showVersion : bool;
  secureMetrics : bool;
  enableAdmissionWebhooks : bool;
  enableAuth : bool;
  flag_cfg : Config
}.

(** What an empty command line leaves. *)
Definition default_flags : flags :=
  mkFlags "0" ":8081" false false (15 * second) (10 * second) (5 * second) false true false true NewConfig.

(** ** The outside world of the process *)

(** The connection pool is created once and shared by reference. *)
Definition pool_ref := nat.

(** A reconciler as main constructs it; the client and the scheme are those of
    the manager. *)
Inductive reconciler :=
| CSIAddonsNodeReconciler (ConnPool : pool_ref) (EnableAuth : bool) (BaseRetryDelay : Z)
| ReclaimSpaceJobReconciler (ConnPool : pool_ref) (Timeout : Z)
| NetworkFenceReconciler (Connpool : pool_ref) (Timeout : Z)
| ReclaimSpaceCronJobReconciler
| PVCReconiler (ConnPool : pool_ref)
| PersistentVolumeClaimReconciler (ConnPool : pool_ref) (SchedulePrecedence : string)
| VolumeReplicationReconciler (Connpool : pool_ref) (Timeout : Z)
| VolumeGroupReplicationReconciler (Recorder : string) (MaxGroupPVCCount : Z)
| VolumeGroupReplicationContentReconciler (Connpool : pool_ref) (Timeout : Z)
| EncryptionKeyRotationJobReconciler (ConnPool : pool_ref) (Timeout : Z)
| EncryptionKeyRotationCronJobReconciler
| NetworkFenceClassReconciler.

(** An option of a TLS configuration, as what it does to the protocols offered. *)
Definition tls_option := list string -> list string.

Record metrics_options := mkMetricsOptions {
  BindAddress : string;
  SecureServing : bool;
  TLSOpts : list tls_option;
  authenticated : bool             (* FilterProvider is WithAuthenticationAndAuthorization *)
}.

Record manager_options := mkManagerOptions {
  Metrics : metrics_options;
  HealthProbeBindAddress : string;
  LeaderElection : bool;
  LeaderElectionID : string;
  LeaseDuration : Z;
  RenewDeadline : Z;
  RetryPeriod : Z;
  webhook_Port : Z;
  webhook_TLSOpts : list tls_option;
  uncached : list string           (* Client.Cache.DisableFor *)
}.

Inductive gevent :=
| GPrintVersion
| GGetConfig                                     (* ctrl.GetConfigOrDie *)
| GNewForConfig
| GGetConfigMap (ns name : string)
| GNewManager (o : manager_options)
| GNewConnectionPool
| GSetup (r : reconciler) (max_concurrent : option Z)    (* SetupWithManager *)
| GHealthz (name : string)
| GReadyz (name : string)
| GStart.

Definition ganswer (e : gevent) : Type :=
  match e with
  | GPrintVersion => unit
  | GGetConfigMap _ _ => error + gmap string string
  | GNewConnectionPool => pool_ref
  | GGetConfig | GNewForConfig | GNewManager _ | GSetup _ _ | GHealthz _ | GReadyz _ | GStart => option error
  end.

Abbreviation GM := (prog ganswer).
Abbreviation ghist := (history ganswer).

(** os.Exit(1), after the message and the error are logged. *)
Definition Exit {A} (msg : string) : GM A := Panic ("exit 1: " +:+ msg).

(** A step whose error ends the process. *)
Definition must {A} (step : GM (option error)) (msg : string) (next : GM A) : GM A :=
  err ← step;
  match err with Some _ => Exit msg | None => next end.

(** ** main.go *)

Definition defaultTimeout : Z := minute * 3.

Definition disableHTTP2 : tls_option := fun _ => ["http/1.1"].

Definition tlsOpts (f : flags) : list tls_option := if negb f.(enableHTTP2) then [disableHTTP2] else [].

Definition metricsServerOptions (f : flags) : metrics_options :=
  mkMetricsOptions f.(metricsAddr) f.(secureMetrics) (tlsOpts f) (if f.(secureMetrics) then true else false).

Definition managerOptions (f : flags) : manager_options :=
  mkManagerOptions (metricsServerOptions f) f.(probeAddr) f.(enableLeaderElection) "e8cd140a.openshift.io"
    f.(leaderElectionLeaseDuration) f.(leaderElectionRenewDeadline) f.(leaderElectionRetryPeriod)
    9443 (tlsOpts f) ["Pod"; "Namespace"].

(** A controller that is given the shared options, and one that is not. *)
Definition setup {A} (cfg : Config) (r : reconciler) (controller : string) (next : GM A) : GM A :=
  must (call (GSetup r (Some cfg.(MaxConcurrentReconciles)))) ("unable to create controller " +:+ controller) next.
Definition setup_default {A} (r : reconciler) (controller : string) (next : GM A) : GM A :=
  must (call (GSetup r None)) ("unable to create controller " +:+ controller) next.

Definition setup_pvc {A} (cfg : Config) (connPool : pool_ref) (next : GM A) : GM A :=
  if bool_decide (cfg.(Config.SchedulePrecedence) = ScheduleSC) then
    setup cfg (PVCReconiler connPool) "PersistentVolumeClaim" next
  else
    setup cfg (PersistentVolumeClaimReconciler connPool cfg.(Config.SchedulePrecedence)) "PersistentVolumeClaim" next.

Definition setup_controllers {A} (f : flags) (cfg : Config) (connPool : pool_ref) (next : GM A) : GM A :=
  setup cfg (CSIAddonsNodeReconciler connPool f.(enableAuth) cfg.(CSIAddonsNodeRetryDelay)) "CSIAddonsNode" (
  setup cfg (ReclaimSpaceJobReconciler connPool cfg.(ReclaimSpaceTimeout)) "ReclaimSpaceJob" (
  setup cfg (NetworkFenceReconciler connPool (minute * 3)) "NetworkFence" (
  setup cfg ReclaimSpaceCronJobReconciler "ReclaimSpaceCronJob" (
  setup_pvc cfg connPool (
  setup cfg (VolumeReplicationReconciler connPool defaultTimeout) "VolumeReplication" (
  setup_default (VolumeGroupReplicationReconciler "volumegroupreplication-controller" cfg.(MaxGroupPVC))
    "VolumeGroupReplication" (
  setup_default (VolumeGroupReplicationContentReconciler connPool defaultTimeout)
    "VolumeGroupReplicationContent" (
  setup cfg (EncryptionKeyRotationJobReconciler connPool defaultTimeout) "EncryptionKeyRotationJob" (
  setup cfg EncryptionKeyRotationCronJobReconciler "EncryptionKeyRotationCronJob" (
  setup_default NetworkFenceClassReconciler "NetworkFenceClass" next)))))))))).

(** [seed] is the order in which the run-time ranges over the config map. *)
Definition main (seed : list nat) (f : flags) : GM unit :=
  if f.(showVersion) then call GPrintVersion
  else
  must (call GGetConfig) "unable to get kubeconfig" (
  must (call GNewForConfig) "unable to create client" (
  cm ← call (GGetConfigMap f.(flag_cfg).(Namespace) csiAddonsConfigMapName);
  let '(cfg, err) := ReadConfigMap seed f.(flag_cfg) cm in
  match err with
  | Some _ => Exit "unable to read configmap"
  | None =>
    must (call (GNewManager (managerOptions f))) "unable to start manager" (
    connPool ← call GNewConnectionPool;
    setup_controllers f cfg connPool (
    must (call (GHealthz "healthz")) "unable to set up health check" (
    must (call (GReadyz "readyz")) "unable to set up ready check" (
    must (call GStart) "problem running manager" (
    mret tt)))))
  end)).

(** ** What a start-up promises *)

(** The kinds of objects that are reconciled. *)
Inductive reconciled :=
| Nodes | ReclaimSpaceJobs | NetworkFences | ReclaimSpaceCronJobs | Claims | Replications
| GroupReplications | GroupReplicationContents | KeyRotationJobs | KeyRotationCronJobs | NetworkFenceClasses.

Definition all_reconciled : list reconciled :=
  [Nodes; ReclaimSpaceJobs; NetworkFences; ReclaimSpaceCronJobs; Claims; Replications;
   GroupReplications; GroupReplicationContents; KeyRotationJobs; KeyRotationCronJobs; NetworkFenceClasses].

#[global] Instance reconciled_eq_dec : EqDecision reconciled.
Proof. solve_decision. Defined.

Definition reconciles (r : reconciler) : reconciled :=
  match r with
  | CSIAddonsNodeReconciler _ _ _ => Nodes
  | ReclaimSpaceJobReconciler _ _ => ReclaimSpaceJobs
  | NetworkFenceReconciler _ _ => NetworkFences
  | ReclaimSpaceCronJobReconciler => ReclaimSpaceCronJobs
  | PVCReconiler _ | PersistentVolumeClaimReconciler _ _ => Claims
  | VolumeReplicationReconciler _ _ => Replications
  | VolumeGroupReplicationReconciler _ _ => GroupReplications
  | VolumeGroupReplicationContentReconciler _ _ => GroupReplicationContents
  | EncryptionKeyRotationJobReconciler _ _ => KeyRotationJobs
  | EncryptionKeyRotationCronJobReconciler => KeyRotationCronJobs
  | NetworkFenceClassReconciler => NetworkFenceClasses
  end.

Definition pool_of (r : reconciler) : option pool_ref :=
  match r with
  | CSIAddonsNodeReconciler p _ _ | ReclaimSpaceJobReconciler p _ | NetworkFenceReconciler p _
  | PVCReconiler p | PersistentVolumeClaimReconciler p _ | VolumeReplicationReconciler p _
  | VolumeGroupReplicationContentReconciler p _ | EncryptionKeyRotationJobReconciler p _ => Some p
  | _ => None
  end.

(** The controllers set up so far. *)
Definition setup_of (c : {e : gevent & ganswer e}) : option reconciled :=
  match c with existT (GSetup r _) None => Some (reconciles r) | _ => None end.
Definition setups (h : ghist) : list reconciled := observe setup_of h.

(** The parts of the configuration a reconciler must be given, and its options. *)
Definition fits (f : flags) (cfg : Config) (r : reconciler) (max_concurrent : option Z) : Prop :=
  match r with
  | CSIAddonsNodeReconciler _ auth base => auth = f.(enableAuth) /\ base = cfg.(CSIAddonsNodeRetryDelay)
  | ReclaimSpaceJobReconciler _ t => t = cfg.(ReclaimSpaceTimeout)
  | PVCReconiler _ => cfg.(Config.SchedulePrecedence) = ScheduleSC
  | PersistentVolumeClaimReconciler _ s => s = cfg.(Config.SchedulePrecedence) /\ s ≠ ScheduleSC
  | VolumeGroupReplicationReconciler _ n => n = cfg.(MaxGroupPVC)
  | NetworkFenceReconciler _ t | VolumeReplicationReconciler _ t | VolumeGroupReplicationContentReconciler _ t
  | EncryptionKeyRotationJobReconciler _ t => t = minute * 3
  | ReclaimSpaceCronJobReconciler | EncryptionKeyRotationCronJobReconciler | NetworkFenceClassReconciler => True
  end /\
  max_concurrent =
    match reconciles r with
    | GroupReplications | GroupReplicationContents | NetworkFenceClasses => None
    | _ => Some cfg.(MaxConcurrentReconciles)
    end.

(** The configuration the flags and the config map give, when it can be read. *)
Definition read_config (seed : list nat) (f : flags) (h : ghist) (cfg : Config) : Prop :=
  exists cm, existT (GGetConfigMap f.(flag_cfg).(Namespace) csiAddonsConfigMapName) cm ∈ h /\
    ReadConfigMap seed f.(flag_cfg) cm = (cfg, None).

(** The protocols a server with these options offers. *)
Definition offered (opts : list tls_option) (protos : list string) : list string :=
  foldl (fun p o => o p) protos opts.

Definition startup_contract (seed : list nat) (f : flags) (h : ghist) (e : gevent) : Prop :=
  match e with
  | GNewManager o =>
    (f.(enableHTTP2) = false -> forall protos,
       offered o.(Metrics).(TLSOpts) protos = ["http/1.1"] /\ offered o.(webhook_TLSOpts) protos = ["http/1.1"]) /\
    o.(Metrics).(BindAddress) = f.(metricsAddr) /\ o.(Metrics).(SecureServing) = f.(secureMetrics) /\
    (o.(Metrics).(SecureServing) = true -> o.(Metrics).(authenticated) = true) /\
    o.(HealthProbeBindAddress) = f.(probeAddr) /\ o.(LeaderElection) = f.(enableLeaderElection) /\
    o.(LeaseDuration) = f.(leaderElectionLeaseDuration) /\ o.(RenewDeadline) = f.(leaderElectionRenewDeadline) /\
    o.(RetryPeriod) = f.(leaderElectionRetryPeriod)
  | GNewConnectionPool => forall p, existT GNewConnectionPool p ∉ h
  | GSetup r m =>
    (reconciles r ∉ setups h) /\
    (forall p, pool_of r = Some p -> existT GNewConnectionPool p ∈ h) /\
    exists cfg, read_config seed f h cfg /\ fits f cfg r m
  | GStart => setups h ≡ₚ all_reconciled /\ existT (GHealthz "healthz") None ∈ h /\ existT (GReadyz "readyz") None ∈ h
  | _ => True
  end.

(** An answer that ends the process. *)
Definition fatal (seed : list nat) (f : flags) (c : {e : gevent & ganswer e}) : Prop :=
  match c with
  | existT (GGetConfigMap _ _) cm => ((ReadConfigMap seed f.(flag_cfg) cm).2 ≠ None)
  | existT (GGetConfig | GNewForConfig | GNewManager _ | GSetup _ _ | GHealthz _ | GReadyz _ | GStart) err => (err ≠ None)
  | _ => False
  end.

(** A process that returns has run the manager (or printed its version); one that
    exits does so at the first fatal answer, which is the last. *)
Definition startup_ends (seed : list nat) (f : flags) (h : ghist) (o : outcome unit) : Prop :=
  match o with
  | Done _ => existT GStart None ∈ h \/ f.(showVersion) = true
  | Panicked _ => exists c h', h = c :: h' /\ fatal seed f c /\ Forall (fun c => ~ fatal seed f c) h'
  end.
