(* ===== verification/ManagerMainProofs.v ===== *)
(** * The manager process: proofs

    Every controller is set up once, with its share of the configuration and the
    one connection pool, before the manager starts; the first failure ends the
    process. *)

From S2P Require Import Prelude.
From S2P Require Import GoErrors.
From S2P Require Import GoStrconv.
From S2P Require Import GoText.
From S2P Require Import Config.
From S2P Require Import ApiTypes.
From S2P Require Import CsiaddonsTypes.
From S2P Require Import Effects.
From S2P Require Import Connection.
From S2P Require Import CSIAddonsNodeController.
From S2P Require Import CSIAddonsNodeProofs.
From S2P Require Import ManagerMain.
Local Open Scope Z_scope.

Section startup.
Context (seed : list nat) (f : flags).

(** The history of a start-up that has gone well so far. *)
Definition healthy (h : ghist) : Prop := Forall (fun c => ~ fatal seed f c) h.

Lemma exits_now c h msg : fatal seed f c -> healthy h -> startup_ends seed f (c :: h) (Panicked msg).
Proof. intros Hc Hh. by exists c, h. Qed.

Lemma read_config_cons c h cfg : read_config seed f h cfg -> read_config seed f (c :: h) cfg.
Proof. intros (cm & Hcm & Hread). exists cm. split; [by right|done]. Qed.

(** The start-up has read [cfg], created [pool] and set up the controllers [l]. *)
Definition ready (cfg : Config) (pool : pool_ref) (l : list reconciled) (h : ghist) : Prop :=
  healthy h /\ read_config seed f h cfg /\ setups h = l /\ existT GNewConnectionPool pool ∈ h.

Lemma wp_setup cfg pool l r m h msg (next : GM unit) :
  ready cfg pool l h -> fits f cfg r m -> reconciles r ∉ l -> pool_of r = None \/ pool_of r = Some pool ->
  (forall h', ready cfg pool (reconciles r :: l) h' -> wp (startup_contract seed f) (startup_ends seed f) h' next) ->
  wp (startup_contract seed f) (startup_ends seed f) h (must (call (GSetup r m)) msg next).
Proof.
  intros (Hh & Hcfg & <- & Hp) Hfits Hnew Hpool Hnext. split.
  { split_and!; [done| |by exists cfg]. intros p Hr. destruct Hpool; congruence. }
  intros [err|]; [by apply exits_now; [cbn; congruence|]|]. apply Hnext.
  split_and!; [|by apply read_config_cons|done|by right]. by constructor; [naive_solver|].
Qed.

(** The next controller, which is new. *)
Ltac setup_next :=
  eapply wp_setup; [eassumption|by cbn|by apply (bool_decide_unpack _); vm_compute|by (left + right)|
                    intros ? ?; cbn [reconciles] in *].

Lemma setup_controllers_wp cfg pool h (next : GM unit) :
  ready cfg pool [] h ->
  (forall h', healthy h' -> setups h' ≡ₚ all_reconciled -> wp (startup_contract seed f) (startup_ends seed f) h' next) ->
  wp (startup_contract seed f) (startup_ends seed f) h (setup_controllers f cfg pool next).
Proof.
  intros Hready Hnext. unfold setup_controllers, setup_pvc, setup, setup_default.
  do 4 setup_next. case_bool_decide; (do 7 setup_next).
  all: apply Hnext; [by match goal with H : ready _ _ _ ?h |- healthy ?h => destruct H end|].
  all: match goal with H : ready _ _ _ ?h |- setups ?h ≡ₚ _ => destruct H as (_ & _ & -> & _) end.
  all: symmetry; apply (Permutation_rev all_reconciled).
Qed.

Ltac exits := apply exits_now; [cbn; congruence|repeat (assumption || (constructor; [cbn; naive_solver|])); constructor].

Lemma startup_wp : wp (startup_contract seed f) (startup_ends seed f) [] (main seed f).
Proof.
  unfold main. destruct (showVersion f) eqn:Hv; [by split; [|right]|].
  split; [done|]. intros [err|]; [exits|]. split; [done|]. intros [err|]; [exits|].
  split; [done|]. intros cm. cbn [mbind prog_bind].
  destruct (ReadConfigMap seed (flag_cfg f) cm) as [cfg err] eqn:Hr.
  set (h := existT (GGetConfigMap _ _) cm :: _).
  assert (healthy (tail h)) as Hh0 by (repeat constructor; naive_solver).
  destruct err as [err|]; [by apply exits_now; [cbn; rewrite Hr|]|].
  assert (healthy h) as Hh by (constructor; [cbn; rewrite Hr; naive_solver|done]).
  assert (read_config seed f h cfg) as Hcfg by (exists cm; by split; [left|]).
  assert (setups h = []) as Hs by done. assert (forall p, existT GNewConnectionPool p ∉ h) as Hnp by set_solver.
  clearbody h. clear Hh0.
  split. { split; [|by split_and!; cbn; destruct (secureMetrics f)]. intros Hhttp protos. cbn. unfold tlsOpts. by rewrite Hhttp. }
  intros [err|]; [exits|]. split; [set_solver|]. intros pool.
  apply (setup_controllers_wp cfg pool).
  { split_and!; [do 2 (constructor; [cbn; naive_solver|]); assumption|by do 2 apply read_config_cons|done|by left]. }
  clear dependent h. intros h Hh Hs. split; [done|]. intros [err|]; [exits|]. split; [done|]. intros [err|].
  { exits. }
  split. { split_and!; [done|set_solver..]. }
  intros [err|]; [exits|]. by left; left.
Qed.
End startup.

(** C21: Whatever the command line, the config map and the answers of the API
    server, the manager process starts the manager only after a controller for each
    of the eleven kinds of objects has been set up once, all with the one connection
    pool, each with its part of the configuration that was read and (the group
    controllers and the fence class's apart, which take the default) with the
    configured number of concurrent reconciles, and after both health checks were
    added; the manager has the addresses and the election times of the command line,
    HTTP/2 is offered on no server unless it was asked for,
    and secure metrics are never served unauthenticated.  The process exits at the
    first failed step, and only then; otherwise it has run the manager. *)
Theorem manager_startup seed f ρ :
  let '(h, o) := run ρ [] (main seed f) in
  guarded (startup_contract seed f) h /\ startup_ends seed f h o.
Proof.
  pose proof (wp_run _ _ _ [] (startup_wp seed f) I ρ) as [Hg He]. by destruct (run ρ [] (main seed f)).
Qed.

Lemma node_controller_delay seed f ρ pool auth base m a :
  existT (GSetup (CSIAddonsNodeReconciler pool auth base) m) a ∈ (run ρ [] (main seed f)).1 ->
  exists cfg, read_config seed f (run ρ [] (main seed f)).1 cfg /\
    auth = f.(enableAuth) /\ base = cfg.(CSIAddonsNodeRetryDelay).
Proof.
  intros Hin. destruct (wp_run _ _ _ [] (startup_wp seed f) I ρ) as [Hg _].
  induction (run ρ [] (main seed f)).1 as [|[e r] h IH]; [by apply not_elem_of_nil in Hin|].
  destruct Hg as [He Hg]. apply elem_of_cons in Hin as [Heq|Hin].
  - simplify_eq. destruct He as (_ & _ & cfg & Hcfg & Hfits). exists cfg. split; [by apply read_config_cons|apply Hfits].
  - destruct (IH Hin Hg) as (cfg & Hcfg & Hfits). exists cfg. split; [by apply read_config_cons|done].
Qed.

(** The configured retry delay, which the configuration and its documentation
    give in seconds, reaches the CSIAddonsNode controller as a number of
    nanoseconds: a node whose side-car stays unreachable is retried d, 2d and 4d
    nanoseconds after a failed attempt, and is deleted after the fourth. *)
Theorem retry_delay_is_nanoseconds seed f ρ pool auth base m a json_error cap_String req worlds n :
  existT (GSetup (CSIAddonsNodeReconciler pool auth base) m) a ∈ (run ρ [] (main seed f)).1 ->
  length worlds = 4%nat ->
  Forall (fun w => forall n, stores req n (w n) /\ unreachable auth (w n)) worlds ->
  validateCSIAddonsNodeSpec n = None -> is_deleting n = false -> n.(node_Status).(ns_Reason) = "" ->
  exists cfg, read_config seed f (run ρ [] (main seed f)).1 cfg /\
    (cfg.(CSIAddonsNodeRetryDelay) * 4 <= max_int64 -> 0 <= cfg.(CSIAddonsNodeRetryDelay) ->
     rounds auth base json_error cap_String req worlds n =
       ([cfg.(CSIAddonsNodeRetryDelay); cfg.(CSIAddonsNodeRetryDelay) * 2; cfg.(CSIAddonsNodeRetryDelay) * 4], true)).
Proof.
  intros Hin Hlen Hw Hv Hd Hr. destruct (node_controller_delay _ _ _ _ _ _ _ _ Hin) as (cfg & Hcfg & _ & ->).
  exists cfg. split; [done|]. intros Hmax Hpos. rewrite unreachable_rounds by done.
  by rewrite !int64_id by (unfold min_int64 in *; lia).
Qed.

Module Demo.
(** A cluster without the config map, in which every step succeeds. *)
Definition plain_cluster : env ganswer := fun _ e =>
  match e with
  | GPrintVersion => tt
  | GGetConfigMap _ _ => inl (APIStatus ReasonNotFound 404 "configmaps csi-addons-config not found")
  | GNewConnectionPool => 7%nat
  | GGetConfig | GNewForConfig | GNewManager _ | GSetup _ _ | GHealthz _ | GReadyz _ | GStart => None
  end.

Lemma started : (run plain_cluster [] (main [] default_flags)).2 = Done tt.
Proof. vm_compute. reflexivity. Qed.

Lemma retry_delay_is_nanoseconds_witness :
  exists cfg, read_config [] default_flags (run plain_cluster [] (main [] default_flags)).1 cfg /\
    (cfg.(CSIAddonsNodeRetryDelay) * 4 <= max_int64 -> 0 <= cfg.(CSIAddonsNodeRetryDelay) ->
     rounds true 5 (fun _ => ErrorString "bad JSON") (fun _ => "") (mkNamespacedName "ns" "node")
       [holds_node; holds_node; holds_node; holds_node] fresh_node =
       ([cfg.(CSIAddonsNodeRetryDelay); cfg.(CSIAddonsNodeRetryDelay) * 2; cfg.(CSIAddonsNodeRetryDelay) * 4], true)).
Proof.
  apply (retry_delay_is_nanoseconds [] default_flags plain_cluster 7%nat true 5 (Some 100) None);
    [|reflexivity| |reflexivity..].
  - apply (list_elem_of_lookup_2 _ 13). vm_compute. reflexivity.
  - repeat constructor; intros; by eexists.
Defined.
End Demo.
