(* ===== verification/SidecarEndpoint.v ===== *)
(** * The endpoint a side-car announces

    src/sidecar/internal/util/util.go builds the endpoint that goes into the
    CSIAddonsNode; [parseEndpoint] of the manager's node controller reads it
    back. *)

From S2P Require Import Prelude.
From S2P Require Import GoErrors.
From S2P Require Import GoURL.
From S2P Require Import GoText.
From S2P Require Import GoNet.
From S2P Require Import GoJSON.
From S2P Require Import StringFacts.
From S2P Require Import CSIAddonsNodeController.
Local Open Scope Z_scope.

Definition ErrInvalidEndpoint : error := ErrorString "invalid endpoint".

(** fmt.Errorf with [%w] of that error first. *)
Definition invalid_endpoint (m : string) : error :=
  WrapError ("invalid endpoint: " +:+ m) ErrInvalidEndpoint.

Definition parsePort (rawPort : string) : error + Z :=
  match ParseUint 16 rawPort with
  | inl err => inl (invalid_endpoint ("invalid controller port " +:+ go_quote rawPort +:+ ": " +:+ Error err))
  | inr port => inr port
  end.

Definition ValidateControllerEndpoint (rawIP rawPort : string) : error + string :=
  match ParseIP rawIP with
  | None => inl (invalid_endpoint ("invalid controller ip address " +:+ go_quote rawIP))
  | Some ip =>
    match parsePort rawPort with
    | inl err => inl err
    | inr port =>
      if bool_decide (To4 ip ≠ None) then inr (IP_String ip +:+ ":" +:+ Itoa port)
      else inr ("[" +:+ IP_String ip +:+ "]:" +:+ Itoa port)
    end
  end.

Definition BuildEndpointURL (rawIP rawPort pod namespace : string) : error + string :=
  if bool_decide (rawIP ≠ "") then ValidateControllerEndpoint rawIP rawPort
  else if bool_decide (pod = "") && bool_decide (namespace = "") then
    inl (invalid_endpoint "missing IP-address or Pod and Namespace")
  else
  match parsePort rawPort with
  | inl err => inl err
  | inr port =>
    let endpoint := "pod://" +:+ pod in
    let endpoint := if bool_decide (namespace ≠ "") then endpoint +:+ "." +:+ namespace else endpoint in
    inr (endpoint +:+ ":" +:+ Itoa port)
  end.

Example build_1 : BuildEndpointURL "" "9070" "plugin-0" "ns" = inr "pod://plugin-0.ns:9070".
Proof. reflexivity. Qed.
Example build_2 : BuildEndpointURL "::1" "9070" "plugin-0" "ns" = inr "[::1]:9070".
Proof. reflexivity. Qed.
Example build_3 : BuildEndpointURL "" "65536" "plugin-0" "ns" =
  inl (invalid_endpoint ("invalid controller port " +:+ go_quote "65536" +:+ ": strconv.ParseUint: parsing " +:+
    go_quote "65536" +:+ ": value out of range")).
Proof. reflexivity. Qed.

(** ** Reading it back *)

(** The bytes of the names and ports that Kubernetes allows in an endpoint. *)
Definition label_byte (c : ascii) : bool := is_alpha c || is_digit c || Ascii.eqb c "-".
Definition name_byte (c : ascii) : bool := label_byte c || Ascii.eqb c ".".
Definition host_byte (c : ascii) : bool := name_byte c || Ascii.eqb c ":".

Lemma unescape_host s : all_bytes host_byte s = true -> unescape encodeHost s = inr s.
Proof.
  induction s as [|c s IH]; [done|]. cbn [all_bytes]. intros [Hc Hs]%andb_prop. specialize (IH Hs).
  destruct c as [[] [] [] [] [] [] [] []]; try discriminate Hc; cbn; by rewrite IH.
Qed.

Lemma name_host s : all_bytes name_byte s = true -> all_bytes host_byte s = true.
Proof. apply all_bytes_impl. intros c Hc. unfold host_byte. by rewrite Hc. Qed.
Lemma label_name s : all_bytes label_byte s = true -> all_bytes name_byte s = true.
Proof. apply all_bytes_impl. intros c Hc. unfold name_byte. by rewrite Hc. Qed.
Lemma digits_label s : all_bytes is_digit s = true -> all_bytes label_byte s = true.
Proof. apply all_bytes_impl. intros c Hc. unfold label_byte. by rewrite Hc, orb_true_r. Qed.
#[local] Hint Resolve name_host label_name digits_label : core.

Section host.
(** A host name with its port, as it stands after the scheme. *)
Context (host port : string) (Hhost : all_bytes name_byte host = true) (Hport : all_bytes is_digit port = true).
Context (Hne : host ≠ "").
Let authority := host +:+ ":" +:+ port.

Lemma authority_bytes : all_bytes host_byte authority = true.
Proof. unfold authority. by rewrite !all_bytes_app, (name_host host), (name_host port) by auto. Qed.

Lemma authority_cut : cut_last ":" authority = Some (host, port).
Proof. apply cut_last_app. by apply (lacks is_digit). Qed.

Lemma authority_head : exists c s, authority = String c s /\ name_byte c = true.
Proof.
  unfold authority. destruct host as [|c s]; [done|]. pose proof Hhost as [Hc _]%andb_prop. by eexists _, _.
Qed.

Lemma parseAuthority_host : parseAuthority authority = inr authority.
Proof.
  pose proof authority_bytes as Hb. unfold parseAuthority. rewrite (cut_last_none "@") by by apply (lacks host_byte).
  unfold parseHost. rewrite authority_cut. destruct authority_head as (c & s & E & Hc).
  assert (String.prefix "[" authority = false) as ->.
  { rewrite E. by destruct c as [[] [] [] [] [] [] [] []]. }
  cbn [validOptionalPort]. rewrite Hport. by apply unescape_host.
Qed.

Lemma Parse_pod : Parse ("pod://" +:+ authority) = inr (mkURL "pod" authority).
Proof.
  pose proof authority_bytes as Hb.
  assert (forall c, host_byte c = false -> all_bytes (fun d => negb (Ascii.eqb d c)) authority = true) as Hlacks.
  { intros c. by apply (lacks host_byte). }
  unfold Parse. rewrite (cut_none "#") by (rewrite all_bytes_app; by rewrite Hlacks).
  unfold parse. rewrite all_bytes_app.
  rewrite (all_bytes_impl host_byte (fun c => negb (control c)) authority); [|by intros [[] [] [] [] [] [] [] []]|done].
  change (negb (all_bytes (fun c => negb (control c)) "pod://" && true)) with false. cbv iota.
  rewrite bool_decide_false by done.
  change (getScheme ("pod://" +:+ authority)) with (inr (A := error) ("pod", String "/" (String "/" authority))).
  cbv iota zeta beta. change (to_lower "pod") with "pod".
  assert (drop_query (String "/" (String "/" authority)) = String "/" (String "/" authority)) as ->.
  { unfold drop_query, before. rewrite cut_none; [done|]. cbn. by rewrite Hlacks. }
  assert (String.prefix "/" (String "/" (String "/" authority)) = true) as -> by (by destruct authority).
  assert (String.prefix "//" (String "/" (String "/" authority)) = true) as -> by (by destruct authority).
  cbn [negb andb]. rewrite bool_decide_false by done. cbn [negb orb andb].
  change (String.substring 2 (String.length (String "/" (String "/" authority))) (String "/" (String "/" authority)))
    with (String.substring 0 (S (S (String.length authority))) authority).
  rewrite substring_all by lia. unfold before.
  rewrite cut_none, from_none by by apply Hlacks. cbn [fst]. by rewrite parseAuthority_host.
Qed.

Lemma splitHostPort_authority : splitHostPort authority = (host, port).
Proof.
  unfold splitHostPort. rewrite authority_cut. cbn [validOptionalPort]. rewrite Hport. cbn [andb Ascii.eqb].
  destruct host as [|c s]; [done|]. pose proof Hhost as [Hc _]%andb_prop.
  by destruct c as [[] [] [] [] [] [] [] []].
Qed.
End host.

(** A side-car that is given its pod, namespace and a port announces an endpoint
    from which the manager reads the same pod, namespace and port. *)
Theorem endpoint_roundtrip rawPort pod namespace :
  all_bytes name_byte pod = true -> pod ≠ "" -> all_bytes label_byte namespace = true -> namespace ≠ "" ->
  match BuildEndpointURL "" rawPort pod namespace with
  | inr e => exists port, ParseUint 16 rawPort = inr port /\ parseEndpoint e = inr (namespace, pod, Itoa port)
  | inl _ => exists err, ParseUint 16 rawPort = inl err
  end.
Proof.
  intros Hpod Hpne Hns Hnne. unfold BuildEndpointURL, parsePort.
  rewrite bool_decide_false by naive_solver. rewrite (bool_decide_false (pod = "")), (bool_decide_true (namespace ≠ "")) by done. cbn [andb].
  destruct (ParseUint 16 rawPort) as [err|port] eqn:Hp; [by eexists|]. exists port. split; [done|].
  apply ParseUint_range in Hp.
  assert (all_bytes is_digit (Itoa port) = true) as Hdig.
  { destruct (Itoa_cases port) as [[_ ->]|[? _]]; [apply digits_of_spec|lia]. }
  rewrite !app_assoc_string. unfold parseEndpoint.
  rewrite <- (app_assoc_string "." namespace), <- (app_assoc_string pod).
  assert (all_bytes name_byte (pod +:+ "." +:+ namespace) = true) as Hhost
    by (by rewrite !all_bytes_app, Hpod, (label_name namespace)).
  assert (pod +:+ "." +:+ namespace ≠ "") as Hne by (by destruct pod).
  rewrite Parse_pod by done. cbn [Scheme]. rewrite bool_decide_true by done. unfold Hostname, Port. cbn [Host negb].
  rewrite splitHostPort_authority by done. cbn [fst snd].
  change ("." +:+ namespace) with (String "." namespace).
  rewrite (cut_last_app "." pod namespace) by by apply (lacks label_byte).
  by rewrite !bool_decide_false.
Qed.

(** ** What is not read back *)

Definition addr_byte (c : ascii) : bool := is_digit c || one_of "abcdef.:[]" c.

Lemma hex_digit_addr n : addr_byte (hex_digit n) = true.
Proof. do 16 (destruct n as [|n]; [done|]). done. Qed.

Lemma Itoa_addr z : 0 <= z -> all_bytes addr_byte (Itoa z) = true.
Proof.
  intros Hz. destruct (Itoa_cases z) as [[_ ->]|[? _]]; [|lia].
  apply (all_bytes_impl is_digit); [|apply digits_of_spec]. intros c Hc. unfold addr_byte. by rewrite Hc.
Qed.

Lemma appendHex_addr x : all_bytes addr_byte (appendHex x) = true.
Proof.
  assert (forall k, all_bytes addr_byte (String (hex_digit (Z.to_nat (x / 16 ^ k mod 16))) "") = true) as Hd.
  { intros k. cbn [all_bytes]. by rewrite hex_digit_addr. }
  unfold appendHex. rewrite !all_bytes_app. repeat case_match; by rewrite ?Hd.
Qed.

Lemma join_addr sep l : all_bytes addr_byte sep = true -> Forall (fun s => all_bytes addr_byte s = true) l ->
  all_bytes addr_byte (join sep l) = true.
Proof.
  intros Hsep Hl. induction Hl as [|s [|s' l] Hs Hl IH]; [done..|].
  change (join sep (s :: s' :: l)) with (s +:+ sep +:+ join sep (s' :: l)).
  by rewrite !all_bytes_app, Hs, Hsep, IH.
Qed.

Lemma string6_addr ip : all_bytes addr_byte (string6 ip) = true.
Proof.
  assert (forall l, all_bytes addr_byte (join ":" (appendHex <$> l)) = true) as Hj.
  { intros l. apply join_addr; [done|]. apply Forall_fmap, Forall_true. intros x. apply appendHex_addr. }
  unfold string6. destruct (zero_run _ _ _) as [i n]. case_match; by rewrite ?all_bytes_app, !Hj.
Qed.

Lemma IP_String_addr ip : Forall (fun b => 0 <= b) ip -> all_bytes addr_byte (IP_String ip) = true.
Proof.
  intros Hip. unfold IP_String, To4. case_bool_decide; [|apply string6_addr].
  apply join_addr; [done|]. apply Forall_fmap. eapply Forall_impl; [by apply Forall_drop|]. apply Itoa_addr.
Qed.

(** A dotted address starts with a digit. *)
Lemma v4_head b l : 0 <= b -> exists c s, join "." (Itoa <$> b :: l) = String c s /\ is_digit c = true.
Proof.
  intros Hb. destruct (Itoa_cases b) as [[_ E]|[? _]]; [|lia]. destruct (digits_head (Z.to_N b)) as (c & s & Hd & Hc & _).
  destruct l as [|b' l]; cbn [fmap list_fmap join]; rewrite E, Hd; by eexists _, _.
Qed.

(** The manager reads a text that starts like an address as a path, and a path
    must not have a colon in its first segment. *)
Lemma parseEndpoint_address c s :
  all_bytes addr_byte (String c s) = true -> is_digit c || Ascii.eqb c "[" = true ->
  has_byte ":" s = true -> exists err, parseEndpoint (String c s) = inl err.
Proof.
  intros Hb Hc Hcolon. unfold parseEndpoint, Parse.
  rewrite (cut_none "#") by by apply (lacks addr_byte). unfold parse.
  rewrite (all_bytes_impl addr_byte (fun c => negb (control c)) (String c s)); [|by intros [[] [] [] [] [] [] [] []]|done].
  cbn [negb]. rewrite bool_decide_false by (by intros [= ->]).
  assert (getScheme (String c s) = inr ("", String c s)) as ->.
  { unfold getScheme. cbn [scheme_from].
    by destruct c as [[] [] [] [] [] [] [] []]; try discriminate Hc. }
  cbv zeta iota beta. change (to_lower "") with "".
  assert (drop_query (String c s) = String c s) as ->
    by (unfold drop_query, before; rewrite cut_none; [done|by apply (lacks addr_byte)]).
  assert (String.prefix "/" (String c s) = false) as ->
    by (by destruct c as [[] [] [] [] [] [] [] []]; try discriminate Hc).
  rewrite (bool_decide_true ("" = "")) by done. cbn [negb andb].
  unfold before. rewrite cut_none by by apply (lacks addr_byte). cbn [fst].
  assert (has_byte ":" (String c s) = true) as ->; [|by eexists].
  unfold has_byte in *. cbn [all_bytes]. apply negb_true_iff. apply negb_true_iff in Hcolon. rewrite Hcolon. apply andb_false_r.
Qed.

(** An endpoint that is built from an IP address is one the manager refuses:
    [parseEndpoint] takes pod endpoints only. *)
Theorem address_endpoint_refused rawIP rawPort pod namespace e :
  rawIP ≠ "" -> BuildEndpointURL rawIP rawPort pod namespace = inr e ->
  exists err, parseEndpoint e = inl err.
Proof.
  intros Hne. unfold BuildEndpointURL, ValidateControllerEndpoint, parsePort. rewrite bool_decide_true by done.
  destruct (ParseIP rawIP) as [ip|] eqn:Hip; [|done]. apply ParseIP_ok in Hip as [Ho Hlen].
  destruct (ParseUint 16 rawPort) as [|port] eqn:Hp; [done|]. apply ParseUint_range in Hp as [Hp _].
  pose proof (IP_String_addr ip Ho) as Ha. pose proof (Itoa_addr port Hp) as Hi.
  case_bool_decide as H4; intros [= <-].
  - unfold IP_String, To4 in *. case_bool_decide; [|done]. destruct (drop 12 ip) as [|b l] eqn:Hd.
    { apply (f_equal length) in Hd. rewrite length_drop in Hd. simpl in Hd. lia. }
    destruct (v4_head b l) as (c & s & Hs & Hc).
    { apply (Forall_drop _ 12) in Ho. rewrite Hd in Ho. by inversion Ho. }
    rewrite Hs in *. rewrite app_cons_string. apply parseEndpoint_address.
    + rewrite <- app_cons_string, !all_bytes_app, Ha, Hi. done.
    + by rewrite Hc.
    + unfold has_byte. rewrite !all_bytes_app, andb_false_r. done.
  - change ("[" +:+ ?x) with (String "[" x). apply parseEndpoint_address; [|done|].
    + cbn [all_bytes]. rewrite !all_bytes_app, Ha, Hi. done.
    + unfold has_byte. rewrite !all_bytes_app, !andb_false_r. done.
Qed.
