(* ===== verification/NetworkFenceController.v ===== *)
(** * The NetworkFence and NetworkFenceClass controllers

    src/internal/controller/csiaddons/networkfence_controller.go fences and
    unfences networks through the leading side-car of a driver;
    networkfenceclass_controller.go records in an annotation of every
    CSIAddonsNode of a driver which classes apply to it. *)

From S2P Require Import Prelude.
From S2P Require Import GoErrors.
From S2P Require Import GoText.
From S2P Require Import GoJSON.
From S2P Require Import ApiTypes.
From S2P Require Import CsiaddonsTypes.
From S2P Require Import Effects.
From S2P Require Import ControllerUtil.
From S2P Require Import Connection.
From S2P Require Import CSIAddonsNodeController.
From S2P Require Config.

(** ** NetworkFence *)
Module Fence.

Definition networkFenceFinalizer := "csiaddons.openshift.io/network-fence".

Definition validateNetworkFenceSpec (nf : NetworkFence) : option error :=
  let s := nf.(nf_Spec) in
  if negb (bool_decide (s.(nf_NetworkFenceClassName) = "")) then
    match s.(nf_Cidrs) with
    | None => Some (ErrorString "required parameter spec.cidrs is not specified")
    | Some _ => None
    end
  else if bool_decide (s.(nf_Driver) = "") then
    Some (ErrorString "required parameter driver is not specified")
  else match s.(nf_Cidrs) with
       | None => Some (ErrorString "required parameter cidrs is not specified")
       | Some _ => None
       end.

Definition set_nf_status (nf : NetworkFence) (res message : string) : NetworkFence :=
  mkNF nf.(nf_meta) nf.(nf_Spec) (mkNFStatus res message).
Definition set_nf_parameters (nf : NetworkFence) (ps : option (gmap string string)) : NetworkFence :=
  let s := nf.(nf_Spec) in
  mkNF nf.(nf_meta)
    (mkNFSpec s.(nf_NetworkFenceClassName) s.(nf_Driver) s.(nf_FenceState) s.(nf_Cidrs)
       s.(nf_SecretName) s.(nf_SecretNamespace) ps)
    nf.(nf_Status).

(** NetworkFenceInstance: the client of the leader, the object, its class. *)
Record NetworkFenceInstance := mkInstance {
  controllerClient : ClientConn;
  instance : NetworkFence;
  nfClass : option NetworkFenceClass
}.
Definition set_instance (nf : NetworkFenceInstance) (o : NetworkFence) : NetworkFenceInstance :=
  mkInstance nf.(controllerClient) o nf.(nfClass).

Definition updateStatus (nf : NetworkFenceInstance) (res message : string) : M (option error) :=
  '(_, err) ← status_update_obj KNetworkFence (set_nf_status nf.(instance) res message);
  mret err.

Definition supports_fencing (cap : Capability) : bool :=
  match cap with CapNetworkFence t => (t =? NetworkFence_NETWORK_FENCE)%Z | _ => false end.

Definition getNetworkFenceClient (drivername : string) : M (error + ClientConn) :=
  r ← GetLeaderByDriver drivername;
  match r with
  | inl err => mret (inl err)
  | inr conn =>
    if existsb supports_fencing conn.(Capabilities) then
      match conn.(Client) with
      | None => Panic "nil grpc.ClientConn"
      | Some cc => mret (inr cc)
      end
    else
      mret (inl (ErrorString ("leading CSIAddonsNode " +:+ go_quote conn.(conn_Name) +:+
        " for driver " +:+ go_quote drivername +:+ " does not support NetworkFence")))
  end.

(** The end of [getNetworkFenceInstance]: the client. *)
Definition with_client (nf : NetworkFence) (cls : option NetworkFenceClass) (driverName : string)
    : M (error + NetworkFenceInstance) :=
  r ← getNetworkFenceClient driverName;
  match r with
  | inl err =>
    mret (inl (WrapError ("failed to get networkfenceclient using driver " +:+ go_quote driverName +:+
                          " due to error: " +:+ Error err) err))
  | inr cc => mret (inr (mkInstance cc nf cls))
  end.

Definition getNetworkFenceInstance (nf : NetworkFence) : M (error + NetworkFenceInstance) :=
  let className := nf.(nf_Spec).(nf_NetworkFenceClassName) in
  if bool_decide (className = "") then with_client nf None nf.(nf_Spec).(nf_Driver)
  else
    r ← get_obj KNetworkFenceClass (mkNamespacedName "" className);
    match r with
    | inl err =>
      mret (inl (WrapError ("failed to get networkfenceclass with name " +:+ go_quote className +:+
                            " due to error: " +:+ Error err) err))
    | inr nfc => with_client nf (Some nfc) nfc.(nfc_Provisioner)
    end.

(** The loop that adds a class's parameters to the request's map. *)
Definition merge_parameter (params : gmap string string) (kv : string * string) : gmap string string :=
  if bool_decide (kv.1 = prefixedNetworkFenceSecretNameKey)
     || bool_decide (kv.1 = prefixedNetworkFenceSecretNamespaceKey)
  then params else <[kv.1 := kv.2]> params.

Section reconciler.
Variable timeout : Z.

(** The two requests, each under the reconciler's deadline. *)
Definition fenceClusterNetwork (nf : NetworkFenceInstance) (params : gmap string string) (cidrs : list string)
    (secretName secretNamespace : string) : M (option error) :=
  r ← call (ERpc nf.(controllerClient) timeout (FenceClusterNetwork params cidrs secretName secretNamespace));
  mret match r with inl err => Some err | inr _ => None end.
Definition unfenceClusterNetwork (nf : NetworkFenceInstance) (params : gmap string string) (cidrs : list string)
    (secretName secretNamespace : string) : M (option error) :=
  r ← call (ERpc nf.(controllerClient) timeout (UnFenceClusterNetwork params cidrs secretName secretNamespace));
  mret match r with inl err => Some err | inr _ => None end.

(** The request's parameter map is the object's own map unless that is nil, so
    the class's parameters are written into the object in memory as well. *)
Definition processFencingRequest (nf : NetworkFenceInstance) : M (NetworkFenceInstance * option error) :=
  let o := nf.(instance) in
  let s := o.(nf_Spec) in
  '(o, params, secretName, secretNamespace) ←
    match nf.(nfClass) with
    | None =>
      mret (o, default ∅ s.(nf_Parameters), s.(nf_SecretName), s.(nf_SecretNamespace))
    | Some nfc =>
      seed ← call ERange;
      let nfParams := nfc.(nfc_Parameters) in
      let params := foldl merge_parameter (default ∅ s.(nf_Parameters)) (map_range seed nfParams) in
      mret (match s.(nf_Parameters) with Some _ => set_nf_parameters o (Some params) | None => o end,
            params, map_get nfParams prefixedNetworkFenceSecretNameKey,
            map_get nfParams prefixedNetworkFenceSecretNamespaceKey)
    end;
  let cidrs := default [] s.(nf_Cidrs) in
  let nf := set_instance nf o in
  err ← (if bool_decide (s.(nf_FenceState) = Fenced)
         then fenceClusterNetwork nf params cidrs secretName secretNamespace
         else unfenceClusterNetwork nf params cidrs secretName secretNamespace);
  mret (nf, err).

Definition addFinalizerToNetworkFence (nf : NetworkFenceInstance) : M (NetworkFenceInstance * option error) :=
  let o := nf.(instance) in
  if negb (contains (finalizers o) networkFenceFinalizer) then
    '(o, err) ← update_obj KNetworkFence (with_finalizers o (finalizers o ++ [networkFenceFinalizer]));
    mret (set_instance nf o,
      match err with
      | Some err => Some (WrapError ("failed to add finalizer (" +:+ networkFenceFinalizer +:+
          ") to NetworkFence resource (" +:+ obj_Name (o : NetworkFence) +:+ "): " +:+ Error err) err)
      | None => None
      end)
  else mret (nf, None).

Definition removeFinalizerFromNetworkFence (nf : NetworkFenceInstance) : M (option error) :=
  let o := nf.(instance) in
  if contains (finalizers o) networkFenceFinalizer then
    '(o, err) ← update_obj KNetworkFence
                  (with_finalizers o (Config.RemoveFromSlice (finalizers o) networkFenceFinalizer));
    mret match err with
         | Some err => Some (WrapError ("failed to remove finalizer (" +:+ networkFenceFinalizer +:+
             ") from NetworkFence resource " +:+ obj_Name (o : NetworkFence) +:+ ": " +:+ Error err) err)
         | None => None
         end
  else mret None.

Definition processFencing (nf : NetworkFenceInstance) : M (NetworkFenceInstance * option error) :=
  '(nf, err) ← addFinalizerToNetworkFence nf;
  match err with
  | Some err => mret (nf, Some err)
  | None => processFencingRequest nf
  end.

(** Fence or unfence, and say so in the status. *)
Definition fence_and_report (nf : NetworkFenceInstance) : M result :=
  '(nf, err) ← processFencing nf;
  match err with
  | Some err =>
    _ ← updateStatus nf FencingOperationResultFailed (Error err);
    mret (no_requeue, Some err)
  | None =>
    let state := nf.(instance).(nf_Spec).(nf_FenceState) in
    let successMsg :=
      if bool_decide (state = Fenced) then FenceOperationSuccessfulMessage
      else if bool_decide (state = Unfenced) then UnFenceOperationSuccessfulMessage else "" in
    err ← updateStatus nf FencingOperationResultSucceeded successMsg;
    mret (no_requeue, err)
  end.

Definition Reconcile (req : NamespacedName) : M result :=
  r ← get_obj KNetworkFence req;
  match r with
  | inl err => if IsNotFound err then mret (no_requeue, None) else mret (no_requeue, Some err)
  | inr nwFence =>
    match validateNetworkFenceSpec nwFence with
    | Some err =>
      '(_, statusErr) ← status_update_obj KNetworkFence
        (set_nf_status nwFence FencingOperationResultFailed
           ("Failed to validate Networkfence parameters: " +:+ GetErrorMessage err));
      mret (no_requeue, statusErr)
    | None =>
      r ← getNetworkFenceInstance nwFence;
      match r with
      | inl err => mret (no_requeue, Some err)
      | inr nf =>
        if is_deleting nf.(instance) then
          err ← (if contains (finalizers nf.(instance)) networkFenceFinalizer
                 then removeFinalizerFromNetworkFence nf else mret None);
          mret (no_requeue, err)
        else fence_and_report nf
      end
    end
  end.
End reconciler.
End Fence.

(** ** NetworkFenceClass *)
Module FenceClass.

Definition driverName := "spec.driver.name".
Definition provisionerName := "spec.provisioner".

(** The verdict on one parameter, and the loop. *)
Definition validateParameter (k v : string) : option error :=
  if String.prefix networkFenceParameterPrefix k then
    if bool_decide (k = prefixedNetworkFenceSecretNameKey) then
      if bool_decide (v = "") then Some (ErrorString "secret name cannot be empty") else None
    else if bool_decide (k = prefixedNetworkFenceSecretNamespaceKey) then
      if bool_decide (v = "") then Some (ErrorString "secret namespace cannot be empty") else None
    else Some (ErrorString ("found unknown parameter key " +:+ go_quote k +:+
                            " with reserved prefix " +:+ networkFenceParameterPrefix))
  else None.

Fixpoint validate_entries (l : list (string * string)) : option error :=
  match l with
  | [] => None
  | (k, v) :: l =>
    match validateParameter k v with
    | Some err => Some err
    | None => validate_entries l
    end
  end.

Definition validatePrefixedParameters (param : gmap string string) : M (option error) :=
  seed ← call ERange;
  mret (validate_entries (map_range seed param)).

Definition getNetworkFenceClass (req : NamespacedName) : M (error + option NetworkFenceClass) :=
  r ← get_obj KNetworkFenceClass req;
  mret match r with
       | inl err => if IsNotFound err then inr None else inl err
       | inr nfc => inr (Some nfc)
       end.

Definition addFinalizer (nfc : NetworkFenceClass) : M (NetworkFenceClass * option error) :=
  if negb (contains (finalizers nfc) csiAddonsNodeFinalizer) then
    update_obj KNetworkFenceClass (with_finalizers nfc (finalizers nfc ++ [csiAddonsNodeFinalizer]))
  else mret (nfc, None).

Definition removeFinalizer (nfc : NetworkFenceClass) : M (NetworkFenceClass * option error) :=
  if contains (finalizers nfc) csiAddonsNodeFinalizer then
    update_obj KNetworkFenceClass
      (with_finalizers nfc (Config.RemoveFromSlice (finalizers nfc) csiAddonsNodeFinalizer))
  else mret (nfc, None).

Definition listCSIAddonsNodes (provisioner : string) : M (error + list CSIAddonsNode) :=
  call (EListField KCSIAddonsNode driverName provisioner "").

(** Only the first occurrence goes. *)
Fixpoint removeClassFromList (classes : list string) (className : string) : list string :=
  match classes with
  | [] => []
  | c :: classes => if bool_decide (c = className) then classes else c :: removeClassFromList classes className
  end.

(** strings.Contains. *)
Fixpoint string_contains (s sub : string) : bool :=
  String.prefix sub s ||
  match s with
  | EmptyString => false
  | String _ s => string_contains s sub
  end.

Definition set_annotation (n : CSIAddonsNode) (v : option string) : CSIAddonsNode :=
  with_annotations n (match v with
                      | Some v => <[networkFenceClassAnnotationKey := v]> (meta n).(Annotations)
                      | None => delete networkFenceClassAnnotationKey (meta n).(Annotations)
                      end).

Section reconciler.
Variable json_error : string -> error.

(** The loop over the capabilities: the first one that fences clients decides,
    if there is something to change. *)
Fixpoint process_capabilities (caps : list string) (n : CSIAddonsNode) (classes : list string)
    (name : string) (nfUnderDeletion : bool) : M (option error) :=
  match caps with
  | [] => mret None
  | capability :: caps =>
    if string_contains capability "GET_CLIENTS_TO_FENCE" then
      let ok := contains classes name in
      if negb ok && negb nfUnderDeletion then
        '(_, err) ← update_obj KCSIAddonsNode (set_annotation n (Some (Marshal (classes ++ [name]))));
        mret err
      else if ok && nfUnderDeletion then
        let classes := removeClassFromList classes name in
        let v := if bool_decide (classes = []) then None else Some (Marshal classes) in
        '(_, err) ← update_obj KCSIAddonsNode (set_annotation n v);
        mret err
      else process_capabilities caps n classes name nfUnderDeletion
    else process_capabilities caps n classes name nfUnderDeletion
  end.

Definition processCSIAddonsNode (n : CSIAddonsNode) (nfc : NetworkFenceClass) (nfUnderDeletion : bool)
    : M (option error) :=
  if bool_decide (n.(node_Status).(ns_Capabilities) = []) then
    mret (Some (ErrorString "CSIAddonsNode status capabilities not found"))
  else
  let classesJSON := annotation n networkFenceClassAnnotationKey in
  match (if bool_decide (classesJSON = "") then Some [] else Unmarshal classesJSON) with
  | None => mret (Some (json_error classesJSON))
  | Some classes =>
    process_capabilities n.(node_Status).(ns_Capabilities) n classes (obj_Name nfc) nfUnderDeletion
  end.

(** The loop over the nodes: every node is tried, the errors are collected. *)
Fixpoint process_nodes (nodes : list CSIAddonsNode) (nfc : NetworkFenceClass) (nfUnderDeletion : bool)
    (errs : list string) : M (list string) :=
  match nodes with
  | [] => mret errs
  | n :: nodes =>
    if is_deleting n then process_nodes nodes nfc nfUnderDeletion errs
    else
      err ← processCSIAddonsNode n nfc nfUnderDeletion;
      process_nodes nodes nfc nfUnderDeletion
        match err with
        | Some err =>
          errs ++ ["error processing node " +:+ obj_Name n +:+ ": for NetworkFenceClass " +:+
                   obj_Name nfc +:+ ": " +:+ Error err]
        | None => errs
        end
  end.

(** After the parameters were validated. *)
Definition sync_class (nfc : NetworkFenceClass) : M result :=
  let nfUnderDeletion := is_deleting nfc in
  '(nfc, err) ← (if negb nfUnderDeletion then addFinalizer nfc else mret (nfc, None));
  match err with
  | Some err => mret (no_requeue, Some err)
  | None =>
    r ← listCSIAddonsNodes nfc.(nfc_Provisioner);
    match r with
    | inl err => mret (no_requeue, Some err)
    | inr nodes =>
      errs ← process_nodes nodes nfc nfUnderDeletion [];
      if bool_decide (errs = []) then
        if nfUnderDeletion then
          '(_, err) ← removeFinalizer nfc;
          mret (no_requeue, err)
        else mret (no_requeue, None)
      else mret (no_requeue, Some (ErrorString ("multiple errors occurred: " +:+ String.concat ", " errs)))
    end
  end.

Definition Reconcile (req : NamespacedName) : M result :=
  r ← getNetworkFenceClass req;
  match r with
  | inl err => mret (no_requeue, Some err)
  | inr None => mret (no_requeue, None)
  | inr (Some nfc) =>
    err ← validatePrefixedParameters nfc.(nfc_Parameters);
    match err with
    | Some err => mret (no_requeue, Some err)
    | None => sync_class nfc
    end
  end.

(** The watch on the nodes: only creations count, and each enqueues the classes
    of its driver. *)
Inductive watch_event := CreateEvent | UpdateEvent | DeleteEvent | GenericEvent.
Definition csiAddonsNodePredicate (e : watch_event) : bool :=
  match e with CreateEvent | GenericEvent => true | UpdateEvent | DeleteEvent => false end.

Definition enqueueNFC (n : CSIAddonsNode) : M (list NamespacedName) :=
  r ← call (EListField KNetworkFenceClass provisionerName n.(node_Driver).(drv_Name) "");
  mret match r with
       | inl _ => []
       | inr l => map (fun nfc : NetworkFenceClass => mkNamespacedName "" (obj_Name nfc)) l
       end.

(** The two field indexers. *)
Definition index_node (n : CSIAddonsNode) : list string :=
  if negb (bool_decide (n.(node_Driver).(drv_Name) = "")) then [n.(node_Driver).(drv_Name)] else [].
Definition index_class (nfc : NetworkFenceClass) : list string :=
  if negb (bool_decide (nfc.(nfc_Provisioner) = "")) then [nfc.(nfc_Provisioner)] else [].
End reconciler.
End FenceClass.
