(* ===== verification/NetworkFenceProofs.v ===== *)
(** * The NetworkFence and NetworkFenceClass controllers keep their promises *)

From S2P Require Import Prelude.
From S2P Require Import GoErrors.
From S2P Require Import GoURL.
From S2P Require Import GoJSON.
From S2P Require Import ApiTypes.
From S2P Require Import CsiaddonsTypes.
From S2P Require Import Effects.
From S2P Require Import ControllerUtil.
From S2P Require Import Connection.
From S2P Require Import CSIAddonsNodeController.
From S2P Require Import NetworkFenceController.
From S2P Require Config.

(** ** NetworkFence: the request *)
Module FenceProofs.
Import Fence.

(** The parameters of a class that the driver sees. *)
Definition class_parameters (nfc : NetworkFenceClass) : gmap string string :=
  delete prefixedNetworkFenceSecretNamespaceKey
    (delete prefixedNetworkFenceSecretNameKey nfc.(nfc_Parameters)).

Lemma merge_fold params l k :
  NoDup l.*1 ->
  foldl merge_parameter params l !! k =
    match (list_to_map l : gmap string string) !! k with
    | Some v => if decide (k = prefixedNetworkFenceSecretNameKey \/ k = prefixedNetworkFenceSecretNamespaceKey)
                then params !! k else Some v
    | None => params !! k
    end.
Proof.
  revert params. induction l as [|[k' v] l IH]; intros params Hnd; [done|].
  apply NoDup_cons in Hnd as [Hk' Hnd]. cbn [foldl]. rewrite list_to_map_cons, IH by done. clear IH.
  destruct (decide (k = k')) as [<-|Hne].
  - rewrite lookup_insert_eq, (not_elem_of_list_to_map_1 (M:=gmap string)) by done.
    unfold merge_parameter. simpl. repeat case_bool_decide; case_decide; simpl; try tauto.
    by rewrite lookup_insert_eq.
  - rewrite lookup_insert_ne by done.
    assert (merge_parameter params (k', v) !! k = params !! k) as ->; [|done].
    unfold merge_parameter. case_match; [done|]. by rewrite lookup_insert_ne.
Qed.

(** In whatever order the class's parameters are visited, they take precedence
    over the fence's own, and its secret's keys are left out. *)
Lemma merge_parameters seed params nfc :
  foldl merge_parameter params (map_range seed nfc.(nfc_Parameters)) = class_parameters nfc ∪ params.
Proof.
  apply map_eq. intros k. rewrite merge_fold by apply Config.map_range_NoDup.
  rewrite Config.map_range_map. unfold class_parameters.
  destruct (nfc_Parameters nfc !! k) as [v|] eqn:Hk.
  - case_decide as Hd.
    + rewrite lookup_union_r; [done|]. apply lookup_delete_None.
      destruct Hd as [->| ->]; [right; apply lookup_delete_eq|by left].
    + symmetry. apply lookup_union_Some_l. rewrite !lookup_delete_ne; [done|naive_solver..].
  - rewrite lookup_union_r; [done|]. rewrite !lookup_delete_None. by auto.
Qed.

(** ** NetworkFence: the contract *)

(** Our finalizer is on the fence: it was there, or an update with it was
    accepted. *)
Definition protected (h : hist) (nf0 : NetworkFence) : Prop :=
  networkFenceFinalizer ∈ finalizers nf0 \/
  exists o o' : NetworkFence, existT (EUpdate KNetworkFence o) (inr o') ∈ h /\ networkFenceFinalizer ∈ finalizers o.

(** The parameters and the secret the specification asks for. *)
Definition request_of (h : hist) (nf0 nf : NetworkFence) (ps : gmap string string) (secret secretNs : string) : Prop :=
  let own := default ∅ nf.(nf_Spec).(nf_Parameters) in
  if bool_decide (nf0.(nf_Spec).(nf_NetworkFenceClassName) = "") then
    ps = own /\ secret = nf.(nf_Spec).(nf_SecretName) /\ secretNs = nf.(nf_Spec).(nf_SecretNamespace)
  else
    exists nfc : NetworkFenceClass,
      existT (EGet KNetworkFenceClass (mkNamespacedName "" nf0.(nf_Spec).(nf_NetworkFenceClassName))) (inr nfc) ∈ h /\
      ps = class_parameters nfc ∪ own /\
      secret = map_get nfc.(nfc_Parameters) prefixedNetworkFenceSecretNameKey /\
      secretNs = map_get nfc.(nfc_Parameters) prefixedNetworkFenceSecretNamespaceKey.

(** [nf0] is the fence as fetched, [nf] as the server returned it last. *)
Definition facts (h : hist) (nf0 nf : NetworkFence) : Prop :=
  newest (fetched KNetworkFence) h = Some nf0 /\ newest (current KNetworkFence) h = Some nf.

Definition fencing_permitted (h : hist) (fencing : bool) ps cidrs secret secretNs : Prop :=
  exists nf0 nf, facts h nf0 nf /\ validateNetworkFenceSpec nf0 = None /\ is_deleting nf0 = false /\
    protected h nf0 /\ request_of h nf0 nf ps secret secretNs /\
    cidrs = default [] nf.(nf_Spec).(nf_Cidrs) /\
    fencing = bool_decide (nf.(nf_Spec).(nf_FenceState) = Fenced).

(** The driver confirmed the operation. *)
Definition confirmed (h : hist) (fencing : bool) : Prop :=
  exists cc t ps cidrs s sns,
    if fencing then existT (ERpc cc t (FenceClusterNetwork ps cidrs s sns)) (inr tt) ∈ h
    else existT (ERpc cc t (UnFenceClusterNetwork ps cidrs s sns)) (inr tt) ∈ h.

Definition honest (h : hist) (o : NetworkFence) : Prop :=
  exists nf0 nf, facts h nf0 nf /\
    (o.(nf_Status).(nf_Result) = FencingOperationResultFailed \/
     o.(nf_Status).(nf_Result) = FencingOperationResultSucceeded /\
     let state := nf.(nf_Spec).(nf_FenceState) in
     confirmed h (bool_decide (state = Fenced)) /\
     o.(nf_Status).(nf_Message) =
       (if bool_decide (state = Fenced) then FenceOperationSuccessfulMessage
        else if bool_decide (state = Unfenced) then UnFenceOperationSuccessfulMessage else "")).

Definition fence_contract (timeout : Z) (h : hist) (e : event) : Prop :=
  match e with
  | EGet k _ => k = KNetworkFence \/ k = KNetworkFenceClass \/ k = KLease
  | EReadPool | EStoreConn _ _ | ERange | EGetState _ | ECloseConn _ | ENewClient _ _ => True
  | ERpc _ t m =>
    match m with
    | GetCapabilities => True
    | FenceClusterNetwork ps cidrs s sns => t = timeout /\ fencing_permitted h true ps cidrs s sns
    | UnFenceClusterNetwork ps cidrs s sns => t = timeout /\ fencing_permitted h false ps cidrs s sns
    | _ => False
    end
  | EStatusUpdate k o =>
    match k return obj_of k -> Prop with
    | KNetworkFence => fun o => honest h o
    | _ => fun _ => False
    end o
  | EUpdate k o =>
    match k return obj_of k -> Prop with
    | KNetworkFence => fun o => exists nf0 : NetworkFence, newest (fetched KNetworkFence) h = Some nf0 /\
        o.(nf_Spec) = nf0.(nf_Spec) /\
        finalizers o = (if is_deleting nf0 then delete_eq (finalizers nf0) networkFenceFinalizer
                        else finalizers nf0 ++ [networkFenceFinalizer])
    | _ => fun _ => False
    end o
  | _ => False
  end.

Lemma fence_connect timeout h e : connect_call e -> fence_contract timeout h e.
Proof. destruct e as [[]| | | | | | |? ? []| | | | | | | | | | | |]; simpl; tauto. Qed.

(** Calls that read neither the fence nor change it. *)
Definition quiet (e : event) : Prop :=
  match e with
  | EGet k _ => k ≠ KNetworkFence
  | ECreate _ _ | EUpdate _ _ | EStatusUpdate _ _ => False
  | _ => True
  end.

Lemma fence_quiet_silent e r : quiet e ->
  fetched KNetworkFence (existT e r) = None /\ current KNetworkFence (existT e r) = None.
Proof.
  destruct e as [k| | | | | | | | | | | | | | | | | | |]; try done. intros Hk. simpl.
  unfold obj_answer, obj_in. destruct r; try done; by destruct decide.
Qed.

Lemma facts_quiet h h' nf0 nf : extends quiet h h' -> facts h nf0 nf -> facts h' nf0 nf.
Proof.
  intros Hext [H0 H]. unfold facts. rewrite <- H0, <- H.
  split; apply (newest_extends _ _ _ _ Hext); intros e r He; by apply fence_quiet_silent.
Qed.

Lemma connect_quiet e : connect_call e -> quiet e.
Proof. by destruct e as [[]| | | | | | |? ? []| | | | | | | | | | | |]. Qed.

Section contract.
Context (timeout : Z).
Abbreviation contract := (fence_contract timeout).

Lemma getNetworkFenceClient_wp h d :
  wp contract (fun h' o => extends quiet h h' /\ match o with Panicked _ => d = "" | _ => True end) h
    (getNetworkFenceClient d).
Proof.
  unfold getNetworkFenceClient. eapply wp_seq; [apply GetLeaderByDriver_client, fence_connect|].
  intros h' o [Hext Ho]. apply (extends_mono _ quiet _ _ connect_quiet) in Hext.
  destruct o as [[err|conn]|m]; cbn [after]; [done| |done].
  destruct Ho as [cc ->]. by case_match.
Qed.

Definition class_found (h : hist) (nf : NetworkFence) (cls : option NetworkFenceClass) : Prop :=
  if bool_decide (nf.(nf_Spec).(nf_NetworkFenceClassName) = "") then cls = None
  else exists nfc, cls = Some nfc /\
    existT (EGet KNetworkFenceClass (mkNamespacedName "" nf.(nf_Spec).(nf_NetworkFenceClassName))) (inr nfc) ∈ h.

Definition found (h : hist) (nf : NetworkFence) (i : NetworkFenceInstance) : Prop :=
  i.(instance) = nf /\ class_found h nf i.(nfClass).

Lemma class_found_in h h' nf cls : (forall c, c ∈ h -> c ∈ h') -> class_found h nf cls -> class_found h' nf cls.
Proof. unfold class_found. intros Hsub. case_match; [done|]. intros (nfc & -> & Hin). by eauto. Qed.

Lemma with_client_wp h nf cls d :
  class_found h nf cls ->
  wp contract (fun h' o => extends quiet h h' /\ match o with Done (inr i) => found h' nf i | _ => True end) h
    (with_client nf cls d).
Proof.
  intros Hcls. unfold with_client. eapply wp_seq; [apply getNetworkFenceClient_wp|].
  intros h2 o [Hext _]. destruct o as [[err|cc]|m]; cbn [after]; [done| |done].
  split; [done|]. split; [done|]. eapply class_found_in; [|done]. intros c. by apply (extends_in _ _ _ Hext).
Qed.

Lemma getNetworkFenceInstance_wp h nf :
  wp contract (fun h' o => extends quiet h h' /\ match o with Done (inr i) => found h' nf i | _ => True end) h
    (getNetworkFenceInstance nf).
Proof.
  unfold getNetworkFenceInstance, get_obj. case_bool_decide as Hname.
  - apply with_client_wp. unfold class_found. by rewrite bool_decide_true.
  - apply wp_call; [simpl; tauto|]. intros [err|nfc]; cbn [mbind prog_bind].
    + by split; [apply extends_one|].
    + eapply wp_post; [apply with_client_wp|].
      * unfold class_found. rewrite bool_decide_false by done. exists nfc. split; [done|]. apply list_elem_of_here.
      * intros h' o [Hext Ho]. split; [|done]. eapply extends_trans; [|exact Hext]. by apply extends_one.
Qed.

Lemma fence_finalizer_wp h (nf : NetworkFence) i :
  facts h nf nf -> found h nf i -> is_deleting nf = false ->
  wp contract (fun h' o => exists i' err, o = Done (i', err) /\ newest (fetched KNetworkFence) h' = Some nf /\
      (err = None -> exists nf', i'.(instance) = nf' /\ facts h' nf nf' /\ protected h' nf /\
         class_found h' nf i'.(nfClass)) /\
      (exists nf', facts h' nf nf'))
    h (addFinalizerToNetworkFence i).
Proof.
  intros Hf [Hi Hcls] Hdel. unfold addFinalizerToNetworkFence, update_obj. rewrite Hi.
  destruct (contains _ _) eqn:Hc; cbn [negb].
  - eexists _, _. split_and!; [done|apply Hf| |by eexists]. intros _. exists nf.
    split_and!; [done..| |done]. left. by apply contains_true.
  - cbn [mbind prog_bind call mret prog_ret]. apply wp_call.
    { exists nf. split_and!; [apply Hf|done|]. by rewrite Hdel, finalizers_with. }
    intros [err|o']; cbn beta iota; eexists _, _; (split; [done|]); (split; [by rewrite newest_cons; apply Hf|]).
    + split; [done|]. exists nf. split; rewrite newest_cons; apply Hf.
    + assert (facts (existT (EUpdate KNetworkFence (with_finalizers nf (finalizers nf ++ [networkFenceFinalizer]))) (inr o') :: h) nf o')
        as Hf' by (split; rewrite newest_cons; [apply Hf|done]).
      split; [|by eexists]. intros _. exists o'. split_and!; [done|done| |].
      * right. eexists _, _. split; [apply list_elem_of_here|]. rewrite finalizers_with. set_solver.
      * eapply class_found_in; [|done]. intros c Hin. set_solver.
Qed.

(** The end of [processFencingRequest]: one call, the right one. *)
Definition fenced (h : hist) (nf : NetworkFence) (o : outcome (NetworkFenceInstance * option error)) : Prop :=
  exists i' err, o = Done (i', err) /\
    i'.(instance).(nf_Spec).(nf_FenceState) = nf.(nf_Spec).(nf_FenceState) /\
    (err = None -> confirmed h (bool_decide (nf.(nf_Spec).(nf_FenceState) = Fenced))).

Lemma send_wp h nf0 nf (i : NetworkFenceInstance) ps s sns :
  facts h nf0 nf -> validateNetworkFenceSpec nf0 = None -> is_deleting nf0 = false -> protected h nf0 ->
  request_of h nf0 nf ps s sns -> i.(instance).(nf_Spec).(nf_FenceState) = nf.(nf_Spec).(nf_FenceState) ->
  let cidrs := default [] nf.(nf_Spec).(nf_Cidrs) in
  wp contract (fun h' o => facts h' nf0 nf /\ fenced h' nf o) h
    (err ← (if bool_decide (nf.(nf_Spec).(nf_FenceState) = Fenced)
            then fenceClusterNetwork timeout i ps cidrs s sns
            else unfenceClusterNetwork timeout i ps cidrs s sns);
     mret (i, err)).
Proof.
  intros Hf Hv Hdel Hp Hreq Hi cidrs. unfold fenceClusterNetwork, unfenceClusterNetwork.
  case_bool_decide as Hs; cbn [mbind prog_bind call mret prog_ret]; apply wp_call.
  1,3: split; [done|]; exists nf0, nf; split_and!; [done..|]; by case_bool_decide.
  all: intros r; split; [by eapply facts_quiet; [apply extends_one|]|]; eexists _, _; (split; [done|]); (split; [done|]);
    destruct r as [err|[]]; [done|]; intros _; rewrite ?bool_decide_true, ?bool_decide_false by done;
    repeat eexists; apply list_elem_of_here.
Qed.

Lemma processFencingRequest_wp h nf0 nf i :
  facts h nf0 nf -> i.(instance) = nf -> validateNetworkFenceSpec nf0 = None -> is_deleting nf0 = false ->
  protected h nf0 -> class_found h nf0 i.(nfClass) ->
  wp contract (fun h' o => facts h' nf0 nf /\ fenced h' nf o) h (processFencingRequest timeout i).
Proof.
  intros Hf Hi Hv Hdel Hp Hcls. unfold processFencingRequest. rewrite Hi.
  unfold class_found in Hcls. case_bool_decide as Hname.
  - rewrite Hcls. apply send_wp; try done. unfold request_of. by rewrite bool_decide_true.
  - destruct Hcls as (nfc & Hnfc & Hin). rewrite Hnfc. cbn [mbind prog_bind call mret prog_ret].
    apply wp_call; [done|]. intros seed. cbn beta iota.
    apply (send_wp _ nf0 nf); try done.
    + destruct Hp as [Hp|(o & o' & Ho & Hp)]; [by left|]. right. exists o, o'. split; [set_solver|done].
    + unfold request_of. rewrite bool_decide_false by done. exists nfc. split_and!; [set_solver| |done..].
      apply merge_parameters.
    + simpl. by case_match.
Qed.

Lemma updateStatus_wp h i res msg :
  honest h (set_nf_status i.(instance) res msg) ->
  wp contract (fun _ o => exists a, o = Done a) h (updateStatus i res msg).
Proof. intros Hh. apply wp_call; [done|]. intros [e|o']; by eexists. Qed.

Lemma report_wp h nf0 nf i (err : option error) :
  facts h nf0 nf ->
  (err = None -> i.(instance).(nf_Spec).(nf_FenceState) = nf.(nf_Spec).(nf_FenceState) /\
     confirmed h (bool_decide (nf.(nf_Spec).(nf_FenceState) = Fenced))) ->
  wp contract (fun _ o => exists a : result, o = Done a) h
    match err with
    | Some err =>
      _ ← updateStatus i FencingOperationResultFailed (Error err);
      mret (no_requeue, Some err)
    | None =>
      let state := i.(instance).(nf_Spec).(nf_FenceState) in
      let successMsg :=
        if bool_decide (state = Fenced) then FenceOperationSuccessfulMessage
        else if bool_decide (state = Unfenced) then UnFenceOperationSuccessfulMessage else "" in
      err ← updateStatus i FencingOperationResultSucceeded successMsg;
      mret (no_requeue, err)
    end.
Proof.
  intros Hf Hc. destruct err as [err|]; cbv zeta; (eapply wp_seq; [apply updateStatus_wp|]).
  2,4: intros h' o [a ->]; by eexists.
  - exists nf0, nf. split; [done|by left].
  - exists nf0, nf. destruct (Hc eq_refl) as [Hs Hconf]. split; [done|]. right. by rewrite Hs.
Qed.

Lemma fence_and_report_wp h (nf : NetworkFence) i :
  facts h nf nf -> found h nf i -> validateNetworkFenceSpec nf = None -> is_deleting nf = false ->
  wp contract (fun _ o => exists a, o = Done a) h (fence_and_report timeout i).
Proof.
  intros Hf Hfound Hv Hdel. unfold fence_and_report, processFencing. apply wp_assoc.
  eapply wp_seq; [by apply fence_finalizer_wp|]. intros h1 o (i1 & err & -> & _ & Hok & nf1 & Hf1). cbn [after].
  destruct err as [err|].
  - by apply (report_wp h1 nf nf1 i1 (Some err)).
  - destruct (Hok eq_refl) as (nf' & Hi1 & Hf' & Hp & Hcls).
    eapply wp_seq; [by apply (processFencingRequest_wp h1 nf nf' i1)|].
    intros h2 o [Hf2 (i2 & err & -> & Hs & Hc)]. cbn [after]. by apply (report_wp h2 nf nf' i2 err); auto.
Qed.

Lemma remove_wp h (nf : NetworkFence) i :
  facts h nf nf -> i.(instance) = nf -> is_deleting nf = true ->
  wp contract (fun _ o => exists a, o = Done a) h (removeFinalizerFromNetworkFence i).
Proof.
  intros Hf Hi Hdel. unfold removeFinalizerFromNetworkFence, update_obj. rewrite Hi. case_match; [|by eexists].
  cbn [mbind prog_bind call mret prog_ret]. apply wp_call.
  - exists nf. split_and!; [apply Hf|done|]. by rewrite Hdel, finalizers_with.
  - intros [e|o']; by eexists.
Qed.

Lemma fence_reconcile_wp req : wp contract (fun _ _ => True) [] (Reconcile timeout req).
Proof.
  unfold Reconcile, get_obj, status_update_obj. apply wp_call; [by left|].
  intros [err|nf]; cbn [mbind prog_bind]; [by case_match|].
  assert (facts [existT (EGet KNetworkFence req) (inr nf)] nf nf) as Hf by done.
  destruct (validateNetworkFenceSpec nf) as [err|] eqn:Hv.
  { apply wp_call; [|by intros [e|o]]. exists nf, nf. split; [done|by left]. }
  eapply wp_seq; [apply getNetworkFenceInstance_wp|]. intros h1 o [Hext Ho].
  destruct o as [[err|i]|m]; cbn [after]; [done| |done].
  apply (facts_quiet _ _ _ _ Hext) in Hf. pose proof Ho as [Hi _]. rewrite Hi.
  change (obj_of KNetworkFence) with NetworkFence in nf.
  destruct (is_deleting (nf : NetworkFence)) eqn:Hdel.
  - case_match; [|done]. eapply wp_seq; [by apply (remove_wp h1 nf i)|]. by intros h2 o [a ->].
  - eapply wp_post; [by apply (fence_and_report_wp h1 nf i)|done].
Qed.
End contract.

End FenceProofs.

(** ** NetworkFenceClass *)
Module FenceClassProofs.
Import FenceClass.

(** The classes a node's annotation lists. *)
Definition classes_of (n : CSIAddonsNode) : option (list string) :=
  let classesJSON := annotation n networkFenceClassAnnotationKey in
  if bool_decide (classesJSON = "") then Some [] else Unmarshal classesJSON.

Definition fences (n : CSIAddonsNode) : bool :=
  existsb (fun c => string_contains c "GET_CLIENTS_TO_FENCE") n.(node_Status).(ns_Capabilities).

Definition added (n : CSIAddonsNode) (cs : list string) (name : string) : CSIAddonsNode :=
  set_annotation n (Some (Marshal (cs ++ [name]))).
Definition removed (n : CSIAddonsNode) (cs : list string) (name : string) : CSIAddonsNode :=
  let cs := removeClassFromList cs name in
  set_annotation n (if bool_decide (cs = []) then None else Some (Marshal cs)).

Definition listed (h : hist) (nodes : list CSIAddonsNode) : Prop :=
  exists provisioner, existT (EListField KCSIAddonsNode driverName provisioner "") (inr nodes) ∈ h.

Definition update_permitted (h : hist) (name : string) (deleting : bool) (o : CSIAddonsNode) : Prop :=
  exists nodes n cs, listed h nodes /\ n ∈ nodes /\ is_deleting n = false /\ fences n = true /\
    classes_of n = Some cs /\
    if deleting then name ∈ cs /\ o = removed n cs name else ((name ∉ cs) /\ o = added n cs name).

(** The node does not refer to the class any more. *)
Definition released (h : hist) (name : string) (n : CSIAddonsNode) : Prop :=
  n.(node_Status).(ns_Capabilities) ≠ [] /\
  exists cs, classes_of n = Some cs /\
    (fences n = true -> name ∈ cs ->
     exists o' : CSIAddonsNode, existT (EUpdate KCSIAddonsNode (removed n cs name)) (inr o') ∈ h).

Definition all_released (h : hist) (name : string) : Prop :=
  exists nodes, listed h nodes /\ (forall n, n ∈ nodes -> is_deleting n = false -> released h name n).

Definition class_contract (h : hist) (e : event) : Prop :=
  match e with
  | EGet k _ => k = KNetworkFenceClass
  | ERange => True
  | EListField k f _ ns => k = KCSIAddonsNode /\ f = driverName /\ ns = ""
  | EUpdate k o =>
    match k return obj_of k -> Prop with
    | KCSIAddonsNode => fun o => exists nfc0 nfc : NetworkFenceClass,
        newest (fetched KNetworkFenceClass) h = Some nfc0 /\ newest (current KNetworkFenceClass) h = Some nfc /\
        update_permitted h (obj_Name nfc) (is_deleting nfc0) o
    | KNetworkFenceClass => fun o => exists nfc : NetworkFenceClass,
        newest (fetched KNetworkFenceClass) h = Some nfc /\
        if is_deleting nfc then
          o = with_finalizers nfc (delete_eq (finalizers nfc) csiAddonsNodeFinalizer) /\
          all_released h (obj_Name nfc)
        else o = with_finalizers nfc (finalizers nfc ++ [csiAddonsNodeFinalizer])
    | _ => fun _ => False
    end o
  | _ => False
  end.

Section contract.
Context (json_error : string -> error).

(** What the loops know: the class as fetched and as it is now, and the list. *)
Definition at_class (h : hist) (nfc0 nfc : NetworkFenceClass) (nodes : list CSIAddonsNode) : Prop :=
  newest (fetched KNetworkFenceClass) h = Some nfc0 /\ newest (current KNetworkFenceClass) h = Some nfc /\
  listed h nodes.

Lemma at_class_update h nfc0 nfc nodes o r :
  at_class h nfc0 nfc nodes -> at_class (existT (EUpdate KCSIAddonsNode o) r :: h) nfc0 nfc nodes.
Proof.
  intros (Hf & Hc & p & Hin). split_and!; [by rewrite newest_cons| |exists p; set_solver].
  rewrite newest_cons. by destruct r.
Qed.

Lemma released_cons h name n c : released h name n -> released (c :: h) name n.
Proof.
  intros (Hcaps & cs & Hcs & Hrel). split; [done|]. exists cs. split; [done|]. intros Hfen Hin.
  destruct (Hrel Hfen Hin) as [o' Ho]. exists o'. set_solver.
Qed.

Definition monotone (h h' : hist) : Prop := forall name n, released h name n -> released h' name n.

(** The post of handling one node, without an error: nothing of a deleted class
    is left. *)
Definition handled (h : hist) nfc0 nfc nodes (n : CSIAddonsNode) (h' : hist) (o : outcome (option error)) : Prop :=
  exists err, o = Done err /\ at_class h' nfc0 nfc nodes /\ monotone h h' /\
    (err = None -> is_deleting nfc0 = true -> released h' (obj_Name nfc) n).

(** The loop over the capabilities only asks whether one of them fences clients. *)
Lemma process_capabilities_eq caps n cs name deleting :
  process_capabilities caps n cs name deleting =
  if existsb (fun c => string_contains c "GET_CLIENTS_TO_FENCE") caps then
    if negb (contains cs name) && negb deleting then
      '(_, err) ← update_obj KCSIAddonsNode (added n cs name); mret err
    else if contains cs name && deleting then
      '(_, err) ← update_obj KCSIAddonsNode (removed n cs name); mret err
    else mret None
  else mret None.
Proof.
  induction caps as [|c caps IH]; [done|]. cbn [process_capabilities existsb].
  destruct (string_contains c _); [|done]. cbn [orb]. rewrite IH.
  by destruct (contains cs name), deleting, (existsb _ caps).
Qed.

Lemma processCSIAddonsNode_wp h nfc0 nfc nodes n :
  at_class h nfc0 nfc nodes -> n ∈ nodes -> is_deleting n = false ->
  wp class_contract (handled h nfc0 nfc nodes n) h
    (processCSIAddonsNode json_error n nfc (is_deleting nfc0)).
Proof.
  intros Hat Hin Hdel. unfold processCSIAddonsNode. case_bool_decide as Hcaps.
  { eexists. split_and!; [done|done|by intros ?|done]. }
  change (if bool_decide (annotation n networkFenceClassAnnotationKey = "") then Some []
          else Unmarshal (annotation n networkFenceClassAnnotationKey)) with (classes_of n).
  destruct (classes_of n) as [cs|] eqn:Hcs.
  2: { eexists. split_and!; [done|done|by intros ?|done]. }
  rewrite process_capabilities_eq. fold (fences n).
  assert (forall h', (fences n = true -> obj_Name nfc ∈ cs ->
      exists o' : CSIAddonsNode, existT (EUpdate KCSIAddonsNode (removed n cs (obj_Name nfc))) (inr o') ∈ h') ->
      released h' (obj_Name nfc) n) as Hrel by (intros h' Hh'; split; [done|by exists cs]).
  destruct (fences n) eqn:Hfen.
  2: { eexists. split_and!; [done|done|by intros ?|]. intros _ _. by apply Hrel. }
  pose proof Hat as (Hf & Hc & Hlist).
  destruct (contains cs (obj_Name nfc)) eqn:Hname, (is_deleting nfc0) eqn:Hd; cbn [negb andb];
    rewrite ?contains_true, ?contains_false in Hname; unfold update_obj.
  2,3: eexists; (split_and!; [done|done|by intros ?|]); intros _ ?; first [by rewrite Hd in *|apply Hrel; by intros].
  all: cbn [mbind prog_bind call mret prog_ret]; apply wp_call;
    [exists nfc0, nfc; split_and!; [done..|]; rewrite Hd; exists nodes, n, cs; by split_and!|].
  - intros r. destruct r as [e|o']; eexists; (split_and!; [done|by apply at_class_update|intros ??; apply released_cons|]); [done|].
    intros _ _. apply Hrel. intros _ _. exists o'. apply list_elem_of_here.
  - intros r. destruct r as [e|o']; eexists; (split_and!; [done|by apply at_class_update|intros ??; apply released_cons|]); by rewrite Hd.
Qed.

Lemma process_nodes_wp h nfc0 nfc nodes l errs :
  at_class h nfc0 nfc nodes -> (forall n, n ∈ l -> n ∈ nodes) ->
  wp class_contract (fun h' o => exists errs', o = Done errs' /\ at_class h' nfc0 nfc nodes /\ monotone h h' /\
      (errs' = [] -> errs = [] /\ (is_deleting nfc0 = true -> forall n, n ∈ l -> is_deleting n = false ->
         released h' (obj_Name nfc) n))) h
    (process_nodes json_error l nfc (is_deleting nfc0) errs).
Proof.
  revert h errs. induction l as [|n l IH]; intros h errs Hat Hsub; cbn [process_nodes].
  { exists errs. split_and!; [done|done|by intros ?|]. intros ->. split; [done|]. by intros _ n ?%elem_of_nil. }
  destruct (is_deleting n) eqn:Hd.
  - eapply wp_post; [apply IH; [done|set_solver]|]. intros h' o (errs' & -> & Hat' & Hmono & Hok).
    exists errs'. split_and!; [done..|]. intros He. destruct (Hok He) as [-> Hrel]. split; [done|].
    intros Hdel n' [->|Hin]%elem_of_cons Hd'; [by rewrite Hd in Hd'|by auto].
  - eapply wp_seq; [apply processCSIAddonsNode_wp; [done|set_solver|done]|].
    intros h1 o (err & -> & Hat1 & Hmono1 & Hok1). cbn [after].
    eapply wp_post; [apply IH; [done|set_solver]|]. intros h' o (errs' & -> & Hat' & Hmono & Hok).
    exists errs'. split_and!; [done|done|by intros ?? ?%Hmono1%Hmono|].
    intros He. destruct (Hok He) as [Herrs Hrel]. destruct err as [err|]; [by destruct errs|]. split; [done|].
    intros Hdel n' [->|Hin]%elem_of_cons Hd'; [by apply Hmono, Hok1|by auto].
Qed.

Lemma validatePrefixedParameters_calls ps : calls (fun e => e = ERange) (validatePrefixedParameters ps).
Proof. unfold validatePrefixedParameters. calls_solve. Qed.

Lemma sync_class_wp h (nfc : NetworkFenceClass) :
  newest (fetched KNetworkFenceClass) h = Some nfc -> newest (current KNetworkFenceClass) h = Some nfc ->
  wp class_contract (fun _ _ => True) h (sync_class json_error nfc).
Proof.
  intros Hf Hc. unfold sync_class, addFinalizer, listCSIAddonsNodes, update_obj.
  eapply (wp_seq _ _ (fun h' o => exists nfc' err, o = Done (nfc', err) /\
    newest (fetched KNetworkFenceClass) h' = Some nfc /\
    (err = None -> newest (current KNetworkFenceClass) h' = Some nfc') /\ (is_deleting nfc = true -> nfc' = nfc))).
  { destruct (is_deleting nfc) eqn:Hd; cbn [negb].
    { exists nfc, None. by split_and!. }
    case_match; [|exists nfc, None; by split_and!]. cbn [mbind prog_bind call mret prog_ret]. apply wp_call.
    - exists nfc. by rewrite Hd.
    - intros [e|o']; eexists _, _; (split_and!; [done|by rewrite newest_cons| |done]); [done|by rewrite newest_cons]. }
  intros h1 o (nfc' & err & -> & Hf1 & Hc1 & Hsame). cbn [after]. destruct err as [err|]; [done|].
  specialize (Hc1 eq_refl). apply wp_call; [done|]. intros [e|nodes]; cbn [mbind prog_bind]; [done|].
  set (h2 := existT (EListField KCSIAddonsNode driverName (nfc_Provisioner nfc') "") (inr nodes) :: h1).
  assert (at_class h2 nfc nfc' nodes) as Hat.
  { split_and!; [by unfold h2; rewrite newest_cons..|]. eexists. apply list_elem_of_here. }
  eapply wp_seq; [apply (process_nodes_wp h2 nfc nfc' nodes); [done|done]|].
  intros h3 o (errs & -> & Hat3 & _ & Hok). cbn [after]. case_bool_decide as He; [|done].
  destruct (Hok He) as [_ Hrel]. destruct (is_deleting nfc) eqn:Hd; [|done].
  rewrite (Hsame eq_refl) in *. unfold removeFinalizer, update_obj. case_match; [|done].
  cbn [mbind prog_bind call mret prog_ret]. apply wp_call; [|by intros [e|o']].
  exists nfc. split; [apply Hat3|]. rewrite Hd. split; [done|]. exists nodes. split; [apply Hat3|]. by auto.
Qed.

Lemma class_reconcile_wp req : wp class_contract (fun _ _ => True) [] (Reconcile json_error req).
Proof.
  unfold Reconcile, getNetworkFenceClass, get_obj, validatePrefixedParameters.
  cbn [mbind prog_bind call mret prog_ret]. apply wp_call; [done|].
  intros [err|nfc]; cbn beta iota; [by destruct (IsNotFound err)|]. apply wp_call; [done|]. intros seed.
  case_match; [done|]. by apply sync_class_wp.
Qed.
End contract.


(** ** The annotation between the two controllers *)

Lemma removeClass_snoc cs name : name ∉ cs -> removeClassFromList (cs ++ [name]) name = cs.
Proof.
  induction cs as [|c cs IH]; intros Hin; cbn.
  - by rewrite bool_decide_true.
  - rewrite bool_decide_false by set_solver. by rewrite IH by set_solver.
Qed.

Lemma Marshal_nonempty l : Marshal l ≠ "".
Proof. done. Qed.

Lemma annotation_set n v : annotation (set_annotation n v) networkFenceClassAnnotationKey = default "" v.
Proof.
  unfold set_annotation. rewrite annotation_with. unfold map_get.
  by destruct v; rewrite ?lookup_insert_eq, ?lookup_delete_eq.
Qed.

Lemma classes_of_Marshal n l :
  Forall (fun s => is_ascii s = true) l -> classes_of (set_annotation n (Some (Marshal l))) = Some l.
Proof.
  intros Hl. unfold classes_of. rewrite annotation_set. simpl default.
  rewrite bool_decide_false by apply Marshal_nonempty. by apply Unmarshal_Marshal.
Qed.

Lemma get_classes_run (ρ : env answer) (cls : string -> NetworkFenceClass) l acc h :
  (forall h c, ρ h (EGet KNetworkFenceClass (mkNamespacedName "" c)) = inr (cls c)) ->
  snd (run ρ h (get_classes l acc)) = Done (inr (acc ++ map cls l)).
Proof.
  intros Hρ. revert acc h. induction l as [|c l IH]; intros acc h; cbn; [by rewrite app_nil_r|].
  rewrite Hρ, IH. by rewrite <- app_assoc.
Qed.

(** The class controller and the node controller agree on the annotation: after
    a class was added to a node's list, the node controller reads back the old
    classes and the new one, in order; taking the class out again restores the
    list, and the annotation is gone when it was the only one. *)
Theorem class_annotation_roundtrip jerr (ρ : env answer) (cls : string -> NetworkFenceClass) n cs name :
  (forall h c, ρ h (EGet KNetworkFenceClass (mkNamespacedName "" c)) = inr (cls c)) ->
  Forall (fun s => is_ascii s = true) (cs ++ [name]) -> name ∉ cs ->
  let n' := added n cs name in
  snd (run ρ [] (getNetworkFenceClassesForDriver jerr n')) = Done (inr (map cls (cs ++ [name]))) /\
  classes_of n' = Some (cs ++ [name]) /\
  classes_of (removed n' (cs ++ [name]) name) = Some cs /\
  (cs = [] -> (meta (removed n' (cs ++ [name]) name)).(Annotations) !! networkFenceClassAnnotationKey = None).
Proof.
  intros Hρ Hascii Hin n'. unfold removed. rewrite removeClass_snoc by done. split_and!.
  - unfold getNetworkFenceClassesForDriver, n', added, set_annotation, with_annotations.
    rewrite meta_set_meta. cbn [Annotations set_Annotations]. rewrite lookup_insert_eq, Unmarshal_Marshal by done.
    by apply (get_classes_run ρ cls (cs ++ [name]) []).
  - by apply classes_of_Marshal.
  - case_bool_decide as Hcs; [|by apply Forall_app in Hascii as [? _]; apply classes_of_Marshal].
    subst. unfold classes_of. by rewrite annotation_set.
  - intros ->. rewrite bool_decide_true by done. unfold set_annotation, with_annotations.
    rewrite meta_set_meta. cbn [Annotations set_Annotations]. apply lookup_delete_eq.
Qed.

Definition sample_class (name : string) : NetworkFenceClass := mkNFClass (new_meta "" name) "driver" ∅.
Definition all_classes : env answer := fun _ e =>
  match e return answer e with
  | EGet k key =>
    match k return answer (EGet k key) with
    | KNetworkFenceClass => inr (sample_class key.(nn_Name))
    | k => refused (EGet k key)
    end
  | e => refused e
  end.
Definition sample_node : CSIAddonsNode :=
  mkNode (new_meta "ns" "node") (mkNodeDriver "driver" "pod://plugin.ns:9070" "node-1")
    (mkNodeStatus "" "" "" ["network_fence.GET_CLIENTS_TO_FENCE"] []).

Lemma class_annotation_roundtrip_witness :
  classes_of (added sample_node ["a<b"] "c") = Some ["a<b"; "c"].
Proof.
  apply (class_annotation_roundtrip (fun _ => ErrorString "bad JSON") all_classes sample_class sample_node ["a<b"] "c");
    [reflexivity|repeat constructor|by vm_compute; set_solver].
Defined.
End FenceClassProofs.
