(* ===== verification/JobController.v ===== *)
(** * The ReclaimSpaceJob and EncryptionKeyRotationJob controllers

    src/internal/controller/csiaddons/reclaimspacejob_controller.go and
    encryptionkeyrotationjob_controller.go.  The two controllers run the same
    life cycle around different work: [lifecycle] is that life cycle, for an
    object of the class [Job], and the modules give each controller its work. *)

From Stdlib Require SpecFloat.
From S2P Require Import Prelude.
From S2P Require Import GoErrors.
From S2P Require Import GoStrconv.
From S2P Require Import GoText.
From S2P Require Import GoTime.
From S2P Require Import ApiTypes.
From S2P Require Import CsiaddonsTypes.
From S2P Require Import Effects.
From S2P Require Import Connection.

Abbreviation result := (Result * option error)%type.

(** ** What the two kinds have in common *)

Class Job (A : Type) `{HasMeta A} := {
  job_Spec : A -> JobSpec;
  job_Status : A -> JobStatus;
  set_job_Spec : A -> JobSpec -> A;
  set_job_Status : A -> JobStatus -> A;
  job_Spec_set j s : job_Spec (set_job_Spec j s) = s;
  job_Status_set j s : job_Status (set_job_Status j s) = s;
  job_Spec_set_Status j s : job_Spec (set_job_Status j s) = job_Spec j;
  job_Status_set_Spec j s : job_Status (set_job_Spec j s) = job_Status j;
  meta_set_Spec j s : meta (set_job_Spec j s) = meta j;
  meta_set_Status j s : meta (set_job_Status j s) = meta j
}.

#[global, refine] Instance RSJob_Job : Job ReclaimSpaceJob := {|
  job_Spec := rsj_Spec; job_Status := rsj_Status;
  set_job_Spec j s := mkRSJob j.(rsj_meta) s j.(rsj_Status);
  set_job_Status j s := mkRSJob j.(rsj_meta) j.(rsj_Spec) s |}.
Proof. all: done. Defined.
#[global, refine] Instance KRJob_Job : Job EncryptionKeyRotationJob := {|
  job_Spec := krj_Spec; job_Status := krj_Status;
  set_job_Spec j s := mkKRJob j.(krj_meta) s j.(krj_Status);
  set_job_Status j s := mkKRJob j.(krj_meta) j.(krj_Spec) s |}.
Proof. all: done. Defined.

Definition defaultBackoffLimit : Z := 6.
Definition defaultRetryDeadlineSeconds : Z := 600.
Definition conditionFailed := "Failed".
Definition reasonFailed := "failed".

Definition set_js_Conditions (s : JobStatus) (c : list Condition) : JobStatus :=
  mkJobStatus s.(js_Result) s.(js_Message) s.(js_ReclaimedSpace) c s.(js_Retries)
    s.(js_StartTime) s.(js_CompletionTime).
Definition set_js_StartTime (s : JobStatus) (t : Z) : JobStatus :=
  mkJobStatus s.(js_Result) s.(js_Message) s.(js_ReclaimedSpace) s.(js_Conditions) s.(js_Retries)
    (Some t) s.(js_CompletionTime).
Definition set_js_Retries (s : JobStatus) (n : Z) : JobStatus :=
  mkJobStatus s.(js_Result) s.(js_Message) s.(js_ReclaimedSpace) s.(js_Conditions) n
    s.(js_StartTime) s.(js_CompletionTime).
Definition set_js_ReclaimedSpace (s : JobStatus) (n : Z) : JobStatus :=
  mkJobStatus s.(js_Result) s.(js_Message) (Some n) s.(js_Conditions) s.(js_Retries)
    s.(js_StartTime) s.(js_CompletionTime).
(** Result, Message and CompletionTime are always set together. *)
Definition finish (s : JobStatus) (res msg : string) (t : Z) : JobStatus :=
  mkJobStatus res msg s.(js_ReclaimedSpace) s.(js_Conditions) s.(js_Retries)
    s.(js_StartTime) (Some t).

(** setFailedCondition: the condition of type Failed is replaced, or added. *)
Fixpoint put_failed (c : Condition) (l : list Condition) : list Condition :=
  match l with
  | [] => [c]
  | d :: l => if bool_decide (d.(c_Type) = conditionFailed) then c :: l else d :: put_failed c l
  end.
Definition setFailedCondition (l : list Condition) (message : string) (gen : Z) : M (list Condition) :=
  now ← call ENow;
  mret (put_failed (mkCondition conditionFailed ConditionTrue gen now reasonFailed message) l).

(** ** The target of a job *)

Record targetDetails := mkTarget {
  td_driverName : string;
  td_pvName : string;
  td_nodeID : string;
  td_timeout : Z
}.
Definition canNodeReclaimSpace (td : targetDetails) : bool := negb (bool_decide (td.(td_nodeID) = "")).

(** The loop over the attachments.  The volume's name is dereferenced only for a
    live attachment; [None] is the nil dereference. *)
Fixpoint attached_node (pvName : string) (l : list VolumeAttachment) : option string :=
  match l with
  | [] => Some ""
  | v :: l =>
    if negb (is_deleting v) && v.(va_Attached) then
      match v.(va_PersistentVolumeName) with
      | None => None
      | Some n => if bool_decide (n = pvName) then Some v.(va_NodeName) else attached_node pvName l
      end
    else attached_node pvName l
  end.

Section job.
(** The reconciler's Timeout. *)
Variable timeout : Z.

(** The deadline of an RPC. *)
Definition target_timeout (spec : JobSpec) : Z :=
  match spec.(job_Timeout) with Some s => int64 (second * s) | None => timeout end.

Definition getTargetDetails (spec : JobSpec) (namespace : string) : M (error + targetDetails) :=
  r ← get_obj KPersistentVolumeClaim (mkNamespacedName namespace spec.(TargetPVC));
  match r with
  | inl err => mret (inl err)
  | inr pvc =>
    if negb (bool_decide (pvc.(pvc_Phase) = ClaimBound)) then
      mret (inl (ErrorString ("PVC " +:+ go_quote spec.(TargetPVC) +:+ " is not bound to any PV")))
    else
    r ← get_obj KPersistentVolume (mkNamespacedName "" pvc.(pvc_VolumeName));
    match r with
    | inl err => mret (inl err)
    | inr pv =>
      match pv.(pv_CSI) with
      | None => mret (inl (ErrorString (go_quote pv.(pv_meta).(Name) +:+ " PV is not a CSI PVC")))
      | Some csi =>
        r ← call (EList KVolumeAttachment None "");
        match r with
        | inl err => mret (inl err)
        | inr vas =>
          match attached_node pv.(pv_meta).(Name) vas with
          | None => Panic "nil pointer dereference"
          | Some nodeID =>
            mret (inr (mkTarget csi.(csi_Driver) pv.(pv_meta).(Name) nodeID (target_timeout spec)))
          end
        end
      end
    end
  end.

(** ** Connections of a node *)

(** What reconnecting changed in the shared connections. *)
Fixpoint store_conns (l : list (string * Connection)) : M unit :=
  match l with
  | [] => mret tt
  | (k, c) :: l => _ ← call (EStoreConn k c); store_conns l
  end.

(** ConnPool.GetByNodeID on the shared pool. *)
Definition pool_GetByNodeID (driverName nodeID : string) : M (error + gmap string Connection) :=
  cp ← call EReadPool;
  '(cp', res) ← GetByNodeID cp driverName nodeID;
  _ ← store_conns (filter (fun kc => cp !! kc.1 ≠ Some kc.2) (map_to_list cp'));
  mret match res with
       | inl err => inl err
       | inr keys => inr (filter (fun kc => kc.1 ∈ keys) cp')
       end.

(** The first connection, in the order of the range, with the capability; its
    key and client. *)
Fixpoint first_capable (capable : Capability -> bool) (l : list (string * Connection))
    : option (string * Connection) :=
  match l with
  | [] => None
  | (k, c) :: l => if existsb capable c.(Capabilities) then Some (k, c) else first_capable capable l
  end.

Definition client_by_node (capable : Capability -> bool) (driverName nodeID : string)
    : M (error + option (string * ClientConn)) :=
  conns ← pool_GetByNodeID driverName nodeID;
  match conns with
  | inl err => mret (inl err)
  | inr conns =>
    seed ← call ERange;
    match first_capable capable (map_range seed conns) with
    | None => mret (inr None)
    | Some (k, c) =>
      match c.(Client) with
      | None => Panic "nil grpc.ClientConn"
      | Some cc => mret (inr (Some (k, cc)))
      end
    end
  end.

(** ** The life cycle *)

Section lifecycle.
Context (k : kind) `{Job (obj_of k)}.
(** The validation of the specification with the text of its failure, and the
    work on a valid job before its deadline. *)
Variables (validate : obj_of k -> option error) (invalid : error -> string).
Variable work : obj_of k -> string -> M (obj_of k * option error).

Definition on_status (f : JobStatus -> JobStatus) (j : obj_of k) : obj_of k :=
  set_job_Status j (f (job_Status j)).

Definition set_defaults (j : obj_of k) : obj_of k :=
  let s := job_Spec j in
  let limit := if (s.(BackoffLimit) =? 0)%Z then defaultBackoffLimit else s.(BackoffLimit) in
  let deadline := if (s.(RetryDeadlineSeconds) =? 0)%Z then defaultRetryDeadlineSeconds
                  else s.(RetryDeadlineSeconds) in
  set_job_Spec j (mkJobSpec s.(TargetPVC) limit deadline s.(job_Timeout)).

(** The start of a job, or of a retry. *)
Definition count_attempt (j : obj_of k) : M (obj_of k) :=
  match (job_Status j).(js_StartTime) with
  | None =>
    now ← call ENow;
    mret (on_status (fun s => set_js_StartTime s now) j)
  | Some _ => mret (on_status (fun s => set_js_Retries s (int32 (s.(js_Retries) + 1))) j)
  end.

(** CreationTimestamp.Add(time.Second * time.Duration(RetryDeadlineSeconds)). *)
Definition job_deadline (j : obj_of k) : Z :=
  (default zero_time (meta j).(CreationTimestamp) + int64 (second * (job_Spec j).(RetryDeadlineSeconds)))%Z.

Definition attempt (j : obj_of k) (namespace : string) : M (obj_of k * option error) :=
  j ← count_attempt j;
  now ← call ENow;
  if (job_deadline j <? now)%Z then
    now ← call ENow;
    mret (on_status (fun s => finish s OperationResultFailed "Time limit reached" now) j, None)
  else work j namespace.

(** The job after the work: given up at the last retry, and stored. *)
Definition conclude (j : obj_of k) (err : option error) : M result :=
  j ← (if bool_decide ((job_Status j).(js_Result) = "") &&
          ((job_Status j).(js_Retries) =? (job_Spec j).(BackoffLimit))%Z
       then
         now ← call ENow;
         mret (on_status (fun s => finish s OperationResultFailed "Maximum retry limit reached" now) j)
       else mret j);
  '(j, statusErr) ← status_update_obj k j;
  match statusErr with
  | Some statusErr => mret (no_requeue, Some statusErr)
  | None =>
    if negb (bool_decide ((job_Status j).(js_Result) = "")) then mret (no_requeue, None)
    else mret (no_requeue, err)
  end.

Definition reject (j : obj_of k) (err : error) : M result :=
  now ← call ENow;
  '(_, statusErr) ← status_update_obj k
    (on_status (fun s => finish s OperationResultFailed (invalid err) now) j);
  mret (no_requeue, statusErr).

(** The job as fetched. *)
Definition process (j : obj_of k) (namespace : string) : M result :=
  if is_deleting j then mret (no_requeue, None)
  else if negb (bool_decide ((job_Status j).(js_Result) = "")) then mret (no_requeue, None)
  else
  match validate j with
  | Some err => reject j err
  | None =>
    '(j, err) ← attempt (set_defaults j) namespace;
    conclude j err
  end.

Definition lifecycle (req : NamespacedName) : M result :=
  r ← get_obj k req;
  match r with
  | inl err => if IsNotFound err then mret (no_requeue, None) else mret (no_requeue, Some err)
  | inr j => process j (nn_Namespace req)
  end.

(** A failure of the work: the condition, and the error. *)
Definition failed (j : obj_of k) (message : string) (err : error) : M (obj_of k * option error) :=
  c ← setFailedCondition (job_Status j).(js_Conditions) message (meta j).(Generation);
  mret (on_status (fun s => set_js_Conditions s c) j, Some err).

Definition succeeded (j : obj_of k) (message : string) : M (obj_of k * option error) :=
  now ← call ENow;
  mret (on_status (fun s => finish s OperationResultSucceeded message now) j, None).
End lifecycle.
End job.

(** ** ReclaimSpaceJob *)
Module ReclaimSpace.
Section reconciler.
(** Timeout, and what int64() gives for a float64 outside its range, which the
    language leaves open. *)
Variables (timeout : Z) (int64_overflow : SpecFloat.spec_float -> Z).

Definition validateReclaimSpaceJobSpec (j : ReclaimSpaceJob) : option error :=
  if bool_decide (j.(rsj_Spec).(TargetPVC) = "") then
    Some (ErrorString "required parameter 'PersistentVolumeClaim' in ReclaimSpaceJob.Spec.Target is empty")
  else None.

(** math.Max(x, 0) for a finite x, and int64 of the result. *)
Definition int64_of_nonneg (x : SpecFloat.spec_float) : Z :=
  match x with
  | SpecFloat.S754_finite false m e =>
    let v := Z.shiftl (Zpos m) e in if (v <? 2 ^ 63)%Z then v else int64_overflow x
  | _ => 0
  end.

Definition calculateReclaimedSpace (PreUsage PostUsage : option Z) : option Z :=
  match PreUsage, PostUsage with
  | Some preUsage, Some postUsage =>
    Some (int64_of_nonneg (SpecFloat.SFsub 53 1024 (float64 postUsage) (float64 preUsage)))
  | _, _ => None
  end.

Definition offline (cap : Capability) : bool :=
  match cap with CapReclaimSpace t => (t =? ReclaimSpace_OFFLINE)%Z | _ => false end.
Definition online (cap : Capability) : bool :=
  match cap with CapReclaimSpace t => (t =? ReclaimSpace_ONLINE)%Z | _ => false end.

Definition getLeadingRSClient (driverName : string) : M (error + ClientConn) :=
  r ← GetLeaderByDriver driverName;
  match r with
  | inl err => mret (inl err)
  | inr conn =>
    if existsb offline conn.(Capabilities) then
      match conn.(Client) with
      | None => Panic "nil grpc.ClientConn"
      | Some cc => mret (inr cc)
      end
    else
      mret (inl (ErrorString ("leading controller for driver " +:+ go_quote driverName +:+
                              " does not support ReclaimSpace_OFFLINE")))
  end.

Definition getRSClientByNode (driverName nodeID : string) : M (error + option (string * ClientConn)) :=
  client_by_node online driverName nodeID.

(** An answer of the driver: Unimplemented counts as done. *)
Definition reclaimed (r : error + ReclaimSpaceResponse) : error + option Z :=
  match r with
  | inl err => if bool_decide (status_Code (Some err) = Unimplemented) then inr None else inl err
  | inr resp => inr (calculateReclaimedSpace resp.(PreUsage) resp.(PostUsage))
  end.

(** Whether the client was found, and the space or the error. *)
Definition controllerReclaimSpace (target : targetDetails) : M (bool * (error + option Z)) :=
  r ← getLeadingRSClient target.(td_driverName);
  match r with
  | inl err => mret (false, inl err)
  | inr cc =>
    r ← call (ERpc cc target.(td_timeout) (ControllerReclaimSpace target.(td_pvName)));
    mret (true, reclaimed r)
  end.

Definition nodeReclaimSpace (target : targetDetails) : M (error + option Z) :=
  r ← getRSClientByNode target.(td_driverName) target.(td_nodeID);
  match r with
  | inl err => mret (inl err)
  | inr None =>
    mret (inl (ErrorString ("node Client not found for " +:+ go_quote target.(td_nodeID) +:+ " nodeID")))
  | inr (Some (_, cc)) =>
    r ← call (ERpc cc target.(td_timeout) (NodeReclaimSpace target.(td_pvName)));
    mret (reclaimed r)
  end.

(** int64 sum of the two amounts. *)
Definition total_space (controllerFound nodeFound : bool) (controllerSpace nodeSpace : option Z) : Z :=
  let s := match controllerFound, controllerSpace with true, Some n => int64 (0 + n) | _, _ => 0%Z end in
  match nodeFound, nodeSpace with true, Some n => int64 (s + n) | _, _ => s end.

(** From the controller's request on. *)
Definition controller_phase (j : ReclaimSpaceJob) (target : targetDetails) (nodeFound : bool)
    (nodeReclaimedSpace : option Z) : M (ReclaimSpaceJob * option error) :=
  '(controllerFound, r) ← controllerReclaimSpace target;
  match r with
  | inl err =>
    failed KReclaimSpaceJob j ("Failed to make controller request: " +:+ GetErrorMessage err) err
  | inr controllerReclaimedSpace =>
    if negb controllerFound && negb nodeFound then
      let err := ErrorString ("controller and Node Client not found for " +:+
                              go_quote target.(td_nodeID) +:+ " nodeID") in
      failed KReclaimSpaceJob j (Error err) err
    else
      let space := total_space controllerFound nodeFound controllerReclaimedSpace nodeReclaimedSpace in
      let j := match nodeReclaimedSpace, controllerReclaimedSpace with
               | None, None => j
               | _, _ => on_status KReclaimSpaceJob (fun s => set_js_ReclaimedSpace s space) j
               end in
      succeeded KReclaimSpaceJob j "Reclaim Space operation successfully completed."
  end.

(** [reconcile] after the deadline check. *)
Definition reclaim (j : ReclaimSpaceJob) (namespace : string) : M (ReclaimSpaceJob * option error) :=
  r ← getTargetDetails timeout j.(rsj_Spec) namespace;
  match r with
  | inl err => failed KReclaimSpaceJob j "Failed to get target details" err
  | inr target =>
    if canNodeReclaimSpace target then
      r ← nodeReclaimSpace target;
      match r with
      | inl err => failed KReclaimSpaceJob j ("Failed to make node request: " +:+ GetErrorMessage err) err
      | inr nodeReclaimedSpace => controller_phase j target true nodeReclaimedSpace
      end
    else controller_phase j target false None
  end.

Definition reconcile (j : ReclaimSpaceJob) (namespace : string) : M (ReclaimSpaceJob * option error) :=
  attempt KReclaimSpaceJob reclaim j namespace.

Definition Reconcile (req : NamespacedName) : M result :=
  lifecycle KReclaimSpaceJob validateReclaimSpaceJobSpec
    (fun err => "Failed to validate ReclaimSpaceJob.Spec: " +:+ Error err) reclaim req.
End reconciler.
End ReclaimSpace.

(** ** EncryptionKeyRotationJob *)
Module KeyRotation.
Section reconciler.
Variable timeout : Z.

Definition validateEncryptionKeyRotationJobSpec (j : EncryptionKeyRotationJob) : option error :=
  if bool_decide (j.(krj_Spec).(TargetPVC) = "") then
    Some (ErrorString "required parameter 'PersistentVolumeClaim' is missing")
  else None.

(** The same code as the other controller's. *)
Definition getTargetDetails (spec : JobSpec) (namespace : string) : M (error + targetDetails) :=
  JobController.getTargetDetails timeout spec namespace.

Definition rotates (cap : Capability) : bool :=
  match cap with CapEncryptionKeyRotation t => (t =? EncryptionKeyRotation_ENCRYPTIONKEYROTATION)%Z | _ => false end.

Definition getClientByNode (driver nodeID : string) : M (error + option (string * ClientConn)) :=
  client_by_node rotates driver nodeID.

Definition rotateEncryptionKey (target : targetDetails) : M (option error) :=
  r ← getClientByNode target.(td_driverName) target.(td_nodeID);
  match r with
  | inl err => mret (Some err)
  | inr None => mret (Some (ErrorString ("node client not found for node id: " +:+ target.(td_nodeID))))
  | inr (Some (_, cc)) =>
    r ← call (ERpc cc target.(td_timeout) (EncryptionKeyRotate target.(td_pvName)));
    mret match r with
         | inl err => if bool_decide (status_Code (Some err) = Unimplemented) then None else Some err
         | inr _ => None
         end
  end.

(** [reconcileEncryptionKeyRotationJob] after the deadline check. *)
Definition rotate (j : EncryptionKeyRotationJob) (ns : string) : M (EncryptionKeyRotationJob * option error) :=
  r ← getTargetDetails j.(krj_Spec) ns;
  match r with
  | inl err => failed KEncryptionKeyRotationJob j "Failed to get target details" err
  | inr target =>
    if bool_decide (target.(td_nodeID) = "") then
      mret (j, Some (ErrorString ("unable to find nodeID for pv: " +:+ j.(krj_Spec).(TargetPVC))))
    else
      err ← rotateEncryptionKey target;
      match err with
      | Some err =>
        failed KEncryptionKeyRotationJob j ("Failed to make node request: " +:+ GetErrorMessage err) err
      | None => succeeded KEncryptionKeyRotationJob j "Key rotation operation successfully completed."
      end
  end.

Definition reconcileEncryptionKeyRotationJob (j : EncryptionKeyRotationJob) (ns : string)
    : M (EncryptionKeyRotationJob * option error) :=
  attempt KEncryptionKeyRotationJob rotate j ns.

Definition Reconcile (req : NamespacedName) : M result :=
  lifecycle KEncryptionKeyRotationJob validateEncryptionKeyRotationJobSpec
    (fun err => "failed to validate encryptionkeyrotationjob spec: " +:+ Error err) rotate req.
End reconciler.
End KeyRotation.
