(* ===== verification/JobProofs.v ===== *)
(** * The job controllers keep their promises

    The life cycle is verified against what it needs of the work ([JobWork]);
    the two controllers show that their work is of that kind. *)

From Stdlib Require SpecFloat.
From S2P Require Import Prelude.
From S2P Require Import GoErrors.
From S2P Require Import GoStrconv.
From S2P Require Import GoText.
From S2P Require Import ApiTypes.
From S2P Require Import CsiaddonsTypes.
From S2P Require Import Effects.
From S2P Require Import Connection.
From S2P Require Import JobController.

(** ** The target of a job *)

(** [target] is what the cluster said about the claim. *)
Definition targets (h : hist) (timeout : Z) (spec : JobSpec) (ns : string) (target : targetDetails) : Prop :=
  exists (pvc : PersistentVolumeClaim) (pv : PersistentVolume) csi (vas : list VolumeAttachment),
    existT (EGet KPersistentVolumeClaim (mkNamespacedName ns spec.(TargetPVC))) (inr pvc) ∈ h /\
    pvc.(pvc_Phase) = ClaimBound /\
    existT (EGet KPersistentVolume (mkNamespacedName "" pvc.(pvc_VolumeName))) (inr pv) ∈ h /\
    pv.(pv_CSI) = Some csi /\
    existT (EList KVolumeAttachment None "") (inr vas) ∈ h /\
    attached_node pv.(pv_meta).(Name) vas = Some target.(td_nodeID) /\
    target.(td_driverName) = csi.(csi_Driver) /\ target.(td_pvName) = pv.(pv_meta).(Name) /\
    target.(td_timeout) = target_timeout timeout spec.

Lemma targets_in h h' timeout spec ns t : (forall c, c ∈ h -> c ∈ h') ->
  targets h timeout spec ns t -> targets h' timeout spec ns t.
Proof. intros Hsub (pvc & pv & csi & vas & H). exists pvc, pv, csi, vas. naive_solver. Qed.

(** The driver did it, or has nothing to do. *)
Definition acknowledged (h : hist) (m : rpc) : Prop :=
  exists cc t (r : error + rpc_response m), existT (ERpc cc t m) r ∈ h /\
    match r with inr _ => True | inl err => status_Code (Some err) = Unimplemented end.

(** Calls of the work that say nothing about the job itself. *)
Definition lookup_call (e : event) : Prop :=
  match e with
  | EGet k _ => k = KPersistentVolumeClaim \/ k = KPersistentVolume \/ k = KLease
  | EList k _ _ => k = KVolumeAttachment
  | ENow => True
  | e => connect_call e
  end.

Lemma connect_lookup e : connect_call e -> lookup_call e.
Proof. destruct e as [[]| | | | | | | | | | | | | | | | | | |]; simpl; tauto. Qed.

Definition dangling (va : VolumeAttachment) : Prop :=
  is_deleting va = false /\ va.(va_Attached) = true /\ va.(va_PersistentVolumeName) = None.

Lemma attached_node_None pv vas : attached_node pv vas = None -> exists va, va ∈ vas /\ dangling va.
Proof.
  induction vas as [|v vas IH]; [done|]. cbn. intros H.
  destruct (is_deleting v) eqn:Hd, (va_Attached v) eqn:Ha; cbn in H; try (destruct (IH H) as (va & ? & ?); exists va; set_solver).
  destruct (va_PersistentVolumeName v) eqn:Hn; [|exists v; split; [set_solver|done]].
  case_bool_decide; [done|]. destruct (IH H) as (va & ? & ?). exists va. set_solver.
Qed.

(** The attachments listed contain one of an inline volume. *)
Definition inline_attachment (h : hist) : Prop :=
  exists (vas : list VolumeAttachment) va, existT (EList KVolumeAttachment None "") (inr vas) ∈ h /\
    va ∈ vas /\ dangling va.

(** What a look-up of the connections of a driver on a node (or of all of them, for
    the empty node) returned: exactly those of the pool it read, connected. *)
Definition looked_up (d node : string) (h : hist) (conns : gmap string Connection) : Prop :=
  exists cp : pool, existT EReadPool cp ∈ h /\
    (forall k c, conns !! k = Some c -> is_Some c.(Client) /\
       exists c0, cp !! k = Some c0 /\ on_node d node c0 = true /\ reached h c0 c) /\
    (forall k c0, cp !! k = Some c0 -> on_node d node c0 = true -> is_Some (conns !! k)).

(** [cc] is the client of a connection of the driver on the node, and the side-car
    there has the capability. *)
Definition node_client (d node : string) (capable : Capability -> bool) (h : hist) (cc : ClientConn) : Prop :=
  exists (cp : pool) k c0 c, existT EReadPool cp ∈ h /\ cp !! k = Some c0 /\ on_node d node c0 = true /\
    reached h c0 c /\ c.(Client) = Some cc /\ existsb capable c.(Capabilities) = true.

(** Connections on the shared pool. *)
Section connecting.
Context (G : hist -> event -> Prop).
Hypothesis HG : forall h e, connect_call e -> G h e.

Lemma store_conns_calls l : calls connect_call (store_conns l).
Proof. induction l as [|[k c] l IH]; cbn; [done|]. split; [done|]. intros []. apply IH. Qed.

Lemma store_conns_no_panic l : no_panic (store_conns l).
Proof. induction l as [|[k c] l IH]; cbn; [done|]. intros []. apply IH. Qed.

Lemma pool_GetByNodeID_wp d node h :
  wp G (fun h' o => extends connect_call h h' /\ exists r, o = Done r /\
      match r with
      | inr conns => looked_up d node h' conns
      | inl _ => True
      end) h (pool_GetByNodeID d node).
Proof.
  unfold pool_GetByNodeID. apply wp_call; [by apply HG|]. intros cp. cbn [mbind prog_bind].
  eapply wp_seq.
  { eapply wp_and_any; [|apply GetByNodeID_reached].
    apply wp_and; [apply (calls_wp connect_call); [apply GetByNodeID_calls|done]|by apply (GetByNodeID_wp G)]. }
  intros h1 o [[Hext (cp' & res & -> & Heq & Hres)] Hrch]. cbn [after]. specialize (Hrch _ _ eq_refl).
  eapply wp_seq; [apply no_panic_wp; [|apply (calls_wp connect_call); [apply store_conns_calls|done]]|].
  { apply store_conns_no_panic. }
  intros h2 o [Hext2 [[] ->]]. cbn [after]. apply wp_ret. split.
  - eapply extends_trans; [|exact Hext2]. eapply extends_trans; [|exact Hext].
    by apply extends_cons; [apply extends_refl|].
  - eexists. split; [done|]. destruct res as [e|keys]; [done|]. destruct (Hres keys eq_refl) as [Hkeys Hcl].
    exists cp. split_and!.
    + apply (extends_in _ _ _ Hext2), (extends_in _ _ _ Hext). left.
    + intros k c [Hk Hin]%map_lookup_filter_Some. destruct (Hcl k Hin) as (v & Hv & Hs). simpl in Hv. simplify_eq.
      split; [done|]. destruct (Hrch k _ Hk) as (c0 & Hc0 & Hr). exists c0. split; [done|].
      apply Hkeys in Hin as (v0 & Hv0 & Hw). cbn in Hv0. rewrite Hc0 in Hv0. injection Hv0 as <-. split; [done|].
      eapply reached_in; [|exact Hr]. intros x. apply (extends_in _ _ _ Hext2).
    + intros k c0 Hc0 Hw. destruct (pool_equiv_Some _ _ _ _ Heq Hc0) as (v & Hv & _). exists v.
      apply map_lookup_filter_Some. split; [done|]. apply Hkeys. by exists c0.
Qed.

End connecting.

Section target.
Context (timeout : Z) (G : hist -> event -> Prop) (spec : JobSpec) (ns : string).
Hypothesis HG : forall h e, lookup_call e -> G h e.

Lemma getTargetDetails_wp h :
  wp G (fun h' o => extends lookup_call h h' /\
      match o with
      | Done (inr t) => targets h' timeout spec ns t
      | Done (inl _) => True
      | Panicked _ => inline_attachment h'
      end) h (getTargetDetails timeout spec ns).
Proof.
  unfold getTargetDetails, get_obj.
  repeat (wp_step || (simplify_eq; progress cbn [mbind prog_bind])); try (by apply HG; simpl; auto);
    (split; [by repeat apply extends_cons; [apply extends_refl|simpl; auto..]|]); try done.
  - apply negb_false_iff, bool_decide_eq_true in Heqb. eexists _, _, _, _. split_and!; try done; set_solver.
  - match goal with H : attached_node _ _ = None |- _ => apply attached_node_None in H as (va & Hin & Hva) end.
    eexists _, va. split; [|done]. set_solver.
Qed.

Lemma first_capable_in capable l k c :
  first_capable capable l = Some (k, c) -> (k, c) ∈ l /\ existsb capable c.(Capabilities) = true.
Proof.
  induction l as [|[k' c'] l IH]; cbn; [done|]. case_match; [intros [= -> ->]; set_solver|].
  intros [? ?]%IH. split; [by right|done].
Qed.

(** Finding a node's client never panics. *)
Lemma client_by_node_wp capable d node h :
  wp G (fun h' o => extends lookup_call h h' /\ exists r, o = Done r /\
      match r with inr (Some (_, cc)) => node_client d node capable h' cc | _ => True end)
    h (client_by_node capable d node).
Proof.
  unfold client_by_node. eapply wp_seq; [apply (pool_GetByNodeID_wp G); auto using connect_lookup|].
  intros h1 o (Hext%(extends_mono _ _ _ _ connect_lookup) & r & -> & Hr). cbn [after].
  destruct r as [e|conns]; [by split; [|eexists]|].
  apply wp_call; [by apply HG|]. intros seed. cbn [mbind prog_bind].
  assert (extends lookup_call h (existT ERange seed :: h1)) by (by apply extends_cons).
  destruct (first_capable _ _) as [[k c]|] eqn:Hf; [|by split; [|eexists]].
  apply first_capable_in in Hf as [Hf%elem_of_map_range Hcap]. destruct Hr as (cp & Hcp & Hin & _).
  destruct (Hin k c Hf) as ([cc Hcc] & c0 & Hc0 & Hw & Hreach). rewrite Hcc.
  split; [done|]. eexists. split; [done|]. exists cp, k, c0, c. split_and!; try done; [by right|].
  eapply reached_in; [|exact Hreach]. intros. by right.
Qed.
End target.

(** ** The life cycle *)

Section lifecycle.
Context (k : kind) `{Job (obj_of k)}.
Context (validate : obj_of k -> option error) (invalid : error -> string).
Context (work : obj_of k -> string -> M (obj_of k * option error)).
(** What the work may do before its deadline, what counts as done, and when it may
    panic, for a job's specification and namespace. *)
Context (permitted : JobSpec -> string -> hist -> event -> Prop) (achieved : JobSpec -> string -> hist -> Prop).
Context (may_panic : JobSpec -> string -> hist -> Prop).

(** The work does not read the job again. *)
Definition not_fetch (e : event) : Prop := match e with EGet k' _ => k' ≠ k | _ => True end.

Definition work_post (j : obj_of k) (ns : string) (h : hist) (o : outcome (obj_of k * option error)) : Prop :=
  match o with
  | Done (j', err) =>
    meta j' = meta j /\ job_Spec j' = job_Spec j /\
    (job_Status j').(js_StartTime) = (job_Status j).(js_StartTime) /\
    (job_Status j').(js_Retries) = (job_Status j).(js_Retries) /\
    ((is_Some err /\ (job_Status j').(js_Result) = (job_Status j).(js_Result) /\
      (job_Status j').(js_CompletionTime) = (job_Status j).(js_CompletionTime)) \/
     (err = None /\ (job_Status j').(js_Result) = OperationResultSucceeded /\
      is_Some (job_Status j').(js_CompletionTime) /\ achieved (job_Spec j) ns h))
  | Panicked _ => may_panic (job_Spec j) ns h
  end.

(** What the life cycle needs of the work. *)
Class JobWork := {
  work_calls j ns : calls not_fetch (work j ns);
  work_wp h j ns : wp (permitted (job_Spec j) ns) (work_post j ns) h (work j ns);
  achieved_in s ns h h' : (forall c, c ∈ h -> c ∈ h') -> achieved s ns h -> achieved s ns h'
}.

(** *** The contract of the life cycle *)

(** The job as fetched, ready to be worked on. *)
Definition ready (h : hist) (j0 : obj_of k) : Prop :=
  newest (fetched k) h = Some j0 /\ is_deleting j0 = false /\ (job_Status j0).(js_Result) = "" /\
  validate j0 = None.

Definition in_time (h : hist) (j0 : obj_of k) : Prop :=
  exists now, existT ENow now ∈ h /\ (now <= job_deadline k (set_defaults k j0))%Z.

(** The retries after one more attempt. *)
Definition next_retries (j0 : obj_of k) : Z :=
  let s := job_Status j0 in
  match s.(js_StartTime) with None => s.(js_Retries) | Some _ => int32 (s.(js_Retries) + 1) end.

Definition honest_result (ns : string) (h : hist) (j0 o : obj_of k) : Prop :=
  let s := job_Status o in
  (s.(js_Result) = "" /\ s.(js_CompletionTime) = (job_Status j0).(js_CompletionTime)) \/
  (s.(js_Result) = OperationResultFailed /\ is_Some s.(js_CompletionTime)) \/
  (s.(js_Result) = OperationResultSucceeded /\ is_Some s.(js_CompletionTime) /\
   achieved (job_Spec (set_defaults k j0)) ns h).

Definition status_permitted (ns : string) (h : hist) (o : obj_of k) : Prop :=
  exists j0, newest (fetched k) h = Some j0 /\ is_deleting j0 = false /\ (job_Status j0).(js_Result) = "" /\
    match validate j0 with
    | Some err => (job_Status o).(js_Result) = OperationResultFailed /\ (job_Status o).(js_Message) = invalid err
    | None =>
      is_Some (job_Status o).(js_StartTime) /\ (job_Status o).(js_Retries) = next_retries j0 /\
      honest_result ns h j0 o /\
      ((job_Status o).(js_Result) = "" -> (job_Status o).(js_Retries) ≠ (job_Spec (set_defaults k j0)).(BackoffLimit))
    end.

Definition job_contract (req : NamespacedName) (h : hist) (e : event) : Prop :=
  (exists j0, ready h j0 /\ in_time h j0 /\ permitted (job_Spec (set_defaults k j0)) (nn_Namespace req) h e) \/
  match e with
  | EGet k' key => k' = k /\ key = req /\ h = []
  | ENow => True
  | EStatusUpdate k' o => exists Heq : k' = k, status_permitted (nn_Namespace req) h (eq_rect k' obj_of o k Heq)
  | _ => False
  end.

Definition lifecycle_panics (ns : string) (h : hist) (o : outcome result) : Prop :=
  match o with
  | Done _ => True
  | Panicked _ => exists j0, ready h j0 /\ in_time h j0 /\ may_panic (job_Spec (set_defaults k j0)) ns h
  end.

(** *** The life cycle keeps it *)
Context `{!JobWork} (req : NamespacedName).
Abbreviation ns := (nn_Namespace req).
Abbreviation contract := (job_contract req).

Lemma fetched_extends h h' : extends not_fetch h h' -> newest (fetched k) h' = newest (fetched k) h.
Proof.
  intros Hext. apply (newest_extends _ _ _ _ Hext). intros e r He. destruct e as [k'| | | | | | | | | | | | | | | | | | |]; try done.
  simpl in *. unfold obj_answer, obj_in. destruct r; [done|]. by destruct decide.
Qed.

(** The job as the work leaves it. *)
Definition worked (h : hist) (j0 : obj_of k) (o : outcome (obj_of k * option error)) : Prop :=
  match o with
  | Done (j, err) =>
    newest (fetched k) h = Some j0 /\ job_Spec j = job_Spec (set_defaults k j0) /\
    is_Some (job_Status j).(js_StartTime) /\ (job_Status j).(js_Retries) = next_retries j0 /\
    honest_result ns h j0 j
  | Panicked _ => ready h j0 /\ in_time h j0 /\ may_panic (job_Spec (set_defaults k j0)) ns h
  end.

Lemma set_defaults_status j : job_Status (set_defaults k j) = job_Status j.
Proof. apply job_Status_set_Spec. Qed.
Lemma set_defaults_meta j : meta (set_defaults k j) = meta j.
Proof. apply meta_set_Spec. Qed.

Lemma job_deadline_status j s : job_deadline k (set_job_Status j s) = job_deadline k j.
Proof. unfold job_deadline. by rewrite meta_set_Status, job_Spec_set_Status. Qed.

Lemma count_attempt_wp h j0 : 
  newest (fetched k) h = Some j0 ->
  wp contract (fun h' o => exists j, o = Done j /\ extends not_fetch h h' /\
      job_Spec j = job_Spec (set_defaults k j0) /\ job_deadline k j = job_deadline k (set_defaults k j0) /\
      is_Some (job_Status j).(js_StartTime) /\ (job_Status j).(js_Retries) = next_retries j0 /\
      (job_Status j).(js_Result) = (job_Status j0).(js_Result) /\
      (job_Status j).(js_CompletionTime) = (job_Status j0).(js_CompletionTime))
    h (count_attempt k (set_defaults k j0)).
Proof.
  intros Hf. unfold count_attempt, on_status, next_retries. rewrite !set_defaults_status.
  destruct (js_StartTime (job_Status j0)) eqn:Hst.
  - eexists. rewrite job_Spec_set_Status, job_deadline_status, job_Status_set.
    split_and!; try done; apply extends_refl.
  - apply wp_call; [by right|]. intros now. cbn [mbind prog_bind].
    eexists. rewrite job_Spec_set_Status, job_deadline_status, job_Status_set.
    split_and!; try done. by apply extends_cons; [apply extends_refl|].
Qed.

Lemma attempt_wp h j0 :
  ready h j0 -> wp contract (fun h' o => worked h' j0 o) h (attempt k work (set_defaults k j0) ns).
Proof.
  intros (Hf & Hdel & Hres & Hval). unfold attempt.
  eapply wp_seq; [by apply count_attempt_wp|].
  intros h1 o (j & -> & Hext1 & Hspec & Hdead & Hst & Hret & Hresult & Hcomp). cbn [after].
  pose proof (fetched_extends _ _ Hext1) as Hf1. rewrite Hf in Hf1.
  apply wp_call; [by right|]. intros now. cbn [mbind prog_bind].
  destruct (job_deadline k j <? now)%Z eqn:Htime.
  - apply wp_call; [by right|]. intros now2. cbn [mbind prog_bind]. unfold on_status. apply wp_ret.
    cbn [worked]. rewrite !newest_cons. split_and!; [done|by rewrite job_Spec_set_Status|..];
      rewrite ?job_Status_set; [done..|]. right; left. rewrite job_Status_set. by split; [|eexists].
  - apply Z.ltb_ge in Htime. rewrite Hdead in Htime.
    set (h2 := existT ENow now :: h1).
    assert (newest (fetched k) h2 = Some j0) as Hf2 by (by unfold h2; rewrite newest_cons).
    assert (forall h', extends not_fetch h2 h' -> ready h' j0 /\ in_time h' j0) as Hready.
    { intros h' Hext. split; [split_and!; [by rewrite (fetched_extends _ _ Hext)|done..]|].
      exists now. split; [|done]. eapply extends_in; [exact Hext|]. apply list_elem_of_here. }
    eapply wp_mono; [apply wp_calls; [apply work_calls|apply work_wp]|..].
    + intros h' e [Hext He]. left. exists j0. rewrite Hspec in He. by destruct (Hready h' Hext).
    + intros h' [[j' err]|m] [Hext Hpost]; destruct (Hready h' Hext) as [Hr Ht].
      * destruct Hpost as (_ & Hspec' & Hst' & Hret' & Hcase). simpl.
        split_and!; [apply Hr|by rewrite Hspec', Hspec|by rewrite Hst'|by rewrite Hret'|].
        destruct Hcase as [(_ & HR & HC)|(_ & HR & HC & Ha)].
        -- left. by rewrite HR, HC, Hresult, Hcomp.
        -- right; right. rewrite Hspec in Ha. by split_and!.
      * simpl in *. rewrite Hspec in Hpost. by split_and!.
Qed.

(** The status the last call wrote, and whether the server accepted it. *)
Definition status_written (h : hist) : option (obj_of k) :=
  match h with
  | existT (EStatusUpdate k' o) _ :: _ => obj_in k o
  | _ => None
  end.
Definition status_stored (h : hist) : option (obj_of k) :=
  match h with
  | existT e r :: _ =>
    match e return answer e -> option (obj_of k) with
    | EStatusUpdate k' o => fun r => match r with inr _ => obj_in k o | inl _ => None end
    | _ => fun _ => None
    end r
  | [] => None
  end.

Lemma stored_written h o : status_stored h = Some o -> status_written h = Some o.
Proof. destruct h as [|[[] r] h]; try done. simpl. by destruct r. Qed.


(** How a reconcile of the job [j0] that gets to its end leaves it: the last call
    writes a status. *)
Definition wrote (j0 : obj_of k) (h : hist) : Prop :=
  exists o, status_written h = Some o /\
    ((job_Status o).(js_Result) = OperationResultFailed \/
     is_Some (job_Status o).(js_StartTime) /\ (job_Status o).(js_Retries) = next_retries j0 /\
     ((job_Status o).(js_Result) = "" -> (job_Status o).(js_Retries) ≠ (job_Spec (set_defaults k j0)).(BackoffLimit))).

Lemma store_wp h j0 j err :
  ready h j0 -> is_Some (job_Status j).(js_StartTime) -> (job_Status j).(js_Retries) = next_retries j0 ->
  honest_result ns h j0 j ->
  ((job_Status j).(js_Result) = "" -> (job_Status j).(js_Retries) ≠ (job_Spec (set_defaults k j0)).(BackoffLimit)) ->
  wp contract (fun h' o => (exists a, o = Done a) /\ wrote j0 h') h
   ('(j, statusErr) ← status_update_obj k j;
    match statusErr with
    | Some statusErr => mret (no_requeue, Some statusErr)
    | None => if negb (bool_decide ((job_Status j).(js_Result) = "")) then mret (no_requeue, None)
              else mret (no_requeue, err)
    end).
Proof.
  intros (Hf & Hdel & Hres & Hval) Hst Hret Hhon Hlim. apply wp_call.
  - right. exists eq_refl, j0. cbn [eq_rect]. rewrite Hval. by split_and!.
  - intros r. assert (wrote j0 (existT (EStatusUpdate k j) r :: h)) as Hw.
    { exists j. split; [apply obj_in_self|]. right. by split_and!. }
    destruct r as [e|o]; cbn; [by split; [eexists|]|]. case_match; by split; [eexists|].
Qed.

Lemma conclude_wp h j0 j err :
  ready h j0 -> worked h j0 (Done (j, err)) ->
  wp contract (fun h' o => (exists a, o = Done a) /\ wrote j0 h') h (conclude k j err).
Proof.
  intros Hready (_ & Hspec & Hst & Hret & Hhon). unfold conclude.
  destruct (bool_decide (js_Result (job_Status j) = "")) eqn:Hr;
    [destruct (js_Retries (job_Status j) =? BackoffLimit (job_Spec j))%Z eqn:Hlim|]; cbn [andb].
  - apply wp_call; [by right|]. intros now. cbn [mbind prog_bind mret prog_ret].
    apply store_wp; unfold on_status; rewrite ?job_Status_set; [|done|done| |done].
    + destruct Hready as (Hf & Hrest). split; [by rewrite newest_cons|done].
    + right; left. rewrite job_Status_set. by split; [|eexists].
  - apply store_wp; try done. intros _. rewrite <- Hspec. by apply Z.eqb_neq.
  - apply store_wp; try done. intros Hr'. by rewrite bool_decide_true in Hr.
Qed.

Definition process_post (j0 : obj_of k) (h h' : hist) (o : outcome result) : Prop :=
  match o with
  | Done _ => (h' = h /\ (is_deleting j0 = true \/ (job_Status j0).(js_Result) ≠ "")) \/ wrote j0 h'
  | Panicked _ => ready h' j0 /\ in_time h' j0 /\ may_panic (job_Spec (set_defaults k j0)) ns h'
  end.

Lemma process_wp h j : newest (fetched k) h = Some j ->
  wp contract (process_post j h) h (process k validate invalid work j ns).
Proof.
  intros Hf. unfold process. destruct (is_deleting j) eqn:Hdel; [by left; auto|].
  case_bool_decide as Hres; cbn [negb]; [|by left; auto].
  destruct (validate j) as [err|] eqn:Hval.
  - unfold reject, status_update_obj. apply wp_call; [by right|]. intros now. cbn [mbind prog_bind].
    assert (job_Status (on_status k (fun s => finish s OperationResultFailed (invalid err) now) j) =
      finish (job_Status j) OperationResultFailed (invalid err) now) as Hst by apply job_Status_set.
    apply wp_call.
    + right. exists eq_refl, j. cbn [eq_rect]. by rewrite newest_cons, Hval, Hst.
    + intros r. assert (wrote j (existT (EStatusUpdate k (on_status k (fun s => finish s OperationResultFailed (invalid err) now) j)) r :: existT ENow now :: h)) as Hw.
      { eexists. split; [apply obj_in_self|]. left. by rewrite Hst. }
      destruct r as [e|o]; by right.
  - assert (ready h j) as Hready by done.
    eapply wp_seq; [by apply attempt_wp|]. intros h1 [[j' err]|m] Hw; cbn [after]; [|done].
    eapply wp_post; [apply (conclude_wp h1 j); [split_and!; [apply Hw|done..]|done]|].
    intros h2 o [[a ->] Hwr]. by right.
Qed.

Lemma fetched_first (j : obj_of k) : newest (fetched k) [existT (EGet k req) (inr j)] = Some j.
Proof.
  rewrite newest_cons. simpl. by rewrite obj_in_self.
Qed.

Lemma lifecycle_wp : wp contract (lifecycle_panics ns) [] (lifecycle k validate invalid work req).
Proof.
  unfold lifecycle, get_obj. apply wp_call; [by right|]. intros [err|j]; cbn [mbind prog_bind].
  - by case_match.
  - eapply wp_post; [apply process_wp, fetched_first|]. intros h' [a|m] Hp; [done|]. by exists j.
Qed.

(** *** Jobs end *)

(** One reconcile that finds the job [j] and whose status the server accepts; the
    server keeps the specification. *)
Definition reconciled (j j' : obj_of k) : Prop :=
  exists (ρ : env answer) h o a,
    ρ [] (EGet k req) = inr j /\
    run ρ [] (lifecycle k validate invalid work req) = (h, Done a) /\ status_stored h = Some o /\
    j' = set_job_Status j (job_Status o).

(** The life of a job: how many more reconciles it can see. *)
Definition remaining (j : obj_of k) (n : nat) : Prop :=
  let limit := (job_Spec (set_defaults k j)).(BackoffLimit) in
  match (job_Status j).(js_StartTime) with
  | None => (job_Status j).(js_Retries) = 0%Z /\ Z.of_nat n = (limit + 1)%Z
  | Some _ => (0 <= (job_Status j).(js_Retries) < limit)%Z /\ Z.of_nat n = (limit - (job_Status j).(js_Retries))%Z
  end.

Lemma set_defaults_spec_status j s :
  job_Spec (set_defaults k (set_job_Status j s)) = job_Spec (set_defaults k j).
Proof. unfold set_defaults. by rewrite !job_Spec_set, !job_Spec_set_Status. Qed.

Lemma reconciled_step j j' n :
  (0 < (job_Spec (set_defaults k j)).(BackoffLimit) < 2 ^ 31)%Z ->
  remaining j n -> reconciled j j' ->
  n ≠ 0 /\ (job_Spec (set_defaults k j')) = job_Spec (set_defaults k j) /\
  ((job_Status j').(js_Result) ≠ "" \/ remaining j' (pred n)).
Proof.
  intros Hlim Hrem (ρ & h1 & o & a & Hget & Hrun & Hst%stored_written & ->).
  rewrite job_Status_set, set_defaults_spec_status.
  unfold lifecycle, get_obj in Hrun. cbn [call mbind prog_bind run] in Hrun. rewrite Hget in Hrun.
  cbn [mbind prog_bind] in Hrun.
  pose proof (wp_run _ _ _ _ (process_wp _ _ (fetched_first j))
    (conj (or_intror (conj eq_refl (conj eq_refl eq_refl))) I) ρ) as [_ Hpost].
  rewrite Hrun in Hpost. destruct Hpost as [[Heq _]|(o' & Ho' & Hw)]; simpl in *; [by rewrite Heq in Hst|].
  rewrite Hst in Ho'. injection Ho' as <-. unfold remaining in *.
  assert (n ≠ 0) as Hn by (destruct (js_StartTime (job_Status j)); lia). split_and!; [done|done|].
  destruct Hw as [Hw|([t Ht] & Hret & Hne)]; [left; by rewrite Hw|].
  destruct (decide (js_Result (job_Status o) = "")) as [Hr|]; [right|by left].
  rewrite job_Status_set, set_defaults_spec_status, Ht. specialize (Hne Hr). unfold next_retries in Hret.
  destruct (js_StartTime (job_Status j)); [|lia].
  unfold int32 in Hret. rewrite wrap_signed_id in Hret by lia. lia.
Qed.

Lemma finished_stays j j' : (job_Status j).(js_Result) ≠ "" -> ~ reconciled j j'.
Proof.
  intros Hres (ρ & h1 & o & a & Hget & Hrun & Hst & _).
  unfold lifecycle, get_obj, process in Hrun. cbn [call mbind prog_bind run] in Hrun. rewrite Hget in Hrun.
  cbn [mbind prog_bind] in Hrun. rewrite bool_decide_false in Hrun by done.
  destruct (is_deleting j); injection Hrun as <- _; done.
Qed.

Lemma remaining_chain m j n j' :
  remaining j m -> (0 < (job_Spec (set_defaults k j)).(BackoffLimit) < 2 ^ 31)%Z -> nsteps reconciled n j j' ->
  n <= m /\ (n = m -> (job_Status j').(js_Result) ≠ "").
Proof.
  revert j n. induction m as [|m IH]; intros j n Hrem Hlim Hn.
  { exfalso. unfold remaining in Hrem. destruct (js_StartTime _); lia. }
  inversion Hn as [|n' ? j3 ? Hs Hrest]; subst; [split; [lia|done]|].
  destruct (reconciled_step j j3 (S m) Hlim Hrem Hs) as (_ & Hspec & [Hres|Hr']).
  - inversion Hrest as [|n2 ? j4 ? Hs2 _]; subst; [split; [lia|done]|]. by apply finished_stays in Hs2.
  - destruct (IH j3 n' Hr') as [Hle Heq]; [by rewrite Hspec|done|]. split; [lia|]. intros [= ->]. by apply Heq.
Qed.

(** Every chain of reconciles of a fresh job ends it: with a retry limit of L, a
    job sees at most L + 1 reconciles that write its status, whatever the clock,
    the API server and the drivers do, and after L + 1 of them it has a result. *)
Lemma job_ends n j j' :
  let L := (job_Spec (set_defaults k j)).(BackoffLimit) in
  (0 < L < 2 ^ 31)%Z ->
  (job_Status j).(js_StartTime) = None -> (job_Status j).(js_Retries) = 0%Z -> nsteps reconciled n j j' ->
  (Z.of_nat n <= L + 1)%Z /\ (Z.of_nat n = L + 1 -> (job_Status j').(js_Result) ≠ "")%Z.
Proof.
  intros L HL Hst Hret Hsteps.
  assert (remaining j (Z.to_nat (L + 1))) as Hrem by (unfold remaining; rewrite Hst; split; [done|lia]).
  destruct (remaining_chain _ j n j' Hrem HL Hsteps) as [Hle Heq]. split; [lia|]. intros Hn. apply Heq. lia.
Qed.
End lifecycle.

(** ** The two kinds of work *)

(** Requests for the volume of the target, within its deadline. *)
Definition aimed (h : hist) (timeout : Z) (spec : JobSpec) (ns : string) (t : Z) (pv : string)
    (target : targetDetails) : Prop :=
  targets h timeout spec ns target /\ pv = target.(td_pvName) /\ t = target.(td_timeout).

Lemma aimed_in h h' timeout spec ns t pv tg : (forall c, c ∈ h -> c ∈ h') ->
  aimed h timeout spec ns t pv tg -> aimed h' timeout spec ns t pv tg.
Proof. intros Hsub [Ht ?]. split; [by eapply targets_in|done]. Qed.

Lemma acknowledged_in h h' m : (forall c, c ∈ h -> c ∈ h') -> acknowledged h m -> acknowledged h' m.
Proof. intros Hsub (cc & t & r & Hin & Hr). exists cc, t, r. by auto. Qed.

(** Looking things up does not read the job. *)
Lemma lookup_not_fetch k {A} (p : M A) :
  k ≠ KPersistentVolumeClaim /\ k ≠ KPersistentVolume /\ k ≠ KLease -> calls lookup_call p -> calls (not_fetch k) p.
Proof. intros Hk Hp. eapply calls_mono; [exact Hp|]. intros []; simpl; naive_solver. Qed.

Lemma connect_lookup_calls {A} (p : M A) : calls connect_call p -> calls lookup_call p.
Proof. intros Hp. eapply calls_mono; [exact Hp|apply connect_lookup]. Qed.

Lemma GetByNodeID_lookup cp d n : calls lookup_call (GetByNodeID cp d n).
Proof. apply connect_lookup_calls, GetByNodeID_calls. Qed.
Lemma GetLeaderByDriver_lookup d : calls lookup_call (GetLeaderByDriver d).
Proof. apply connect_lookup_calls, GetLeaderByDriver_calls. Qed.
Lemma store_conns_lookup l : calls lookup_call (store_conns l).
Proof. apply connect_lookup_calls, store_conns_calls. Qed.
#[export] Hint Resolve store_conns_lookup GetByNodeID_lookup GetLeaderByDriver_lookup : calls.

(** Ending an attempt with a failed condition, or with success. *)
Section endings.
Context (k : kind) `{Job (obj_of k)} (achieved may_panic : JobSpec -> string -> hist -> Prop).
Context (G : hist -> event -> Prop) (HG : forall h, G h ENow).
Abbreviation post := (work_post k achieved may_panic).

Lemma failed_wp h j ns msg err : wp G (post j ns) h (failed k j msg err).
Proof.
  apply wp_call; [done|]. intros now. cbn. unfold on_status.
  rewrite meta_set_Status, job_Spec_set_Status, job_Status_set. cbn. split_and!; try done. left.
  by split_and!.
Qed.

Lemma succeeded_wp h j ns msg : (forall c, achieved (job_Spec j) ns (c :: h)) ->
  wp G (post j ns) h (succeeded k j msg).
Proof.
  intros Ha. apply wp_call; [done|]. intros now. cbn. unfold on_status.
  rewrite meta_set_Status, job_Spec_set_Status, job_Status_set. cbn. split_and!; try done. right.
  by split_and!.
Qed.
End endings.

Module ReclaimSpaceProofs.
Import ReclaimSpace.
Section work.
Context (timeout : Z) (int64_overflow : SpecFloat.spec_float -> Z).

Definition permitted (spec : JobSpec) (ns : string) (h : hist) (e : event) : Prop :=
  match e with
  | ERpc cc t m =>
    match m with
    | GetCapabilities => True
    | NodeReclaimSpace pv => exists tg, aimed h timeout spec ns t pv tg /\ tg.(td_nodeID) ≠ "" /\
        node_client tg.(td_driverName) tg.(td_nodeID) online h cc
    | ControllerReclaimSpace pv => exists tg, aimed h timeout spec ns t pv tg /\
        (tg.(td_nodeID) ≠ "" -> acknowledged h (NodeReclaimSpace pv))
    | _ => False
    end
  | e => lookup_call e
  end.

Definition achieved (spec : JobSpec) (ns : string) (h : hist) : Prop :=
  exists tg, targets h timeout spec ns tg /\ acknowledged h (ControllerReclaimSpace tg.(td_pvName)) /\
    (tg.(td_nodeID) ≠ "" -> acknowledged h (NodeReclaimSpace tg.(td_pvName))).

Definition may_panic (spec : JobSpec) (ns : string) (h : hist) : Prop :=
  inline_attachment h \/ exists tg, targets h timeout spec ns tg /\ tg.(td_driverName) = "".

Lemma reclaim_lookup spec ns h e : lookup_call e -> permitted spec ns h e.
Proof. destruct e as [| | | | | | |? ? []| | | | | | | | | | | |]; simpl; tauto. Qed.

Lemma reclaim_achieved_in s ns h h' : (forall c, c ∈ h -> c ∈ h') -> achieved s ns h -> achieved s ns h'.
Proof.
  intros Hsub (tg & Ht & Hc & Hn). exists tg. split_and!; [by eapply targets_in|by eapply acknowledged_in|].
  intros Hne. eapply acknowledged_in; [exact Hsub|by apply Hn].
Qed.

Lemma reclaimed_ack r v : reclaimed int64_overflow r = inr v ->
  match r with inr _ => True | inl err => status_Code (Some err) = Unimplemented end.
Proof. destruct r as [err|resp]; [|done]. unfold reclaimed. by case_bool_decide. Qed.

Lemma nodeReclaimSpace_wp spec ns h tg :
  targets h timeout spec ns tg -> tg.(td_nodeID) ≠ "" ->
  wp (permitted spec ns) (fun h' o => (forall c, c ∈ h -> c ∈ h') /\ exists r, o = Done r /\
      match r with inr _ => acknowledged h' (NodeReclaimSpace tg.(td_pvName)) | inl _ => True end)
    h (nodeReclaimSpace int64_overflow tg).
Proof.
  intros Ht Hne. unfold nodeReclaimSpace, getRSClientByNode.
  eapply wp_seq; [apply client_by_node_wp, reclaim_lookup|]. intros h1 o (Hext & r & -> & Hcc). cbn [after].
  assert (forall c, c ∈ h -> c ∈ h1) as Hsub by (intros c; by apply (extends_in _ _ _ Hext)).
  destruct r as [err|[[k cc]|]]; [by split; [|eexists]| |by split; [|eexists]].
  apply wp_call.
  - exists tg. split; [|done]. by split_and!; [eapply targets_in|..].
  - intros r. cbn. split; [set_solver|]. eexists. split; [done|]. destruct (reclaimed _ r) eqn:Hr; [done|].
    exists cc, tg.(td_timeout), r. split; [apply list_elem_of_here|]. by apply reclaimed_ack in Hr.
Qed.

Lemma controllerReclaimSpace_wp spec ns h tg :
  targets h timeout spec ns tg ->
  (tg.(td_nodeID) ≠ "" -> acknowledged h (NodeReclaimSpace tg.(td_pvName))) ->
  wp (permitted spec ns) (fun h' o => (forall c, c ∈ h -> c ∈ h') /\
      match o with
      | Done (found, inr _) => found = true /\ acknowledged h' (ControllerReclaimSpace tg.(td_pvName))
      | Done (_, inl _) => True
      | Panicked _ => tg.(td_driverName) = ""
      end) h (controllerReclaimSpace int64_overflow tg).
Proof.
  intros Ht Hn. unfold controllerReclaimSpace, getLeadingRSClient. apply wp_assoc.
  eapply wp_seq; [apply GetLeaderByDriver_client; intros; by apply reclaim_lookup, connect_lookup|].
  intros h1 o [Hext Ho].
  assert (forall c, c ∈ h -> c ∈ h1) as Hsub by (intros c; by apply (extends_in _ _ _ Hext)).
  destruct o as [[err|conn]|m]; cbn [after]; [done| |done].
  destruct Ho as [cc ->]. case_match; [|done]. apply wp_call.
  - exists tg. split; [by split_and!; [eapply targets_in|..]|]. intros Hne. eapply acknowledged_in; [done|by apply Hn].
  - intros r. cbn. split; [set_solver|]. destruct (reclaimed _ r) eqn:Hr; [done|]. split; [done|].
    exists cc, tg.(td_timeout), r. split; [apply list_elem_of_here|]. by apply reclaimed_ack in Hr.
Qed.

Abbreviation post := (work_post KReclaimSpaceJob achieved may_panic).

Lemma controller_phase_wp (j : ReclaimSpaceJob) ns h tg nodeFound nodeSpace :
  targets h timeout (job_Spec j) ns tg ->
  (tg.(td_nodeID) ≠ "" -> acknowledged h (NodeReclaimSpace tg.(td_pvName))) ->
  wp (permitted (job_Spec j) ns) (post j ns) h (controller_phase int64_overflow j tg nodeFound nodeSpace).
Proof.
  intros Ht Hn. unfold controller_phase. eapply wp_seq; [by apply controllerReclaimSpace_wp|].
  intros h1 [[found [err|space]]|m] [Hsub Ho]; cbn [after].
  - by apply (failed_wp KReclaimSpaceJob).
  - destruct Ho as [-> Hack]. cbn [negb andb].
    assert (forall c, achieved (job_Spec j) ns (c :: h1)) as Ha.
    { intros c. apply (reclaim_achieved_in _ _ h1); [set_solver|]. exists tg.
      split_and!; [by eapply targets_in|done|]. intros Hne. eapply acknowledged_in; [done|by apply Hn]. }
    eapply wp_post; [eapply (succeeded_wp KReclaimSpaceJob)|].
    all: destruct nodeSpace, space; try done; by intros h2 [[j' e]|m].
  - right. exists tg. split; [by eapply targets_in|done].
Qed.

Lemma reclaim_wp (j : ReclaimSpaceJob) ns h :
  wp (permitted (job_Spec j) ns) (post j ns) h (reclaim timeout int64_overflow j ns).
Proof.
  unfold reclaim. eapply wp_seq; [apply getTargetDetails_wp, reclaim_lookup|].
  intros h1 [[err|tg]|m] [_ Ho]; cbn [after]; [by apply (failed_wp KReclaimSpaceJob)| |by left].
  unfold canNodeReclaimSpace. case_bool_decide as Hne; cbn [negb]; [by apply controller_phase_wp|].
  eapply wp_seq; [by apply nodeReclaimSpace_wp|]. intros h2 o (Hsub & [err|space] & -> & Hack); cbn [after].
  - by apply (failed_wp KReclaimSpaceJob).
  - by apply controller_phase_wp; [eapply targets_in|].
Qed.

Lemma reclaim_calls j ns : calls (not_fetch KReclaimSpaceJob) (reclaim timeout int64_overflow j ns).
Proof.
  unfold reclaim, getTargetDetails, get_obj, nodeReclaimSpace, getRSClientByNode, client_by_node, pool_GetByNodeID,
    controller_phase, controllerReclaimSpace, getLeadingRSClient, failed, setFailedCondition, succeeded.
  repeat (calls_step || (apply lookup_not_fetch; [naive_solver|eauto with calls nocore])); done.
Qed.

#[global] Instance reclaim_work : JobWork KReclaimSpaceJob (reclaim timeout int64_overflow) permitted achieved may_panic.
Proof.
  split; [apply reclaim_calls|intros; apply reclaim_wp|apply reclaim_achieved_in].
Qed.
End work.

End ReclaimSpaceProofs.

Module KeyRotationProofs.
Import KeyRotation.
Section work.
Context (timeout : Z).

Definition permitted (spec : JobSpec) (ns : string) (h : hist) (e : event) : Prop :=
  match e with
  | ERpc cc t m =>
    match m with
    | GetCapabilities => True
    | EncryptionKeyRotate pv => exists tg, aimed h timeout spec ns t pv tg /\ tg.(td_nodeID) ≠ "" /\
        node_client tg.(td_driverName) tg.(td_nodeID) rotates h cc
    | _ => False
    end
  | e => lookup_call e
  end.

Definition achieved (spec : JobSpec) (ns : string) (h : hist) : Prop :=
  exists tg, targets h timeout spec ns tg /\ tg.(td_nodeID) ≠ "" /\
    acknowledged h (EncryptionKeyRotate tg.(td_pvName)).

Definition may_panic (spec : JobSpec) (ns : string) (h : hist) : Prop := inline_attachment h.

Lemma rotate_lookup spec ns h e : lookup_call e -> permitted spec ns h e.
Proof. destruct e as [| | | | | | |? ? []| | | | | | | | | | | |]; simpl; tauto. Qed.

Lemma rotate_achieved_in s ns h h' : (forall c, c ∈ h -> c ∈ h') -> achieved s ns h -> achieved s ns h'.
Proof. intros Hsub (tg & Ht & Hne & Hc). exists tg. split_and!; [by eapply targets_in|done|by eapply acknowledged_in]. Qed.

Lemma rotateEncryptionKey_wp spec ns h tg :
  targets h timeout spec ns tg -> tg.(td_nodeID) ≠ "" ->
  wp (permitted spec ns) (fun h' o => (forall c, c ∈ h -> c ∈ h') /\ exists err, o = Done err /\
      (err = None -> acknowledged h' (EncryptionKeyRotate tg.(td_pvName))))
    h (rotateEncryptionKey tg).
Proof.
  intros Ht Hne. unfold rotateEncryptionKey, getClientByNode.
  eapply wp_seq; [apply client_by_node_wp, rotate_lookup|]. intros h1 o (Hext & r & -> & Hcc). cbn [after].
  assert (forall c, c ∈ h -> c ∈ h1) as Hsub by (intros c; by apply (extends_in _ _ _ Hext)).
  destruct r as [err|[[k cc]|]]; [by split; [|eexists]| |by split; [|eexists]].
  apply wp_call.
  - exists tg. split; [|done]. by split_and!; [eapply targets_in|..].
  - intros r. cbn. split; [set_solver|]. eexists. split; [done|]. intros Hr.
    exists cc, tg.(td_timeout), r. split; [apply list_elem_of_here|].
    destruct r as [e|[]]; [|done]. by case_bool_decide.
Qed.

Lemma rotate_wp (j : EncryptionKeyRotationJob) ns h :
  wp (permitted (job_Spec j) ns) (work_post KEncryptionKeyRotationJob achieved may_panic j ns) h (rotate timeout j ns).
Proof.
  unfold rotate, getTargetDetails. eapply wp_seq; [apply getTargetDetails_wp, rotate_lookup|].
  intros h1 [[err|tg]|m] [_ Ho]; cbn [after]; [by apply (failed_wp KEncryptionKeyRotationJob)| |done].
  case_bool_decide as Hne.
  - apply wp_ret. split_and!; try done. left. by split_and!.
  - eapply wp_seq; [by apply rotateEncryptionKey_wp|]. intros h2 o (Hsub & [err|] & -> & Hack); cbn [after].
    + by apply (failed_wp KEncryptionKeyRotationJob).
    + apply (succeeded_wp KEncryptionKeyRotationJob); [done|]. intros c. apply (rotate_achieved_in _ _ h2); [set_solver|].
      exists tg. by split_and!; [eapply targets_in|..|apply Hack].
Qed.

Lemma rotate_calls j ns : calls (not_fetch KEncryptionKeyRotationJob) (rotate timeout j ns).
Proof.
  unfold rotate, getTargetDetails, JobController.getTargetDetails, get_obj, rotateEncryptionKey, getClientByNode,
    client_by_node, pool_GetByNodeID, failed, setFailedCondition, succeeded.
  repeat (calls_step || (apply lookup_not_fetch; [naive_solver|eauto with calls nocore])); done.
Qed.

#[global] Instance rotate_work : JobWork KEncryptionKeyRotationJob (rotate timeout) permitted achieved may_panic.
Proof. split; [apply rotate_calls|intros; apply rotate_wp|apply rotate_achieved_in]. Qed.
End work.

End KeyRotationProofs.

(** ** Every job ends *)

Abbreviation rs_reconciled timeout ovf req :=
  (reconciled KReclaimSpaceJob ReclaimSpace.validateReclaimSpaceJobSpec
     (fun err => "Failed to validate ReclaimSpaceJob.Spec: " +:+ Error err) (ReclaimSpace.reclaim timeout ovf) req).
Abbreviation kr_reconciled timeout req :=
  (reconciled KEncryptionKeyRotationJob KeyRotation.validateEncryptionKeyRotationJobSpec
     (fun err => "failed to validate encryptionkeyrotationjob spec: " +:+ Error err) (KeyRotation.rotate timeout) req).

(** C26: With a retry limit of L (6 by default), a fresh job sees at most L + 1
    reconciles that store its status, whatever the clock, the API server and the
    drivers do, and after L + 1 of them it has a result; this holds for both
    kinds of jobs. *)
Theorem jobs_end timeout ovf req :
  (forall n (j j' : ReclaimSpaceJob),
    let L := (set_defaults KReclaimSpaceJob j).(rsj_Spec).(BackoffLimit) in
    (0 < L < 2 ^ 31)%Z -> j.(rsj_Status).(js_StartTime) = None -> j.(rsj_Status).(js_Retries) = 0%Z ->
    nsteps (rs_reconciled timeout ovf req) n j j' ->
    (Z.of_nat n <= L + 1)%Z /\ (Z.of_nat n = L + 1 -> j'.(rsj_Status).(js_Result) ≠ "")%Z) /\
  (forall n (j j' : EncryptionKeyRotationJob),
    let L := (set_defaults KEncryptionKeyRotationJob j).(krj_Spec).(BackoffLimit) in
    (0 < L < 2 ^ 31)%Z -> j.(krj_Status).(js_StartTime) = None -> j.(krj_Status).(js_Retries) = 0%Z ->
    nsteps (kr_reconciled timeout req) n j j' ->
    (Z.of_nat n <= L + 1)%Z /\ (Z.of_nat n = L + 1 -> j'.(krj_Status).(js_Result) ≠ "")%Z).
Proof.
  split; intros n j j' L HL Hst Hret Hn.
  - exact (job_ends KReclaimSpaceJob _ _ _ _ _ _ req n j j' HL Hst Hret Hn
             (H1 := ReclaimSpaceProofs.reclaim_work timeout ovf)).
  - exact (job_ends KEncryptionKeyRotationJob _ _ _ _ _ _ req n j j' HL Hst Hret Hn
             (H1 := KeyRotationProofs.rotate_work timeout)).
Qed.

Definition fresh_status : JobStatus := mkJobStatus "" "" None [] 0 None None.
Definition fresh_job (limit : Z) : ReclaimSpaceJob :=
  mkRSJob (mkObjectMeta "job" "ns" "uid" 1 (Some 0%Z) None ∅ ∅ [] []) (mkJobSpec "pvc" limit 0 None) fresh_status.

(** A cluster that has the job, but not its claim. *)
Definition no_claim (j : ReclaimSpaceJob) : env answer := fun _ e =>
  match e return answer e with
  | EGet k key =>
    match k return answer (EGet k key) with
    | KReclaimSpaceJob => inr j
    | k => refused (EGet k key)
    end
  | EStatusUpdate k o => inr o
  | e => refused e
  end.

Definition unclaimed_run (j : ReclaimSpaceJob) :=
  run (no_claim j) [] (ReclaimSpace.Reconcile minute (fun _ => 0%Z) (mkNamespacedName "ns" "job")).

Definition after_run (j : ReclaimSpaceJob) : ReclaimSpaceJob :=
  match status_stored KReclaimSpaceJob (fst (unclaimed_run j)) with
  | Some o => set_job_Status j (job_Status o)
  | None => j
  end.

Lemma after_run_reconciled j :
  bool_decide (is_Some (status_stored KReclaimSpaceJob (fst (unclaimed_run j)))) = true ->
  match snd (unclaimed_run j) with Done _ => True | Panicked _ => False end ->
  rs_reconciled minute (fun _ => 0%Z) (mkNamespacedName "ns" "job") j (after_run j).
Proof.
  intros [o Ho]%bool_decide_eq_true Hdone. unfold after_run. rewrite Ho.
  destruct (snd (unclaimed_run j)) as [a|m] eqn:Ha; [|done].
  exists (no_claim j), (fst (unclaimed_run j)), o, a. split_and!; [done| |done|done].
  rewrite <- Ha. apply surjective_pairing.
Qed.

Lemma jobs_end_witness : (after_run (after_run (fresh_job 1))).(rsj_Status).(js_Result) ≠ "".
Proof.
  apply (proj2 (proj1 (jobs_end minute (fun _ => 0%Z) (mkNamespacedName "ns" "job")) 2 (fresh_job 1)
           (after_run (after_run (fresh_job 1))) (conj eq_refl eq_refl) eq_refl eq_refl
           (nsteps_l _ _ _ _ _ (after_run_reconciled (fresh_job 1) ltac:(vm_compute; reflexivity) ltac:(vm_compute; exact I))
             (nsteps_l _ _ _ _ _ (after_run_reconciled (after_run (fresh_job 1)) ltac:(vm_compute; reflexivity) ltac:(vm_compute; exact I))
               (nsteps_O _ _))))).
  reflexivity.
Defined.

(** ** What the jobs do not do *)

(** The space that is reported as reclaimed is the growth of the usage, not its
    decrease: a volume that shrinks reports nothing. *)
Theorem shrinking_reports_nothing ovf :
  ReclaimSpace.calculateReclaimedSpace ovf (Some 10737418240%Z) (Some 4294967296%Z) = Some 0%Z /\
  ReclaimSpace.calculateReclaimedSpace ovf (Some 4294967296%Z) (Some 10737418240%Z) = Some 6442450944%Z.
Proof. split; reflexivity. Qed.

(** The attachment of an inline volume names no PersistentVolume: the first live
    one that is reached makes the controller panic, whatever the job is about. *)
Theorem inline_attachment_panics timeout (ρ : env answer) spec ns (pvc : PersistentVolumeClaim) (pv : PersistentVolume) csi
    va vas :
  (forall h, ρ h (EGet KPersistentVolumeClaim (mkNamespacedName ns spec.(TargetPVC))) = inr pvc) ->
  pvc.(pvc_Phase) = ClaimBound ->
  (forall h, ρ h (EGet KPersistentVolume (mkNamespacedName "" pvc.(pvc_VolumeName))) = inr pv) ->
  pv.(pv_CSI) = Some csi ->
  (forall h, ρ h (EList KVolumeAttachment None "") = inr (va :: vas)) -> dangling va ->
  snd (run ρ [] (getTargetDetails timeout spec ns)) = Panicked "nil pointer dereference".
Proof.
  intros Hpvc Hb Hpv Hcsi Hvas (Hd & Ha & Hn). unfold getTargetDetails, get_obj. cbn. rewrite Hpvc. cbn.
  rewrite bool_decide_true by done. cbn. rewrite Hpv. cbn. rewrite Hcsi. cbn. rewrite Hvas. cbn. by rewrite Hd, Ha, Hn.
Qed.
