(* ===== verification/CronJobController.v ===== *)
(** * The ReclaimSpaceCronJob and EncryptionKeyRotationCronJob controllers

    src/internal/controller/csiaddons/reclaimspacecronjob_controller.go and
    encryptionkeyrotationcronjob_controller.go.  The two are the same code for
    different kinds, but for the order in which old jobs are deleted and for what
    happens when a job cannot be constructed: [reconcile_cron] takes these two
    as parameters. *)

From S2P Require Import Prelude.
From S2P Require Import GoErrors.
From S2P Require Import GoStrconv.
From S2P Require Import GoText.
From S2P Require Import GoTime.
From S2P Require Import ApiTypes.
From S2P Require Import CsiaddonsTypes.
From S2P Require Import Effects.
From S2P Require Import ControllerUtil.
From S2P Require Import JobController.

Class CronJob (A : Type) `{HasMeta A} := {
  cj_Spec : A -> CronJobSpec;
  cj_Status : A -> CronJobStatus;
  set_cj_Spec : A -> CronJobSpec -> A;
  set_cj_Status : A -> CronJobStatus -> A;
  cj_Spec_set_Spec j s : cj_Spec (set_cj_Spec j s) = s;
  cj_Spec_set j s : cj_Spec (set_cj_Status j s) = cj_Spec j;
  cj_Spec_set_meta j m : cj_Spec (set_meta j m) = cj_Spec j;
  cj_Status_set j s : cj_Status (set_cj_Status j s) = s;
  cj_meta_set_Spec j s : meta (set_cj_Spec j s) = meta j;
  cj_meta_set j s : meta (set_cj_Status j s) = meta j
}.
#[global, refine] Instance RSCronJob_CronJob : CronJob ReclaimSpaceCronJob := {|
  cj_Spec := rscj_Spec; cj_Status := rscj_Status;
  set_cj_Spec j s := mkRSCronJob j.(rscj_meta) s j.(rscj_Status);
  set_cj_Status j s := mkRSCronJob j.(rscj_meta) j.(rscj_Spec) s |}.
Proof. all: done. Defined.
#[global, refine] Instance KRCronJob_CronJob : CronJob EncryptionKeyRotationCronJob := {|
  cj_Spec := krcj_Spec; cj_Status := krcj_Status;
  set_cj_Spec j s := mkKRCronJob j.(krcj_meta) s j.(krcj_Status);
  set_cj_Status j s := mkKRCronJob j.(krcj_meta) j.(krcj_Spec) s |}.
Proof. all: done. Defined.

Definition apiGVStr := "csiaddons.openshift.io/v1alpha1".
Definition scheduledTimeAnnotation := "csiaddons.openshift.io/scheduled-at".
Definition JobOwnerKey := ".metadata.controller".

(** ** Schedules *)

Section schedule.
(** The cron library: a parsed schedule is its Next function. *)
Variable ParseStandard : string -> error + (Z -> Z).

(** The loop over the missed starts: at most [n] of them; [None] when there are
    more. *)
Fixpoint missed_loop (n : nat) (Next : Z -> Z) (now t lastMissed : Z) : option Z :=
  if (now <? t)%Z then Some lastMissed
  else match n with
       | O => None
       | S n => missed_loop n Next now (Next t) t
       end.

Definition earliest_time (creation : option Z) (last : option Z) (deadline : option Z) (now : Z) : Z :=
  let earliest := match last with Some t => t | None => default zero_time creation end in
  match deadline with
  | Some d =>
    let schedulingDeadline := (now + int64 (- second * d))%Z in
    if (earliest <? schedulingDeadline)%Z then schedulingDeadline else earliest
  | None => earliest
  end.

(** The last start that was missed (the zero time when there is none) and the
    next start. *)
Definition next_schedule (too_many : string) (schedule : string) (creation last deadline : option Z) (now : Z)
    : error + Z * Z :=
  match ParseStandard schedule with
  | inl err => inl (ErrorString ("unparsable schedule " +:+ go_quote schedule +:+ ": " +:+ Error err))
  | inr Next =>
    let earliest := earliest_time creation last deadline now in
    if (now <? earliest)%Z then inr (zero_time, Next now)
    else match missed_loop 100 Next now (Next earliest) zero_time with
         | None => inl (ErrorString too_many)
         | Some lastMissed => inr (lastMissed, Next now)
         end
  end.
End schedule.

(** ** The jobs of a cron job *)

Section jobs.
Context (kj : kind) `{Job (obj_of kj)}.

Record childJobsInfo := mkChildJobs {
  activeJob : option (obj_of kj);
  successfulJobs : list (obj_of kj);
  failedJobs : list (obj_of kj);
  mostRecentTime : option Z;
  lastSuccessfulTime : option Z
}.

Definition getScheduledTime (j : obj_of kj) : option (option Z) :=
  let timeRaw := annotation j scheduledTimeAnnotation in
  if bool_decide (timeRaw = "") then Some None
  else match ParseRFC3339 timeRaw with
       | None => None
       | Some t => Some (Some t)
       end.

(** [later a t]: [t] if there is no [a] or [a] is before it. *)
Definition later (a : option Z) (t : Z) : option Z :=
  match a with Some a' => if (a' <? t)%Z then Some t else a | None => Some t end.

(** The lists and the time of the last success; [None] is the nil dereference of
    the completion time. *)
Definition classify (info : childJobsInfo) (j : obj_of kj) : option childJobsInfo :=
  let '(mkChildJobs active succ fail recent last) := info in
  let res := (job_Status j).(js_Result) in
  if bool_decide (res = "") then Some (mkChildJobs (Some j) succ fail recent last)
  else if bool_decide (res = OperationResultFailed) then Some (mkChildJobs active succ (fail ++ [j]) recent last)
  else if bool_decide (res = OperationResultSucceeded) then
    match last, (job_Status j).(js_CompletionTime) with
    | None, None => None
    | None, Some t => Some (mkChildJobs active (succ ++ [j]) fail recent (Some t))
    | Some l, Some t => Some (mkChildJobs active (succ ++ [j]) fail recent (later (Some l) t))
    | Some l, None => Some (mkChildJobs active (succ ++ [j]) fail recent (Some l))
    end
  else Some info.

Definition note_schedule (info : childJobsInfo) (j : obj_of kj) : childJobsInfo :=
  let '(mkChildJobs active succ fail recent last) := info in
  match getScheduledTime j with
  | Some (Some t) => mkChildJobs active succ fail (later recent t) last
  | _ => info
  end.

Fixpoint parse_jobs (info : childJobsInfo) (l : list (obj_of kj)) : option childJobsInfo :=
  match l with
  | [] => Some info
  | j :: l =>
    match classify info j with
    | None => None
    | Some info => parse_jobs (note_schedule info j) l
    end
  end.
Definition parseJobList (l : list (obj_of kj)) : option childJobsInfo :=
  parse_jobs (mkChildJobs None [] [] None None) l.

(** Jobs by start time; those without one come first. *)
Definition start_le (a b : obj_of kj) : Prop :=
  match (job_Status a).(js_StartTime), (job_Status b).(js_StartTime) with
  | None, _ => True
  | Some _, None => False
  | Some x, Some y => (x <= y)%Z
  end.
#[global] Instance start_le_dec a b : Decision (start_le a b).
Proof. unfold start_le. destruct (js_StartTime (job_Status a)), (js_StartTime (job_Status b)); apply _. Defined.

(** The loop stops at the first index i with int32(i) >= int32(len) - limit. *)
Fixpoint delete_before (i n limit : Z) (l : list (obj_of kj)) : M unit :=
  match l with
  | [] => mret tt
  | j :: l =>
    if (int32 (int32 n - limit) <=? int32 i)%Z then mret tt
    else _ ← call (EDelete kj j); delete_before (i + 1) n limit l
  end.

(** sort.Slice is not stable: the run-time's choice of an order among equals is
    asked for like that of a range. *)
Definition deleteOldJobs (l : list (obj_of kj)) (limit : Z) : M unit :=
  seed ← call ERange;
  delete_before 0 (Z.of_nat (length l)) limit (merge_sort start_le (pick_order seed l)).
End jobs.

Arguments activeJob {kj} _.
Arguments successfulJobs {kj} _.
Arguments failedJobs {kj} _.
Arguments mostRecentTime {kj} _.
Arguments lastSuccessfulTime {kj} _.

(** ** The controller *)

Section cron.
Context (kc kj : kind) `{CronJob (obj_of kc)} `{Job (obj_of kj)}.
(** The cron library; the offset of the local zone at an instant; the scheme's
    answers for the job and the cron job; an empty job. *)
Variable ParseStandard : string -> error + (Z -> Z).
Variable zone : Z -> Z.
Variables job_gvk cron_gvk : error + string * string.
Variable blank_job : obj_of kj.
(** Where the two controllers differ. *)
Variables (too_many : string) (failed_first requeue_unconstructed : bool).

Definition getNextSchedule (c : obj_of kc) (now : Z) : error + Z * Z :=
  next_schedule ParseStandard too_many (cj_Spec c).(Schedule) (meta c).(CreationTimestamp)
    (cj_Status c).(LastScheduleTime) (cj_Spec c).(StartingDeadlineSeconds) now.

(** reference.GetReference. *)
Definition GetReference (j : obj_of kj) : error + ObjectReference :=
  match job_gvk with
  | inl err => inl err
  | inr (apiVersion, kind) =>
    inr (mkObjectReference apiVersion kind (obj_Name j) (obj_Namespace j) (meta j).(UID))
  end.

Definition constructJob (c : obj_of kc) (scheduledTime : Z) : error + obj_of kj :=
  let template := (cj_Spec c).(cj_JobSpec) in
  let name := obj_Name c +:+ "-" +:+ Itoa (Unix scheduledTime) in
  let annotations :=
    <[scheduledTimeAnnotation := FormatRFC3339 (zone scheduledTime) scheduledTime]> template.(jt_Annotations) in
  let m := mkObjectMeta name (obj_Namespace c) "" 0 None None annotations template.(jt_Labels) [] [] in
  let job := set_job_Spec (set_meta blank_job m) template.(jt_Spec) in
  match SetControllerReference cron_gvk c job with
  | (_, Some err) => inl err
  | (job, None) => inr job
  end.

(** The status that the jobs justify. *)
Definition new_status (old : CronJobStatus) (info : childJobsInfo kj) : CronJobStatus :=
  mkCronJobStatus
    match info.(activeJob) with
    | Some j => match GetReference j with inr r => Some r | inl _ => None end
    | None => None
    end
    info.(mostRecentTime)
    match info.(lastSuccessfulTime) with Some t => Some t | None => old.(LastSuccessfulTime) end.

(** The end: a start was missed, and it is not too late. *)
Definition start_job (c : obj_of kc) (active : option (obj_of kj)) (missedRun : Z) (scheduledResult : Result) : M result :=
  r ← (if bool_decide ((cj_Spec c).(ConcurrencyPolicy) = ReplaceConcurrent) then
         match active with
         | None => Panic "nil pointer dereference"
         | Some j =>
           err ← call (EDelete kj j);
           mret match IgnoreNotFound err with Some _ => err | None => None end
         end
       else mret None);
  match r with
  | Some err => mret (no_requeue, Some err)
  | None =>
    match active with
    | Some _ => mret (scheduledResult, None)
    | None =>
      match constructJob c missedRun with
      | inl err => mret (if requeue_unconstructed then (no_requeue, Some err) else (scheduledResult, None))
      | inr job =>
        r ← call (ECreate kj job);
        match r with
        | inl err => mret (no_requeue, Some err)
        | inr _ => mret (scheduledResult, None)
        end
      end
    end
  end.

Definition schedule_job (c : obj_of kc) (active : option (obj_of kj)) : M result :=
  if default false (cj_Spec c).(Suspend) then mret (no_requeue, None)
  else
  now ← call ENow;
  match getNextSchedule c now with
  | inl _ => mret (no_requeue, None)
  | inr (missedRun, nextRun) =>
    now ← call ENow;
    let scheduledResult := mkResult false (time_Sub nextRun now) in
    if (missedRun =? zero_time)%Z then mret (scheduledResult, None)
    else
    tooLate ← match (cj_Spec c).(StartingDeadlineSeconds) with
              | Some d => now ← call ENow; mret ((missedRun + int64 (d * second)) <? now)%Z
              | None => mret false
              end;
    if (tooLate : bool) then mret (scheduledResult, None)
    else start_job c active missedRun scheduledResult
  end.

(** deleteOldJobs with a limit that is dereferenced at the call. *)
Definition trim (l : list (obj_of kj)) (limit : option Z) : M unit :=
  match limit with
  | None => Panic "nil pointer dereference"
  | Some limit => deleteOldJobs kj l limit
  end.

(** After the status was written. *)
Definition trim_history (c : obj_of kc) (info : childJobsInfo kj) : M unit :=
  if failed_first then
    _ ← trim info.(failedJobs) (cj_Spec c).(FailedJobsHistoryLimit);
    trim info.(successfulJobs) (cj_Spec c).(SuccessfulJobsHistoryLimit)
  else
    _ ← trim info.(successfulJobs) (cj_Spec c).(SuccessfulJobsHistoryLimit);
    trim info.(failedJobs) (cj_Spec c).(FailedJobsHistoryLimit).

(** A cron job as fetched, not being deleted. *)
Definition sync_cron (c : obj_of kc) (req : NamespacedName) : M result :=
  match (cj_Spec c).(FailedJobsHistoryLimit), (cj_Spec c).(SuccessfulJobsHistoryLimit) with
  | Some _, Some _ =>
    r ← call (EListField kj JobOwnerKey (nn_Name req) (nn_Namespace req));
    match r with
    | inl err => mret (no_requeue, Some err)
    | inr childJobs =>
      match parseJobList kj childJobs with
      | None => Panic "nil pointer dereference"
      | Some info =>
        '(c, err) ← status_update_obj kc (set_cj_Status c (new_status (cj_Status c) info));
        match err with
        | Some err => mret (no_requeue, Some err)
        | None =>
          _ ← trim_history c info;
          schedule_job c info.(activeJob)
        end
      end
    end
  | _, _ => Panic "nil pointer dereference"
  end.

Definition reconcile_cron (req : NamespacedName) : M result :=
  r ← get_obj kc req;
  match r with
  | inl err => if IsNotFound err then mret (no_requeue, None) else mret (no_requeue, Some err)
  | inr c => if is_deleting c then mret (no_requeue, None) else sync_cron c req
  end.

(** The field index: the controller of a job, if it is a cron job of this kind. *)
Definition job_owner (cronKind : string) (j : obj_of kj) : list string :=
  match GetControllerOf j with
  | None => []
  | Some owner =>
    if negb (bool_decide (owner.(or_APIVersion) = apiGVStr)) || negb (bool_decide (owner.(or_Kind) = cronKind))
    then [] else [owner.(or_Name)]
  end.
End cron.

Definition blank_status : JobStatus := mkJobStatus "" "" None [] 0 None None.
Definition blank_spec : JobSpec := mkJobSpec "" 0 0 None.

(** ** ReclaimSpaceCronJob *)
Module ReclaimSpaceCron.
Section reconciler.
Variables (ParseStandard : string -> error + (Z -> Z)) (zone : Z -> Z).
Variables job_gvk cron_gvk : error + string * string.

Definition too_many := "too many missed start times (> 100); set or decrease .spec.startingDeadlineSeconds, check clock skew or delete and recreate reclaimspacecronjob".

Definition parseJobList (l : list ReclaimSpaceJob) : option (childJobsInfo KReclaimSpaceJob) :=
  CronJobController.parseJobList KReclaimSpaceJob l.
Definition getScheduledTimeForRSJob (j : ReclaimSpaceJob) : option (option Z) := getScheduledTime KReclaimSpaceJob j.
Definition deleteOldJobs (l : list ReclaimSpaceJob) (limit : Z) : M unit :=
  CronJobController.deleteOldJobs KReclaimSpaceJob l limit.
Definition getNextSchedule (c : ReclaimSpaceCronJob) (now : Z) : error + Z * Z :=
  CronJobController.getNextSchedule KReclaimSpaceCronJob ParseStandard too_many c now.
Definition blank : ReclaimSpaceJob := mkRSJob (new_meta "" "") blank_spec blank_status.
Definition constructRSJobForCronJob (c : ReclaimSpaceCronJob) (t : Z) : error + ReclaimSpaceJob :=
  constructJob KReclaimSpaceCronJob KReclaimSpaceJob zone cron_gvk blank c t.

(** Successful jobs are trimmed first; a job that cannot be constructed waits
    for the next start. *)
Definition Reconcile (req : NamespacedName) : M result :=
  reconcile_cron KReclaimSpaceCronJob KReclaimSpaceJob ParseStandard zone job_gvk cron_gvk blank
    too_many false false req.

Definition owner_index (j : ReclaimSpaceJob) : list string := job_owner KReclaimSpaceJob "ReclaimSpaceCronJob" j.
End reconciler.
End ReclaimSpaceCron.

(** ** EncryptionKeyRotationCronJob *)
Module KeyRotationCron.
Section reconciler.
Variables (ParseStandard : string -> error + (Z -> Z)) (zone : Z -> Z).
Variables job_gvk cron_gvk : error + string * string.

Definition too_many := "too many missed start times (> 100). Set or decrease.spec.startingDeadlineSeconds, check clock skew or delete and recreate encryptionkeyrotationjob".

Definition parseEncryptionKeyRotationJobList (l : list EncryptionKeyRotationJob)
    : option (childJobsInfo KEncryptionKeyRotationJob) :=
  CronJobController.parseJobList KEncryptionKeyRotationJob l.
Definition getScheduledTimeForEKRJob (j : EncryptionKeyRotationJob) : option (option Z) :=
  getScheduledTime KEncryptionKeyRotationJob j.
Definition deleteOldEncryptionKeyRotationJobs (l : list EncryptionKeyRotationJob) (limit : Z) : M unit :=
  CronJobController.deleteOldJobs KEncryptionKeyRotationJob l limit.
Definition getNextScheduleForKeyRotation (c : EncryptionKeyRotationCronJob) (now : Z) : error + Z * Z :=
  CronJobController.getNextSchedule KEncryptionKeyRotationCronJob ParseStandard too_many c now.
Definition blank : EncryptionKeyRotationJob := mkKRJob (new_meta "" "") blank_spec blank_status.
Definition constructEncryptionKeyRotationJob (c : EncryptionKeyRotationCronJob) (t : Z)
    : error + EncryptionKeyRotationJob :=
  constructJob KEncryptionKeyRotationCronJob KEncryptionKeyRotationJob zone cron_gvk blank c t.

(** Failed jobs are trimmed first; a job that cannot be constructed is an error. *)
Definition Reconcile (req : NamespacedName) : M result :=
  reconcile_cron KEncryptionKeyRotationCronJob KEncryptionKeyRotationJob ParseStandard zone job_gvk cron_gvk blank
    too_many true true req.

Definition owner_index (j : EncryptionKeyRotationJob) : list string :=
  job_owner KEncryptionKeyRotationJob "EncryptionKeyRotationCronJob" j.
End reconciler.
End KeyRotationCron.
