(* ===== verification/CronJobProofs.v ===== *)
(** * The cron job controllers keep their promises

    The schedule arithmetic is exact, the jobs of a cron job are told apart
    correctly, only surplus jobs are deleted, and a start is never run twice. *)

From S2P Require Import Prelude.
From S2P Require Import GoErrors.
From S2P Require Import GoStrconv.
From S2P Require Import GoText.
From S2P Require Import GoTime.
From S2P Require Import ApiTypes.
From S2P Require Import CsiaddonsTypes.
From S2P Require Import Effects.
From S2P Require Import ControllerUtil.
From S2P Require Import JobController.
From S2P Require Import CronJobController.

Open Scope Z_scope.

(** ** Schedules *)

(** The cron library gives up after five years, counted from the year it is asked in. *)
Definition six_years : Z := 6 * 366 * 86400 * second.

(** The two kinds of schedule that the cron library parses.  A calendar schedule
    gives the first activation after a time, or the zero time when it finds none;
    one with a constant delay always gives a later time.  Both are on the second. *)
Class Calendar (Next : Z -> Z) (due : Z -> Prop) : Prop := {
  due_whole u : due u -> (second | u);
  Next_first t : Next t = zero_time \/
    due (Next t) /\ t < Next t <= t + six_years /\ forall u, t < u -> due u -> Next t <= u
}.
Class Delay (Next : Z -> Z) : Prop := {
  Delay_whole t : (second | Next t);
  Delay_later t : t < Next t
}.

(** What the two have in common. *)
Class OnTheSecond (Next : Z -> Z) : Prop := {
  Next_whole t : (second | Next t);
  Next_later : (forall t, t < Next t) \/ forall t, Next t = zero_time \/ t < Next t <= t + six_years
}.
Lemma Next_step Next due `{!Calendar Next due} t : Next t = zero_time \/ t < Next t <= t + six_years.
Proof. destruct (Next_first t) as [H|(_ & H & _)]; auto. Qed.
#[export] Instance Calendar_OnTheSecond Next due `{!Calendar Next due} : OnTheSecond Next.
Proof.
  split.
  - intros t. destruct (Next_first t) as [->|[H _]]; [by exists (-62135596800)|by eapply due_whole].
  - right. apply (Next_step _ due).
Qed.
#[export] Instance Delay_OnTheSecond Next `{!Delay Next} : OnTheSecond Next.
Proof. split; [apply Delay_whole|left; apply Delay_later]. Qed.

(** The starts in a half-open interval. *)
Definition missed (due : Z -> Prop) (from upto : Z) (t : Z) : Prop := due t /\ from < t <= upto.
Definition last_missed (due : Z -> Prop) (from upto t : Z) : Prop :=
  missed due from upto t /\ forall u, missed due from upto u -> u <= t.
(** At least [n] different ones. *)
Definition many_missed (due : Z -> Prop) (from upto : Z) (n : nat) : Prop :=
  exists l, length l = n /\ NoDup l /\ Forall (missed due from upto) l.

(** The times as numbers, for arithmetic. *)
Lemma six_years_ns : six_years = 189734400000000000.
Proof. done. Qed.
Lemma zero_time_ns : zero_time = -62135596800000000000.
Proof. done. Qed.
Ltac years := rewrite ?six_years_ns, ?zero_time_ns in *; lia.

(** From the zero time the search does not get to the present: it moves at most
    six years a round. *)
Lemma missed_loop_stuck Next now n k t last :
  (forall t, Next t = zero_time \/ t < Next t <= t + six_years) -> 0 <= now ->
  (n + k <= 101)%nat -> t <= zero_time + Z.of_nat k * six_years -> missed_loop n Next now t last = None.
Proof.
  intros Hstep Hnow. revert k t last. induction n as [|n IH]; intros k t last Hk Ht; cbn [missed_loop].
  all: assert (zero_time + Z.of_nat k * six_years < 0) by years.
  all: destruct (Z.ltb_spec now t); [lia|].
  { done. }
  apply (IH (S k)); [lia|]. destruct (Hstep t) as [Hz|?]; [rewrite Hz|]; years.
Qed.

(** What the search reports is on the second and, when the clock is past 1970, after
    the time it starts from. *)
Lemma missed_loop_after Next `{!OnTheSecond Next} n now from last m :
  missed_loop n Next now (Next from) last = Some m -> m = last \/
  (second | m) /\ (0 <= now -> (n <= 100)%nat -> from < m <= now).
Proof.
  revert from last. induction n as [|n IH]; intros from last; cbn [missed_loop]; destruct (Z.ltb_spec now (Next from)) as [|Hle].
  1,3: intros [= <-]; by left.
  { done. }
  intros Hm. assert (0 <= now -> (S n <= 100)%nat -> from < Next from) as Hlt.
  { intros Hnow Hn. destruct Next_later as [|Hstep]; [done|]. destruct (Hstep from) as [Hz|?]; [exfalso|lia].
    by rewrite (missed_loop_stuck _ _ n 1) in Hm; [|done|done|lia|rewrite Hz; destruct (Hstep zero_time) as [->|?]; years]. }
  right. destruct (IH _ _ Hm) as [->|[Hw Ha]].
  - split; [apply Next_whole|]. intros. split; [auto|lia].
  - split; [done|]. intros Hnow Hn. specialize (Hlt Hnow Hn). specialize (Ha Hnow). lia.
Qed.

(** *** The search is exact *)

Section schedule.
(** [at_ t] is a time at which the search may ask; [stuck t] one from which it does
    not come back. *)
Context (Next : Z -> Z) (now : Z) (at_ due stuck : Z -> Prop).
Context (Hstep : forall t, at_ t -> stuck t \/
  at_ (Next t) /\ due (Next t) /\ t < Next t /\ forall u, t < u -> due u -> Next t <= u).
Context (Hstuck : forall n t last, stuck t -> (n <= 100)%nat -> missed_loop n Next now (Next t) last = None).

Lemma missed_loop_spec n from last : at_ from -> from <= now -> (n <= 100)%nat ->
  match missed_loop n Next now (Next from) last with
  | Some m => (m = last /\ forall u, ~ missed due from now u) \/ last_missed due from now m
  | None => many_missed due from now (S n) \/ exists t, from <= t <= now /\ stuck t
  end.
Proof.
  revert from last. induction n as [|n IH]; intros from last Hat Hfrom Hn.
  all: destruct (Hstep from Hat) as [Hs|(Hat' & Hdue & Hlt & Hfirst)]; [rewrite Hstuck by done; right; by exists from|].
  all: cbn [missed_loop]; destruct (Z.ltb_spec now (Next from)) as [|Hge].
  1,3: left; split; [done|]; intros u [Hu [H1 H2]]; pose proof (Hfirst u H1 Hu); lia.
  all: assert (missed due from now (Next from)) as Hmiss by done.
  { left. exists [Next from]. split_and!; [done|apply NoDup_singleton|by apply Forall_singleton]. }
  assert (forall u, missed due (Next from) now u -> missed due from now u) as Hweak.
  { intros u [Hu ?]. split; [done|lia]. }
  assert (forall u, missed due from now u -> u = Next from \/ missed due (Next from) now u) as Hsplit.
  { intros u [Hu [H1 H2]]. pose proof (Hfirst u H1 Hu). destruct (decide (u = Next from)); [by left|right]. by split; [|lia]. }
  specialize (IH (Next from) (Next from) Hat' Hge ltac:(lia)). destruct (missed_loop _ _ _ _ _) as [m|].
  - right. destruct IH as [[-> Hno]|[Hm Hmax]].
    + split; [done|]. intros u Hu. destruct (Hsplit _ Hu) as [->|Hu']; [done|by destruct (Hno u)].
    + split; [by apply Hweak|]. intros u Hu. destruct (Hsplit _ Hu) as [->|Hu']; [|auto]. destruct Hm as [_ ?]. lia.
  - destruct IH as [(l & Hl & Hnd & Hall)|(t & Ht & Hs)]; [left|right; exists t; split; [lia|done]].
    exists (Next from :: l). split_and!; [simpl; lia| |].
    + apply NoDup_cons. split; [|done]. intros Hin. rewrite Forall_forall in Hall. destruct (Hall _ Hin) as [_ ?]. lia.
    + apply Forall_cons. split; [done|]. by eapply Forall_impl.
Qed.
End schedule.

(** The starts of a schedule with a delay, counted from a time. *)
Definition repeats (Next : Z -> Z) (from u : Z) : Prop := exists k, u = Nat.iter (S k) Next from.

Lemma iter_later Next `{!Delay Next} from a b : (a < b)%nat -> Nat.iter a Next from < Nat.iter b Next from.
Proof. intros Hab. induction Hab as [|b _ IH]; cbn [Nat.iter nat_rect]; [apply Delay_later|]. etrans; [exact IH|apply Delay_later]. Qed.

Lemma repeats_first Next `{!Delay Next} from t u :
  t = from \/ repeats Next from t -> t < u -> repeats Next from u -> Next t <= u.
Proof.
  intros Ht Htu [b ->]. assert (exists a, t = Nat.iter a Next from) as [a ->].
  { destruct Ht as [->|[a ->]]; [by exists 0%nat|by exists (S a)]. }
  destruct (decide (a < S b)%nat) as [Hab|Hab].
  - change (Next (Nat.iter a Next from)) with (Nat.iter (S a) Next from).
    destruct (decide (S a = S b)) as [->|]; [done|]. apply Z.lt_le_incl, iter_later; [done|lia].
  - destruct (decide (a = S b)) as [->|]; [lia|]. pose proof (iter_later Next from (S b) a). lia.
Qed.

Section cron_schedule.
Context (kc : kind) `{CronJob (obj_of kc)} (ParseStandard : string -> error + (Z -> Z)) (too_many : string).

(** Where the search for missed starts begins. *)
Definition search_from (c : obj_of kc) (now : Z) : Z :=
  earliest_time (meta c).(CreationTimestamp) (cj_Status c).(LastScheduleTime)
    (cj_Spec c).(StartingDeadlineSeconds) now.

(** The missed start is the last one, or there was none; the error comes only from
    more than 100 missed starts, or for the reason [otherwise]. *)
Definition missed_answer (due is_next : Z -> Prop) (otherwise : Prop) (from now : Z) (r : error + Z * Z) : Prop :=
  match r with
  | inr (m, next) =>
    is_next next /\ ((m = zero_time /\ forall u, ~ missed due from now u) \/ last_missed due from now m)
  | inl err => err = ErrorString too_many /\ (many_missed due from now 101 \/ otherwise)
  end.

Definition schedule_answer (c : obj_of kc) (now : Z) (r : error + Z * Z) : Prop :=
  let from := search_from c now in
  match ParseStandard (cj_Spec c).(Schedule) with
  | inl err => r = inl (ErrorString ("unparsable schedule " +:+ go_quote (cj_Spec c).(Schedule) +:+ ": " +:+ Error err))
  | inr Next =>
    (forall due, Calendar Next due -> 0 <= now ->
      missed_answer due
        (fun next => Next now = zero_time /\ next = zero_time \/
           due next /\ now < next /\ forall u, due u -> now < u -> next <= u)
        (exists t, from <= t <= now /\ Next t = zero_time) from now r) /\
    (Delay Next -> missed_answer (repeats Next from) (fun next => next = Next now) False from now r) /\
    ((forall t, Next t = zero_time) -> 0 <= now ->
      r = if now <? from then inr (zero_time, zero_time) else inl (ErrorString too_many))
  end.

Lemma never_fires Next n now from last : (forall t, Next t = zero_time) -> 0 <= now ->
  missed_loop n Next now (Next from) last = None.
Proof.
  intros Hz Hnow. revert from last. assert (zero_time < 0) by done.
  induction n as [|n IH]; intros from last; cbn [missed_loop]; (destruct (Z.ltb_spec now (Next from)) as [Hlt|]; [rewrite Hz in Hlt; lia|done]) .
Qed.

Lemma getNextSchedule_spec (c : obj_of kc) now :
  schedule_answer c now (getNextSchedule kc ParseStandard too_many c now).
Proof.
  unfold schedule_answer, getNextSchedule, next_schedule. destruct (ParseStandard _) as [err|Next]; [done|].
  fold (search_from c now). set (from := search_from c now). split_and!.
  - intros due Hcal Hnow. unfold missed_answer.
    assert (Next now = zero_time /\ Next now = zero_time \/
      due (Next now) /\ now < Next now /\ forall u, due u -> now < u -> Next now <= u) as Hnext.
    { destruct (Next_first (due:=due) now) as [?|(Hd & Hl & Hf)]; [by left|right]. split_and!; [done|lia|]. intros. by apply Hf. }
    destruct (Z.ltb_spec now from) as [Hlt|Hge].
    + split; [done|]. left. split; [done|]. intros u [_ ?]. lia.
    + pose proof (missed_loop_spec Next now (fun _ => True) due (fun t => Next t = zero_time)) as Hloop.
      specialize (Hloop ltac:(intros t _; destruct (Next_first (due:=due) t) as [?|(? & ? & ?)]; [by left|right; split_and!; [done..|lia|done]])).
      specialize (Hloop ltac:(intros n t last Hz Hn; apply (missed_loop_stuck _ _ _ 0); [apply (Next_step _ due)|lia|lia|rewrite Hz; lia])).
      specialize (Hloop 100%nat from zero_time I Hge ltac:(lia)).
      destruct (missed_loop _ _ _ _ _); [by split|]. split; [done|]. exact Hloop.
  - intros Hdel. unfold missed_answer. destruct (Z.ltb_spec now from) as [Hlt|Hge].
    + split; [done|]. left. split; [done|]. intros u [_ ?]. lia.
    + pose proof (missed_loop_spec Next now (fun t => t = from \/ repeats Next from t) (repeats Next from) (fun _ => False)) as Hloop.
      assert (forall t, t = from \/ repeats Next from t -> repeats Next from (Next t)) as Hrep.
      { intros t [->|[k ->]]; [by exists 0%nat|by exists (S k)]. }
      specialize (Hloop ltac:(intros t Ht; right; split_and!; [right; by apply Hrep|by apply Hrep|apply Delay_later|intros u ? ?; by apply (repeats_first Next from t)])).
      specialize (Hloop ltac:(done) 100%nat from zero_time (or_introl eq_refl) Hge ltac:(lia)).
      destruct (missed_loop _ _ _ _ _); [by split|]. split; [done|]. destruct Hloop as [|(t & _ & [])]. by left.
  - intros Hz Hnow. destruct (Z.ltb_spec now from); [by rewrite Hz|]. by rewrite never_fires.
Qed.

(** A start that is reported as missed is on the second and comes after the last one
    that was scheduled. *)
Lemma getNextSchedule_after Next `{!OnTheSecond Next} (c : obj_of kc) now m next :
  ParseStandard (cj_Spec c).(Schedule) = inr Next ->
  getNextSchedule kc ParseStandard too_many c now = inr (m, next) -> m ≠ zero_time ->
  (second | m) /\ (0 <= now -> forall last, (cj_Status c).(LastScheduleTime) = Some last -> last < m <= now).
Proof.
  unfold getNextSchedule, next_schedule. intros -> Hget Hm. destruct (Z.ltb_spec now (earliest_time (meta c).(CreationTimestamp)
    (cj_Status c).(LastScheduleTime) (cj_Spec c).(StartingDeadlineSeconds) now)); [by simplify_eq|].
  destruct (missed_loop _ _ _ _ _) as [m'|] eqn:Hloop; [|done]. injection Hget as -> _.
  apply missed_loop_after in Hloop as [?|[Hw Ha]]; [done| |done]. split; [done|]. intros Hnow last Hlast.
  specialize (Ha Hnow ltac:(lia)). unfold earliest_time in Ha. rewrite Hlast in Ha. repeat case_match; rewrite ?Z.ltb_lt in *; lia.
Qed.
End cron_schedule.

(** ** The jobs of a cron job *)

(** [o] is the newest of the times. *)
Definition newest_of (l : list Z) (o : option Z) : Prop :=
  match o with
  | None => l = []
  | Some t => t ∈ l /\ forall u, u ∈ l -> u <= t
  end.

Lemma newest_of_later l o t : newest_of l o -> newest_of (l ++ [t]) (later o t).
Proof.
  unfold later. destruct o as [a|]; cbn.
  - intros [Ha Hmax]. destruct (Z.ltb_spec a t); cbn; (split; [set_solver|]);
      intros u Hu; apply elem_of_app in Hu as [Hu| ->%list_elem_of_singleton]; try lia; specialize (Hmax u Hu); lia.
  - intros ->. cbn. split; [set_solver|]. set_solver by lia.
Qed.

Section jobs.
Context (kj : kind) `{Job (obj_of kj)}.
Abbreviation job := (obj_of kj).

Definition has_result (r : string) (j : job) : Prop := (job_Status j).(js_Result) = r.
#[global] Instance has_result_dec r j : Decision (has_result r j).
Proof. unfold has_result. apply _. Defined.
Definition scheduled (j : job) : option Z :=
  match getScheduledTime kj j with Some (Some t) => Some t | _ => None end.
Definition completed (j : job) : option Z :=
  if decide (has_result OperationResultSucceeded j) then (job_Status j).(js_CompletionTime) else None.

(** What is known after the jobs [l]. *)
Definition parsed (l : list job) (info : childJobsInfo kj) : Prop :=
  info.(activeJob) = last (filter (has_result "") l) /\
  info.(successfulJobs) = filter (has_result OperationResultSucceeded) l /\
  info.(failedJobs) = filter (has_result OperationResultFailed) l /\
  newest_of (omap scheduled l) info.(mostRecentTime) /\
  newest_of (omap completed l) info.(lastSuccessfulTime).

Lemma last_snoc_filter (P : job -> Prop) `{forall j, Decision (P j)} l j :
  last (filter P (l ++ [j])) = if decide (P j) then Some j else last (filter P l).
Proof.
  rewrite filter_app, filter_cons, filter_nil. case_decide; [by rewrite last_snoc|by rewrite app_nil_r].
Qed.

Lemma filter_snoc (P : job -> Prop) `{forall j, Decision (P j)} l j :
  filter P (l ++ [j]) = if decide (P j) then filter P l ++ [j] else filter P l.
Proof. rewrite filter_app, filter_cons, filter_nil. case_decide; [done|by rewrite app_nil_r]. Qed.

Lemma omap_snoc (f : job -> option Z) l j :
  omap f (l ++ [j]) = match f j with Some t => omap f l ++ [t] | None => omap f l end.
Proof. rewrite omap_app. cbn. destruct (f j); [done|by rewrite app_nil_r]. Qed.

Lemma note_schedule_eq a s f r c j :
  note_schedule kj (mkChildJobs kj a s f r c) j =
  mkChildJobs kj a s f (match scheduled j with Some u => later r u | None => r end) c.
Proof. unfold note_schedule, scheduled. by destruct (getScheduledTime kj j) as [[]|]. Qed.

Lemma newest_of_snoc (f : job -> option Z) l o j :
  newest_of (omap f l) o -> newest_of (omap f (l ++ [j])) (match f j with Some u => later o u | None => o end).
Proof. intros Ho. rewrite omap_snoc. destruct (f j); [by apply newest_of_later|done]. Qed.

Lemma classify_spec l info j :
  parsed l info ->
  match classify kj info j with
  | None => has_result OperationResultSucceeded j /\ info.(lastSuccessfulTime) = None /\
            (job_Status j).(js_CompletionTime) = None
  | Some info' => parsed (l ++ [j]) (note_schedule kj info' j)
  end.
Proof.
  intros (Ha & Hs & Hf & Hr & Hl). destruct info as [a s f r t]. cbn in *. subst a s f.
  apply (newest_of_snoc scheduled _ _ j) in Hr. apply (newest_of_snoc completed _ _ j) in Hl.
  unfold classify, parsed. rewrite last_snoc_filter, !filter_snoc. unfold completed at 2 in Hl.
  assert (forall x, bool_decide (js_Result (job_Status j) = x) = bool_decide (has_result x j)) as Hb by done.
  rewrite !Hb. clear Hb.
  repeat case_bool_decide; repeat case_decide; rewrite ?note_schedule_eq; cbn; try done;
    try (exfalso; unfold has_result, OperationResultSucceeded, OperationResultFailed in *; congruence).
  destruct t as [t|], (js_CompletionTime (job_Status j)) as [u|]; rewrite ?note_schedule_eq; by cbn.
Qed.

Lemma parse_jobs_spec l2 l1 info :
  parsed l1 info ->
  match parse_jobs kj info l2 with
  | Some info' => parsed (l1 ++ l2) info'
  | None => exists j, j ∈ l2 /\ has_result OperationResultSucceeded j /\ (job_Status j).(js_CompletionTime) = None
  end.
Proof.
  revert l1 info. induction l2 as [|j l2 IH]; intros l1 info Hinfo; cbn [parse_jobs]; [by rewrite app_nil_r|].
  pose proof (classify_spec l1 info j Hinfo) as Hc. destruct (classify kj info j) as [info'|].
  - specialize (IH _ _ Hc). rewrite <- app_assoc in IH. destruct (parse_jobs _ _ _); [done|].
    destruct IH as (j' & ? & ?). exists j'. set_solver.
  - exists j. set_solver.
Qed.

Lemma parseJobList_spec l :
  match parseJobList kj l with
  | Some info => parsed l info
  | None => exists j, j ∈ l /\ has_result OperationResultSucceeded j /\ (job_Status j).(js_CompletionTime) = None
  end.
Proof. apply (parse_jobs_spec l []). done. Qed.

(** *** Trimming the history *)

#[global] Instance start_le_total : Total (start_le kj).
Proof.
  intros a b. unfold start_le. destruct (js_StartTime (job_Status a)), (js_StartTime (job_Status b)); auto. lia.
Qed.
#[global] Instance start_le_trans : Transitive (start_le kj).
Proof.
  intros a b c. unfold start_le.
  destruct (js_StartTime (job_Status a)), (js_StartTime (job_Status b)), (js_StartTime (job_Status c)); try done. lia.
Qed.

(** The API server admits limits from 0 to 60. *)
Definition limit_ok (limit : Z) : Prop := 0 <= limit <= 60.

(** [limit] jobs of the list started no earlier than [j]. *)
Definition surplus (limit : Z) (l : list job) (j : job) : Prop :=
  exists newer, j :: newer ⊆+ l /\ limit <= Z.of_nat (length newer) /\ Forall (start_le kj j) newer.

(** The jobs that trimming leaves are the newest. *)
Definition trimmed (limit : Z) (l gone : list job) : Prop :=
  exists kept, gone ++ kept ≡ₚ l /\ Z.of_nat (length kept) = Z.min limit (Z.of_nat (length l)) /\
    Forall (fun a => Forall (start_le kj a) kept) gone.

Lemma delete_before_wp (G : hist -> event -> Prop) l i n limit h :
  0 <= i -> i + Z.of_nat (length l) = n -> n < 2 ^ 31 -> limit_ok limit ->
  (forall h pre j newer, l = pre ++ j :: newer -> limit <= Z.of_nat (length newer) -> G h (EDelete kj j)) ->
  wp G (fun h' o => o = Done tt /\
      observe (deleted kj) h' = rev (take (length l - Z.to_nat limit) l) ++ observe (deleted kj) h)
    h (delete_before kj i n limit l).
Proof.
  unfold limit_ok. revert i h. induction l as [|j l IH]; intros i h Hi Hn Hmax Hlim HG; cbn [delete_before]; [done|].
  cbn [length] in *. unfold int32. rewrite !(wrap_signed_id 32) by (rewrite ?(wrap_signed_id 32); lia).
  destruct (Z.leb_spec (n - limit) i).
  { replace (S (length l) - Z.to_nat limit)%nat with 0%nat by lia. done. }
  apply wp_call; [apply (HG _ [] j l); [done|lia]|]. intros r. cbn [mbind prog_bind].
  eapply wp_mono; [apply (IH (i + 1))|done|]; [lia..|lia|done| |].
  - intros h' pre j' newer ->. apply (HG h' (j :: pre)). done.
  - intros h' o [-> Ho]. split; [done|]. rewrite Ho, observe_cons.
    rewrite deleted_self.
    replace (S (length l) - Z.to_nat limit)%nat with (S (length l - Z.to_nat limit)) by lia.
    rewrite firstn_cons. cbn [rev]. by rewrite <- app_assoc.
Qed.

Lemma sorted_split (l : list job) : StronglySorted (start_le kj) l ->
  forall pre j newer, l = pre ++ j :: newer -> Forall (start_le kj j) newer.
Proof.
  intros Hs pre. revert l Hs. induction pre as [|a pre IH]; intros l Hs j newer ->; inversion Hs; subst; [done|].
  by eapply IH.
Qed.

Lemma sorted_take n (l : list job) : StronglySorted (start_le kj) l ->
  Forall (fun a => Forall (start_le kj a) (drop n l)) (take n l).
Proof.
  revert n. induction l as [|a l IH]; intros [|n] Hs; try done. inversion Hs as [|? ? Hs' Ha]; subst. cbn.
  apply Forall_cons. split; [by apply Forall_drop|by apply IH].
Qed.

(** Every job deleted is surplus, and what is left are the newest jobs. *)
Lemma deleteOldJobs_exact_wp (G : hist -> event -> Prop) l limit h :
  Z.of_nat (length l) < 2 ^ 31 -> limit_ok limit ->
  (forall h, G h ERange) -> (forall h j, surplus limit l j -> G h (EDelete kj j)) ->
  wp G (fun h' o => o = Done tt /\ exists gone, trimmed limit l gone /\
      observe (deleted kj) h' = rev gone ++ observe (deleted kj) h)
    h (deleteOldJobs kj l limit).
Proof.
  intros Hlen Hlim HR HG. unfold deleteOldJobs. apply wp_call; [apply HR|]. intros seed. cbn [mbind prog_bind].
  set (s := merge_sort (start_le kj) (pick_order seed l)).
  assert (s ≡ₚ l) as Hperm by (unfold s; by rewrite merge_sort_Permutation, pick_order_Permutation).
  assert (StronglySorted (start_le kj) s) as Hsort by apply (StronglySorted_merge_sort _ _).
  assert (length s = length l) as Hl by (by rewrite Hperm).
  eapply wp_mono; [apply delete_before_wp; rewrite ?Hl|done|]; try done; try lia.
  - intros h' pre j newer Hs Hn. apply HG. exists newer. split_and!; [|done|by eapply sorted_split].
    rewrite <- Hperm, Hs. by apply submseteq_inserts_l.
  - intros h' o [-> Ho]. split; [done|]. exists (take (length s - Z.to_nat limit) s). rewrite Ho, Hl. split; [|done].
    exists (drop (length l - Z.to_nat limit) s). split_and!.
    + by rewrite take_drop.
    + rewrite length_drop, Hl. unfold limit_ok in *. lia.
    + by apply sorted_take.
Qed.

Lemma deleteOldJobs_run ρ l limit :
  Z.of_nat (length l) < 2 ^ 31 -> limit_ok limit ->
  let '(h, o) := run ρ [] (deleteOldJobs kj l limit) in
  o = Done tt /\ trimmed limit l (rev (observe (deleted kj) h)).
Proof.
  intros Hlen Hlim. rewrite (surjective_pairing (run _ _ _)).
  pose proof (deleteOldJobs_exact_wp (fun _ _ => True) l limit [] Hlen Hlim ltac:(done) ltac:(done)) as Hwp.
  destruct (wp_run _ _ _ _ Hwp ltac:(done) ρ) as (_ & -> & gone & Htrim & ->). 
  split; [done|]. by rewrite app_nil_r, rev_involutive.
Qed.

(** Whatever the limit and the length, only jobs of the list are deleted. *)
Definition trim_call (limit : Z) (l : list job) (e : event) : Prop :=
  match e with
  | ERange => True
  | EDelete k j => exists Heq : k = kj, let j := eq_rect k obj_of j kj Heq in
      j ∈ l /\ (limit_ok limit -> Z.of_nat (length l) < 2 ^ 31 -> surplus limit l j)
  | _ => False
  end.

Lemma surplus_in limit l j : surplus limit l j -> j ∈ l.
Proof. intros (newer & Hsub & _). apply (elem_of_submseteq (j :: newer)); [set_solver|done]. Qed.

Lemma delete_before_calls l i n limit P :
  (forall j, j ∈ l -> P (EDelete kj j)) -> calls P (delete_before kj i n limit l).
Proof.
  revert i. induction l as [|j l IH]; intros i HP; cbn [delete_before]; [done|]. case_match; [done|].
  split; [apply HP; set_solver|]. intros r. apply IH. set_solver.
Qed.

Lemma deleteOldJobs_wp l limit h :
  wp (fun _ e => trim_call limit l e) (fun _ o => o = Done tt) h (deleteOldJobs kj l limit).
Proof.
  destruct (decide (0 <= limit <= 60 /\ Z.of_nat (length l) < 2 ^ 31)) as [[Hlim Hlen]|Hout].
  - eapply wp_mono; [apply (deleteOldJobs_exact_wp (fun _ e => trim_call limit l e))|done|]; [done..| |].
    + intros _ j Hj. exists eq_refl. split; [by eapply surplus_in|done].
    + by intros h' o [-> _].
  - unfold deleteOldJobs. apply wp_call; [done|]. intros seed. cbn [mbind prog_bind].
    eapply wp_mono; [apply no_panic_wp; [|apply (calls_wp (trim_call limit l)); [apply delete_before_calls|intros ? ? He; exact He]]|done|].
    + generalize 0 as i. generalize (Z.of_nat (length l)) as n. 
      induction (merge_sort _ _) as [|j l' IH]; intros n i; cbn [delete_before]; [done|]. case_match; [done|]. intros r. apply IH.
    + intros j Hj. exists eq_refl. rewrite merge_sort_Permutation, pick_order_Permutation in Hj.
      split; [done|]. intros ? ?. by destruct Hout.
    + intros h' o [_ [[] ->]]. done.
Qed.

Lemma deleteOldJobs_calls l limit : calls (trim_call limit l) (deleteOldJobs kj l limit).
Proof.
  pose proof (deleteOldJobs_wp l limit []) as Hwp. revert Hwp. generalize ([] : hist).
  induction (deleteOldJobs kj l limit) as [a|m|e k IH]; cbn; [done..|].
  intros h [He Hk]. split; [done|]. intros r. by eapply IH.
Qed.
End jobs.

(** ** The controller *)

Section contract.
Context (kc kj : kind) `{CronJob (obj_of kc)} `{Job (obj_of kj)}.
Context (ParseStandard : string -> error + (Z -> Z)) (zone : Z -> Z).
Context (job_gvk cron_gvk : error + string * string) (blank_job : obj_of kj).
Context (too_many : string) (failed_first requeue_unconstructed : bool).
Context (req : NamespacedName).

(** The cron job was read, its jobs were listed, and the status that they justify
    was accepted; [c] is what the server returned. *)
Definition synced (h : hist) (c : obj_of kc) (jobs : list (obj_of kj)) : Prop :=
  exists c0 info, newest (fetched kc) h = Some c0 /\ is_deleting c0 = false /\
    existT (EListField kj JobOwnerKey (nn_Name req) (nn_Namespace req)) (inr jobs) ∈ h /\
    parsed kj jobs info /\
    existT (EStatusUpdate kc (set_cj_Status c0 (new_status kj job_gvk (cj_Status c0) info))) (inr c) ∈ h.

(** [j] is among the jobs with that result, and more recent ones fill the limit. *)
Definition trimmable (r : string) (limit : option Z) (jobs : list (obj_of kj)) (j : obj_of kj) : Prop :=
  let l := filter (has_result kj r) jobs in
  j ∈ l /\ exists n, limit = Some n /\
    (limit_ok n -> Z.of_nat (length l) < 2 ^ 31 -> surplus kj n l j).

Definition active (j : obj_of kj) : Prop := has_result kj "" j.

(** A start was missed and may still be made. *)
Definition start_due (h : hist) (c : obj_of kc) (t : Z) : Prop :=
  (cj_Spec c).(Suspend) ≠ Some true /\ t ≠ zero_time /\
  (exists now next, existT ENow now ∈ h /\ getNextSchedule kc ParseStandard too_many c now = inr (t, next)) /\
  (forall d, (cj_Spec c).(StartingDeadlineSeconds) = Some d ->
     exists now, existT ENow now ∈ h /\ now <= t + int64 (d * second)).

Definition delete_permitted (h : hist) (j : obj_of kj) : Prop :=
  exists c jobs, synced h c jobs /\ j ∈ jobs /\
    (trimmable OperationResultSucceeded (cj_Spec c).(SuccessfulJobsHistoryLimit) jobs j \/
     trimmable OperationResultFailed (cj_Spec c).(FailedJobsHistoryLimit) jobs j \/
     active j /\ (cj_Spec c).(ConcurrencyPolicy) = ReplaceConcurrent /\ exists t, start_due h c t).

Definition create_permitted (h : hist) (j : obj_of kj) : Prop :=
  exists c jobs t, synced h c jobs /\ Forall (fun j => ~ active j) jobs /\
    (cj_Spec c).(ConcurrencyPolicy) ≠ ReplaceConcurrent /\ start_due h c t /\
    constructJob kc kj zone cron_gvk blank_job c t = inr j.

Definition status_justified (h : hist) (o : obj_of kc) : Prop :=
  exists c0 jobs info, newest (fetched kc) h = Some c0 /\ is_deleting c0 = false /\
    existT (EListField kj JobOwnerKey (nn_Name req) (nn_Namespace req)) (inr jobs) ∈ h /\
    parsed kj jobs info /\ o = set_cj_Status c0 (new_status kj job_gvk (cj_Status c0) info).

Definition cron_contract (h : hist) (e : event) : Prop :=
  match e with
  | EGet k key => k = kc /\ key = req /\ h = []
  | EListField k field v ns => k = kj /\ field = JobOwnerKey /\ v = nn_Name req /\ ns = nn_Namespace req
  | EStatusUpdate k o => exists Heq : k = kc, status_justified h (eq_rect k obj_of o kc Heq)
  | EDelete k j => exists Heq : k = kj, delete_permitted h (eq_rect k obj_of j kj Heq)
  | ECreate k j => exists Heq : k = kj, create_permitted h (eq_rect k obj_of j kj Heq)
  | ENow | ERange => True
  | _ => False
  end.

(** When the controller panics. *)
Definition cron_panics (h : hist) (o : outcome result) : Prop :=
  match o with
  | Done _ => True
  | Panicked _ =>
    (exists c, (newest (fetched kc) h = Some c \/ exists jobs, synced h c jobs) /\
       ((cj_Spec c).(FailedJobsHistoryLimit) = None \/ (cj_Spec c).(SuccessfulJobsHistoryLimit) = None)) \/
    (exists jobs j, existT (EListField kj JobOwnerKey (nn_Name req) (nn_Namespace req)) (inr jobs) ∈ h /\
       j ∈ jobs /\ has_result kj OperationResultSucceeded j /\ (job_Status j).(js_CompletionTime) = None) \/
    (exists c jobs t, synced h c jobs /\ Forall (fun j => ~ active j) jobs /\
       (cj_Spec c).(ConcurrencyPolicy) = ReplaceConcurrent /\ start_due h c t)
  end.

(** Calls that leave the facts alone. *)
Definition idle (e : event) : Prop := match e with EDelete _ _ | ENow | ERange => True | _ => False end.

Lemma synced_idle h h' c jobs : extends idle h h' -> synced h c jobs -> synced h' c jobs.
Proof.
  intros Hext (c0 & info & Hf & Hd & Hl & Hp & Hs). exists c0, info.
  split_and!; [|done|by apply (extends_in _ _ _ Hext)|done|by apply (extends_in _ _ _ Hext)].
  rewrite <- Hf. apply (newest_extends _ _ _ _ Hext). intros e r He. by destruct e.
Qed.

Lemma start_due_in h h' c t : (forall x, x ∈ h -> x ∈ h') -> start_due h c t -> start_due h' c t.
Proof.
  intros Hsub (Hs & Ht & (now & next & Hn & Hg) & Hd). split_and!; [done..|eauto|].
  intros d Hd'. destruct (Hd d Hd') as (now' & ? & ?). eauto.
Qed.

Lemma no_active jobs info : parsed kj jobs info -> info.(activeJob) = None -> Forall (fun j => ~ active j) jobs.
Proof.
  intros (Ha & _) Hn. rewrite Ha in Hn. apply last_None in Hn. apply Forall_forall. intros j Hj Hact.
  assert (j ∈ filter (has_result kj "") jobs) as Hin by (by apply list_elem_of_filter). rewrite Hn in Hin. by apply not_elem_of_nil in Hin.
Qed.

Lemma active_in jobs info j : parsed kj jobs info -> info.(activeJob) = Some j -> j ∈ jobs /\ active j.
Proof.
  intros (Ha & _) Hj. rewrite Ha in Hj. apply last_Some_elem_of, list_elem_of_filter in Hj. tauto.
Qed.

Abbreviation contract := cron_contract.

Lemma trim_wp h c jobs r limit :
  synced h c jobs ->
  r = OperationResultSucceeded /\ limit = (cj_Spec c).(SuccessfulJobsHistoryLimit) \/
  r = OperationResultFailed /\ limit = (cj_Spec c).(FailedJobsHistoryLimit) ->
  wp contract (fun h' o => extends idle h h' /\ match o with Done tt => True | Panicked _ => limit = None end) h
    (trim kj (filter (has_result kj r) jobs) limit).
Proof.
  intros Hsync Hr. unfold trim. destruct limit as [limit|]; [|split; [apply extends_refl|done]].
  eapply wp_mono.
  { apply (wp_calls idle); [|apply deleteOldJobs_wp]. eapply calls_mono; [apply deleteOldJobs_calls|]. by intros []. }
  - intros h' e [Hext He]. destruct e; try done. destruct He as [-> [Hin Hsur]]. exists eq_refl. cbn in *.
    exists c, jobs. split; [by eapply synced_idle|]. split; [by apply list_elem_of_filter in Hin as [_ ?]|].
    destruct Hr as [[-> Hl]|[-> Hl]]; [left|right; left]; (split; [done|]; exists limit; by split).
  - intros h' o [Hext ->]. done.
Qed.

Lemma trim_history_wp h c jobs info :
  synced h c jobs -> parsed kj jobs info ->
  wp contract (fun h' o => extends idle h h' /\ match o with
      | Done tt => True
      | Panicked _ => (cj_Spec c).(FailedJobsHistoryLimit) = None \/ (cj_Spec c).(SuccessfulJobsHistoryLimit) = None
      end) h (trim_history kc kj failed_first c info).
Proof.
  intros Hsync (_ & Hs & Hf & _). unfold trim_history. rewrite Hs, Hf. destruct failed_first.
  all: eapply wp_seq; [eapply trim_wp; [exact Hsync|by auto]|]; intros h1 o [Hext Ho]; destruct o as [[]|m]; cbn [after]; [|by auto].
  all: eapply wp_mono; [eapply trim_wp; [by eapply synced_idle|by auto]|done|].
  all: intros h2 o [Hext2 Ho2]; (split; [by eapply extends_trans|]); destruct o as [[]|]; auto.
Qed.

Abbreviation start := (start_job kc kj zone cron_gvk blank_job requeue_unconstructed).

Lemma start_job_wp h c jobs info t res :
  synced h c jobs -> parsed kj jobs info -> start_due h c t ->
  wp contract cron_panics h (start c info.(activeJob) t res).
Proof.
  intros Hsync Hinfo Hdue. unfold start_job. case_bool_decide as Hpol.
  - destruct (activeJob info) as [j|] eqn:Hact.
    + destruct (active_in _ _ _ Hinfo Hact) as [Hin Hj].
      repeat wp_step; try done; exists eq_refl, c, jobs; (split; [done|]); (split; [done|]); right; right; by eauto.
    + apply (no_active _ _ Hinfo) in Hact. repeat wp_step. right. right. by eauto 8.
  - destruct (activeJob info) as [j|] eqn:Hact; [done|]. apply (no_active _ _ Hinfo) in Hact.
    repeat wp_step; try done. exists eq_refl, c, jobs, t. by split_and!.
Qed.

Lemma schedule_job_wp h c jobs info :
  synced h c jobs -> parsed kj jobs info ->
  wp contract cron_panics h
    (schedule_job kc kj ParseStandard zone cron_gvk blank_job too_many requeue_unconstructed c info.(activeJob)).
Proof.
  intros Hsync Hinfo. unfold schedule_job. destruct (default false _) eqn:Hsusp; [done|].
  apply wp_call; [done|]. intros now. cbn [mbind prog_bind].
  destruct (getNextSchedule _ _ _ c now) as [|[t next]] eqn:Hget; [done|].
  apply wp_call; [done|]. intros now2. cbn [mbind prog_bind]. destruct (Z.eqb_spec t zero_time) as [|Ht]; [done|].
  assert ((cj_Spec c).(Suspend) ≠ Some true) as Hs by (intros Heq; by rewrite Heq in Hsusp).
  destruct (StartingDeadlineSeconds (cj_Spec c)) as [d|] eqn:Hd.
  - apply wp_assoc, wp_call; [done|]. intros now3. cbn [mbind prog_bind mret prog_ret].
    destruct (Z.ltb_spec (t + int64 (d * second)) now3); [done|].
    eapply start_job_wp; [eapply synced_idle; [|done]; do 3 (eapply extends_trans; [|by apply extends_one]); apply extends_refl|done|].
    split_and!; [done..| |].
    + exists now, next. split; [set_solver|done].
    + intros d' Hd'. simplify_eq. exists now3. split; [set_solver|lia].
  - cbn [mbind prog_bind mret prog_ret].
    eapply start_job_wp; [eapply synced_idle; [|done]; do 2 (eapply extends_trans; [|by apply extends_one]); apply extends_refl|done|].
    split_and!; [done..| |by intros d; rewrite Hd]. exists now, next. split; [set_solver|done].
Qed.

Lemma reconcile_cron_wp :
  wp contract cron_panics [] (reconcile_cron kc kj ParseStandard zone job_gvk cron_gvk blank_job
    too_many failed_first requeue_unconstructed req).
Proof.
  unfold reconcile_cron, get_obj. apply wp_call; [done|]. intros [err|c0]; cbn [mbind prog_bind].
  { destruct (IsNotFound err); done. }
  destruct (is_deleting c0) eqn:Hdel; [done|]. unfold sync_cron.
  assert (forall o, newest (fetched kc) [existT (EGet kc req) (inr o)] = Some o) as Hf.
  { intros o. rewrite newest_cons. cbn. by rewrite obj_in_self. }
  destruct (FailedJobsHistoryLimit (cj_Spec c0)) eqn:Hfl; [|left; exists c0; by split; [left|left]].
  destruct (SuccessfulJobsHistoryLimit (cj_Spec c0)) eqn:Hsl; [|left; exists c0; by split; [left|right]].
  apply wp_call; [done|]. intros [err|jobs]; cbn [mbind prog_bind]; [done|].
  pose proof (parseJobList_spec kj jobs) as Hp. destruct (parseJobList kj jobs) as [info|].
  2: { destruct Hp as (j & Hj & Hr & Hc). right. left. exists jobs, j. split; [set_solver|done]. }
  unfold status_update_obj. apply wp_assoc, wp_call.
  { exists eq_refl, c0, jobs, info. split_and!; [|done|set_solver|done..]. rewrite newest_cons. exact (Hf c0). }
  intros [err|c]; cbn [mbind prog_bind mret prog_ret]; [done|].
  match goal with |- wp _ _ ?h _ => assert (synced h c jobs) as Hsync end.
  { exists c0, info. split_and!; [|done|set_solver|done|set_solver]. rewrite 2!newest_cons. exact (Hf c0). }
  eapply wp_seq; [by eapply trim_history_wp|]. intros h1 o [Hext Ho]. destruct o as [[]|m]; cbn [after].
  - eapply schedule_job_wp; [by eapply synced_idle|done].
  - left. exists c. split; [|done]. right. exists jobs. by eapply synced_idle.
Qed.

(** *** A start is made once *)

Lemma constructJob_annotation c t j :
  constructJob kc kj zone cron_gvk blank_job c t = inr j ->
  annotation j scheduledTimeAnnotation = FormatRFC3339 (zone t) t.
Proof.
  unfold constructJob, SetControllerReference. destruct (validateOwner _ _); [done|].
  destruct cron_gvk as [|[v k]]; [done|]. unfold annotation, map_get.
  repeat case_match; intros; simplify_eq; rewrite ?meta_set_meta; cbn; rewrite ?meta_set_Spec, ?meta_set_meta; cbn;
    by rewrite lookup_insert_eq.
Qed.

Context (Hcron : forall s Next, ParseStandard s = inr Next -> OnTheSecond Next).

(** The created job is for a start [t], which its annotation tells where the zone is
    a whole number of minutes off; all listed jobs are for earlier ones, provided the
    server kept the status it accepted and the clock is past 1970. *)
Definition fresh_start (h : hist) (j : obj_of kj) : Prop :=
  exists t jobs o c,
    existT (EListField kj JobOwnerKey (nn_Name req) (nn_Namespace req)) (inr jobs) ∈ h /\
    existT (EStatusUpdate kc o) (inr c) ∈ h /\
    (86400 <= Unix t < 240000000000 -> (60 | zone t) -> - 86400 < zone t < 86400 -> scheduled kj j = Some t) /\
    (cj_Status c = cj_Status o -> (forall now, existT ENow now ∈ h -> 0 <= now) -> Forall (fun j' => forall t', scheduled kj j' = Some t' -> t' < t) jobs).

Definition fresh_starts (h : hist) (e : event) : Prop :=
  match e with
  | ECreate k j => exists Heq : k = kj, fresh_start h (eq_rect k obj_of j kj Heq)
  | _ => True
  end.

Lemma create_fresh h j : create_permitted h j -> fresh_start h j.
Proof.
  intros (c & jobs & t & (c0 & info & Hf & Hd & Hl & Hp & Hs) & Hact & Hpol & (Hsus & Ht & (now & next & Hn & Hg) & Hdl) & Hj).
  assert (exists Next, ParseStandard (cj_Spec c).(Schedule) = inr Next) as [Next HNext].
  { unfold getNextSchedule, next_schedule in Hg. destruct (ParseStandard _) as [|Next]; [done|by exists Next]. }
  specialize (Hcron _ _ HNext).
  destruct (getNextSchedule_after kc ParseStandard too_many Next c now t next HNext Hg Ht) as [[k ->] Hafter].
  exists (k * second), jobs. eexists _, c. split_and!; [done|exact Hs| |].
  - intros Hrange Hz1 Hz2. pose proof (constructJob_annotation _ _ _ Hj) as Hann.
    unfold scheduled, getScheduledTime. rewrite Hann. 
    pose proof (ParseRFC3339_Format _ (k * second) Hz1 Hz2 ltac:(lia)) as Hparse.
    case_bool_decide as He; [by rewrite He in Hparse|]. rewrite Hparse. unfold Unix. by rewrite Z.div_mul.
  - intros Hkept Hclock. apply Forall_forall. intros j' Hj' t' Ht'. destruct Hp as (_ & _ & _ & Hnew & _).
    rewrite cj_Status_set in Hkept.
    assert (t' ∈ omap (scheduled kj) jobs) as Hin by (apply list_elem_of_omap; by exists j').
    destruct (mostRecentTime info) as [m|] eqn:Hm; cbn in Hnew; [|rewrite Hnew in Hin; by apply not_elem_of_nil in Hin].
    destruct Hnew as [_ Hmax]. specialize (Hmax _ Hin).
    assert ((cj_Status c).(LastScheduleTime) = Some m) as Hlast by (by rewrite Hkept; cbn).
    specialize (Hafter (Hclock _ Hn) _ Hlast). lia.
Qed.

Lemma contract_fresh h e : contract h e -> fresh_starts h e.
Proof. destruct e; try done. intros [Heq He]. exists Heq. by apply create_fresh. Qed.

Lemma reconcile_cron_fresh :
  wp fresh_starts (fun _ _ => True) [] (reconcile_cron kc kj ParseStandard zone job_gvk cron_gvk blank_job
    too_many failed_first requeue_unconstructed req).
Proof. eapply wp_mono; [exact reconcile_cron_wp|exact contract_fresh|done]. Qed.
End contract.

(** ** The two controllers *)

Section theorems.
Context (ParseStandard : string -> error + (Z -> Z)) (zone : Z -> Z).
Context (job_gvk cron_gvk : error + string * string).
Abbreviation rs_run ρ req := (run ρ [] (ReclaimSpaceCron.Reconcile ParseStandard zone job_gvk cron_gvk req)).
Abbreviation kr_run ρ req := (run ρ [] (KeyRotationCron.Reconcile ParseStandard zone job_gvk cron_gvk req)).



End theorems.

(** The jobs of a cron job are told apart by their results, the last active one is
    the active job, and the times are the newest ones; the controllers panic here
    only on a success without a completion time. *)
Theorem child_jobs_exact :
  (forall l, match ReclaimSpaceCron.parseJobList l with
   | Some info => parsed KReclaimSpaceJob l info
   | None => exists j, j ∈ l /\ j.(rsj_Status).(js_Result) = OperationResultSucceeded /\
                j.(rsj_Status).(js_CompletionTime) = None
   end) /\
  (forall l, match KeyRotationCron.parseEncryptionKeyRotationJobList l with
   | Some info => parsed KEncryptionKeyRotationJob l info
   | None => exists j, j ∈ l /\ j.(krj_Status).(js_Result) = OperationResultSucceeded /\
                j.(krj_Status).(js_CompletionTime) = None
   end).
Proof.
  split; intros l.
  - exact (parseJobList_spec KReclaimSpaceJob l).
  - exact (parseJobList_spec KEncryptionKeyRotationJob l).
Qed.

(** Trimming deletes exactly the jobs beyond the limit, oldest first: it always
    ends, the jobs it asks to delete and those it leaves are together the list,
    as many are left as the limit allows, and none of them is older than one
    that was deleted. *)
Theorem history_limit_exact ρ limit :
  limit_ok limit ->
  (forall l, Z.of_nat (length l) < 2 ^ 31 ->
    let '(h, o) := run ρ [] (ReclaimSpaceCron.deleteOldJobs l limit) in
    o = Done tt /\ trimmed KReclaimSpaceJob limit l (rev (observe (deleted KReclaimSpaceJob) h))) /\
  (forall l, Z.of_nat (length l) < 2 ^ 31 ->
    let '(h, o) := run ρ [] (KeyRotationCron.deleteOldEncryptionKeyRotationJobs l limit) in
    o = Done tt /\ trimmed KEncryptionKeyRotationJob limit l (rev (observe (deleted KEncryptionKeyRotationJob) h))).
Proof.
  intros Hlim. split; intros l Hlen.
  - exact (deleteOldJobs_run KReclaimSpaceJob ρ l limit Hlen Hlim).
  - exact (deleteOldJobs_run KEncryptionKeyRotationJob ρ l limit Hlen Hlim).
Qed.

(** ** Schedules of three kinds: hourly, every ninety minutes, and never *)
Module Hourly.

Definition hour : Z := 3600 * second.
Definition Next (t : Z) : Z := (t / hour + 1) * hour.
Definition due (t : Z) : Prop := (hour | t).
Definition every (delay t : Z) : Z := t + delay - t mod second.
Definition ParseStandard (s : string) : error + (Z -> Z) :=
  if bool_decide (s = "@hourly") then inr Next
  else if bool_decide (s = "@every 1h30m") then inr (every (hour + 30 * 60 * second))
  else if bool_decide (s = "0 0 30 2 *") then inr (fun _ => zero_time)
  else inl (ErrorString "unrecognized descriptor").

#[export] Instance hourly_calendar : Calendar Next due.
Proof.
  assert (0 < hour) by done. assert (hour < six_years) by done. unfold Next, due. split.
  - intros u [k ->]. exists (k * 3600). unfold hour. lia.
  - intros t. right. pose proof (Z.mul_succ_div_gt t hour). pose proof (Z.mul_div_le t hour).
    split_and!; [by exists (t / hour + 1)|lia|lia|]. intros u Htu [k ->]. apply Z.mul_le_mono_nonneg_r; [lia|].
    assert (t / hour < k); [|lia]. apply Z.div_lt_upper_bound; lia.
Qed.

Lemma every_delay n : 1 <= n -> Delay (every (n * second)).
Proof.
  intros Hn. assert (0 < second) by done. unfold every. split; intros t.
  - exists (n + t / second). pose proof (Z.div_mod t second). lia.
  - pose proof (Z.mod_pos_bound t second). nia.
Qed.

#[export] Instance never_calendar : Calendar (fun _ => zero_time) (fun _ => False).
Proof. split; [done|by left]. Qed.

Lemma library s N : ParseStandard s = inr N -> OnTheSecond N.
Proof.
  unfold ParseStandard. repeat case_bool_decide; intros; simplify_eq.
  - exact (Calendar_OnTheSecond Next due).
  - exact (@Delay_OnTheSecond _ (every_delay 5400 ltac:(lia))).
  - exact (Calendar_OnTheSecond _ (fun _ => False)).
Qed.

Definition t0 : Z := 500000 * hour.
Definition spec_of (schedule policy : string) : CronJobSpec :=
  mkCronJobSpec schedule None policy None (mkJobTemplate ∅ ∅ (mkJobSpec "pvc" 6 600 None)) (Some 1) (Some 1).
Definition spec := spec_of "@hourly".
Definition cron_meta : ObjectMeta := mkObjectMeta "cron" "ns" "uid" 1 (Some t0) None ∅ ∅ [] [].
Definition rs (policy : string) : ReclaimSpaceCronJob :=
  mkRSCronJob cron_meta (spec policy) (mkCronJobStatus None None None).
Definition kr (policy : string) : EncryptionKeyRotationCronJob :=
  mkKRCronJob cron_meta (spec policy) (mkCronJobStatus None None None).
Definition zone (_ : Z) : Z := 5 * 3600 + 1800.
Definition cron_gvk : error + string * string := inr (apiGVStr, "ReclaimSpaceCronJob").
Definition job_gvk : error + string * string := inr (apiGVStr, "ReclaimSpaceJob").

Definition job (name result : string) (start : Z) : ReclaimSpaceJob :=
  mkRSJob (mkObjectMeta name "ns" name 1 (Some start) None
             {[ scheduledTimeAnnotation := FormatRFC3339 (zone start) start ]} ∅ [] [])
    (mkJobSpec "pvc" 6 600 None) (mkJobStatus result "" None [] 0 (Some start) (Some start)).

(** A server with the cron job and its jobs, at a fixed time. *)
Definition server (policy : string) (jobs : list ReclaimSpaceJob) (now : Z) : env answer := fun _ e =>
  match e return answer e with
  | EGet KReclaimSpaceCronJob _ => inr (rs policy)
  | EListField KReclaimSpaceJob _ _ _ => inr jobs
  | EStatusUpdate KReclaimSpaceCronJob o => inr o
  | ECreate KReclaimSpaceJob o => inr o
  | ENow => now
  | e => refused e
  end.

Definition created (c : {e & answer e}) : option string :=
  match projT1 c with ECreate KReclaimSpaceJob j => Some j.(rsj_meta).(Name) | _ => None end.
Definition removed (c : {e & answer e}) : option string :=
  match projT1 c with EDelete KReclaimSpaceJob j => Some j.(rsj_meta).(Name) | _ => None end.

Definition reconcile policy jobs now : hist * outcome result :=
  run (server policy jobs now) [] (ReclaimSpaceCron.Reconcile ParseStandard zone job_gvk cron_gvk (mkNamespacedName "ns" "cron")).

(** Two starts were missed: the last one is made. *)
Example starts_last : observe created (fst (reconcile ForbidConcurrent [] (t0 + 2 * hour + 60 * second))) = ["cron-1800007200"].
Proof. vm_compute. reflexivity. Qed.

Definition history : list ReclaimSpaceJob :=
  [job "b" "Succeeded" (t0 + 2 * hour); job "a" "Succeeded" (t0 + hour); job "c" "Failed" (t0 + 3 * hour)].
Example trims_and_starts :
  let h := fst (reconcile ForbidConcurrent history (t0 + 4 * hour)) in
  observe removed h = ["a"] /\ observe created h = ["cron-1800014400"].
Proof. vm_compute. split; reflexivity. Qed.

(** The answers for the three kinds of schedule, and for one that does not parse. *)
Definition with_schedule (s : string) : ReclaimSpaceCronJob :=
  mkRSCronJob cron_meta (spec_of s ForbidConcurrent) (mkCronJobStatus None None None).
Example schedule_answers :
  let next s := ReclaimSpaceCron.getNextSchedule ParseStandard (with_schedule s) (t0 + 2 * hour + 60 * second) in
  next "@hourly" = inr (t0 + 2 * hour, t0 + 3 * hour) /\
  next "@every 1h30m" = inr (t0 + hour + 1800 * second, t0 + 3 * hour + 1860 * second) /\
  next "0 0 30 2 *" = inl (ErrorString ReclaimSpaceCron.too_many) /\
  next "hourly" = inl (ErrorString ("unparsable schedule " +:+ go_quote "hourly" +:+ ": unrecognized descriptor")).
Proof. vm_compute. split_and!; reflexivity. Qed.


Lemma history_limit_exact_witness :
  let l := [job "b" "Succeeded" (t0 + 2 * hour); job "a" "Succeeded" (t0 + hour)] in
  let '(h, o) := run (server ForbidConcurrent [] t0) [] (ReclaimSpaceCron.deleteOldJobs l 1) in
  observe removed h = ["a"] /\ o = Done tt /\
  trimmed KReclaimSpaceJob 1 l (rev (observe (deleted KReclaimSpaceJob) h)).
Proof.
  intros l. pose proof (proj1 (history_limit_exact (server ForbidConcurrent [] t0) 1 ltac:(by unfold limit_ok)) l
    ltac:(vm_compute; reflexivity)) as Hlim.
  revert Hlim. assert (observe removed (fst (run (server ForbidConcurrent [] t0) [] (ReclaimSpaceCron.deleteOldJobs l 1))) = ["a"]) as Ha
    by (vm_compute; reflexivity).
  destruct (run _ _ _) as [h o]. intros Hlim. by split.
Defined.

(** Under the Replace policy a due start deletes the active job and starts none;
    when nothing is active the controller panics. *)
Theorem replace_never_replaces :
  (let '(h, o) := reconcile ReplaceConcurrent [job "a" "" (t0 + hour)] (t0 + 2 * hour) in
   observe removed h = ["a"] /\ observe created h = [] /\ o = Done (mkResult false hour, None)) /\
  (let '(h, o) := reconcile ReplaceConcurrent [] (t0 + 2 * hour) in
   observe created h = [] /\ o = Panicked "nil pointer dereference").
Proof. vm_compute. split; [split_and!|split]; reflexivity. Qed.
End Hourly.
