(* ===== verification/PVCController.v ===== *)
(** * The PersistentVolumeClaim controllers

    src/internal/controller/csiaddons/persistentvolumeclaim_controller.go (Module
    [PVCReconciler]), pvc_new_controller.go (Module [PVCReconiler], the source's
    spelling) and the helpers of src/internal/controller/utils.  Both keep a
    ReclaimSpaceCronJob and an EncryptionKeyRotationCronJob beside a claim whose
    schedule asks for it.

    A nil map of annotations or labels and an empty one are the same here. *)

From S2P Require Import Prelude.
From S2P Require Import GoErrors.
From S2P Require Import GoText.
From S2P Require Import GoTime.
From S2P Require Import Config.
From S2P Require Import ApiTypes.
From S2P Require Import CsiaddonsTypes.
From S2P Require Import Effects.
From S2P Require Import ControllerUtil.
From S2P Require Import JobController.
From S2P Require Import CronJobController.

(** ** annotations.go *)

Definition RsCronJobScheduleTimeAnnotation := "reclaimspace.csiaddons.openshift.io/schedule".
Definition RsCronJobNameAnnotation := "reclaimspace.csiaddons.openshift.io/cronjob".
Definition KrEnableAnnotation := "keyrotation.csiaddons.openshift.io/enable".
Definition KrcJobScheduleTimeAnnotation := "keyrotation.csiaddons.openshift.io/schedule".
Definition KrcJobNameAnnotation := "keyrotation.csiaddons.openshift.io/cronjob".
Definition CSIAddonsStateAnnotation := "csiaddons.openshift.io/state".
Definition StorageClassIndex := "spec.storageClassName".
Definition CSIAddonsStateManaged := "managed".

Fixpoint AnnotationValueChanged (old new : gmap string string) (keys : list string) : bool :=
  match keys with
  | [] => false
  | key :: keys => if negb (bool_decide (old !! key = new !! key)) then true else AnnotationValueChanged old new keys
  end.

Definition IsManagedByController {A} `{HasMeta A} (obj : A) : bool :=
  match (meta obj).(Annotations) !! CSIAddonsStateAnnotation with
  | Some v => bool_decide (v = CSIAddonsStateManaged)
  | None => true
  end.

(** ** reclaimspace_keyrotation.go *)

Definition DefaultFailedJobsHistoryLimit : Z := 1.
Definition DefaultSuccessfulJobsHistoryLimit : Z := 3.
Definition DefaultBackoffLimit : Z := 6.
Definition DefaultRetryDeadlineSeconds : Z := 600.

Section spec.
Context {A : Type} `{CronJob A}.

(** setKeyrotationSpec and setReclaimspaceSpec, the same for the two kinds: what
    the user set besides stays. *)
Definition SetSpec (v : A) (schedule pvcName : string) : A :=
  let v := set_meta v (set_Annotations (meta v)
             (<[CSIAddonsStateAnnotation := CSIAddonsStateManaged]> (meta v).(Annotations))) in
  let s := cj_Spec v in
  set_cj_Spec v (mkCronJobSpec schedule s.(StartingDeadlineSeconds) s.(ConcurrencyPolicy) s.(Suspend)
    (mkJobTemplate ∅ ∅ (mkJobSpec pvcName DefaultBackoffLimit DefaultRetryDeadlineSeconds None))
    (Some DefaultSuccessfulJobsHistoryLimit) (Some DefaultFailedJobsHistoryLimit)).

Definition GetSchedule (v : A) : string := (cj_Spec v).(Schedule).

(** The field index of the cron jobs: the claim that controls one. *)
Definition ExtractOwnerNameFromPVCObj (v : A) : list string :=
  match GetControllerOf v with
  | None => []
  | Some owner =>
    if negb (bool_decide (owner.(or_APIVersion) = "v1")) || negb (bool_decide (owner.(or_Kind) = "PersistentVolumeClaim"))
    then [] else [owner.(or_Name)]
  end.
End spec.

(** ** predicates.go *)

Inductive watch_event (A : Type) :=
| CreateEvent (o : A) | UpdateEvent (old new : A) | DeleteEvent (o : A) | GenericEvent (o : A).
Arguments CreateEvent {A} _.
Arguments UpdateEvent {A} _ _.
Arguments DeleteEvent {A} _.
Arguments GenericEvent {A} _.

Definition SilentPredicate {A} (e : watch_event A) : bool := false.

(** A predicate function that is not set accepts. *)
Definition StorageClassPredicate (e : watch_event StorageClass) : bool :=
  match e with
  | UpdateEvent old new =>
    AnnotationValueChanged old.(sc_meta).(Annotations) new.(sc_meta).(Annotations)
      [KrcJobScheduleTimeAnnotation; KrEnableAnnotation; RsCronJobScheduleTimeAnnotation]
  | _ => true
  end.

Definition ScMapFunc (sc : StorageClass) : M (list NamespacedName) :=
  r ← call (EListField KPersistentVolumeClaim StorageClassIndex sc.(sc_meta).(Name) "");
  mret match r with
       | inl _ => []
       | inr pvcs => map (fun pvc => mkNamespacedName (obj_Namespace pvc) (obj_Name pvc)) pvcs
       end.

(** The field index of the claims. *)
Definition storage_class_index (pvc : PersistentVolumeClaim) : list string :=
  match pvc.(pvc_StorageClassName) with
  | None => []
  | Some name => if bool_decide (name = "") then [] else [name]
  end.

Definition hasValidStorageClassName (pvc : PersistentVolumeClaim) : bool :=
  match pvc.(pvc_StorageClassName) with
  | None => false
  | Some name => negb (bool_decide (name = ""))
  end.

(** client.IgnoreAlreadyExists. *)
Definition IsAlreadyExists (err : error) : bool :=
  match as_api err with
  | Some (ReasonAlreadyExists, _) => true
  | _ => false
  end.
Definition IgnoreAlreadyExists (err : option error) : option error :=
  match err with
  | Some e => if IsAlreadyExists e then None else Some e
  | None => None
  end.

Definition blank_cron_spec : CronJobSpec :=
  mkCronJobSpec "" None "" None (mkJobTemplate ∅ ∅ blank_spec) None None.
Definition blank_cron_status : CronJobStatus := mkCronJobStatus None None None.

(** ** pvc_new_controller.go *)
Module PVCReconiler.
Section reconciler.
(** The scheme's answer for a claim: its API version and kind. *)
Variable pvc_gvk : error + string * string.

Section feature.
Context (kc : kind) `{CronJob (obj_of kc)}.

Definition reconcileFeature (pvc : PersistentVolumeClaim) (childObj : obj_of kc) (schedule enabledVal : string)
    : M (option error) :=
  let shouldExist := negb (bool_decide (schedule = "")) && negb (bool_decide (enabledVal = "false")) in
  r ← get_obj kc (mkNamespacedName (obj_Namespace childObj) (obj_Name childObj));
  match r with
  | inl err =>
    if negb (IsNotFound err) then mret (Some err)
    else if negb shouldExist then mret None
    else
      let childObj := SetSpec childObj schedule (obj_Name pvc) in
      let '(childObj, err) := SetControllerReference pvc_gvk pvc childObj in
      match err with
      | Some err => mret (Some err)
      | None =>
        r ← call (ECreate kc childObj);
        mret (IgnoreAlreadyExists match r with inl err => Some err | inr _ => None end)
      end
  | inr existingObj =>
    if negb (IsManagedByController existingObj) then mret None
    else if negb shouldExist then delete_ignoring_missing kc existingObj
    else if negb (bool_decide (GetSchedule existingObj = schedule)) then
      r ← call (EUpdate kc (SetSpec existingObj schedule (obj_Name pvc)));
      mret match r with inl err => Some err | inr _ => None end
    else mret None
  end.
End feature.

Definition keyrotation_child (pvc : PersistentVolumeClaim) : EncryptionKeyRotationCronJob :=
  mkKRCronJob (new_meta (obj_Namespace pvc) (obj_Name pvc +:+ "-keyrotation")) blank_cron_spec blank_cron_status.
Definition reclaimspace_child (pvc : PersistentVolumeClaim) : ReclaimSpaceCronJob :=
  mkRSCronJob (new_meta (obj_Namespace pvc) (obj_Name pvc +:+ "-reclaimspace")) blank_cron_spec blank_cron_status.

(** The two features, for the claim's class. *)
Definition reconcile_features (pvc : PersistentVolumeClaim) (sc : StorageClass) : M result :=
  err ← reconcileFeature KEncryptionKeyRotationCronJob pvc (keyrotation_child pvc)
          (annotation sc KrcJobScheduleTimeAnnotation) (annotation sc KrEnableAnnotation);
  match err with
  | Some err => mret (no_requeue, Some err)
  | None =>
    err ← reconcileFeature KReclaimSpaceCronJob pvc (reclaimspace_child pvc)
            (annotation sc RsCronJobScheduleTimeAnnotation) "true";
    mret (no_requeue, err)
  end.

Definition Reconcile (req : NamespacedName) : M result :=
  r ← get_obj KPersistentVolumeClaim req;
  match r with
  | inl err => mret (no_requeue, IgnoreNotFound (Some err))
  | inr pvc =>
    if is_deleting pvc then mret (no_requeue, None)
    else if negb (bool_decide (pvc.(pvc_Phase) = ClaimBound)) then mret (mkResult true 0, None)
    else
    r ← get_obj KPersistentVolume (mkNamespacedName "" pvc.(pvc_VolumeName));
    match r with
    | inl err => mret (no_requeue, IgnoreNotFound (Some err))
    | inr pv =>
      match pv.(pv_CSI) with
      | None => mret (no_requeue, None)
      | Some _ =>
        match pvc.(pvc_StorageClassName) with
        | Some name =>
          if negb (hasValidStorageClassName pvc) then mret (no_requeue, None)
          else
          r ← get_obj KStorageClass (mkNamespacedName "" name);
          match r with
          | inl err => mret (no_requeue, IgnoreNotFound (Some err))
          | inr sc => reconcile_features pvc sc
          end
        | None => mret (no_requeue, None)
        end
      end
    end
  end.
End reconciler.
End PVCReconiler.

(** ** persistentvolumeclaim_controller.go *)
Module PVCReconciler.

Definition rsCSIAddonsDriverAnnotation := "reclaimspace.csiaddons.openshift.io/drivers".
Definition krCSIAddonsDriverAnnotation := "keyrotation.csiaddons.openshift.io/drivers".
Definition defaultSchedule := "@weekly".

Inductive Operation := relciamSpaceOp | keyRotationOp.

(** What determining a schedule can return besides one: the two sentinels of
    reclaimspace_keyrotation.go, told apart with errors.Is, or another error. *)
Inductive schedule_error :=
| ErrConnNotFoundRequeueNeeded | ErrScheduleNotFound | OtherError (err : error).
Definition schedule_error_value (e : schedule_error) : error :=
  match e with
  | ErrConnNotFoundRequeueNeeded => ErrorString "connection not found, requeue needed"
  | ErrScheduleNotFound => ErrorString "schedule not found"
  | OtherError err => err
  end.

Definition checkAnnotationForValue {A} `{HasMeta A} (obj : A) (key expected : string) : bool :=
  match (meta obj).(Annotations) !! key with
  | Some val => bool_decide (val = expected)
  | None => false
  end.

Fixpoint annotationValueMissingOrDiff (sc pvc : gmap string string) (keys : list string) : bool :=
  match keys with
  | [] => false
  | key :: keys =>
    match sc !! key with
    | Some scValue =>
      if negb (bool_decide (pvc !! key = Some scValue)) then true else annotationValueMissingOrDiff sc pvc keys
    | None => annotationValueMissingOrDiff sc pvc keys
    end
  end.

(** The update predicate; [None] is a nil object. *)
Definition createAnnotationPredicate {A} `{HasMeta A} (annotations : list string) (old new : option A) : bool :=
  match old, new with
  | Some old, Some new => AnnotationValueChanged (meta old).(Annotations) (meta new).(Annotations) annotations
  | _, _ => false
  end.

Definition storageClassEventHandler (sc : StorageClass) : M (list NamespacedName) :=
  r ← call (EListField KPersistentVolumeClaim "spec.storageClassName" sc.(sc_meta).(Name) "");
  mret match r with
       | inl _ => []
       | inr pvcs =>
         map (fun pvc => mkNamespacedName (obj_Namespace pvc) (obj_Name pvc))
           (List.filter (fun pvc : PersistentVolumeClaim =>
              annotationValueMissingOrDiff sc.(sc_meta).(Annotations) pvc.(pvc_meta).(Annotations)
                [RsCronJobScheduleTimeAnnotation; KrcJobScheduleTimeAnnotation; KrEnableAnnotation]) pvcs)
       end.

(** *** Cron jobs *)

(** The specification that constructKRCronJob and constructRSCronJob share. *)
Definition cron_spec (schedule pvcName : string) : CronJobSpec :=
  mkCronJobSpec schedule None "" None
    (mkJobTemplate ∅ ∅ (mkJobSpec pvcName defaultBackoffLimit defaultRetryDeadlineSeconds None))
    (Some DefaultSuccessfulJobsHistoryLimit) (Some DefaultFailedJobsHistoryLimit).
Definition cron_meta (name namespace : string) : ObjectMeta :=
  set_Annotations (new_meta namespace name) {[ CSIAddonsStateAnnotation := CSIAddonsStateManaged ]}.

Definition constructKRCronJob (name namespace schedule pvcName : string) : EncryptionKeyRotationCronJob :=
  mkKRCronJob (cron_meta name namespace) (cron_spec schedule pvcName) blank_cron_status.
Definition constructRSCronJob (name namespace schedule pvcName : string) : ReclaimSpaceCronJob :=
  mkRSCronJob (cron_meta name namespace) (cron_spec schedule pvcName) blank_cron_status.

Definition generateCronJobName (parentName : string) : M string :=
  now ← call ENow; mret (parentName +:+ "-" +:+ Itoa (Unix now)).

(** The patch {"metadata": {"annotations": ...}} by its annotations. *)
Definition createPatchBytesForAnnotations (annotations : gmap string string) : gmap string (option string) :=
  Some <$> annotations.

(** The claim becomes what the server returns. *)
Definition patchAnnotationsToResource (annotations : gmap string string) (pvc : PersistentVolumeClaim)
    : M (PersistentVolumeClaim * option error) :=
  r ← call (EPatch KPersistentVolumeClaim pvc (createPatchBytesForAnnotations annotations));
  mret match r with inl err => (pvc, Some err) | inr pvc => (pvc, None) end.

(** The children but the first are deleted, up to the first failure. *)
Fixpoint delete_rest (kc : kind) (wrap : obj_of kc -> error -> error) (l : list (obj_of kc)) : M (option error) :=
  match l with
  | [] => mret None
  | job :: l =>
    err ← delete_ignoring_missing kc job;
    match err with
    | Some err => mret (Some (wrap job err))
    | None => delete_rest kc wrap l
    end
  end.

Definition find_child (kc : kind) (list_failed : error -> error) (wrap : obj_of kc -> error -> error)
    (req : NamespacedName) : M (error + option (obj_of kc)) :=
  r ← call (EListField kc JobOwnerKey (nn_Name req) (nn_Namespace req));
  match r with
  | inl err => mret (inl (list_failed err))
  | inr [] => mret (inr None)
  | inr (job :: rest) =>
    err ← delete_rest kc wrap rest;
    mret match err with Some err => inl err | None => inr (Some job) end
  end.

Definition delete_failed (job : ReclaimSpaceCronJob) (err : error) : error :=
  WrapError ("failed to delete child reclaimSpaceCronJob " +:+ go_quote (obj_Name job) +:+ ": " +:+ Error err) err.
Definition findChildCronJob (req : NamespacedName) : M (error + option ReclaimSpaceCronJob) :=
  find_child KReclaimSpaceCronJob
    (fun err => ErrorString ("failed to list child reclaimSpaceCronJob: " +:+ Error err)) delete_failed req.
Definition deleteChildCronJob (job : ReclaimSpaceCronJob) : M (option error) :=
  err ← delete_ignoring_missing KReclaimSpaceCronJob job;
  mret match err with Some err => Some (delete_failed job err) | None => None end.

Definition findChildEncryptionKeyRotationCronJob (req : NamespacedName) : M (error + option EncryptionKeyRotationCronJob) :=
  find_child KEncryptionKeyRotationCronJob
    (fun err => ErrorString ("failed to list encryptionkeyrotationcronjobs: " +:+ Error err))
    (fun _ err => WrapError ("failed to delete extraneous child encryptionkeyrotationcronjob: " +:+ Error err) err) req.

(** *** Schedules *)
Section reconciler.
(** The cron library, the configured precedence, and the scheme's answer for a
    claim. *)
Variable ParseStandard : string -> error + (Z -> Z).
Variable SchedulePrecedence : string.
Variable pvc_gvk : error + string * string.

Definition getScheduleFromAnnotation (key : string) (annotations : gmap string string) : string * bool :=
  match annotations !! key with
  | None => ("", false)
  | Some schedule =>
    match ParseStandard schedule with
    | inl _ => (defaultSchedule, true)
    | inr _ => (schedule, true)
    end
  end.

Definition supports (op : Operation) (c : Capability) : bool :=
  match op, c with
  | relciamSpaceOp, CapReclaimSpace _ => true
  | keyRotationOp, CapEncryptionKeyRotation _ => true
  | _, _ => false
  end.

(** Whether to requeue, and whether the capability is registered. *)
Definition checkDriverSupportCapability (annotations : gmap string string) (driverName : string) (op : Operation)
    : M (error + bool * bool) :=
  let driverAnnotation :=
    match op with relciamSpaceOp => rsCSIAddonsDriverAnnotation | keyRotationOp => krCSIAddonsDriverAnnotation end in
  let driverSupportsCap :=
    match annotations !! driverAnnotation with
    | Some drivers => contains (split "," drivers) driverAnnotation
    | None => false
    end in
  r ← pool_GetByNodeID driverName "";
  match r with
  | inl err => mret (inl err)
  | inr conns =>
    seed ← call ERange;
    mret (inr (if existsb (fun kc => existsb (supports op) kc.2.(Capabilities)) (map_range seed conns)
               then (false, true) else (driverSupportsCap, false)))
  end.

Definition getScheduleFromPVC (pvc : PersistentVolumeClaim) (annotationKey : string) : string :=
  let '(schedule, found) := getScheduleFromAnnotation annotationKey pvc.(pvc_meta).(Annotations) in
  if found then schedule else "".

Definition getScheduleFromSC (pvc : PersistentVolumeClaim) (annotationKey : string) : M (string * option schedule_error) :=
  match pvc.(pvc_StorageClassName) with
  | Some storageClassName =>
    if bool_decide (storageClassName = "") then mret ("", Some ErrScheduleNotFound)
    else
    r ← get_obj KStorageClass (mkNamespacedName "" storageClassName);
    mret match r with
         | inl err => if IsNotFound err then ("", Some ErrScheduleNotFound) else ("", Some (OtherError err))
         | inr sc =>
           let '(schedule, found) := getScheduleFromAnnotation annotationKey sc.(sc_meta).(Annotations) in
           if found then (schedule, None) else ("", Some ErrScheduleNotFound)
         end
  | None => mret ("", Some ErrScheduleNotFound)
  end.

(** The schedule of the namespace counts if the driver is registered for it. *)
Definition if_supported (op : Operation) (ns : NamespaceObj) (driverName schedule : string)
    : M (string * option schedule_error) :=
  r ← checkDriverSupportCapability ns.(ns_meta).(Annotations) driverName op;
  mret match r with
       | inl err => ("", Some (OtherError err))
       | inr (requeue, supported) =>
         if (supported : bool) then (schedule, None)
         else if (requeue : bool) then ("", Some ErrConnNotFoundRequeueNeeded)
         else ("", Some ErrScheduleNotFound)
       end.

Definition getScheduleFromNS (pvc : PersistentVolumeClaim) (driverName annotationKey : string)
    : M (string * option schedule_error) :=
  r ← get_obj KNamespace (mkNamespacedName "" (obj_Namespace pvc));
  match r with
  | inl err => mret ("", Some (OtherError err))
  | inr ns =>
    let '(schedule, found) := getScheduleFromAnnotation annotationKey ns.(ns_meta).(Annotations) in
    if (found : bool) then
      if bool_decide (annotationKey = KrcJobScheduleTimeAnnotation) then if_supported keyRotationOp ns driverName schedule
      else if bool_decide (annotationKey = RsCronJobScheduleTimeAnnotation) then if_supported relciamSpaceOp ns driverName schedule
      else mret ("", Some (OtherError (ErrorString ("unknown annotation key: " +:+ annotationKey))))
    else mret ("", Some ErrScheduleNotFound)
  end.

(** The last resort: a schedule, or an error. *)
Definition schedule_from_class (pvc : PersistentVolumeClaim) (annotationKey : string) : M (string * option schedule_error) :=
  '(schedule, err) ← getScheduleFromSC pvc annotationKey;
  if negb (bool_decide (schedule = "")) then mret (schedule, None)
  else match err with
       | Some err => mret ("", Some err)
       | None => mret ("", Some ErrScheduleNotFound)
       end.

Definition determineScheduleAndRequeue (pvc : PersistentVolumeClaim) (driverName annotationKey : string)
    : M (string * option schedule_error) :=
  if bool_decide (SchedulePrecedence = ScheduleSC) then schedule_from_class pvc annotationKey
  else
  let schedule := getScheduleFromPVC pvc annotationKey in
  if negb (bool_decide (schedule = "")) then mret (schedule, None)
  else
  '(schedule, err) ← getScheduleFromNS pvc driverName annotationKey;
  if negb (bool_decide (schedule = "")) then mret (schedule, None)
  else match err with
       | Some ErrScheduleNotFound => schedule_from_class pvc annotationKey
       | err => mret ("", err)
       end.

Definition isDisabledOnSC (pvc : PersistentVolumeClaim) (annotationKey : string) : M (error + bool) :=
  match pvc.(pvc_StorageClassName) with
  | Some storageClassName =>
    if negb (hasValidStorageClassName pvc) then mret (inr false)
    else
    r ← get_obj KStorageClass (mkNamespacedName "" storageClassName);
    mret match r with
         | inl err => inl err
         | inr sc => inr (checkAnnotationForValue sc annotationKey "false")
         end
  | None => mret (inr false)
  end.

Definition checkDisabledByAnnotation (pvc : PersistentVolumeClaim) (annotationKey : string) : M (error + bool) :=
  if bool_decide (SchedulePrecedence = ScheduleSC) then isDisabledOnSC pvc annotationKey
  else if checkAnnotationForValue pvc annotationKey "false" then mret (inr true)
  else
  r ← get_obj KNamespace (mkNamespacedName "" (obj_Namespace pvc));
  match r with
  | inl err => mret (inl err)
  | inr ns => if checkAnnotationForValue ns annotationKey "false" then mret (inr true) else isDisabledOnSC pvc annotationKey
  end.

(** *** ReclaimSpace *)

(** There is no schedule: the cron job and its name on the claim go. *)
Definition drop_reclaimspace (pvc : PersistentVolumeClaim) (child : option ReclaimSpaceCronJob) : M result :=
  err ← match child with Some job => deleteChildCronJob job | None => mret None end;
  match err with
  | Some err => mret (no_requeue, Some err)
  | None =>
    match pvc.(pvc_meta).(Annotations) !! RsCronJobNameAnnotation with
    | Some _ =>
      r ← call (EPatch KPersistentVolumeClaim pvc {[ RsCronJobNameAnnotation := None ]});
      mret match r with inl err => (no_requeue, Some err) | inr _ => (no_requeue, None) end
    | None => mret (no_requeue, None)
    end
  end.

(** The existing cron job gets the specification for the schedule. *)
Definition update_reclaimspace (req : NamespacedName) (pvc : PersistentVolumeClaim) (job : ReclaimSpaceCronJob)
    (schedule : string) : M result :=
  let new := constructRSCronJob (obj_Name job) (nn_Namespace req) schedule (obj_Name pvc) in
  if bool_decide (new.(rscj_Spec) = job.(rscj_Spec)) then mret (no_requeue, None)
  else
  r ← call (EUpdate KReclaimSpaceCronJob (set_cj_Spec job new.(rscj_Spec)));
  match r with
  | inl err => mret (no_requeue, Some err)
  | inr _ =>
    '(_, err) ← patchAnnotationsToResource {[ RsCronJobScheduleTimeAnnotation := schedule ]} pvc;
    mret (no_requeue, err)
  end.

Definition create_reclaimspace (req : NamespacedName) (pvc : PersistentVolumeClaim) (schedule : string) : M result :=
  name ← generateCronJobName (nn_Name req);
  '(pvc, err) ← patchAnnotationsToResource
    {[ RsCronJobNameAnnotation := name; RsCronJobScheduleTimeAnnotation := schedule ]} pvc;
  match err with
  | Some err => mret (no_requeue, Some err)
  | None =>
    match SetControllerReference pvc_gvk pvc (constructRSCronJob name (nn_Namespace req) schedule (obj_Name pvc)) with
    | (_, Some err) => mret (no_requeue, Some err)
    | (job, None) =>
      r ← call (ECreate KReclaimSpaceCronJob job);
      mret match r with inl err => (no_requeue, Some err) | inr _ => (no_requeue, None) end
    end
  end.

Definition unmanaged {A} `{HasMeta A} (child : option A) : bool :=
  match child with Some job => negb (IsManagedByController job) | None => false end.

Definition processReclaimSpace (req : NamespacedName) (pvc : PersistentVolumeClaim) (driver : string) : M result :=
  r ← findChildCronJob req;
  match r with
  | inl err => mret (no_requeue, Some err)
  | inr child =>
    if unmanaged child then mret (no_requeue, None)
    else
    '(schedule, err) ← determineScheduleAndRequeue pvc driver RsCronJobScheduleTimeAnnotation;
    match err with
    | Some ErrConnNotFoundRequeueNeeded => mret (mkResult true 0, None)
    | Some ErrScheduleNotFound => drop_reclaimspace pvc child
    | Some (OtherError err) => mret (no_requeue, Some err)
    | None =>
      match child with
      | Some job => update_reclaimspace req pvc job schedule
      | None => create_reclaimspace req pvc schedule
      end
    end
  end.

(** *** Key rotation: the claim as patched is kept for ReclaimSpace *)

Definition drop_keyrotation (child : option EncryptionKeyRotationCronJob)
    (wrap : EncryptionKeyRotationCronJob -> error -> error) : M (option error) :=
  match child with
  | None => mret None
  | Some job =>
    err ← delete_ignoring_missing KEncryptionKeyRotationCronJob job;
    mret match err with Some err => Some (wrap job err) | None => None end
  end.
Definition disable_failed (_ : EncryptionKeyRotationCronJob) (err : error) : error :=
  WrapError (Error err +:+ ": failed to delete EncryptionKeyRotationCronJob") err.
Definition drop_failed (job : EncryptionKeyRotationCronJob) (err : error) : error :=
  WrapError ("failed to delete child encryptionkeyrotationcronjob " +:+ go_quote (obj_Name job) +:+ ":" +:+ Error err) err.

Definition update_keyrotation (req : NamespacedName) (pvc : PersistentVolumeClaim) (job : EncryptionKeyRotationCronJob)
    (schedule : string) : M (PersistentVolumeClaim * option error) :=
  let new := constructKRCronJob (obj_Name job) (nn_Namespace req) schedule (obj_Name pvc) in
  if bool_decide (new.(krcj_Spec) = job.(krcj_Spec)) then mret (pvc, None)
  else
  r ← call (EUpdate KEncryptionKeyRotationCronJob (set_cj_Spec job new.(krcj_Spec)));
  match r with
  | inl err => mret (pvc, Some err)
  | inr _ => patchAnnotationsToResource {[ KrcJobScheduleTimeAnnotation := schedule ]} pvc
  end.

Definition create_keyrotation (req : NamespacedName) (pvc : PersistentVolumeClaim) (schedule : string)
    : M (PersistentVolumeClaim * option error) :=
  name ← generateCronJobName (nn_Name req);
  '(pvc, err) ← patchAnnotationsToResource
    {[ KrcJobNameAnnotation := name; KrcJobScheduleTimeAnnotation := schedule ]} pvc;
  match err with
  | Some err => mret (pvc, Some err)
  | None =>
    match SetControllerReference pvc_gvk pvc (constructKRCronJob name (nn_Namespace req) schedule (obj_Name pvc)) with
    | (_, Some err) => mret (pvc, Some err)
    | (job, None) =>
      r ← call (ECreate KEncryptionKeyRotationCronJob job);
      mret match r with inl err => (pvc, Some err) | inr _ => (pvc, None) end
    end
  end.

Definition processKeyRotation (req : NamespacedName) (pvc : PersistentVolumeClaim) (driver : string)
    : M (PersistentVolumeClaim * option error) :=
  r ← findChildEncryptionKeyRotationCronJob req;
  match r with
  | inl err => mret (pvc, Some err)
  | inr child =>
    if unmanaged child then mret (pvc, None)
    else
    r ← checkDisabledByAnnotation pvc KrEnableAnnotation;
    match r with
    | inl err => mret (pvc, Some err)
    | inr true => err ← drop_keyrotation child disable_failed; mret (pvc, err)
    | inr false =>
      '(schedule, err) ← determineScheduleAndRequeue pvc driver KrcJobScheduleTimeAnnotation;
      match err with
      | Some ErrScheduleNotFound => err ← drop_keyrotation child drop_failed; mret (pvc, err)
      | Some err => mret (pvc, Some (schedule_error_value err))
      | None =>
        match child with
        | Some job => update_keyrotation req pvc job schedule
        | None => create_keyrotation req pvc schedule
        end
      end
    end
  end.

(** *** The reconciler *)

Definition Reconcile (req : NamespacedName) : M result :=
  r ← get_obj KPersistentVolumeClaim req;
  match r with
  | inl err => if IsNotFound err then mret (no_requeue, None) else mret (no_requeue, Some err)
  | inr pvc =>
    if is_deleting pvc then mret (no_requeue, None)
    else if negb (bool_decide (pvc.(pvc_Phase) = ClaimBound)) then mret (mkResult true 0, None)
    else
    r ← get_obj KPersistentVolume (mkNamespacedName "" pvc.(pvc_VolumeName));
    match r with
    | inl err => mret (no_requeue, Some err)
    | inr pv =>
      match pv.(pv_CSI) with
      | None => mret (no_requeue, None)
      | Some csi =>
        '(pvc, keyRotationErr) ← processKeyRotation req pvc csi.(csi_Driver);
        '(reclaimSpaceResult, reclaimSpaceErr) ← processReclaimSpace req pvc csi.(csi_Driver);
        match reclaimSpaceErr with
        | Some err => mret (reclaimSpaceResult, Some err)
        | None => mret (no_requeue, keyRotationErr)
        end
      end
    end
  end.
End reconciler.
End PVCReconciler.
