(* ===== verification/PVCProofs.v ===== *)
(** * The PersistentVolumeClaim controllers keep their promises *)

From S2P Require Import Prelude.
From S2P Require Import GoErrors.
From S2P Require Import GoText.
From S2P Require Import GoTime.
From S2P Require Import Config.
From S2P Require Import ApiTypes.
From S2P Require Import CsiaddonsTypes.
From S2P Require Import Effects.
From S2P Require Import ControllerUtil.
From S2P Require Import JobController.
From S2P Require Import JobProofs.
From S2P Require Import CronJobController.
From S2P Require Import PVCController.

Module PVCContract.
Import PVCReconciler.

Section contract.
Context (ParseStandard : string -> error + (Z -> Z)) (precedence : string) (pvc_gvk : error + string * string).
(** The cron library rejects the empty string. *)
Context (Hempty : exists err, ParseStandard "" = inl err).
Context (req : NamespacedName).

(** ** Where a schedule comes from *)

(** The schedule an object asks for: its annotation, or the default if that does
    not parse. *)
Definition asks (key : string) (annotations : gmap string string) : option string :=
  match annotations !! key with
  | None => None
  | Some s => Some (match ParseStandard s with inr _ => s | inl _ => defaultSchedule end)
  end.

Lemma getScheduleFromAnnotation_asks key a :
  getScheduleFromAnnotation ParseStandard key a = (default "" (asks key a), bool_decide (is_Some (asks key a))).
Proof.
  unfold getScheduleFromAnnotation, asks. destruct (a !! key) as [s|]; [|done].
  rewrite bool_decide_true by done. by destruct (ParseStandard s).
Qed.

Lemma asks_nonempty key a : asks key a ≠ Some "".
Proof.
  unfold asks. destruct (a !! key) as [s|]; [|done]. destruct (ParseStandard s) eqn:Hs; [done|].
  intros [= ->]. destruct Hempty as [err He]. congruence.
Qed.

Definition class_asks (h : hist) (pvc : PersistentVolumeClaim) (key s : string) : Prop :=
  exists name (sc : StorageClass), pvc.(pvc_StorageClassName) = Some name /\ name ≠ "" /\
    existT (EGet KStorageClass (mkNamespacedName "" name)) (inr sc) ∈ h /\
    asks key sc.(sc_meta).(Annotations) = Some s.

(** Whether a side-car of the driver has registered the operation of the
    annotation: what the look-up of the driver's connections in the pool found. *)
Definition operation (key : string) : option Operation :=
  if bool_decide (key = KrcJobScheduleTimeAnnotation) then Some keyRotationOp
  else if bool_decide (key = RsCronJobScheduleTimeAnnotation) then Some relciamSpaceOp else None.
Definition capable_in (op : Operation) (conns : gmap string Connection) : Prop :=
  exists k c, conns !! k = Some c /\ existsb (supports op) c.(Capabilities) = true.
Definition driver_can (h : hist) (d key : string) : Prop :=
  exists op conns, operation key = Some op /\ looked_up d "" h conns /\ capable_in op conns.
Definition driver_cannot (h : hist) (d key : string) : Prop :=
  exists op conns, operation key = Some op /\ looked_up d "" h conns /\ ~ capable_in op conns.

(** The driver of the claim's volume. *)
Definition driver_of (h : hist) (d : string) : Prop :=
  exists (pvc : PersistentVolumeClaim) (pv : PersistentVolume) csi,
    existT (EGet KPersistentVolumeClaim req) (inr pvc) ∈ h /\
    existT (EGet KPersistentVolume (mkNamespacedName "" pvc.(pvc_VolumeName))) (inr pv) ∈ h /\
    pv.(pv_CSI) = Some csi /\ d = csi.(csi_Driver).

(** The schedule of the namespace counts when the driver has registered the
    operation, and only then. *)
Definition namespace_asks (h : hist) (pvc : PersistentVolumeClaim) (d key s : string) : Prop :=
  exists ns : NamespaceObj, existT (EGet KNamespace (mkNamespacedName "" (obj_Namespace pvc))) (inr ns) ∈ h /\
    asks key ns.(ns_meta).(Annotations) = Some s /\ driver_can h d key.
Definition namespace_silent (h : hist) (pvc : PersistentVolumeClaim) (d key : string) : Prop :=
  exists ns : NamespaceObj, existT (EGet KNamespace (mkNamespacedName "" (obj_Namespace pvc))) (inr ns) ∈ h /\
    (asks key ns.(ns_meta).(Annotations) = None \/ driver_cannot h d key).

(** The schedule in force: the class's alone under that precedence; otherwise the
    claim's, then the namespace's, then the class's. *)
Definition in_force (h : hist) (pvc : PersistentVolumeClaim) (key s : string) : Prop :=
  if bool_decide (precedence = ScheduleSC) then class_asks h pvc key s
  else asks key pvc.(pvc_meta).(Annotations) = Some s \/
       asks key pvc.(pvc_meta).(Annotations) = None /\ exists d, driver_of h d /\
         (namespace_asks h pvc d key s \/ namespace_silent h pvc d key /\ class_asks h pvc key s).

(** These are facts about calls that were made. *)
Section monotone.
Context (h h' : hist) (Hsub : forall c, c ∈ h -> c ∈ h').

Lemma class_asks_in pvc key s : class_asks h pvc key s -> class_asks h' pvc key s.
Proof. intros (name & sc & ? & ? & ? & ?). exists name, sc. eauto. Qed.
Lemma looked_up_in d node conns : looked_up d node h conns -> looked_up d node h' conns.
Proof.
  intros (cp & Hcp & Hin & Hall). exists cp. split_and!; [auto| |done].
  intros k c Hk. destruct (Hin k c Hk) as (Hcl & c0 & ? & ? & Hr). split; [done|]. exists c0.
  split_and!; [done..|]. by eapply Connection.reached_in.
Qed.
Lemma driver_of_in d : driver_of h d -> driver_of h' d.
Proof. intros (pvc & pv & csi & ? & ? & ? & ?). exists pvc, pv, csi. auto. Qed.
Lemma namespace_asks_in pvc d key s : namespace_asks h pvc d key s -> namespace_asks h' pvc d key s.
Proof.
  intros (ns & ? & ? & op & conns & ? & ? & ?). exists ns. split_and!; [auto|done|]. exists op, conns. eauto using looked_up_in.
Qed.
Lemma namespace_silent_in pvc d key : namespace_silent h pvc d key -> namespace_silent h' pvc d key.
Proof.
  intros (ns & ? & [?|(op & conns & ? & ? & ?)]); exists ns; (split; [auto|]); [by left|right].
  exists op, conns. eauto using looked_up_in.
Qed.
Lemma in_force_in pvc key s : in_force h pvc key s -> in_force h' pvc key s.
Proof.
  unfold in_force. case_bool_decide; [by apply class_asks_in|].
  intros [?|(? & d & Hd & Hns)]; [by left|right]. split; [done|]. exists d. split; [by apply driver_of_in|].
  destruct Hns as [?|[? ?]]; [left|right]; eauto using namespace_asks_in, namespace_silent_in, class_asks_in.
Qed.
End monotone.

(** The class does not ask for a schedule, and neither do the claim and the
    namespace where they count. *)
Definition class_silent (h : hist) (pvc : PersistentVolumeClaim) (key : string) : Prop :=
  match pvc.(pvc_StorageClassName) with
  | None => True
  | Some name =>
    name = "" \/
    (exists err, existT (EGet KStorageClass (mkNamespacedName "" name)) (inl err) ∈ h /\ IsNotFound err = true) \/
    (exists sc : StorageClass, existT (EGet KStorageClass (mkNamespacedName "" name)) (inr sc) ∈ h /\
       asks key sc.(sc_meta).(Annotations) = None)
  end.
Definition silent (h : hist) (pvc : PersistentVolumeClaim) (key : string) : Prop :=
  class_silent h pvc key /\
  (precedence ≠ ScheduleSC -> asks key pvc.(pvc_meta).(Annotations) = None /\ exists d, driver_of h d /\ namespace_silent h pvc d key).

Lemma class_silent_in h h' pvc key : (forall c, c ∈ h -> c ∈ h') -> class_silent h pvc key -> class_silent h' pvc key.
Proof.
  intros Hsub. unfold class_silent. case_match; [|done].
  intros [?|[(err & ? & ?)|(sc & ? & ?)]]; [by left|right; left; by eauto|right; right; by eauto].
Qed.

(** Reads, and the search for a connection. *)
Definition inquiry (e : event) : Prop :=
  match e with
  | EGet k _ => k = KNamespace \/ k = KStorageClass \/ k = KLease
  | ENow => True
  | e => connect_call e
  end.

Lemma lookup_inquiry e : connect_call e -> inquiry e.
Proof. destruct e as [[]| | | | | | |? ? []| | | | | | | | | | | |]; simpl; tauto. Qed.

(** ** Determining the schedule *)
Section schedule.
Context (G : hist -> event -> Prop).
Hypothesis HG : forall h e, inquiry e -> G h e.

(** What the look-ups return: a schedule with its source, or an error. *)
Definition answers (h : hist) (source : hist -> string -> Prop) (none : hist -> Prop) (h' : hist)
    (o : outcome (string * option schedule_error)) : Prop :=
  extends inquiry h h' /\ exists s err, o = Done (s, err) /\
    match err with
    | None => s ≠ "" /\ source h' s
    | Some err => s = "" /\ (err = ErrScheduleNotFound -> none h')
    end.

Lemma getScheduleFromSC_wp h pvc key :
  wp G (answers h (fun h' s => class_asks h' pvc key s) (fun h' => class_silent h' pvc key)) h
    (getScheduleFromSC ParseStandard pvc key).
Proof.
  unfold getScheduleFromSC, get_obj, class_silent. destruct (pvc_StorageClassName pvc) as [name|] eqn:Hname.
  2: { split; [apply extends_refl|]. by exists "", (Some ErrScheduleNotFound). }
  case_bool_decide; [split; [apply extends_refl|]; exists "", (Some ErrScheduleNotFound); by auto|].
  apply wp_call; [by apply HG; simpl; auto|]. intros r. cbn [mbind prog_bind].
  apply wp_ret. split; [apply extends_one; simpl; auto|].
  destruct r as [err|sc].
  { destruct (IsNotFound err) eqn:Herr; eexists _, _; (split; [done|]); cbn; (split; [done|]); [|done].
    intros _. right. left. exists err. split; [set_solver|done]. }
  rewrite getScheduleFromAnnotation_asks. destruct (asks key _) as [s|] eqn:Hs; cbn.
  - eexists _, _. split; [done|]. cbn. split; [intros ->; by apply asks_nonempty in Hs|].
    exists name, sc. split_and!; [done|done|set_solver|done].
  - eexists _, _. split; [done|]. cbn. split; [done|]. intros _. right. right. exists sc. split; [set_solver|done].
Qed.

Lemma schedule_from_class_wp h pvc key :
  wp G (answers h (fun h' s => class_asks h' pvc key s) (fun h' => class_silent h' pvc key)) h (schedule_from_class ParseStandard pvc key).
Proof.
  unfold schedule_from_class. eapply wp_seq; [apply getScheduleFromSC_wp|].
  intros h1 o (Hext & s & err & -> & Hs). cbn [after].
  destruct err as [e|]; [destruct Hs as [-> Hs]|destruct Hs; case_bool_decide; [done|]]; (split; [done|]).
  - by exists "", (Some e).
  - by exists s, None.
Qed.

Lemma capable_existsb op seed (conns : gmap string Connection) :
  existsb (fun kc => existsb (supports op) kc.2.(Capabilities)) (map_range seed conns) = true <-> capable_in op conns.
Proof.
  rewrite existsb_exists. split.
  - intros ([k c] & Hin%list_elem_of_In%elem_of_map_range & Hc). by exists k, c.
  - intros (k & c & Hk & Hc). exists (k, c). split; [|done]. by apply list_elem_of_In, elem_of_map_range.
Qed.

(** The answer of the look-up: supported when a connection has the capability. *)
Lemma checkDriverSupportCapability_wp h a d op :
  wp G (fun h' o => extends inquiry h h' /\ exists r, o = Done r /\
      match r with
      | inr (_, supported) => exists conns, looked_up d "" h' conns /\ (supported = true <-> capable_in op conns)
      | inl _ => True
      end) h (checkDriverSupportCapability a d op).
Proof.
  unfold checkDriverSupportCapability.
  eapply wp_seq; [apply (pool_GetByNodeID_wp G); intros; by apply HG, lookup_inquiry|].
  intros h1 o (Hext%(extends_mono _ _ _ _ lookup_inquiry) & r & -> & Hr). cbn [after].
  destruct r as [err|conns]; [split; [done|by eexists]|].
  apply wp_call; [by apply HG|]. intros seed. cbn [mbind prog_bind]. 
  split; [by apply extends_cons|]. eexists. split; [done|].
  pose proof (capable_existsb op seed conns) as Hcap. destruct (existsb _ _).
  all: exists conns; (split; [eapply looked_up_in; [|exact Hr]; by right|done]).
Qed.

Lemma if_supported_wp h op (ns : NamespaceObj) d s :
  s ≠ "" ->
  wp G (answers h (fun h' s' => s' = s /\ exists conns, looked_up d "" h' conns /\ capable_in op conns)
          (fun h' => exists conns, looked_up d "" h' conns /\ ~ capable_in op conns)) h (if_supported op ns d s).
Proof.
  intros Hs. unfold if_supported. eapply wp_seq; [apply checkDriverSupportCapability_wp|].
  intros h1 o (Hext & r & -> & Hr). cbn [after]. split; [done|].
  destruct r as [err|[requeue supported]]; [by eexists _, _|]. destruct Hr as (conns & Hl & Hiff).
  destruct supported, requeue; eexists _, _; (split; [done|]); cbn; (split; [done|]); try done;
    [split; [done|]; exists conns; naive_solver..|]. intros _. exists conns. naive_solver.
Qed.

Lemma getScheduleFromNS_wp h pvc d key :
  wp G (answers h (fun h' s => namespace_asks h' pvc d key s) (fun h' => namespace_silent h' pvc d key)) h
    (getScheduleFromNS ParseStandard pvc d key).
Proof.
  unfold getScheduleFromNS, get_obj. apply wp_call; [by apply HG; simpl; auto|].
  assert (forall r, extends inquiry h (existT (EGet KNamespace (mkNamespacedName "" (obj_Namespace pvc))) r :: h)) as Hext.
  { intros r. apply extends_one. simpl. auto. }
  intros [err|ns]; cbn [mbind prog_bind]. { split; [done|]. by eexists _, _. }
  rewrite getScheduleFromAnnotation_asks. destruct (asks key _) as [s|] eqn:Hs; cbn [default].
  2: { rewrite bool_decide_false by (by intros [? ?]). split; [done|]. eexists _, _. split; [done|]. split; [done|].
       intros _. exists ns. split; [set_solver|by left]. }
  rewrite bool_decide_true by done. assert (s ≠ "") as Hne by (intros ->; by apply asks_nonempty in Hs).
  assert (forall op, operation key = Some op ->
    wp G (answers h (fun h' s => namespace_asks h' pvc d key s) (fun h' => namespace_silent h' pvc d key))
      (existT (EGet KNamespace (mkNamespacedName "" (obj_Namespace pvc))) (inr ns) :: h) (if_supported op ns d s)) as Hop.
  { intros op Hk. eapply wp_post; [by apply if_supported_wp|]. intros h' o (Hext' & s' & err & -> & Hs').
    assert (existT (EGet KNamespace (mkNamespacedName "" (obj_Namespace pvc))) (inr ns) ∈ h') as Hin
      by (apply (extends_in _ _ _ Hext'); set_solver).
    split; [eapply extends_trans; [apply Hext|done]|]. eexists _, _. split; [done|]. destruct err as [err|].
    - destruct Hs' as [-> Hno]. split; [done|]. intros [conns Hc]%Hno. exists ns. split; [done|]. right. by exists op, conns.
    - destruct Hs' as [Hs1 [-> [conns Hc]]]. split; [done|]. exists ns. split_and!; [done..|]. by exists op, conns. }
  case_bool_decide as Hk; [apply Hop; unfold operation; by rewrite bool_decide_true|].
  case_bool_decide as Hr; [apply Hop; unfold operation; rewrite bool_decide_false, bool_decide_true by done; done|].
  split; [done|]. by eexists _, _.
Qed.

Lemma determine_wp h pvc d key :
  driver_of h d ->
  wp G (answers h (fun h' s => in_force h' pvc key s) (fun h' => silent h' pvc key)) h (determineScheduleAndRequeue ParseStandard precedence pvc d key).
Proof.
  intros Hd. unfold determineScheduleAndRequeue, answers, in_force, getScheduleFromPVC. case_bool_decide.
  { eapply wp_post; [apply schedule_from_class_wp|]. intros h' o (Hext & s & err & -> & Hs). split; [done|].
    exists s, err. split; [done|]. destruct err; [|done]. destruct Hs. split; [done|]. intros. by split; auto. }
  rewrite getScheduleFromAnnotation_asks. destruct (asks key (Annotations (pvc_meta pvc))) as [s|] eqn:Hp; cbn [default]; change (id ?x) with x.
  { rewrite (bool_decide_true (is_Some _)) by done. cbn [id]. cbv iota. case_bool_decide; [subst; by apply asks_nonempty in Hp|].
    split; [apply extends_refl|]. eexists _, _. split; [done|]. cbn. by auto. }
  rewrite (bool_decide_false (is_Some _)) by (by intros [? ?]). cbn [negb bool_decide].
  eapply wp_seq; [apply getScheduleFromNS_wp|]. intros h1 o (Hext & s & err & -> & Hs). cbn [after].
  destruct err as [err|].
  - destruct Hs as [-> Hno]. cbn [negb bool_decide]. destruct err; try (split; [done|]; by eexists _, _).
    specialize (Hno eq_refl). eapply wp_post; [apply schedule_from_class_wp|].
    intros h2 o (Hext2 & s & err & -> & Hs). split; [by eapply extends_trans|]. eexists _, _. split; [done|].
    assert (exists d, driver_of h2 d /\ namespace_silent h2 pvc d key) as Hsil.
    { exists d. split.
      - eapply driver_of_in; [|exact Hd]. intros c Hc. by apply (extends_in _ _ _ Hext2), (extends_in _ _ _ Hext).
      - eapply namespace_silent_in; [|exact Hno]. intros c. apply (extends_in _ _ _ Hext2). }
    destruct err; destruct Hs; (split; [done|]); [by split; auto|]. right. split; [done|].
    destruct Hsil as (d' & ? & ?). exists d'. by auto.
  - destruct Hs as [Hne Hns]. case_bool_decide; [done|]. split; [done|]. eexists _, _. split; [done|].
    cbn. split; [done|]. right. split; [done|]. exists d. split; [|by left].
    eapply driver_of_in; [|exact Hd]. intros c. apply (extends_in _ _ _ Hext).
Qed.

(** The feature is switched off on the claim, its namespace or its class. *)
Definition disabled (h : hist) (pvc : PersistentVolumeClaim) (key : string) : Prop :=
  (pvc.(pvc_meta).(Annotations) !! key = Some "false" /\ precedence ≠ ScheduleSC) \/
  (precedence ≠ ScheduleSC /\ exists ns : NamespaceObj,
     existT (EGet KNamespace (mkNamespacedName "" (obj_Namespace pvc))) (inr ns) ∈ h /\
     ns.(ns_meta).(Annotations) !! key = Some "false") \/
  (exists name (sc : StorageClass), pvc.(pvc_StorageClassName) = Some name /\
     existT (EGet KStorageClass (mkNamespacedName "" name)) (inr sc) ∈ h /\
     sc.(sc_meta).(Annotations) !! key = Some "false").

Lemma checkAnnotationForValue_true {A} `{HasMeta A} (o : A) key v :
  checkAnnotationForValue o key v = true -> (meta o).(Annotations) !! key = Some v.
Proof. unfold checkAnnotationForValue. destruct (_ !! key); [|done]. intros ->%bool_decide_eq_true. done. Qed.

Definition disabled_post (h : hist) pvc key (h' : hist) (o : outcome (error + bool)) : Prop :=
  extends inquiry h h' /\ exists r, o = Done r /\ (r = inr true -> disabled h' pvc key).

Lemma isDisabledOnSC_wp h pvc key : wp G (disabled_post h pvc key) h (isDisabledOnSC pvc key).
Proof.
  unfold isDisabledOnSC, get_obj. destruct (pvc_StorageClassName pvc) as [name|] eqn:Hname.
  2: { split; [apply extends_refl|by exists (inr false)]. }
  case_match; [split; [apply extends_refl|by exists (inr false)]|].
  apply wp_call; [by apply HG; simpl; auto|]. intros r. cbn [mbind prog_bind].
  split; [apply extends_one; simpl; auto|]. eexists. split; [done|]. destruct r as [err|sc]; [done|].
  intros [= Hsc%checkAnnotationForValue_true]. right. right. exists name, sc. split_and!; [done|set_solver|done].
Qed.

Lemma checkDisabled_wp h pvc key : wp G (disabled_post h pvc key) h (checkDisabledByAnnotation precedence pvc key).
Proof.
  unfold checkDisabledByAnnotation, get_obj. case_bool_decide as Hp; [apply isDisabledOnSC_wp|].
  destruct (checkAnnotationForValue pvc key "false") eqn:Hpvc.
  { split; [apply extends_refl|]. exists (inr true). split; [done|]. intros _. left.
    split; [exact (checkAnnotationForValue_true _ _ _ Hpvc)|done]. }
  apply wp_call; [by apply HG; simpl; auto|].
  assert (forall r, extends inquiry h (existT (EGet KNamespace (mkNamespacedName "" (obj_Namespace pvc))) r :: h)) as Hext.
  { intros r. apply extends_one. simpl. auto. }
  intros [err|ns]; cbn [mbind prog_bind]; [by split; [|eexists]|].
  destruct (checkAnnotationForValue ns key "false") eqn:Hns.
  - split; [done|]. exists (inr true). split; [done|]. intros _. right. left. split; [done|]. exists ns.
    split; [set_solver|exact (checkAnnotationForValue_true _ _ _ Hns)].
  - eapply wp_post; [apply isDisabledOnSC_wp|]. intros h' o [Hext' Ho].
    split; [eapply extends_trans; [apply Hext|done]|done].
Qed.
End schedule.

(** ** The contract *)

(** The claim as fetched, or as a patch returned it. *)
Definition claim (h : hist) (pvc : PersistentVolumeClaim) : Prop :=
  existT (EGet KPersistentVolumeClaim req) (inr pvc) ∈ h \/
  exists o a, existT (EPatch KPersistentVolumeClaim o a) (inr pvc) ∈ h.

(** A live claim that is bound to a CSI volume. *)
Definition eligible (h : hist) : Prop :=
  exists (pvc : PersistentVolumeClaim) (pv : PersistentVolume),
    existT (EGet KPersistentVolumeClaim req) (inr pvc) ∈ h /\ is_deleting pvc = false /\ pvc.(pvc_Phase) = ClaimBound /\
    existT (EGet KPersistentVolume (mkNamespacedName "" pvc.(pvc_VolumeName))) (inr pv) ∈ h /\ is_Some pv.(pv_CSI).

Section children.
Context (kc : kind) `{CronJob (obj_of kc)} (schedKey nameKey : string) (off : hist -> PersistentVolumeClaim -> Prop).
Context (construct : string -> string -> string -> string -> obj_of kc).

Definition children (h : hist) (jobs : list (obj_of kc)) : Prop :=
  existT (EListField kc JobOwnerKey (nn_Name req) (nn_Namespace req)) (inr jobs) ∈ h.

(** Created for a claim without children, after its name and schedule were put on
    the claim. *)
Definition create_ok (h : hist) (o : obj_of kc) : Prop :=
  children h [] /\ exists (pvc pvc' : PersistentVolumeClaim) name s, claim h pvc /\ in_force h pvc schedKey s /\
    existT (EPatch KPersistentVolumeClaim pvc (createPatchBytesForAnnotations {[ nameKey := name; schedKey := s ]})) (inr pvc') ∈ h /\
    SetControllerReference pvc_gvk pvc' (construct name (nn_Namespace req) s (obj_Name pvc')) = (o, None).

(** The first child, if managed, gets the specification for the schedule. *)
Definition update_ok (h : hist) (o : obj_of kc) : Prop :=
  exists job rest pvc s, children h (job :: rest) /\ IsManagedByController job = true /\ claim h pvc /\
    in_force h pvc schedKey s /\ o = set_cj_Spec job (cron_spec s (obj_Name pvc)) /\
    cj_Spec job ≠ cron_spec s (obj_Name pvc).

(** Children but the first go, and the first if it is managed and the feature is
    off. *)
Definition delete_ok (h : hist) (o : obj_of kc) : Prop :=
  exists job rest, children h (job :: rest) /\
    (o ∈ rest \/ o = job /\ IsManagedByController job = true /\ exists pvc, claim h pvc /\ off h pvc).
End children.

Definition rs_off (h : hist) (pvc : PersistentVolumeClaim) : Prop := silent h pvc RsCronJobScheduleTimeAnnotation.
Definition kr_off (h : hist) (pvc : PersistentVolumeClaim) : Prop :=
  silent h pvc KrcJobScheduleTimeAnnotation \/ disabled h pvc KrEnableAnnotation.

(** Patches touch four annotations, and remove only the name of the cron job. *)
Definition patch_ok (h : hist) (pvc : PersistentVolumeClaim) (a : gmap string (option string)) : Prop :=
  claim h pvc /\ forall k v, a !! k = Some v ->
    k ∈ [RsCronJobNameAnnotation; RsCronJobScheduleTimeAnnotation; KrcJobNameAnnotation; KrcJobScheduleTimeAnnotation] /\
    (v = None -> k = RsCronJobNameAnnotation /\ rs_off h pvc).

Definition pvc_contract (h : hist) (e : event) : Prop :=
  inquiry e \/
  match e with
  | EGet k key => k = KPersistentVolumeClaim /\ key = req /\ h = [] \/ k = KPersistentVolume
  | EListField k f v ns =>
    (k = KReclaimSpaceCronJob \/ k = KEncryptionKeyRotationCronJob) /\
    f = JobOwnerKey /\ v = nn_Name req /\ ns = nn_Namespace req /\ eligible h
  | ECreate k o => eligible h /\
    match k return obj_of k -> Prop with
    | KReclaimSpaceCronJob => fun o => create_ok KReclaimSpaceCronJob RsCronJobScheduleTimeAnnotation RsCronJobNameAnnotation
        constructRSCronJob h o
    | KEncryptionKeyRotationCronJob => fun o => create_ok KEncryptionKeyRotationCronJob KrcJobScheduleTimeAnnotation
        KrcJobNameAnnotation constructKRCronJob h o
    | _ => fun _ => False
    end o
  | EUpdate k o => eligible h /\
    match k return obj_of k -> Prop with
    | KReclaimSpaceCronJob => fun o => update_ok KReclaimSpaceCronJob RsCronJobScheduleTimeAnnotation h o
    | KEncryptionKeyRotationCronJob => fun o => update_ok KEncryptionKeyRotationCronJob KrcJobScheduleTimeAnnotation h o
    | _ => fun _ => False
    end o
  | EDelete k o => eligible h /\
    match k return obj_of k -> Prop with
    | KReclaimSpaceCronJob => fun o => delete_ok KReclaimSpaceCronJob rs_off h o
    | KEncryptionKeyRotationCronJob => fun o => delete_ok KEncryptionKeyRotationCronJob kr_off h o
    | _ => fun _ => False
    end o
  | EPatch k o a => eligible h /\
    match k return obj_of k -> Prop with
    | KPersistentVolumeClaim => fun o => patch_ok h o a
    | _ => fun _ => False
    end o
  | _ => False
  end.

(** ** The controller keeps it: all the facts are about calls that were made *)

Definition grows (h h' : hist) : Prop := forall c, c ∈ h -> c ∈ h'.

Lemma grows_refl h : grows h h.
Proof. by intros c. Qed.
Lemma grows_trans h1 h2 h3 : grows h1 h2 -> grows h2 h3 -> grows h1 h3.
Proof. unfold grows. auto. Qed.
Lemma grows_cons h h' c : grows h h' -> grows h (c :: h').
Proof. unfold grows. set_solver. Qed.
Lemma grows_extends P h h' : extends P h h' -> grows h h'.
Proof. intros Hext c. apply (extends_in _ _ _ Hext). Qed.

Lemma eligible_in h h' : grows h h' -> eligible h -> eligible h'.
Proof. intros Hsub (pvc & pv & ? & ? & ? & ? & ?). exists pvc, pv. split_and!; auto. Qed.
Lemma claim_in h h' pvc : grows h h' -> claim h pvc -> claim h' pvc.
Proof. intros Hsub [?|(o & a & ?)]; [left; auto|right; exists o, a; auto]. Qed.
Lemma silent_in h h' pvc key : grows h h' -> silent h pvc key -> silent h' pvc key.
Proof.
  intros Hsub [Hc Hp]. split; [by eapply class_silent_in|]. intros Hne. destruct (Hp Hne) as (? & d & ? & ?).
  split; [done|]. exists d. eauto using driver_of_in, namespace_silent_in.
Qed.
Lemma disabled_in h h' pvc key : grows h h' -> disabled h pvc key -> disabled h' pvc key.
Proof.
  intros Hsub [?|[(? & ns & ? & ?)|(name & sc & ? & ? & ?)]];
    [by left|right; left; split; [done|]; exists ns; auto|right; right; exists name, sc; auto].
Qed.
Lemma children_in kc h h' jobs : grows h h' -> children kc h jobs -> children kc h' jobs.
Proof. intros Hsub. apply Hsub. Qed.
Lemma in_force_grows h h' pvc key s : grows h h' -> in_force h pvc key s -> in_force h' pvc key s.
Proof. intros Hsub. by apply in_force_in. Qed.

Abbreviation contract := pvc_contract.

Lemma inquiry_contract h e : inquiry e -> contract h e.
Proof. by left. Qed.

Section find.
Context (kc : kind) (list_failed : error -> error) (wrap : obj_of kc -> error -> error).
Context (Hdelete : forall h job rest j, eligible h -> children kc h (job :: rest) -> j ∈ rest -> contract h (EDelete kc j)).

Lemma delete_rest_wp h job rest l :
  eligible h -> children kc h (job :: rest) -> l ⊆ rest ->
  wp contract (fun h' o => grows h h' /\ exists err, o = Done err) h (delete_rest kc wrap l).
Proof.
  revert h. induction l as [|j l IH]; intros h Hel Hch Hsub; cbn [delete_rest]; [split; [apply grows_refl|by eexists]|].
  unfold delete_ignoring_missing. apply wp_assoc, wp_call; [eapply Hdelete; [done..|set_solver]|].
  intros r. cbn [mbind prog_bind mret prog_ret].
  assert (grows h (existT (EDelete kc j) r :: h)) as Hg by apply grows_cons, grows_refl.
  destruct (IgnoreNotFound r) as [err|]; [split; [done|by eexists]|].
  eapply wp_post; [apply IH; [by eapply eligible_in|by eapply children_in|set_solver]|].
  intros h' o [Hg' Ho]. split; [by eapply grows_trans|done].
Qed.

Lemma find_child_wp h :
  kc = KReclaimSpaceCronJob \/ kc = KEncryptionKeyRotationCronJob -> eligible h ->
  wp contract (fun h' o => grows h h' /\ exists r, o = Done r /\
      match r with
      | inl _ => True
      | inr None => children kc h' []
      | inr (Some job) => exists rest, children kc h' (job :: rest)
      end) h (find_child kc list_failed wrap req).
Proof.
  intros Hkc Hel. unfold find_child. apply wp_call; [right; by split_and!|]. intros [err|jobs]; cbn [mbind prog_bind].
  { split; [apply grows_cons, grows_refl|by eexists]. }
  match goal with |- wp _ _ ?h' _ => assert (grows h h' /\ children kc h' jobs) as [Hg Hch] end.
  { split; [apply grows_cons, grows_refl|]. unfold children. set_solver. }
  destruct jobs as [|job rest]; [split; [done|by exists (inr None)]|].
  eapply wp_seq; [eapply delete_rest_wp; [by eapply eligible_in|done|done]|].
  intros h2 o [Hg2 [err ->]]. cbn [after]. split; [by eapply grows_trans|]. eexists. split; [done|].
  destruct err; [done|]. exists rest. by eapply children_in.
Qed.
End find.

(** *** Patches *)
Lemma patch_wp h pvc a :
  eligible h -> patch_ok h pvc (createPatchBytesForAnnotations a) ->
  wp contract (fun h' o => grows h h' /\ exists pvc' err, o = Done (pvc', err) /\ claim h' pvc' /\
      (err = None -> existT (EPatch KPersistentVolumeClaim pvc (createPatchBytesForAnnotations a)) (inr pvc') ∈ h'))
    h (patchAnnotationsToResource a pvc).
Proof.
  intros Hel Hok. unfold patchAnnotationsToResource. apply wp_call; [right; by split|].
  intros [err|pvc']; cbn [mbind prog_bind]; (split; [apply grows_cons, grows_refl|]); eexists _, _; (split; [done|]).
  - split; [|done]. eapply claim_in; [apply grows_cons, grows_refl|apply Hok].
  - split; [right; eexists _, _; apply list_elem_of_here|intros _; apply list_elem_of_here].
Qed.

Lemma patch_ok_set h pvc a :
  claim h pvc -> (forall k, is_Some (a !! k) -> 
    k ∈ [RsCronJobNameAnnotation; RsCronJobScheduleTimeAnnotation; KrcJobNameAnnotation; KrcJobScheduleTimeAnnotation]) ->
  patch_ok h pvc (createPatchBytesForAnnotations a).
Proof.
  intros Hc Ha. split; [done|]. intros k v Hv. unfold createPatchBytesForAnnotations in Hv.
  apply lookup_fmap_Some in Hv as (x & <- & Hx). split; [by apply Ha|done].
Qed.

(** The keys of the patches. *)
Lemma two_keys (k1 k2 v1 v2 k : string) (l : list string) :
  k1 ∈ l -> k2 ∈ l -> is_Some (({[ k1 := v1; k2 := v2 ]} : gmap string string) !! k) -> k ∈ l.
Proof.
  intros H1 H2 [v Hv]. apply lookup_insert_Some in Hv as [[<- _]|[_ Hv]]; [done|].
  by apply lookup_singleton_Some in Hv as [<- _].
Qed.

Definition returns {A} (h h' : hist) (o : outcome A) : Prop := grows h h' /\ exists r, o = Done r.

(** *** Key rotation *)
Section keyrotation.
Abbreviation kc := KEncryptionKeyRotationCronJob.

(** The claim that comes out is one that was read. *)
Definition kr_post (h h' : hist) (o : outcome (PersistentVolumeClaim * option error)) : Prop :=
  grows h h' /\ exists pvc err, o = Done (pvc, err) /\ claim h' pvc.

Lemma drop_keyrotation_wp h pvc child wrap :
  eligible h -> claim h pvc -> unmanaged child = false ->
  match child with Some job => kr_off h pvc /\ exists rest, children kc h (job :: rest) | None => True end ->
  wp contract (returns h) h (drop_keyrotation child wrap).
Proof.
  intros Hel Hc Hman Hoff. unfold drop_keyrotation. destruct child as [job|]; [|split; [apply grows_refl|by eexists]].
  destruct Hoff as [Hoff [rest Hch]]. unfold delete_ignoring_missing. apply wp_assoc, wp_call.
  { right. split; [done|]. exists job, rest. split; [done|]. right. split_and!; [done|by apply negb_false_iff|by exists pvc]. }
  intros r. split; [apply grows_cons, grows_refl|by eexists].
Qed.

Lemma update_keyrotation_wp h pvc job rest s :
  eligible h -> claim h pvc -> children kc h (job :: rest) -> IsManagedByController job = true ->
  in_force h pvc KrcJobScheduleTimeAnnotation s ->
  wp contract (kr_post h) h (update_keyrotation req pvc job s).
Proof.
  intros Hel Hc Hch Hman Hs. unfold update_keyrotation. case_bool_decide as Heq.
  { split; [apply grows_refl|]. by eexists _, _. }
  apply wp_call.
  { right. split; [done|]. exists job, rest, pvc, s. by split_and!. }
  intros r. cbn [mbind prog_bind].
  match goal with |- wp _ _ ?h' _ => assert (grows h h') as Hg by apply grows_cons, grows_refl end.
  destruct r as [err|job']; [split; [done|]; eexists _, _; split; [done|by eapply claim_in]|].
  eapply wp_post; [apply patch_wp; [by eapply eligible_in|]|].
  - apply patch_ok_set; [by eapply claim_in|]. intros k [v Hv]. apply lookup_singleton_Some in Hv as [<- _]. set_solver.
  - intros h' o (Hg' & pvc' & err & -> & Hc' & _). split; [by eapply grows_trans|by eexists _, _].
Qed.

Lemma create_keyrotation_wp h pvc s :
  eligible h -> claim h pvc -> children kc h [] -> in_force h pvc KrcJobScheduleTimeAnnotation s ->
  wp contract (kr_post h) h (create_keyrotation pvc_gvk req pvc s).
Proof.
  intros Hel Hc Hch Hs. unfold create_keyrotation, generateCronJobName. apply wp_assoc, wp_call; [by left|].
  intros now. cbn [mbind prog_bind mret prog_ret]. set (name := nn_Name req +:+ _).
  match goal with |- wp _ _ ?h' _ => assert (grows h h') as Hg by apply grows_cons, grows_refl end.
  eapply wp_seq; [apply patch_wp; [by eapply eligible_in|]|].
  { apply patch_ok_set; [by eapply claim_in|]. intros k. apply two_keys; set_solver. }
  intros h2 o (Hg2 & pvc' & err & -> & Hc' & Hp). cbn [after]. pose proof (grows_trans _ _ _ Hg Hg2) as Hg3.
  destruct err as [err|]; [split; [done|by eexists _, _]|].
  destruct (SetControllerReference _ _ _) as [job [err|]] eqn:Hset; [split; [done|by eexists _, _]|].
  apply wp_call.
  - right. split; [by eapply eligible_in|]. split; [by eapply children_in|]. exists pvc, pvc', name, s.
    split_and!; [by eapply claim_in|by eapply in_force_grows|by apply Hp|done].
  - intros r. cbn [mbind prog_bind]. split; [by apply grows_cons|].
    destruct r; eexists _, _; (split; [done|]); (eapply claim_in; [|done]); apply grows_cons, grows_refl.
Qed.

Lemma processKeyRotation_wp h pvc d :
  eligible h -> claim h pvc -> driver_of h d ->
  wp contract (kr_post h) h (processKeyRotation ParseStandard precedence pvc_gvk req pvc d).
Proof.
  intros Hel Hc Hd. unfold processKeyRotation. eapply wp_seq; [apply find_child_wp; [|by right|done]|].
  { intros h' job rest j Hel' Hch Hj. right. split; [done|]. exists job, rest. by auto. }
  intros h1 o (Hg1 & r & -> & Hr). cbn [after]. pose proof (claim_in _ _ _ Hg1 Hc) as Hc1.
  destruct r as [err|child]; [split; [done|by eexists _, _]|].
  destruct (unmanaged _) eqn:Hman; [split; [done|by eexists _, _]|].
  eapply wp_seq; [apply checkDisabled_wp, inquiry_contract|]. intros h2 o (Hext2 & r & -> & Hdis). cbn [after].
  apply grows_extends in Hext2 as Hg2. pose proof (grows_trans _ _ _ Hg1 Hg2) as Hg.
  pose proof (claim_in _ _ _ Hg2 Hc1) as Hc2. pose proof (eligible_in _ _ Hg Hel) as Hel2.
  assert (forall h' , grows h2 h' -> match child with Some job => exists rest, children kc h' (job :: rest) | None => children kc h' [] end) as Hch.
  { intros h' Hg'. destruct child; [destruct Hr as [rest ?]; exists rest|]; (eapply children_in; [|done]); by eapply grows_trans. }
  destruct r as [err|[]]; [split; [done|by eexists _, _]| |].
  { eapply wp_seq; [apply (drop_keyrotation_wp h2 pvc child); [done..|]|].
    - destruct child; [|done]. split; [right; auto|apply Hch, grows_refl].
    - intros h3 o [Hg3 [err ->]]. split; [by eapply grows_trans|]. eexists _, _. split; [done|by eapply claim_in]. }
  eapply wp_seq; [apply determine_wp; [apply inquiry_contract|by eapply driver_of_in]|]. intros h3 o (Hext3 & s & err & -> & Hs). cbn [after].
  apply grows_extends in Hext3 as Hg3. pose proof (claim_in _ _ _ Hg3 Hc2) as Hc3.
  pose proof (eligible_in _ _ Hg3 Hel2) as Hel3. pose proof (grows_trans _ _ _ Hg Hg3) as Hg'. specialize (Hch h3 Hg3).
  destruct err as [[]|]; try (split; [done|by eexists _, _]).
  - eapply wp_seq; [apply (drop_keyrotation_wp h3 pvc child); [done..|]|].
    + destruct child; [|done]. split; [left; by apply Hs|done].
    + intros h4 o [Hg4 [err ->]]. split; [by eapply grows_trans|]. eexists _, _. split; [done|by eapply claim_in].
  - destruct Hs as [_ Hs]. destruct child as [job|].
    + destruct Hch as [rest Hch]. eapply wp_post; [eapply update_keyrotation_wp; [done..|by apply negb_false_iff|done]|].
      intros h4 o (Hg4 & Ho). split; [by eapply grows_trans|done].
    + eapply wp_post; [by apply create_keyrotation_wp|]. intros h4 o (Hg4 & Ho). split; [by eapply grows_trans|done].
Qed.
End keyrotation.

(** *** ReclaimSpace *)
Section reclaimspace.
Abbreviation kc := KReclaimSpaceCronJob.

Lemma drop_name_wp h pvc :
  eligible h -> claim h pvc -> rs_off h pvc ->
  wp contract (returns h) h
    (r ← call (EPatch KPersistentVolumeClaim pvc {[ RsCronJobNameAnnotation := None ]});
     mret match r with inl err => (no_requeue, Some err) | inr _ => (no_requeue, None) end).
Proof.
  intros Hel Hc Hoff. apply wp_call.
  - right. split; [done|]. split; [done|]. intros k v Hv. apply lookup_singleton_Some in Hv as [<- <-]. split; [set_solver|done].
  - intros r. split; [apply grows_cons, grows_refl|by eexists].
Qed.

Lemma drop_reclaimspace_wp h pvc child :
  eligible h -> claim h pvc -> unmanaged child = false -> rs_off h pvc ->
  match child with Some job => exists rest, children kc h (job :: rest) | None => True end ->
  wp contract (returns h) h (drop_reclaimspace pvc child).
Proof.
  intros Hel Hc Hman Hoff Hch. unfold drop_reclaimspace.
  eapply (wp_seq _ _ (fun h' o => grows h h' /\ exists err, o = Done err)).
  { destruct child as [job|]; [|split; [apply grows_refl|by eexists]]. destruct Hch as [rest Hch].
    unfold deleteChildCronJob, delete_ignoring_missing. apply wp_assoc, wp_call.
    - right. split; [done|]. exists job, rest. split; [done|]. right. split_and!; [done|by apply negb_false_iff|by exists pvc].
    - intros r. split; [apply grows_cons, grows_refl|by eexists]. }
  intros h1 o [Hg [err ->]]. cbn [after]. destruct err; [split; [done|by eexists]|].
  destruct (Annotations _ !! _); [|split; [done|by eexists]].
  eapply wp_post; [apply drop_name_wp; [by eapply eligible_in|by eapply claim_in|by eapply silent_in]|].
  intros h2 o [Hg2 Ho]. split; [by eapply grows_trans|done].
Qed.

Lemma update_reclaimspace_wp h pvc job rest s :
  eligible h -> claim h pvc -> children kc h (job :: rest) -> IsManagedByController job = true ->
  in_force h pvc RsCronJobScheduleTimeAnnotation s ->
  wp contract (returns h) h (update_reclaimspace req pvc job s).
Proof.
  intros Hel Hc Hch Hman Hs. unfold update_reclaimspace. case_bool_decide as Heq.
  { split; [apply grows_refl|]. by eexists. }
  apply wp_call; [right; split; [done|]; exists job, rest, pvc, s; by split_and!|].
  intros r. cbn [mbind prog_bind].
  match goal with |- wp _ _ ?h' _ => assert (grows h h') as Hg by apply grows_cons, grows_refl end.
  destruct r as [err|job']; [split; [done|by eexists]|].
  eapply wp_seq; [apply patch_wp; [by eapply eligible_in|]|].
  - apply patch_ok_set; [by eapply claim_in|]. intros k [v Hv]. apply lookup_singleton_Some in Hv as [<- _]. set_solver.
  - intros h' o (Hg' & pvc' & err & -> & _). split; [by eapply grows_trans|by eexists].
Qed.

Lemma create_reclaimspace_wp h pvc s :
  eligible h -> claim h pvc -> children kc h [] -> in_force h pvc RsCronJobScheduleTimeAnnotation s ->
  wp contract (returns h) h (create_reclaimspace pvc_gvk req pvc s).
Proof.
  intros Hel Hc Hch Hs. unfold create_reclaimspace, generateCronJobName. apply wp_assoc, wp_call; [by left|].
  intros now. cbn [mbind prog_bind mret prog_ret]. set (name := nn_Name req +:+ _).
  match goal with |- wp _ _ ?h' _ => assert (grows h h') as Hg by apply grows_cons, grows_refl end.
  eapply wp_seq; [apply patch_wp; [by eapply eligible_in|]|].
  { apply patch_ok_set; [by eapply claim_in|]. intros k. apply two_keys; set_solver. }
  intros h2 o (Hg2 & pvc' & err & -> & Hc' & Hp). cbn [after]. pose proof (grows_trans _ _ _ Hg Hg2) as Hg3.
  destruct err as [err|]; [split; [done|by eexists]|].
  destruct (SetControllerReference _ _ _) as [job [err|]] eqn:Hset; [split; [done|by eexists]|].
  apply wp_call.
  - right. split; [by eapply eligible_in|]. split; [by eapply children_in|]. exists pvc, pvc', name, s.
    split_and!; [by eapply claim_in|by eapply in_force_grows|by apply Hp|done].
  - intros r. split; [by apply grows_cons|by eexists].
Qed.

Lemma processReclaimSpace_wp h pvc d :
  eligible h -> claim h pvc -> driver_of h d ->
  wp contract (returns h) h (processReclaimSpace ParseStandard precedence pvc_gvk req pvc d).
Proof.
  intros Hel Hc Hd. unfold processReclaimSpace. eapply wp_seq; [apply find_child_wp; [|by left|done]|].
  { intros h' job rest j Hel' Hch Hj. right. split; [done|]. exists job, rest. by auto. }
  intros h1 o (Hg1 & r & -> & Hr). cbn [after]. pose proof (claim_in _ _ _ Hg1 Hc) as Hc1.
  destruct r as [err|child]; [split; [done|by eexists]|].
  destruct (unmanaged _) eqn:Hman; [split; [done|by eexists]|].
  eapply wp_seq; [apply determine_wp; [apply inquiry_contract|by eapply driver_of_in]|]. intros h2 o (Hext2 & s & err & -> & Hs). cbn [after].
  apply grows_extends in Hext2 as Hg2. pose proof (claim_in _ _ _ Hg2 Hc1) as Hc2.
  pose proof (grows_trans _ _ _ Hg1 Hg2) as Hg. pose proof (eligible_in _ _ Hg Hel) as Hel2.
  destruct err as [[]|]; try (split; [done|by eexists]).
  - eapply wp_post; [apply drop_reclaimspace_wp; [done..|by apply Hs|]|].
    + destruct child; [|done]. destruct Hr as [rest Hr]. exists rest. eapply children_in; [exact Hg2|exact Hr].
    + intros h3 o [Hg3 Ho]. split; [by eapply grows_trans|done].
  - destruct Hs as [_ Hs]. destruct child as [job|].
    + destruct Hr as [rest Hch].
      eapply wp_post; [eapply update_reclaimspace_wp; [done|done|eapply children_in; [exact Hg2|exact Hch]|by apply negb_false_iff|done]|].
      intros h3 o [Hg3 Ho]. split; [by eapply grows_trans|done].
    + eapply wp_post; [apply create_reclaimspace_wp; [done|done|eapply children_in; [exact Hg2|exact Hr]|done]|].
      intros h3 o [Hg3 Ho]. split; [by eapply grows_trans|done].
Qed.
End reclaimspace.

(** The controller returns, and asks for a retry only for a claim that is not
    bound. *)
Definition pvc_post (h : hist) (o : outcome result) : Prop :=
  exists res err, o = Done (res, err) /\
    (res.(Requeue) = true -> err = None -> exists pvc : PersistentVolumeClaim,
       existT (EGet KPersistentVolumeClaim req) (inr pvc) ∈ h /\ pvc.(pvc_Phase) ≠ ClaimBound).

Lemma pvc_reconcile_wp : wp contract pvc_post [] (Reconcile ParseStandard precedence pvc_gvk req).
Proof.
  unfold Reconcile, get_obj. apply wp_call; [right; by left|]. intros [err|pvc]; cbn [mbind prog_bind].
  { destruct (IsNotFound err); by eexists _, _. }
  destruct (is_deleting _) eqn:Hdel; [by eexists _, _|].
  case_bool_decide as Hb; cbn [negb].
  2: { eexists _, _. split; [done|]. intros _ _. exists pvc. split; [apply list_elem_of_here|done]. }
  apply wp_call; [by right; right|]. intros [err|pv]; cbn [mbind prog_bind]; [by eexists _, _|].
  destruct (pv_CSI pv) as [csi|] eqn:Hcsi; [|by eexists _, _].
  match goal with |- wp _ _ ?h _ => assert (eligible h /\ claim h pvc /\ driver_of h csi.(csi_Driver)) as (Hel & Hc & Hd) end.
  { split_and!; [exists pvc, pv; rewrite Hcsi; split_and!; try done; set_solver|left; set_solver|].
    exists pvc, pv, csi. split_and!; try done; set_solver. }
  eapply wp_seq; [by apply processKeyRotation_wp|]. intros h1 o (Hg & pvc' & err & -> & Hc'). cbn [after].
  eapply wp_seq; [apply processReclaimSpace_wp; [by eapply eligible_in|done|by eapply driver_of_in]|].
  intros h2 o [Hg2 [[res err'] ->]]. cbn [after]. by destruct err'; eexists _, _.
Qed.
End contract.

(** C13: The older claim controller, in every environment: it always returns; it lists,
    creates, updates or deletes cron jobs only for a live claim that is bound to a
    CSI volume; it creates one only if the claim has none, for the schedule in
    force (the class's alone under that precedence, otherwise the claim's, then
    the namespace's if a side-car of the volume's driver has registered the
    operation, then the class's), owned by the claim and after name and
    schedule were put on it; it updates only a managed child, when its
    specification differs; it deletes only extra children, or a managed one whose
    feature is switched off or has no schedule; and its patches touch four
    annotations. *)
Theorem pvc_reconcile_contract ParseStandard precedence pvc_gvk ρ req :
  (exists err, ParseStandard "" = inl err) ->
  let run := run ρ [] (Reconcile ParseStandard precedence pvc_gvk req) in
  guarded (pvc_contract ParseStandard precedence pvc_gvk req) (fst run) /\ pvc_post req (fst run) (snd run).
Proof. intros Hempty. apply wp_run; [by apply pvc_reconcile_wp|done]. Qed.
End PVCContract.

(** ** A small cluster *)
Module Demo.
Import PVCReconciler.

Definition ParseStandard (s : string) : error + (Z -> Z) :=
  if bool_decide (s = "@weekly" \/ s = "@daily") then inr (fun t => t + 1)%Z else inl (ErrorString "expected 5 fields").
Definition gvk : error + string * string := inr ("v1", "PersistentVolumeClaim").
Definition req : NamespacedName := mkNamespacedName "ns" "claim".
Definition annotated (name ns : string) (a : gmap string string) : ObjectMeta :=
  mkObjectMeta name ns "uid" 1 (Some 0%Z) None a ∅ [] [].
Definition pvc (a : gmap string string) : PersistentVolumeClaim := mkPVC (annotated "claim" "ns" a) "pv" (Some "sc") ClaimBound.
Definition pv : PersistentVolume := mkPV (annotated "pv" "" ∅) (Some (mkCSI "driver" "handle")).

(** Annotations of the claim, the namespace and the class; the ReclaimSpace
    children; nobody is connected. *)
Definition cluster (claim ns sc : gmap string string) (children : list ReclaimSpaceCronJob) : env answer := fun _ e =>
  match e return answer e with
  | EGet KPersistentVolumeClaim _ => inr (pvc claim)
  | EGet KPersistentVolume _ => inr pv
  | EGet KNamespace _ => inr (mkNamespace (annotated "ns" "" ns))
  | EGet KStorageClass _ => inr (mkStorageClass (annotated "sc" "" sc))
  | EListField KReclaimSpaceCronJob _ _ _ => inr children
  | EListField KEncryptionKeyRotationCronJob _ _ _ => inr []
  | EUpdate KReclaimSpaceCronJob o => inr o
  | ECreate KReclaimSpaceCronJob o => inr o
  | EPatch KPersistentVolumeClaim o _ => inr o
  | e => refused e
  end.

Definition wrote (c : {e & answer e}) : option (string * string) :=
  match projT1 c with
  | ECreate KReclaimSpaceCronJob j => Some ("create", j.(rscj_Spec).(Schedule))
  | EUpdate KReclaimSpaceCronJob j => Some ("update", j.(rscj_Spec).(Schedule))
  | EDelete KReclaimSpaceCronJob j => Some ("delete", obj_Name j)
  | _ => None
  end.

Definition reconcile claim ns sc children : hist * outcome result :=
  run (cluster claim ns sc children) [] (Reconcile ParseStandard SchedulePVC gvk req).

(** The claim's own schedule wins over the class's. *)
Lemma pvc_reconcile_contract_witness :
  let r := reconcile {[ RsCronJobScheduleTimeAnnotation := "@daily" ]} ∅ {[ RsCronJobScheduleTimeAnnotation := "@weekly" ]} [] in
  observe wrote (fst r) = [("create", "@daily")] /\
  guarded (PVCContract.pvc_contract ParseStandard SchedulePVC gvk req) (fst r).
Proof.
  intros r. split; [vm_compute; reflexivity|].
  refine (proj1 (PVCContract.pvc_reconcile_contract ParseStandard SchedulePVC gvk
    (cluster {[ RsCronJobScheduleTimeAnnotation := "@daily" ]} ∅ {[ RsCronJobScheduleTimeAnnotation := "@weekly" ]} []) req _)).
  exists (ErrorString "expected 5 fields"). reflexivity.
Defined.

(** The driver that a namespace lists is not recognised: what is looked up in the
    list is the annotation's key, not the driver's name. *)
Theorem listed_driver_not_recognised :
  snd (run (cluster ∅ ∅ ∅ []) [] (checkDriverSupportCapability {[ rsCSIAddonsDriverAnnotation := "driver" ]} "driver" relciamSpaceOp))
    = Done (inr (false, false)) /\
  snd (run (cluster ∅ ∅ ∅ []) [] (checkDriverSupportCapability {[ rsCSIAddonsDriverAnnotation := rsCSIAddonsDriverAnnotation ]}
         "driver" relciamSpaceOp)) = Done (inr (true, false)).
Proof. split; vm_compute; reflexivity. Qed.

(** ReclaimSpace asks for a retry, and the reconciler drops the request. *)
Theorem retry_is_dropped :
  let ns := {[ RsCronJobScheduleTimeAnnotation := "@daily"; rsCSIAddonsDriverAnnotation := rsCSIAddonsDriverAnnotation ]} in
  snd (run (cluster ∅ ns ∅ []) [] (processReclaimSpace ParseStandard SchedulePVC gvk req (pvc ∅) "driver"))
    = Done (mkResult true 0, None) /\
  snd (reconcile ∅ ns ∅ []) = Done (no_requeue, None).
Proof. split; vm_compute; reflexivity. Qed.

(** A child whose concurrency policy the API server filled in is rewritten by every
    reconcile, although nothing changed. *)
Theorem defaulted_child_is_rewritten :
  let s := cron_spec "@daily" "claim" in
  let stored := mkRSCronJob (cron_meta "claim-1" "ns")
    (mkCronJobSpec s.(Schedule) s.(StartingDeadlineSeconds) ForbidConcurrent s.(Suspend) s.(cj_JobSpec)
       s.(SuccessfulJobsHistoryLimit) s.(FailedJobsHistoryLimit)) blank_cron_status in
  observe wrote (fst (reconcile {[ RsCronJobScheduleTimeAnnotation := "@daily" ]} ∅ ∅ [stored])) = [("update", "@daily")].
Proof. vm_compute. reflexivity. Qed.
End Demo.
