(* ===== verification/PVCConvergence.v ===== *)
(** * The newer claim controller reaches the desired state, and stays there

    [desired] says what becomes of a cron job beside a claim; the controller, run
    against an API server that keeps the objects, implements it in one reconcile,
    and a second one writes nothing. *)

From S2P Require Import Prelude.
From S2P Require Import GoErrors.
From S2P Require Import ApiTypes.
From S2P Require Import CsiaddonsTypes.
From S2P Require Import Effects.
From S2P Require Import ControllerUtil.
From S2P Require Import CronJobController.
From S2P Require Import PVCController.
Import PVCReconiler.

(** ** The specification *)
Section desired.
Context {A : Type} `{CronJob A}.

Definition should_exist (schedule enabled : string) : bool :=
  negb (bool_decide (schedule = "")) && negb (bool_decide (enabled = "false")).

(** [fresh] is the cron job for a claim that has none. *)
Definition desired (schedule enabled pvcName : string) (fresh : A) (old : option A) : option A :=
  match old with
  | Some j =>
    if negb (IsManagedByController j) then Some j
    else if negb (should_exist schedule enabled) then None
    else if bool_decide (GetSchedule j = schedule) then Some j else Some (SetSpec j schedule pvcName)
  | None => if should_exist schedule enabled then Some fresh else None
  end.

Lemma SetSpec_schedule (j : A) s p : GetSchedule (SetSpec j s p) = s.
Proof. unfold GetSchedule, SetSpec. by rewrite cj_Spec_set_Spec. Qed.

Lemma SetSpec_meta (j : A) s p :
  meta (SetSpec j s p) = set_Annotations (meta j) (<[CSIAddonsStateAnnotation := CSIAddonsStateManaged]> (meta j).(Annotations)).
Proof. unfold SetSpec. by rewrite cj_meta_set_Spec, meta_set_meta. Qed.

Lemma SetSpec_managed (j : A) s p : IsManagedByController (SetSpec j s p) = true.
Proof.
  unfold IsManagedByController. rewrite SetSpec_meta. cbn. rewrite lookup_insert_eq. by apply bool_decide_eq_true.
Qed.

Lemma SetSpec_key (j : A) s p : obj_key (SetSpec j s p) = obj_key j.
Proof. unfold obj_key, obj_Name, obj_Namespace. by rewrite SetSpec_meta. Qed.

(** A cron job that is there is in force: managed, with the schedule asked for, or
    left alone. *)
Definition settled (schedule enabled : string) (new : option A) : Prop :=
  match new with
  | Some j => IsManagedByController j = false \/ should_exist schedule enabled = true /\ GetSchedule j = schedule
  | None => should_exist schedule enabled = false
  end.

Lemma desired_settled s e p fresh old :
  GetSchedule fresh = s -> settled s e (desired s e p fresh old).
Proof.
  intros Hf. unfold desired, settled.
  destruct old as [j|]; repeat (case_bool_decide || case_match); simplify_eq; rewrite ?negb_true_iff, ?negb_false_iff in *;
    auto using SetSpec_schedule; try congruence.
Qed.

Lemma desired_idempotent s e p fresh old :
  GetSchedule fresh = s -> IsManagedByController fresh = true ->
  desired s e p fresh (desired s e p fresh old) = desired s e p fresh old.
Proof.
  intros Hf Hm. unfold desired. destruct old as [j|].
  - destruct (IsManagedByController j) eqn:Hj; cbn [negb]; [|by rewrite Hj].
    destruct (should_exist s e) eqn:He; cbn [negb]; [|done].
    case_bool_decide as Hs; [by rewrite Hj, bool_decide_true|].
    by rewrite SetSpec_managed, bool_decide_true by apply SetSpec_schedule.
  - destruct (should_exist s e) eqn:He; [|done]. by rewrite Hm, bool_decide_true.
Qed.
End desired.

(** ** What the controller needs of an API server *)
Definition not_found : error := APIStatus ReasonNotFound 404 "not found".

(** A place for one object of a kind, under a key. *)
Class Slot (kc : kind) `{HasMeta (obj_of kc)} {S : Type} (serve : S -> forall e, S * answer e) (key : NamespacedName) := {
  slot : S -> option (obj_of kc);
  put : S -> option (obj_of kc) -> S;
  slot_put s o : slot (put s o) = o;
  serve_get s : serve s (EGet kc key) = (s, match slot s with Some j => inr j | None => inl not_found end);
  serve_create s o : obj_key o = key -> slot s = None -> serve s (ECreate kc o) = (put s (Some o), inr o);
  serve_update s o : obj_key o = key -> is_Some (slot s) -> serve s (EUpdate kc o) = (put s (Some o), inr o);
  serve_delete s o : obj_key o = key -> slot s = Some o -> serve s (EDelete kc o) = (put s None, None)
}.

Section feature.
Context (kc : kind) `{CronJob (obj_of kc)} {S : Type} (serve : S -> forall e, S * answer e).
Context (apiVersion gkind : string) (pvc : PersistentVolumeClaim) (child : obj_of kc).
Context `{!Slot kc serve (obj_key child)}.
Context (Hns : obj_Namespace child = obj_Namespace pvc) (Hnone : (meta child).(OwnerReferences) = []).
Context (Hnonempty : obj_Namespace pvc ≠ "").

(** The cron job for a claim that has none: owned by the claim. *)
Definition fresh (schedule : string) : obj_of kc :=
  let j := SetSpec child schedule (obj_Name pvc) in
  set_meta j (set_OwnerReferences (meta j)
    [mkOwnerReference apiVersion gkind (obj_Name pvc) pvc.(pvc_meta).(UID) (Some true) (Some true)]).

Lemma fresh_reference s :
  SetControllerReference (inr (apiVersion, gkind)) pvc (SetSpec child s (obj_Name pvc)) = (fresh s, None).
Proof.
  unfold SetControllerReference, validateOwner, GetControllerOf, fresh.
  assert (obj_Namespace (SetSpec child s (obj_Name pvc)) = obj_Namespace pvc) as ->
    by (rewrite <- Hns; unfold obj_Namespace; by rewrite SetSpec_meta).
  rewrite bool_decide_false by done. rewrite (bool_decide_true (obj_Namespace pvc = obj_Namespace pvc)) by done. cbn [negb].
  rewrite SetSpec_meta. cbn. by rewrite Hnone.
Qed.

Lemma fresh_schedule s : GetSchedule (fresh s) = s.
Proof. unfold fresh, GetSchedule. rewrite cj_Spec_set_meta. apply SetSpec_schedule. Qed.
Lemma fresh_managed s : IsManagedByController (fresh s) = true.
Proof. unfold fresh, IsManagedByController. rewrite meta_set_meta. cbn. apply SetSpec_managed. Qed.
Lemma fresh_key s : obj_key (fresh s) = obj_key child.
Proof. unfold fresh, obj_key, obj_Name, obj_Namespace. rewrite meta_set_meta, SetSpec_meta. done. Qed.

(** The controller implements the specification on the slot, and leaves the server
    alone when there is nothing to do. *)
Lemma feature_exec s sched en :
  (forall j, slot s = Some j -> obj_key j = obj_key child) ->
  let new := desired sched en (obj_Name pvc) (fresh sched) (slot s) in
  exists s', exec serve s (reconcileFeature (inr (apiVersion, gkind)) kc pvc child sched en) = (s', Done None) /\
    slot s' = new /\ (s' = s /\ slot s = new \/ s' = put s new /\ slot s ≠ new) /\
    forall j, new = Some j -> obj_key j = obj_key child.
Proof.
  intros Hkey new. unfold reconcileFeature, get_obj. rewrite exec_bind. cbn [exec call].
  change (mkNamespacedName (obj_Namespace child) (obj_Name child)) with (obj_key child).
  rewrite serve_get. fold (should_exist sched en). subst new. unfold desired.
  destruct (slot s) as [j|] eqn:Hslot.
  - specialize (Hkey j eq_refl). cbn. destruct (IsManagedByController j) eqn:Hm; cbn [negb].
    2: { exists s. split_and!; [done|done|by left|]. by intros ? [= <-]. }
    destruct (should_exist sched en) eqn:He; cbn [negb].
    + case_bool_decide as Hs; cbn [negb]. { exists s. split_and!; [done|done|by left|]. by intros ? [= <-]. }
      unfold call. cbn [mbind prog_bind exec]. rewrite serve_update by (rewrite ?SetSpec_key; rewrite ?Hslot; done).
      cbn. eexists. split_and!; [done|apply slot_put| |].
      * right. split; [done|]. intros [= Heq]. apply Hs. rewrite Heq. apply SetSpec_schedule.
      * intros ? [= <-]. by rewrite SetSpec_key.
    + unfold delete_ignoring_missing, call. cbn [mbind prog_bind exec]. rewrite serve_delete by done. cbn.
      eexists. split_and!; [done|apply slot_put|by right|done].
  - cbn [IsNotFound]. change (IsNotFound not_found) with true. cbn [negb].
    destruct (should_exist sched en); cbn [negb]; [|exists s; by split_and!; [..|left|]].
    rewrite fresh_reference. unfold call. cbn [mbind prog_bind exec]. rewrite serve_create by (done || apply fresh_key). cbn.
    eexists. split_and!; [done|apply slot_put|by right|]. intros ? [= <-]. apply fresh_key.
Qed.
End feature.

(** ** An API server *)

#[global] Instance NamespacedName_countable : Countable NamespacedName.
Proof.
  apply (inj_countable' (fun k => (nn_Namespace k, nn_Name k)) (fun p => mkNamespacedName p.1 p.2)). by intros [].
Defined.

(** The objects of a cluster, each kind under its keys, and the number of writes. *)
Abbreviation store k := (gmap NamespacedName (obj_of k)).
Record cluster := mkCluster {
  cl_pvcs : store KPersistentVolumeClaim;
  cl_pvs : store KPersistentVolume;
  cl_scs : store KStorageClass;
  cl_krs : store KEncryptionKeyRotationCronJob;
  cl_rss : store KReclaimSpaceCronJob;
  cl_writes : nat
}.

Definition set_krs (s : cluster) (m : store KEncryptionKeyRotationCronJob) : cluster :=
  mkCluster s.(cl_pvcs) s.(cl_pvs) s.(cl_scs) m s.(cl_rss) (S s.(cl_writes)).
Definition set_rss (s : cluster) (m : store KReclaimSpaceCronJob) : cluster :=
  mkCluster s.(cl_pvcs) s.(cl_pvs) s.(cl_scs) s.(cl_krs) m (S s.(cl_writes)).

Definition exists_already : error := APIStatus ReasonAlreadyExists 409 "already exists".

(** Reading, creating, updating and deleting under a key: that of the request, or
    of the object in the request. *)
Section store.
Context {k : kind} `{HasMeta (obj_of k)} (s : cluster) (set : cluster -> store k -> cluster) (m : store k).
Definition read (key : NamespacedName) : error + obj_of k :=
  match m !! key with Some j => inr j | None => inl not_found end.
Definition create (o : obj_of k) : cluster * (error + obj_of k) :=
  match m !! obj_key o with
  | Some _ => (s, inl exists_already)
  | None => (set s (<[obj_key o := o]> m), inr o)
  end.
Definition update (o : obj_of k) : cluster * (error + obj_of k) :=
  match m !! obj_key o with
  | Some _ => (set s (<[obj_key o := o]> m), inr o)
  | None => (s, inl not_found)
  end.
Definition remove (o : obj_of k) : cluster * option error :=
  match m !! obj_key o with
  | Some _ => (set s (delete (obj_key o) m), None)
  | None => (s, Some not_found)
  end.
End store.

Definition serve (s : cluster) (e : event) : cluster * answer e :=
  match e return cluster * answer e with
  | EGet k key =>
    (s, match k return error + obj_of k with
        | KPersistentVolumeClaim => read s.(cl_pvcs) key
        | KPersistentVolume => read s.(cl_pvs) key
        | KStorageClass => read s.(cl_scs) key
        | KEncryptionKeyRotationCronJob => read s.(cl_krs) key
        | KReclaimSpaceCronJob => read s.(cl_rss) key
        | _ => inl not_found
        end)
  | ECreate k o =>
    match k return obj_of k -> cluster * (error + obj_of k) with
    | KEncryptionKeyRotationCronJob => create (k:=KEncryptionKeyRotationCronJob) s set_krs s.(cl_krs)
    | KReclaimSpaceCronJob => create (k:=KReclaimSpaceCronJob) s set_rss s.(cl_rss)
    | _ => fun _ => (s, inl not_found)
    end o
  | EUpdate k o =>
    match k return obj_of k -> cluster * (error + obj_of k) with
    | KEncryptionKeyRotationCronJob => update (k:=KEncryptionKeyRotationCronJob) s set_krs s.(cl_krs)
    | KReclaimSpaceCronJob => update (k:=KReclaimSpaceCronJob) s set_rss s.(cl_rss)
    | _ => fun _ => (s, inl not_found)
    end o
  | EDelete k o =>
    match k return obj_of k -> cluster * option error with
    | KEncryptionKeyRotationCronJob => remove (k:=KEncryptionKeyRotationCronJob) s set_krs s.(cl_krs)
    | KReclaimSpaceCronJob => remove (k:=KReclaimSpaceCronJob) s set_rss s.(cl_rss)
    | _ => fun _ => (s, Some not_found)
    end o
  | e => (s, refused e)
  end.

Lemma read_found {k : kind} (m : store k) key j : m !! key = Some j -> read m key = inr j.
Proof. unfold read. by intros ->. Qed.

(** A store with what is under one key replaced. *)
Definition put_at {A} (key : NamespacedName) (o : option A) (m : gmap NamespacedName A) : gmap NamespacedName A :=
  partial_alter (fun _ => o) key m.
Lemma lookup_put_at {A} key (o : option A) m : put_at key o m !! key = o.
Proof. apply lookup_partial_alter_eq. Qed.
Lemma put_at_same {A} key (o : option A) m : m !! key = o -> put_at key o m = m.
Proof. intros <-. apply partial_alter_self. Qed.

#[global, refine] Instance kr_slot key : Slot KEncryptionKeyRotationCronJob serve key :=
  {| slot s := s.(cl_krs) !! key; put s o := set_krs s (put_at key o s.(cl_krs)) |}.
Proof.
  - intros s o. apply lookup_put_at.
  - done.
  - intros s o <- Hs. cbn. unfold create. by rewrite Hs.
  - intros s o <- [j Hs]. cbn. unfold update. by rewrite Hs.
  - intros s o <- Hs. cbn. unfold remove. by rewrite Hs.
Defined.
#[global, refine] Instance rs_slot key : Slot KReclaimSpaceCronJob serve key :=
  {| slot s := s.(cl_rss) !! key; put s o := set_rss s (put_at key o s.(cl_rss)) |}.
Proof.
  - intros s o. apply lookup_put_at.
  - done.
  - intros s o <- Hs. cbn. unfold create. by rewrite Hs.
  - intros s o <- [j Hs]. cbn. unfold update. by rewrite Hs.
  - intros s o <- Hs. cbn. unfold remove. by rewrite Hs.
Defined.

(** ** Convergence *)

Section converge.
Context (apiVersion gkind : string) (pvc : PersistentVolumeClaim) (sc : StorageClass).
Abbreviation gvk := (inr (apiVersion, gkind)).
Abbreviation req := (obj_key pvc).
Abbreviation kr_key := (mkNamespacedName (obj_Namespace pvc) (obj_Name pvc +:+ "-keyrotation")).
Abbreviation rs_key := (mkNamespacedName (obj_Namespace pvc) (obj_Name pvc +:+ "-reclaimspace")).

(** The cluster holds the live claim, bound to a CSI volume that is there, and its
    storage class; a cron job under a key of this claim has that key as its name. *)
Definition well_formed (s : cluster) : Prop :=
  s.(cl_pvcs) !! req = Some pvc /\ is_deleting pvc = false /\ pvc.(pvc_Phase) = ClaimBound /\ obj_Namespace pvc ≠ "" /\
  (exists pv csi, s.(cl_pvs) !! mkNamespacedName "" pvc.(pvc_VolumeName) = Some pv /\ pv.(pv_CSI) = Some csi) /\
  (exists name, pvc.(pvc_StorageClassName) = Some name /\ hasValidStorageClassName pvc = true /\
     s.(cl_scs) !! mkNamespacedName "" name = Some sc) /\
  (forall j, s.(cl_krs) !! kr_key = Some j -> obj_key j = kr_key) /\
  (forall j, s.(cl_rss) !! rs_key = Some j -> obj_key j = rs_key).

Definition kr_desired (s : cluster) : option EncryptionKeyRotationCronJob :=
  let sched := annotation sc KrcJobScheduleTimeAnnotation in
  desired sched (annotation sc KrEnableAnnotation) (obj_Name pvc)
    (fresh KEncryptionKeyRotationCronJob apiVersion gkind pvc (keyrotation_child pvc) sched) (s.(cl_krs) !! kr_key).
Definition rs_desired (s : cluster) : option ReclaimSpaceCronJob :=
  let sched := annotation sc RsCronJobScheduleTimeAnnotation in
  desired sched "true" (obj_Name pvc)
    (fresh KReclaimSpaceCronJob apiVersion gkind pvc (reclaimspace_child pvc) sched) (s.(cl_rss) !! rs_key).

(** The cluster as it should be: every other object as it was, [n] counts the
    writes that lead there. *)
Definition target (s : cluster) (n : nat) : cluster :=
  mkCluster s.(cl_pvcs) s.(cl_pvs) s.(cl_scs) (put_at kr_key (kr_desired s) s.(cl_krs))
    (put_at rs_key (rs_desired s) s.(cl_rss)) n.

(** A write for each cron job that is not as it should be. *)
Definition writes_needed {A} (old new : option A) (n : nat) : Prop := old = new /\ n = 0 \/ old ≠ new /\ n = 1.

(** The reads of a run. *)
Lemma reads_exec s : well_formed s ->
  exec serve s (Reconcile gvk req) = exec serve s (reconcile_features gvk pvc sc).
Proof.
  intros (Hpvc & Hdel & Hb & Hns & (pv & csi & Hpv & Hcsi) & (name & Hname & Hval & Hsc) & _).
  apply (read_found (k:=KPersistentVolumeClaim)) in Hpvc. apply (read_found (k:=KPersistentVolume)) in Hpv.
  apply (read_found (k:=KStorageClass)) in Hsc.
  unfold Reconcile, get_obj. cbn [mbind prog_bind call exec serve]. rewrite Hpvc, Hdel, (bool_decide_true _ Hb).
  cbn [negb mbind prog_bind exec serve]. rewrite Hpv, Hcsi, Hname, Hval.
  cbn [negb mbind prog_bind exec serve]. by rewrite Hsc.
Qed.

Lemma reconcile_exec s :
  well_formed s ->
  exists n m, writes_needed (s.(cl_krs) !! kr_key) (kr_desired s) n /\ writes_needed (s.(cl_rss) !! rs_key) (rs_desired s) m /\
    exec serve s (Reconcile gvk req) = (target s (s.(cl_writes) + n + m), Done (no_requeue, None)) /\
    well_formed (target s (s.(cl_writes) + n + m)).
Proof.
  intros Hwf. rewrite (reads_exec s Hwf). destruct Hwf as (Hpvc & Hdel & Hb & Hns & Hpv & Hsc & Hkr & Hrs).
  unfold reconcile_features. rewrite exec_bind.
  destruct (@feature_exec KEncryptionKeyRotationCronJob KRCronJob_HasMeta KRCronJob_CronJob cluster serve apiVersion gkind pvc
    (keyrotation_child pvc) (kr_slot _) eq_refl eq_refl Hns
    s (annotation sc KrcJobScheduleTimeAnnotation) (annotation sc KrEnableAnnotation) Hkr) as (s1 & -> & _ & Hs1 & Hkey1).
  change (slot s) with (s.(cl_krs) !! kr_key) in Hs1, Hkey1. fold (kr_desired s) in Hs1, Hkey1. cbn [exec]. rewrite exec_bind.
  assert (s1.(cl_rss) = s.(cl_rss)) as Hr1 by (by destruct Hs1 as [[-> _]|[-> _]]).
  destruct (@feature_exec KReclaimSpaceCronJob RSCronJob_HasMeta RSCronJob_CronJob cluster serve apiVersion gkind pvc
    (reclaimspace_child pvc) (rs_slot _) eq_refl eq_refl Hns
    s1 (annotation sc RsCronJobScheduleTimeAnnotation) "true" ltac:(cbn; by rewrite Hr1)) as (s2 & -> & _ & Hs2 & Hkey2).
  change (slot s1) with (s1.(cl_rss) !! rs_key) in Hs2, Hkey2. rewrite Hr1 in Hs2, Hkey2.
  fold (rs_desired s) in Hs2, Hkey2. cbn [exec mret prog_ret].
  assert (forall n, well_formed (target s n)) as Hwf.
  { intros n. split_and!; try done; intros j; cbn; rewrite lookup_put_at; [apply Hkey1|apply Hkey2]. }
  destruct Hs1 as [[-> H1]|[-> H1]], Hs2 as [[-> H2]|[-> H2]].
  - exists 0, 0. split_and!; [by left|by left| |done]. unfold target. rewrite !put_at_same, !Nat.add_0_r by done. by destruct s.
  - exists 0, 1. split_and!; [by left|by right| |done]. unfold target. cbn. rewrite (put_at_same kr_key) by done.
    by rewrite Nat.add_0_r, Nat.add_1_r.
  - exists 1, 0. split_and!; [by right|by left| |done]. unfold target. cbn. rewrite (put_at_same rs_key) by done.
    by rewrite Nat.add_0_r, Nat.add_1_r.
  - exists 1, 1. split_and!; [by right|by right| |done]. unfold target. cbn. by rewrite !Nat.add_1_r.
Qed.

Lemma target_desired s n : kr_desired (target s n) = kr_desired s /\ rs_desired (target s n) = rs_desired s.
Proof.
  unfold kr_desired at 1, rs_desired at 1. cbn [target cl_krs cl_rss]. rewrite !lookup_put_at. split.
  - exact (desired_idempotent _ _ _ _ _ (fresh_schedule KEncryptionKeyRotationCronJob apiVersion gkind _ _ _)
             (fresh_managed KEncryptionKeyRotationCronJob apiVersion gkind _ _ _)).
  - exact (desired_idempotent _ _ _ _ _ (fresh_schedule KReclaimSpaceCronJob apiVersion gkind _ _ _)
             (fresh_managed KReclaimSpaceCronJob apiVersion gkind _ _ _)).
Qed.

Lemma target_fixed s n : well_formed (target s n) ->
  exec serve (target s n) (Reconcile gvk req) = (target s n, Done (no_requeue, None)).
Proof.
  intros Hwf. destruct (reconcile_exec _ Hwf) as (k & m & Hk & Hm & Hrun & _). destruct (target_desired s n) as [H1 H2].
  assert (cl_krs (target s n) !! kr_key = kr_desired s /\ cl_rss (target s n) !! rs_key = rs_desired s) as [L1 L2]
    by (split; apply lookup_put_at).
  destruct Hk as [[_ ->]|[[] _]]; [|by rewrite H1]. destruct Hm as [[_ ->]|[[] _]]; [|by rewrite H2].
  rewrite Hrun, !Nat.add_0_r. unfold target at 1. by rewrite H1, H2, !put_at_same.
Qed.

(** C12: Against an API server that keeps its objects under their keys, one reconcile
    of a live claim that is bound to a CSI volume and has a storage class brings the
    two cron jobs of the claim to the state the class asks for, with at most one
    write each and without touching any other object, whatever was there before:
    a cron job exists just if the class has a schedule for it (and does
    not disable key rotation), it then has that schedule, and one that its user
    has marked as unmanaged is left alone.  A second reconcile writes nothing. *)
Theorem claim_features_converge s :
  well_formed s ->
  exists n, n <= 2 /\
    exec serve s (Reconcile gvk req) = (target s (s.(cl_writes) + n), Done (no_requeue, None)) /\
    settled (annotation sc KrcJobScheduleTimeAnnotation) (annotation sc KrEnableAnnotation) (kr_desired s) /\
    settled (annotation sc RsCronJobScheduleTimeAnnotation) "true" (rs_desired s) /\
    exec serve (target s (s.(cl_writes) + n)) (Reconcile gvk req) = (target s (s.(cl_writes) + n), Done (no_requeue, None)).
Proof.
  intros Hwf. destruct (reconcile_exec s Hwf) as (k & m & Hk & Hm & Hrun & Hwf'). exists (k + m).
  rewrite Nat.add_assoc. split_and!; [|done|..].
  - destruct Hk as [[_ ->]|[_ ->]], Hm as [[_ ->]|[_ ->]]; lia.
  - exact (desired_settled _ _ _ _ _ (fresh_schedule KEncryptionKeyRotationCronJob apiVersion gkind _ _ _)).
  - exact (desired_settled _ _ _ _ _ (fresh_schedule KReclaimSpaceCronJob apiVersion gkind _ _ _)).
  - by apply target_fixed.
Qed.
End converge.

(** A class that asks for ReclaimSpace and has disabled key rotation; the claim
    still has a key rotation cron job. *)
Section sample.
Let m name ns a := mkObjectMeta name ns "uid" 1 (Some 0%Z) None a ∅ [] [].
Definition sample_claim : PersistentVolumeClaim := mkPVC (m "claim" "ns" ∅) "pv" (Some "sc") ClaimBound.
Definition sample_class : StorageClass :=
  mkStorageClass (m "sc" "" {[ RsCronJobScheduleTimeAnnotation := "@daily";
    KrcJobScheduleTimeAnnotation := "@weekly"; KrEnableAnnotation := "false" ]}).
Definition sample : cluster :=
  mkCluster {[ mkNamespacedName "ns" "claim" := sample_claim ]}
    {[ mkNamespacedName "" "pv" := mkPV (m "pv" "" ∅) (Some (mkCSI "driver" "handle")) ]}
    {[ mkNamespacedName "" "sc" := sample_class ]}
    {[ mkNamespacedName "ns" "claim-keyrotation" := keyrotation_child sample_claim ]} ∅ 0.
End sample.

Lemma claim_features_converge_witness :
  well_formed sample_claim sample_class sample /\
  kr_desired "v1" "PersistentVolumeClaim" sample_claim sample_class sample = None /\
  (GetSchedule <$> rs_desired "v1" "PersistentVolumeClaim" sample_claim sample_class sample) = Some "@daily" /\
  exists n, exec serve sample (Reconcile (inr ("v1", "PersistentVolumeClaim")) (mkNamespacedName "ns" "claim")) =
    (target "v1" "PersistentVolumeClaim" sample_claim sample_class sample (0 + n), Done (no_requeue, None)).
Proof.
  assert (well_formed sample_claim sample_class sample) as Hwf.
  { split_and!; try reflexivity; try done.
    - by eexists _, _.
    - by exists "sc".
    - intros j. vm_compute. by intros [= <-]. }
  split_and!; [done|vm_compute; reflexivity|vm_compute; reflexivity|].
  destruct (claim_features_converge "v1" "PersistentVolumeClaim" sample_claim sample_class sample Hwf)
    as (n & _ & Hrun & _). by exists n.
Defined.
