(* ===== verification/Pipeline.v ===== *)
(** * From the claim to the job

    The claim controllers create cron jobs, the cron job controllers create jobs,
    the job controllers run them: what one creates is well-formed for the next,
    and is found again through the field indexes. *)

From S2P Require Import Prelude.
From S2P Require Import GoErrors.
From S2P Require Import GoStrconv.
From S2P Require Import GoTime.
From S2P Require Import ApiTypes.
From S2P Require Import CsiaddonsTypes.
From S2P Require Import Effects.
From S2P Require Import ControllerUtil.
From S2P Require Import JobController.
From S2P Require Import CronJobController.
From S2P Require Import CronJobProofs.
From S2P Require Import PVCController.
From S2P Require Import PVCConvergence.

(** ** Well-formed cron jobs and jobs *)

(** The limits are set and admissible, the policy is not Replace, and there is a
    target with a retry limit and a deadline. *)
Definition good_job_spec (s : JobSpec) : Prop :=
  s.(TargetPVC) ≠ "" /\ (0 < s.(BackoffLimit) < 2 ^ 31)%Z /\ (0 < s.(RetryDeadlineSeconds))%Z.
Definition good_limit (o : option Z) : Prop := exists n, o = Some n /\ limit_ok n.
Definition good_cron_spec (s : CronJobSpec) : Prop :=
  good_limit s.(SuccessfulJobsHistoryLimit) /\ good_limit s.(FailedJobsHistoryLimit) /\
  s.(ConcurrencyPolicy) ≠ ReplaceConcurrent /\ good_job_spec s.(cj_JobSpec).(jt_Spec).

Lemma cron_spec_good schedule pvcName :
  pvcName ≠ "" -> good_cron_spec (PVCReconciler.cron_spec schedule pvcName).
Proof. intros Hn. split_and!; [by exists 3%Z|by exists 1%Z|done..]. Qed.

Lemma SetSpec_good {A} `{CronJob A} (j : A) schedule pvcName :
  pvcName ≠ "" -> (cj_Spec j).(ConcurrencyPolicy) ≠ ReplaceConcurrent ->
  good_cron_spec (cj_Spec (SetSpec j schedule pvcName)).
Proof.
  intros Hn Hp. unfold SetSpec. rewrite cj_Spec_set_Spec, cj_Spec_set_meta.
  split_and!; [by exists 3%Z|by exists 1%Z|done..].
Qed.

Section jobs.
Context (kc kj : kind) `{CronJob (obj_of kc)} `{Job (obj_of kj)} (zone : Z -> Z) (cron_gvk : error + string * string).
Context (blank : obj_of kj).
Context (Hlaw : forall (j : obj_of kj) m, job_Spec (set_meta j m) = job_Spec j).

(** The job of a cron job: its template's specification, its namespace, and the
    cron job as its controller. *)
Lemma constructJob_spec c t j :
  constructJob kc kj zone cron_gvk blank c t = inr j ->
  job_Spec j = (cj_Spec c).(cj_JobSpec).(jt_Spec) /\ obj_Namespace j = obj_Namespace c /\
  exists v k, cron_gvk = inr (v, k) /\
    GetControllerOf j = Some (mkOwnerReference v k (obj_Name c) (meta c).(UID) (Some true) (Some true)).
Proof.
  unfold constructJob, SetControllerReference, GetControllerOf. destruct (validateOwner _ _); [done|].
  destruct cron_gvk as [|[v k]]; [done|]. rewrite meta_set_Spec, meta_set_meta. cbn.
  intros [= <-]. rewrite Hlaw, job_Spec_set. split; [done|]. unfold obj_Namespace. rewrite !meta_set_meta. cbn.
  split; [done|]. by exists v, k.
Qed.

Lemma set_defaults_good (j : obj_of kj) :
  good_job_spec (job_Spec j) -> job_Spec (set_defaults kj j) = job_Spec j.
Proof.
  intros (_ & Hb & Hd). unfold set_defaults. rewrite job_Spec_set.
  rewrite (proj2 (Z.eqb_neq _ _)), (proj2 (Z.eqb_neq _ _)) by lia. by destruct (job_Spec j).
Qed.
End jobs.

(** A cron job that a claim controller creates, or updates when its policy is not
    Replace, is well-formed: its limits are set, so that the cron job controller
    does not panic on it, and it does not replace.  The jobs made of a
    well-formed cron job pass the validation of the job controllers, which fill
    in no defaults for them. *)
Theorem pipeline_well_typed :
  (forall name ns schedule pvcName, pvcName ≠ "" ->
     good_cron_spec (PVCReconciler.constructRSCronJob name ns schedule pvcName).(rscj_Spec) /\
     good_cron_spec (PVCReconciler.constructKRCronJob name ns schedule pvcName).(krcj_Spec)) /\
  (forall (r : ReclaimSpaceCronJob) schedule pvcName, pvcName ≠ "" ->
     r.(rscj_Spec).(ConcurrencyPolicy) ≠ ReplaceConcurrent -> good_cron_spec (SetSpec r schedule pvcName).(rscj_Spec)) /\
  (forall (r : EncryptionKeyRotationCronJob) schedule pvcName, pvcName ≠ "" ->
     r.(krcj_Spec).(ConcurrencyPolicy) ≠ ReplaceConcurrent -> good_cron_spec (SetSpec r schedule pvcName).(krcj_Spec)) /\
  (forall zone gvk (c : ReclaimSpaceCronJob) t j, good_cron_spec c.(rscj_Spec) ->
     ReclaimSpaceCron.constructRSJobForCronJob zone gvk c t = inr j ->
     good_job_spec j.(rsj_Spec) /\ ReclaimSpace.validateReclaimSpaceJobSpec j = None /\
     (set_defaults KReclaimSpaceJob j).(rsj_Spec) = j.(rsj_Spec)) /\
  (forall zone gvk (c : EncryptionKeyRotationCronJob) t j, good_cron_spec c.(krcj_Spec) ->
     KeyRotationCron.constructEncryptionKeyRotationJob zone gvk c t = inr j ->
     good_job_spec j.(krj_Spec) /\ KeyRotation.validateEncryptionKeyRotationJobSpec j = None /\
     (set_defaults KEncryptionKeyRotationJob j).(krj_Spec) = j.(krj_Spec)).
Proof.
  split_and!.
  - intros. split; by apply cron_spec_good.
  - intros r schedule pvcName. exact (SetSpec_good r schedule pvcName).
  - intros r schedule pvcName. exact (SetSpec_good r schedule pvcName).
  - intros zone gvk c t j (_ & _ & _ & Hg) Hj.
    apply (constructJob_spec KReclaimSpaceCronJob KReclaimSpaceJob) in Hj as [Hspec _]; [|done]. cbn in Hspec.
    rewrite <- Hspec in Hg. split_and!; [exact Hg| |exact (set_defaults_good KReclaimSpaceJob j Hg)].
    unfold ReclaimSpace.validateReclaimSpaceJobSpec. by rewrite bool_decide_false by apply Hg.
  - intros zone gvk c t j (_ & _ & _ & Hg) Hj.
    apply (constructJob_spec KEncryptionKeyRotationCronJob KEncryptionKeyRotationJob) in Hj as [Hspec _]; [|done]. cbn in Hspec.
    rewrite <- Hspec in Hg. split_and!; [exact Hg| |exact (set_defaults_good KEncryptionKeyRotationJob j Hg)].
    unfold KeyRotation.validateEncryptionKeyRotationJobSpec. by rewrite bool_decide_false by apply Hg.
Qed.

(** A claim named "claim", every day. *)
Definition sample_cron : ReclaimSpaceCronJob := PVCReconciler.constructRSCronJob "claim-1" "ns" "@daily" "claim".
Lemma pipeline_well_typed_witness :
  exists j, ReclaimSpaceCron.constructRSJobForCronJob (fun _ => 0%Z) (inr (apiGVStr, "ReclaimSpaceCronJob")) sample_cron (86400 * second) = inr j /\
    good_cron_spec sample_cron.(rscj_Spec) /\ good_job_spec j.(rsj_Spec).
Proof.
  destruct pipeline_well_typed as (Hcron & _ & _ & Hjob & _).
  destruct (Hcron "claim-1" "ns" "@daily" "claim" ltac:(done)) as [Hgood _].
  eexists. split; [vm_compute; reflexivity|]. split; [exact Hgood|].
  eapply (Hjob (fun _ => 0%Z) (inr (apiGVStr, "ReclaimSpaceCronJob")) sample_cron (86400 * second)%Z);
    [exact Hgood|vm_compute; reflexivity].
Defined.

(** ** Objects are found again *)

(** A cron job made for a claim is indexed under the claim, and a job made for a
    cron job under the cron job: the controllers' listings find what they
    created. *)
Theorem children_found_again :
  (forall (pvc : PersistentVolumeClaim) name ns schedule (o : ReclaimSpaceCronJob),
     SetControllerReference (inr ("v1", "PersistentVolumeClaim")) pvc
       (PVCReconciler.constructRSCronJob name ns schedule (obj_Name pvc)) = (o, None) ->
     ExtractOwnerNameFromPVCObj o = [obj_Name pvc]) /\
  (forall (pvc : PersistentVolumeClaim) name ns schedule (o : EncryptionKeyRotationCronJob),
     SetControllerReference (inr ("v1", "PersistentVolumeClaim")) pvc
       (PVCReconciler.constructKRCronJob name ns schedule (obj_Name pvc)) = (o, None) ->
     ExtractOwnerNameFromPVCObj o = [obj_Name pvc]) /\
  (forall zone (c : ReclaimSpaceCronJob) t j,
     ReclaimSpaceCron.constructRSJobForCronJob zone (inr (apiGVStr, "ReclaimSpaceCronJob")) c t = inr j ->
     obj_Namespace j = obj_Namespace c /\ ReclaimSpaceCron.owner_index j = [obj_Name c]) /\
  (forall zone (c : EncryptionKeyRotationCronJob) t j,
     KeyRotationCron.constructEncryptionKeyRotationJob zone (inr (apiGVStr, "EncryptionKeyRotationCronJob")) c t = inr j ->
     obj_Namespace j = obj_Namespace c /\ KeyRotationCron.owner_index j = [obj_Name c]).
Proof.
  split_and!.
  1,2: intros pvc name ns schedule o; unfold SetControllerReference; destruct (validateOwner _ _); [done|];
    cbn; intros [= <-]; reflexivity.
  - intros zone c t j Hj.
    apply (constructJob_spec KReclaimSpaceCronJob KReclaimSpaceJob) in Hj as (_ & Hns & v & k & [= <- <-] & Hown); [|done].
    split; [exact Hns|]. unfold ReclaimSpaceCron.owner_index, job_owner. by rewrite Hown.
  - intros zone c t j Hj.
    apply (constructJob_spec KEncryptionKeyRotationCronJob KEncryptionKeyRotationJob) in Hj as (_ & Hns & v & k & [= <- <-] & Hown); [|done].
    split; [exact Hns|]. unfold KeyRotationCron.owner_index, job_owner. by rewrite Hown.
Qed.

Lemma children_found_again_witness :
  exists j, ReclaimSpaceCron.constructRSJobForCronJob (fun _ => 0%Z) (inr (apiGVStr, "ReclaimSpaceCronJob")) sample_cron (86400 * second) = inr j /\
    ReclaimSpaceCron.owner_index j = ["claim-1"].
Proof.
  eexists. split; [vm_compute; reflexivity|]. destruct children_found_again as (_ & _ & Hjob & _).
  apply (Hjob (fun _ => 0%Z) sample_cron (86400 * second)%Z). vm_compute. reflexivity.
Defined.
