(* ===== verification/Client.v ===== *)
(** * Replication clients

    The [VolumeReplication] interface with its two implementations
    (src/internal/client/replication.go, volume-replication.go and
    group-replication.go), the [VolumeGroup] client (volumegroup-client.go), and
    the replication operations built on the interface
    (src/internal/controller/replication.storage/replication/replication.go). *)

From S2P Require Import Prelude.
From S2P Require Import GoErrors.
From S2P Require Import ApiTypes.
From S2P Require Import Effects.

(** ** The interface (replication.go) *)

(** A value of interface type [VolumeReplication]: its methods.  The arguments
    are id, replicationID, (force,) secretName, secretNamespace, parameters. *)
Record VolumeReplicationClient := {
  client_Enable : string -> string -> string -> string -> gmap string string -> M (error + unit);
  client_Disable : string -> string -> string -> string -> gmap string string -> M (error + unit);
  client_Promote : string -> string -> bool -> string -> string -> gmap string string -> M (error + unit);
  client_Demote : string -> string -> string -> string -> gmap string string -> M (error + unit);
  client_Resync : string -> string -> bool -> string -> string -> gmap string string -> M (error + bool);
  client_GetInfo : string -> string -> string -> string -> M (error + GetVolumeReplicationInfoResponse)
}.

(** ** The two implementations *)

Definition NewVolumeReplicationClient (cc : ClientConn) (timeout : Z) : VolumeReplicationClient := {|
  client_Enable volumeID replicationID secretName secretNamespace parameters :=
    call (ERpc cc timeout (EnableVolumeReplication
      (mkRequest (SourceVolume volumeID) replicationID false parameters secretName secretNamespace)));
  client_Disable volumeID replicationID secretName secretNamespace parameters :=
    call (ERpc cc timeout (DisableVolumeReplication
      (mkRequest (SourceVolume volumeID) replicationID false parameters secretName secretNamespace)));
  client_Promote volumeID replicationID force secretName secretNamespace parameters :=
    call (ERpc cc timeout (PromoteVolume
      (mkRequest (SourceVolume volumeID) replicationID force parameters secretName secretNamespace)));
  client_Demote volumeID replicationID secretName secretNamespace parameters :=
    call (ERpc cc timeout (DemoteVolume
      (mkRequest (SourceVolume volumeID) replicationID false parameters secretName secretNamespace)));
  client_Resync volumeID replicationID force secretName secretNamespace parameters :=
    call (ERpc cc timeout (ResyncVolume
      (mkRequest (SourceVolume volumeID) replicationID force parameters secretName secretNamespace)));
  client_GetInfo volumeID replicationID secretName secretNamespace :=
    call (ERpc cc timeout (GetVolumeReplicationInfo
      (mkRequest (SourceVolume volumeID) replicationID false ∅ secretName secretNamespace)))
|}.

Definition NewVolumeGroupReplicationClient (cc : ClientConn) (timeout : Z) : VolumeReplicationClient := {|
  client_Enable groupID replicationID secretName secretNamespace parameters :=
    call (ERpc cc timeout (EnableVolumeReplication
      (mkRequest (SourceVolumeGroup groupID) replicationID false parameters secretName secretNamespace)));
  client_Disable groupID replicationID secretName secretNamespace parameters :=
    call (ERpc cc timeout (DisableVolumeReplication
      (mkRequest (SourceVolumeGroup groupID) replicationID false parameters secretName secretNamespace)));
  client_Promote groupID replicationID force secretName secretNamespace parameters :=
    call (ERpc cc timeout (PromoteVolume
      (mkRequest (SourceVolumeGroup groupID) replicationID force parameters secretName secretNamespace)));
  client_Demote groupID replicationID secretName secretNamespace parameters :=
    call (ERpc cc timeout (DemoteVolume
      (mkRequest (SourceVolumeGroup groupID) replicationID false parameters secretName secretNamespace)));
  client_Resync groupID replicationID force secretName secretNamespace parameters :=
    call (ERpc cc timeout (ResyncVolume
      (mkRequest (SourceVolumeGroup groupID) replicationID force parameters secretName secretNamespace)));
  client_GetInfo groupID replicationID secretName secretNamespace :=
    call (ERpc cc timeout (GetVolumeReplicationInfo
      (mkRequest (SourceVolumeGroup groupID) replicationID false ∅ secretName secretNamespace)))
|}.

(** What an implementation promises: each method is one RPC on its connection,
    carrying its arguments, with the identifier as the source [src]. *)
Class ReplicationClientSpec (cc : ClientConn) (timeout : Z) (src : string -> ReplicationSource)
    (c : VolumeReplicationClient) : Prop := {
  enable_spec id rid sn sns ps :
    client_Enable c id rid sn sns ps =
    call (ERpc cc timeout (EnableVolumeReplication (mkRequest (src id) rid false ps sn sns)));
  disable_spec id rid sn sns ps :
    client_Disable c id rid sn sns ps =
    call (ERpc cc timeout (DisableVolumeReplication (mkRequest (src id) rid false ps sn sns)));
  promote_spec id rid f sn sns ps :
    client_Promote c id rid f sn sns ps =
    call (ERpc cc timeout (PromoteVolume (mkRequest (src id) rid f ps sn sns)));
  demote_spec id rid sn sns ps :
    client_Demote c id rid sn sns ps =
    call (ERpc cc timeout (DemoteVolume (mkRequest (src id) rid false ps sn sns)));
  resync_spec id rid f sn sns ps :
    client_Resync c id rid f sn sns ps =
    call (ERpc cc timeout (ResyncVolume (mkRequest (src id) rid f ps sn sns)));
  info_spec id rid sn sns :
    client_GetInfo c id rid sn sns =
    call (ERpc cc timeout (GetVolumeReplicationInfo (mkRequest (src id) rid false ∅ sn sns)))
}.

#[global] Instance volume_client_spec cc timeout :
  ReplicationClientSpec cc timeout SourceVolume (NewVolumeReplicationClient cc timeout).
Proof. by constructor. Qed.

#[global] Instance group_client_spec cc timeout :
  ReplicationClientSpec cc timeout SourceVolumeGroup (NewVolumeGroupReplicationClient cc timeout).
Proof. by constructor. Qed.

(** ** The volume group client (volumegroup-client.go) *)

Record VolumeGroupClient := {
  vgc_Create : string -> list string -> string -> string -> gmap string string -> M (error + VolumeGroup);
  vgc_Modify : string -> list string -> string -> string -> gmap string string -> M (error + VolumeGroup);
  vgc_Delete : string -> string -> string -> M (error + unit);
  vgc_Get : string -> string -> string -> M (error + VolumeGroup)
}.

Definition NewVolumeGroupClient (cc : ClientConn) (timeout : Z) : VolumeGroupClient := {|
  vgc_Create volumeGroupName volumeIDs secretName secretNamespace parameters :=
    call (ERpc cc timeout (CreateVolumeGroup volumeGroupName volumeIDs parameters secretName secretNamespace));
  vgc_Modify volumeGroupID volumeIDs secretName secretNamespace parameters :=
    call (ERpc cc timeout (ModifyVolumeGroupMembership volumeGroupID volumeIDs parameters secretName secretNamespace));
  vgc_Delete volumeGroupID secretName secretNamespace :=
    call (ERpc cc timeout (DeleteVolumeGroup volumeGroupID secretName secretNamespace));
  vgc_Get volumeGroupID secretName secretNamespace :=
    call (ERpc cc timeout (ControllerGetVolumeGroup volumeGroupID secretName secretNamespace))
|}.

(** ** Replication operations (replication/replication.go) *)

Record CommonRequestParameters := mkParams {
  VolumeID : string;
  GroupID : string;
  ReplicationID : string;
  p_Parameters : gmap string string;
  SecretName : string;
  SecretNamespace : string;
  p_Replication : VolumeReplicationClient
}.

Record Replication := mkReplication { Params : CommonRequestParameters; Force : bool }.

(** [Response.Response] is an interface{}: the dynamic type of what it holds. *)
Inductive ResponseValue :=
| RNil
| REnable | RDisable | RPromote | RDemote
| RResync (ready : bool)
| RInfo (info : GetVolumeReplicationInfoResponse).

Record Response := mkResponse { resp_Response : ResponseValue; resp_Error : option error }.

Definition getID (r : Replication) : error + string :=
  let p := r.(Params) in
  if negb (bool_decide (p.(VolumeID) = "")) && negb (bool_decide (p.(GroupID) = "")) then
    inl (ErrorString "VolumeID and GroupID cannot be provided together")
  else if negb (bool_decide (p.(VolumeID) = "")) then inr p.(VolumeID)
  else if negb (bool_decide (p.(GroupID) = "")) then inr p.(GroupID)
  else inl (ErrorString "VolumeID or GroupID must be provided").

Definition to_response {A} (f : A -> ResponseValue) (r : error + A) : Response :=
  match r with
  | inl e => mkResponse RNil (Some e)
  | inr a => mkResponse (f a) None
  end.

Definition Enable (r : Replication) : M Response :=
  match getID r with
  | inl err => mret (mkResponse RNil (Some err))
  | inr id =>
    let p := r.(Params) in
    resp ← client_Enable p.(p_Replication) id p.(ReplicationID) p.(SecretName)
             p.(SecretNamespace) p.(p_Parameters);
    mret (to_response (fun _ => REnable) resp)
  end.

Definition Disable (r : Replication) : M Response :=
  match getID r with
  | inl err => mret (mkResponse RNil (Some err))
  | inr id =>
    let p := r.(Params) in
    resp ← client_Disable p.(p_Replication) id p.(ReplicationID) p.(SecretName)
             p.(SecretNamespace) p.(p_Parameters);
    mret (to_response (fun _ => RDisable) resp)
  end.

Definition Promote (r : Replication) : M Response :=
  match getID r with
  | inl err => mret (mkResponse RNil (Some err))
  | inr id =>
    let p := r.(Params) in
    resp ← client_Promote p.(p_Replication) id p.(ReplicationID) r.(Force) p.(SecretName)
             p.(SecretNamespace) p.(p_Parameters);
    mret (to_response (fun _ => RPromote) resp)
  end.

Definition Demote (r : Replication) : M Response :=
  match getID r with
  | inl err => mret (mkResponse RNil (Some err))
  | inr id =>
    let p := r.(Params) in
    resp ← client_Demote p.(p_Replication) id p.(ReplicationID) p.(SecretName)
             p.(SecretNamespace) p.(p_Parameters);
    mret (to_response (fun _ => RDemote) resp)
  end.

Definition ResyncOp (r : Replication) : M Response :=
  match getID r with
  | inl err => mret (mkResponse RNil (Some err))
  | inr id =>
    let p := r.(Params) in
    resp ← client_Resync p.(p_Replication) id p.(ReplicationID) r.(Force) p.(SecretName)
             p.(SecretNamespace) p.(p_Parameters);
    mret (to_response RResync resp)
  end.

Definition GetInfo (r : Replication) : M Response :=
  match getID r with
  | inl err => mret (mkResponse RNil (Some err))
  | inr id =>
    let p := r.(Params) in
    resp ← client_GetInfo p.(p_Replication) id p.(ReplicationID) p.(SecretName)
             p.(SecretNamespace);
    mret (to_response RInfo resp)
  end.

Definition HasKnownGRPCError (r : Response) (knownErrors : list Code) : bool :=
  match r.(resp_Error) with
  | None => false
  | Some err =>
    let '(c, _, ok) := FromError err in
    if negb ok then false else existsb (fun e => bool_decide (c = e)) knownErrors
  end.

Definition GetMessageFromError (err : error) : string :=
  let '(_, m, ok) := FromError err in
  if negb ok then Error err else m.

(** ** Properties *)

Lemma getID_spec r id :
  getID r = inr id <->
  id ≠ "" /\ ((r.(Params).(VolumeID) = id /\ r.(Params).(GroupID) = "") \/
              (r.(Params).(VolumeID) = "" /\ r.(Params).(GroupID) = id)).
Proof.
  unfold getID. repeat case_bool_decide; simpl; naive_solver.
Qed.

Lemma HasKnownGRPCError_spec v err codes :
  HasKnownGRPCError (mkResponse v (Some err)) codes = true <->
  exists c m, as_grpc err = Some (c, m) /\ c ∈ codes.
Proof.
  assert (forall c, existsb (fun e => bool_decide (c = e)) codes = true <-> c ∈ codes) as Hin.
  { intros c. rewrite existsb_exists. setoid_rewrite bool_decide_eq_true.
    setoid_rewrite <- list_elem_of_In. naive_solver. }
  unfold HasKnownGRPCError, FromError.
  destruct err as [| m inner | | c m |]; simpl; try naive_solver.
  destruct (as_grpc inner) as [[c m']|]; simpl; [|naive_solver]. rewrite Hin. naive_solver.
Qed.

(** A replication operation contacts the driver only with a well-formed
    identity.  With any client that keeps the interface's promise, Promote makes
    exactly one RPC, with the one identifier that was given and the force flag
    as set, when exactly one of volume and group id is given; otherwise it makes
    none and reports an error that no known-error list matches. *)
Theorem Promote_one_call cc timeout src r ρ :
  ReplicationClientSpec cc timeout src r.(Params).(p_Replication) ->
  let p := r.(Params) in
  let '(h, o) := run ρ [] (Promote r) in
  match getID r with
  | inr id =>
    let e := ERpc cc timeout (PromoteVolume
               (mkRequest (src id) p.(ReplicationID) r.(Force) p.(p_Parameters)
                  p.(SecretName) p.(SecretNamespace))) in
    h = [existT e (ρ [] e)] /\ o = Done (to_response (fun _ => RPromote) (ρ [] e))
  | inl err =>
    h = [] /\ o = Done (mkResponse RNil (Some err)) /\
    forall codes, HasKnownGRPCError (mkResponse RNil (Some err)) codes = false
  end.
Proof.
  intros Hspec. unfold Promote. simpl.
  destruct (getID r) as [err|id] eqn:Hid.
  - split_and!; [done..|]. intros codes. revert Hid. unfold getID.
    by repeat case_bool_decide; simpl; intros [= <-].
  - rewrite promote_spec. done.
Qed.

Lemma Promote_one_call_witness :
  let cc := mkClientConn 0 "10.0.0.1:9070" false in
  let r := mkReplication (mkParams "vol-1" "" "" ∅ "s" "ns" (NewVolumeReplicationClient cc 60)) true in
  let ρ : env answer := fun _ e =>
    match e return answer e with
    | ERpc _ _ _ => inl (GRPCStatus FailedPrecondition "not ready")
    | e => refused e
    end in
  snd (run ρ [] (Promote r)) = Done (mkResponse RNil (Some (GRPCStatus FailedPrecondition "not ready"))).
Proof.
  intros cc r ρ.
  pose proof (Promote_one_call cc 60 SourceVolume r ρ (volume_client_spec cc 60)) as H.
  exact (proj2 H).
Defined.
