(* ===== verification/Conditions.v ===== *)
(** * Status conditions of a VolumeReplication

    src/internal/controller/replication.storage/status.go and utils.go.  The
    conditions are a slice updated in place.  A function that sets several
    conditions reads the clock for each; [now] gives the reading for each
    condition type. *)

From S2P Require Import Prelude.
From S2P Require Import ApiTypes.
From S2P Require Import Effects.

(** ** Constants (src/api/replication.storage/v1alpha1/volumereplication_types.go) *)

Definition ConditionCompleted := "Completed".
Definition ConditionDegraded := "Degraded".
Definition ConditionResyncing := "Resyncing".
Definition ConditionValidated := "Validated".
Definition ConditionReplicating := "Replicating".

Definition MessagePromoted := "is promoted to primary and replicating to secondary".
Definition MessageHealthy := "is healthy".
Definition MessageNotResyncing := "is not resyncing".
Definition MessageValidated := "is validated and met all prerequisites".
Definition MessageFailedPromoted := "failed to promote".
Definition MessageFailedDemoted := "failed to demote".
Definition MessageFailedPreCondition := "failed to meet prerequisite".
Definition MessageDemoted := "is demoted to secondary".
Definition MessageDegraded := "is degraded".
Definition MessageResyncTriggered := "is resyncing changes from primary to secondary".
Definition MessageResyncFailed := "failed to resync".
Definition MessageReplicating := "is replicating".
Definition MessageNotReplicating := "is not replicating".
Definition MessageUnknownReplicationState := "replication status is unknown".

Definition Promoted := "Promoted".
Definition Demoted := "Demoted".
Definition FailedToPromote := "FailedToPromote".
Definition FailedToDemote := "FailedToDemote".
Definition ErrorReason := "Error".
Definition VolumeDegraded := "VolumeDegraded".
Definition Healthy := "Healthy".
Definition ResyncTriggered := "ResyncTriggered".
Definition FailedToResync := "FailedToResync".
Definition NotResyncing := "NotResyncing".
Definition PrerequisiteMet := "PrerequisiteMet".
Definition PrerequisiteNotMet := "PrerequisiteNotMet".
Definition Replicating := "Replicating".
Definition NotReplicating := "NotReplicating".

Definition pvcDataSource := "PersistentVolumeClaim".
Definition volumeGroupReplicationDataSource := "VolumeGroupReplication".

(** ** Condition lists (status.go) *)

Definition getSource (dataSource : string) : string :=
  if bool_decide (dataSource = pvcDataSource) then "volume"
  else if bool_decide (dataSource = volumeGroupReplicationDataSource) then "volume group"
  else "".

(** [findCondition] returns a pointer into the slice: here, its index. *)
Fixpoint findCondition (l : list Condition) (ty : string) : option nat :=
  match l with
  | [] => None
  | c :: l =>
    if bool_decide (c.(c_Type) = ty) then Some 0 else S <$> findCondition l ty
  end.

Definition setStatusCondition (now : Z) (existing : list Condition) (new : Condition)
    : list Condition :=
  match findCondition existing new.(c_Type) with
  | None =>
    existing ++ [mkCondition new.(c_Type) new.(c_Status) new.(c_ObservedGeneration) now
                   new.(c_Reason) new.(c_Message)]
  | Some i =>
    alter (fun old =>
      let t := if decide (old.(c_Status) = new.(c_Status)) then old.(c_LastTransitionTime)
               else now in
      mkCondition old.(c_Type) new.(c_Status) new.(c_ObservedGeneration) t
        new.(c_Reason) new.(c_Message)) i existing
  end.

Definition removeCondition (l : list Condition) (ty : string) : list Condition :=
  filter (fun c => c.(c_Type) ≠ ty) l.

(** A condition as the callers build it: the transition time is filled in by
    [setStatusCondition]. *)
Definition cond (message ty reason : string) (gen : Z) (st : ConditionStatus) : Condition :=
  mkCondition ty st gen 0 reason message.

Definition clock : Type := string -> Z.

Definition set_at (now : clock) (l : list Condition) (new : Condition) : list Condition :=
  setStatusCondition (now new.(c_Type)) l new.

Definition setPromotedCondition (now : clock) (l : list Condition) (gen : Z) (dataSource : string) :=
  let source := getSource dataSource in
  let l := set_at now l
    (cond (source +:+ " " +:+ MessagePromoted) ConditionCompleted Promoted gen ConditionTrue) in
  let l := set_at now l
    (cond (source +:+ " " +:+ MessageHealthy) ConditionDegraded Healthy gen ConditionFalse) in
  set_at now l
    (cond (source +:+ " " +:+ MessageNotResyncing) ConditionResyncing NotResyncing gen ConditionFalse).

Definition setFailedPromotionCondition (now : clock) (l : list Condition) (gen : Z)
    (dataSource completedMessage degradedDetailedMessage : string) :=
  let source := getSource dataSource in
  let l := set_at now l
    (cond completedMessage ConditionCompleted FailedToPromote gen ConditionFalse) in
  let l := set_at now l
    (cond (source +:+ " " +:+ MessageFailedPromoted +:+ ": " +:+ degradedDetailedMessage)
       ConditionDegraded ErrorReason gen ConditionTrue) in
  let l := set_at now l
    (cond (source +:+ " " +:+ MessageNotResyncing) ConditionResyncing NotResyncing gen ConditionFalse) in
  set_at now l
    (cond (source +:+ " " +:+ MessageValidated) ConditionValidated PrerequisiteMet gen ConditionTrue).

Definition setFailedValidationCondition (now : clock) (l : list Condition) (gen : Z)
    (dataSource degradedMessage validationDetailedMessage : string) :=
  let source := getSource dataSource in
  let l := set_at now l
    (cond (source +:+ " " +:+ MessageFailedPromoted) ConditionCompleted FailedToPromote gen ConditionFalse) in
  let l := set_at now l
    (cond degradedMessage ConditionDegraded ErrorReason gen ConditionTrue) in
  let l := set_at now l
    (cond (source +:+ " " +:+ MessageNotResyncing) ConditionResyncing NotResyncing gen ConditionFalse) in
  set_at now l
    (cond (MessageFailedPreCondition +:+ ": " +:+ validationDetailedMessage)
       ConditionValidated PrerequisiteNotMet gen ConditionFalse).

Definition setNotDegradedCondition (now : clock) (l : list Condition) (gen : Z) (dataSource : string) :=
  let source := getSource dataSource in
  let l := set_at now l
    (cond (source +:+ " " +:+ MessageDemoted) ConditionDegraded Healthy gen ConditionFalse) in
  set_at now l
    (cond (source +:+ " " +:+ MessageNotResyncing) ConditionResyncing NotResyncing gen ConditionFalse).

Definition setDemotedCondition (now : clock) (l : list Condition) (gen : Z) (dataSource : string) :=
  let source := getSource dataSource in
  let l := set_at now l
    (cond (source +:+ " " +:+ MessageDemoted) ConditionCompleted Demoted gen ConditionTrue) in
  let l := set_at now l
    (cond (source +:+ " " +:+ MessageDegraded) ConditionDegraded VolumeDegraded gen ConditionTrue) in
  set_at now l
    (cond (source +:+ " " +:+ MessageNotResyncing) ConditionResyncing NotResyncing gen ConditionFalse).

Definition setFailedDemotionCondition (now : clock) (l : list Condition) (gen : Z)
    (dataSource completedMessage degradedDetailedMessage : string) :=
  let source := getSource dataSource in
  let l := set_at now l
    (cond completedMessage ConditionCompleted FailedToDemote gen ConditionFalse) in
  let l := set_at now l
    (cond (source +:+ " " +:+ MessageFailedDemoted +:+ ": " +:+ degradedDetailedMessage)
       ConditionDegraded ErrorReason gen ConditionTrue) in
  set_at now l
    (cond (source +:+ " " +:+ MessageNotResyncing) ConditionResyncing NotResyncing gen ConditionFalse).

Definition setResyncCondition (now : clock) (l : list Condition) (gen : Z) (dataSource : string) :=
  let source := getSource dataSource in
  let l := set_at now l
    (cond (source +:+ " " +:+ MessageDemoted) ConditionCompleted Demoted gen ConditionTrue) in
  let l := set_at now l
    (cond (source +:+ " " +:+ MessageDegraded) ConditionDegraded VolumeDegraded gen ConditionTrue) in
  set_at now l
    (cond (source +:+ " " +:+ MessageResyncTriggered) ConditionResyncing ResyncTriggered gen ConditionTrue).

Definition setFailedResyncCondition (now : clock) (l : list Condition) (gen : Z)
    (dataSource completedMessage degradedDetailedMessage : string) :=
  let source := getSource dataSource in
  let l := set_at now l
    (cond completedMessage ConditionCompleted FailedToResync gen ConditionFalse) in
  let l := set_at now l
    (cond (source +:+ " " +:+ MessageResyncFailed +:+ ": " +:+ degradedDetailedMessage)
       ConditionDegraded ErrorReason gen ConditionTrue) in
  set_at now l
    (cond (source +:+ " " +:+ MessageNotResyncing) ConditionResyncing FailedToResync gen ConditionFalse).

Definition setUnknownReplicationCondition (now : clock) (l : list Condition) (gen : Z)
    (dataSource statusMessage : string) :=
  set_at now l
    (cond (getSource dataSource +:+ " " +:+ MessageUnknownReplicationState +:+ ": " +:+ statusMessage)
       ConditionReplicating Replicating gen ConditionUnknown).

Definition setHealthyReplicationCondition (now : clock) (l : list Condition) (gen : Z)
    (dataSource statusMessage : string) :=
  set_at now l
    (cond (getSource dataSource +:+ " " +:+ MessageReplicating +:+ ": " +:+ statusMessage)
       ConditionReplicating Replicating gen ConditionTrue).

Definition setDegradedReplicationCondition (now : clock) (l : list Condition) (gen : Z)
    (dataSource statusMessage : string) :=
  set_at now l
    (cond (getSource dataSource +:+ " " +:+ MessageNotReplicating +:+ ": " +:+ statusMessage)
       ConditionReplicating NotReplicating gen ConditionFalse).

(** ** States (utils.go) *)

Definition GetReplicationState (instanceState : string) : string :=
  if bool_decide (instanceState = Primary) then PrimaryState
  else if bool_decide (instanceState = Secondary) then SecondaryState
  else if bool_decide (instanceState = Resync) then SecondaryState
  else UnknownState.

Definition GetCurrentReplicationState (instanceStatusState : string) : string :=
  if bool_decide (instanceStatusState = "") then UnknownState else instanceStatusState.

(** ** Condition functions of volumereplication_controller.go *)

Definition setFailureCondition (now : clock) (instance : VolumeReplication)
    (errMessage errFromCephCSI dataSource : string) : VolumeReplication :=
  let l := instance.(vr_Status).(Conditions) in
  let gen := (meta instance).(Generation) in
  let st := instance.(vr_Spec).(vr_ReplicationState) in
  let l :=
    if bool_decide (st = Primary) then
      setFailedPromotionCondition now l gen dataSource errMessage errFromCephCSI
    else if bool_decide (st = Secondary) then
      setFailedDemotionCondition now l gen dataSource errMessage errFromCephCSI
    else if bool_decide (st = Resync) then
      setFailedResyncCondition now l gen dataSource errMessage errFromCephCSI
    else l in
  vr_set_status instance (set_Conditions instance.(vr_Status) l).

Definition setReplicationCondition (now : clock) (instance : VolumeReplication)
    (dataSource statusMessage : string) (replicationStatus : InfoStatus) : VolumeReplication :=
  let l := instance.(vr_Status).(Conditions) in
  let gen := (meta instance).(Generation) in
  let l :=
    match replicationStatus with
    | INFO_UNKNOWN => setUnknownReplicationCondition now l gen dataSource statusMessage
    | INFO_HEALTHY => setHealthyReplicationCondition now l gen dataSource statusMessage
    | INFO_DEGRADED | INFO_ERROR => setDegradedReplicationCondition now l gen dataSource statusMessage
    | INFO_OTHER _ => l
    end in
  vr_set_status instance (set_Conditions instance.(vr_Status) l).

(** ** Condition lists as maps

    Readers look a condition up by its type.  [lookup_cond] is that view; each
    setter is an update of it. *)

Definition lookup_cond (l : list Condition) (ty : string) : option Condition :=
  findCondition l ty ≫= fun i => l !! i.

Definition types_unique (l : list Condition) : Prop := NoDup (c_Type <$> l).

(** What setting [new] makes of the condition of its type that was there. *)
Definition merge (now : Z) (old : option Condition) (new : Condition) : Condition :=
  let t := match old with
           | Some c => if decide (c.(c_Status) = new.(c_Status)) then c.(c_LastTransitionTime) else now
           | None => now
           end in
  mkCondition new.(c_Type) new.(c_Status) new.(c_ObservedGeneration) t new.(c_Reason) new.(c_Message).

Lemma setStatusCondition_nil now new : setStatusCondition now [] new = [merge now None new].
Proof. done. Qed.

Lemma setStatusCondition_cons now c l new :
  setStatusCondition now (c :: l) new =
    if decide (c.(c_Type) = new.(c_Type)) then merge now (Some c) new :: l
    else c :: setStatusCondition now l new.
Proof.
  unfold setStatusCondition. simpl. case_bool_decide as Hc.
  - rewrite decide_True by done. simpl. unfold merge. by rewrite Hc.
  - rewrite decide_False by done. by destruct (findCondition l (c_Type new)).
Qed.

Lemma lookup_cond_cons c l ty :
  lookup_cond (c :: l) ty = if decide (c.(c_Type) = ty) then Some c else lookup_cond l ty.
Proof.
  unfold lookup_cond. simpl. case_bool_decide; [by rewrite decide_True|].
  rewrite decide_False by done. by destruct (findCondition l ty).
Qed.

Lemma lookup_set now l new ty :
  lookup_cond (setStatusCondition now l new) ty =
    if decide (ty = new.(c_Type)) then Some (merge now (lookup_cond l ty) new)
    else lookup_cond l ty.
Proof.
  induction l as [|c l IH].
  - rewrite setStatusCondition_nil, lookup_cond_cons. simpl.
    destruct (decide (c_Type new = ty)), (decide (ty = c_Type new)); naive_solver.
  - rewrite setStatusCondition_cons.
    destruct (decide (c_Type c = c_Type new)) as [Hc|Hc].
    + rewrite !lookup_cond_cons. simpl. rewrite Hc.
      by destruct (decide (c_Type new = ty)), (decide (ty = c_Type new)); subst.
    + rewrite !lookup_cond_cons, IH.
      destruct (decide (c_Type c = ty)) as [<-|]; [by rewrite decide_False|done].
Qed.

Lemma types_set now l new :
  c_Type <$> setStatusCondition now l new =
    if decide (new.(c_Type) ∈ c_Type <$> l) then c_Type <$> l
    else (c_Type <$> l) ++ [new.(c_Type)].
Proof.
  induction l as [|c l IH]; [done|]. rewrite setStatusCondition_cons, (fmap_cons _ c).
  destruct (decide (c_Type c = c_Type new)) as [Hc|Hc]; rewrite fmap_cons.
  - rewrite Hc, decide_True by set_solver. done.
  - rewrite IH. destruct (decide (c_Type new ∈ c_Type <$> l)).
    + by rewrite decide_True by set_solver.
    + by rewrite decide_False by set_solver.
Qed.

Lemma types_unique_set now l new :
  types_unique l -> types_unique (setStatusCondition now l new).
Proof.
  unfold types_unique. rewrite types_set. case_decide as Hd; [done|].
  intros Hnd. apply NoDup_app. split_and!; [done|set_solver|apply NoDup_singleton].
Qed.

Lemma types_unique_remove l ty : types_unique l -> types_unique (removeCondition l ty).
Proof.
  unfold types_unique, removeCondition. induction l as [|c l IH]; [done|]. rewrite fmap_cons.
  intros [Hc Hl]%NoDup_cons. rewrite filter_cons. case_decide; [|by apply IH].
  rewrite fmap_cons. apply NoDup_cons. split; [|by apply IH].
  intros (c' & Heq & [_ Hin]%list_elem_of_filter)%list_elem_of_fmap.
  apply Hc. rewrite Heq. apply list_elem_of_fmap. eauto.
Qed.

Lemma lookup_remove l ty ty' :
  lookup_cond (removeCondition l ty) ty' = if decide (ty' = ty) then None else lookup_cond l ty'.
Proof.
  unfold removeCondition. induction l as [|c l IH]; [by case_decide|].
  rewrite filter_cons, lookup_cond_cons.
  destruct (decide (c_Type c ≠ ty)); [rewrite lookup_cond_cons, IH|rewrite IH];
    repeat case_decide; naive_solver.
Qed.

(** The status a reader sees for a condition type. *)
Definition status_of (l : list Condition) (ty : string) : option ConditionStatus :=
  c_Status <$> lookup_cond l ty.

(** The reader's view of the three outcome conditions. *)
Definition summary (l : list Condition) :=
  (status_of l ConditionCompleted, status_of l ConditionDegraded, status_of l ConditionResyncing).

Lemma status_of_set_at now l new ty :
  status_of (set_at now l new) ty =
    if decide (ty = new.(c_Type)) then Some new.(c_Status) else status_of l ty.
Proof. unfold status_of, set_at. rewrite lookup_set. by case_decide. Qed.

Lemma types_unique_set_at now l new : types_unique l -> types_unique (set_at now l new).
Proof. apply types_unique_set. Qed.

Create HintDb conds discriminated.
#[export] Hint Resolve types_unique_set_at types_unique_remove : conds.

Ltac unfold_setters :=
  unfold setPromotedCondition, setFailedPromotionCondition, setFailedValidationCondition,
    setNotDegradedCondition, setDemotedCondition, setFailedDemotionCondition,
    setResyncCondition, setFailedResyncCondition, setUnknownReplicationCondition,
    setHealthyReplicationCondition, setDegradedReplicationCondition in *; cbv zeta in *.

Lemma setFailureCondition_unique now vr m e ds :
  types_unique vr.(vr_Status).(Conditions) ->
  types_unique (setFailureCondition now vr m e ds).(vr_Status).(Conditions).
Proof.
  intros Hu. unfold setFailureCondition; simpl. unfold_setters.
  repeat case_bool_decide; auto 6 with conds.
Qed.

Lemma setReplicationCondition_unique now vr ds m st :
  types_unique vr.(vr_Status).(Conditions) ->
  types_unique (setReplicationCondition now vr ds m st).(vr_Status).(Conditions).
Proof.
  intros Hu. unfold setReplicationCondition; simpl. unfold_setters.
  destruct st; auto 6 with conds.
Qed.
#[export] Hint Resolve setFailureCondition_unique setReplicationCondition_unique : conds.

(** ** Properties *)

(** Setting a condition is an update of the map from condition types to
    conditions: the new status, reason, message and generation become visible
    under its type, the transition time changes exactly when the status does,
    other types are untouched, and no type ever appears twice. *)
Theorem setStatusCondition_refines_update now l new :
  (forall ty, lookup_cond (setStatusCondition now l new) ty =
     if decide (ty = new.(c_Type)) then Some (merge now (lookup_cond l ty) new)
     else lookup_cond l ty) /\
  (types_unique l -> types_unique (setStatusCondition now l new)) /\
  (forall ty ty', lookup_cond (removeCondition l ty) ty' =
     if decide (ty' = ty) then None else lookup_cond l ty') /\
  (forall ty, types_unique l -> types_unique (removeCondition l ty)).
Proof.
  split_and!.
  - intros ty. apply lookup_set.
  - apply types_unique_set.
  - intros ty ty'. apply lookup_remove.
  - intros ty. apply types_unique_remove.
Qed.

(** What the user can read off the conditions after each operation, from
    any previous condition list: (Completed, Degraded, Resyncing) tell success,
    failure and the resync phase apart, a failed promotion still reports the
    prerequisites as met, a failed validation does not, and only the info
    functions touch Replicating. *)
Theorem condition_outcomes now l gen ds a b :
  summary (setPromotedCondition now l gen ds)
    = (Some ConditionTrue, Some ConditionFalse, Some ConditionFalse) /\
  summary (setDemotedCondition now l gen ds)
    = (Some ConditionTrue, Some ConditionTrue, Some ConditionFalse) /\
  summary (setResyncCondition now l gen ds)
    = (Some ConditionTrue, Some ConditionTrue, Some ConditionTrue) /\
  summary (setNotDegradedCondition now l gen ds)
    = (status_of l ConditionCompleted, Some ConditionFalse, Some ConditionFalse) /\
  (forall l', l' ∈ [setFailedPromotionCondition now l gen ds a b;
                    setFailedValidationCondition now l gen ds a b;
                    setFailedDemotionCondition now l gen ds a b;
                    setFailedResyncCondition now l gen ds a b] ->
    summary l' = (Some ConditionFalse, Some ConditionTrue, Some ConditionFalse) /\
    status_of l' ConditionReplicating = status_of l ConditionReplicating) /\
  status_of (setFailedPromotionCondition now l gen ds a b) ConditionValidated = Some ConditionTrue /\
  status_of (setFailedValidationCondition now l gen ds a b) ConditionValidated = Some ConditionFalse.
Proof.
  unfold summary. unfold_setters. split_and!; try (by rewrite !status_of_set_at).
  intros l'. rewrite !elem_of_cons, elem_of_nil.
  intros [->|[->|[->|[->|[]]]]]; by rewrite !status_of_set_at.
Qed.
