(* ===== verification/Ownership.v ===== *)
(** * Parameters, finalizers and owner annotations

    src/internal/controller/replication.storage: parameters.go, finalizers.go,
    pvc.go, volumereplicationclass.go, volumegroupreplicationclass.go and the
    owner-annotation functions of volumereplication_controller.go and
    volumegroupreplicationcontent_controller.go.  An operation on an object
    returns the object as it is in the caller's memory afterwards, together with
    the error. *)

From S2P Require Import Prelude.
From S2P Require Import GoErrors.
From S2P Require Import ApiTypes.
From S2P Require Import Effects.
From S2P Require Import Conditions.
From S2P Require Config.

(** ** parameters.go *)

Definition replicationParameterPrefix := "replication.storage.openshift.io/".
Definition prefixedReplicationSecretNameKey :=
  replicationParameterPrefix +:+ "replication-secret-name".
Definition prefixedReplicationSecretNamespaceKey :=
  replicationParameterPrefix +:+ "replication-secret-namespace".
Definition prefixedGroupReplicationSecretNameKey :=
  replicationParameterPrefix +:+ "group-replication-secret-name".
Definition prefixedGroupReplicationSecretNamespaceKey :=
  replicationParameterPrefix +:+ "group-replication-secret-namespace".

Definition filterPrefixedParameters (prefix : string) (param : gmap string string)
    : gmap string string :=
  filter (fun kv => String.prefix prefix kv.1 = false) param.

(** The loop body: the verdict on one parameter. *)
Definition validateParameter (k v : string) : option error :=
  if String.prefix replicationParameterPrefix k then
    if bool_decide (k = prefixedReplicationSecretNameKey)
       || bool_decide (k = prefixedGroupReplicationSecretNameKey) then
      if bool_decide (v = "") then Some (ErrorString "secret name cannot be empty") else None
    else if bool_decide (k = prefixedReplicationSecretNamespaceKey)
       || bool_decide (k = prefixedGroupReplicationSecretNamespaceKey) then
      if bool_decide (v = "") then Some (ErrorString "secret namespace cannot be empty") else None
    else Some (ErrorString ("found unknown parameter key " +:+ go_quote k +:+
                            " with reserved prefix " +:+ replicationParameterPrefix))
  else None.

Fixpoint validate_entries (l : list (string * string)) : option error :=
  match l with
  | [] => None
  | (k, v) :: l =>
    match validateParameter k v with
    | Some err => Some err
    | None => validate_entries l
    end
  end.

Definition validatePrefixedParameters (param : gmap string string) : M (option error) :=
  seed ← call ERange;
  mret (validate_entries (map_range seed param)).

(** ** finalizers.go *)

Definition volumeReplicationFinalizer := "replication.storage.openshift.io".
Definition pvcReplicationFinalizer := "replication.storage.openshift.io/pvc-protection".
Definition vgrReplicationFinalizer := "replication.storage.openshift.io/vgr-protection".

Definition resource_name {A} `{HasMeta A} (a : A) : string :=
  " (" +:+ obj_Namespace a +:+ "/" +:+ obj_Name a +:+ ")".
Definition cluster_name {A} `{HasMeta A} (a : A) : string := " (" +:+ obj_Name a +:+ ")".

(** The common shape of the add/remove functions: change the finalizers in
    memory, then update the object at the server. *)
Definition add_finalizer (k : kind) `{HasMeta (obj_of k)} (what : string)
    (name : obj_of k -> string) (o : obj_of k) (fin : string) : M (obj_of k * option error) :=
  if negb (contains (finalizers o) fin) then
    let o := with_finalizers o (finalizers o ++ [fin]) in
    '(o, err) ← update_obj k o;
    match err with
    | Some err =>
      mret (o, Some (WrapError ("failed to add finalizer (" +:+ fin +:+ ") to " +:+ what +:+
                                " resource" +:+ name o +:+ " " +:+ Error err) err))
    | None => mret (o, None)
    end
  else mret (o, None).

Definition remove_finalizer (k : kind) `{HasMeta (obj_of k)} (what : string)
    (name : obj_of k -> string) (o : obj_of k) (fin : string) : M (obj_of k * option error) :=
  if contains (finalizers o) fin then
    let o := with_finalizers o (Config.RemoveFromSlice (finalizers o) fin) in
    '(o, err) ← update_obj k o;
    match err with
    | Some err =>
      mret (o, Some (WrapError ("failed to remove finalizer (" +:+ fin +:+ ") from " +:+ what +:+
                                " resource" +:+ name o +:+ ", " +:+ Error err) err))
    | None => mret (o, None)
    end
  else mret (o, None).

Definition addFinalizerToVR (vr : VolumeReplication) : M (VolumeReplication * option error) :=
  add_finalizer KVolumeReplication "VolumeReplication" resource_name vr volumeReplicationFinalizer.
Definition removeFinalizerFromVR (vr : VolumeReplication) : M (VolumeReplication * option error) :=
  remove_finalizer KVolumeReplication "VolumeReplication" resource_name vr volumeReplicationFinalizer.
Definition addFinalizerToPVC (pvc : PersistentVolumeClaim) (fin : string)
    : M (PersistentVolumeClaim * option error) :=
  add_finalizer KPersistentVolumeClaim "PersistentVolumeClaim" resource_name pvc fin.
Definition removeFinalizerFromPVC (pvc : PersistentVolumeClaim) (fin : string)
    : M (PersistentVolumeClaim * option error) :=
  remove_finalizer KPersistentVolumeClaim "PersistentVolumeClaim" resource_name pvc fin.
Definition addFinalizerToVGR (vgr : VolumeGroupReplication)
    : M (VolumeGroupReplication * option error) :=
  add_finalizer KVolumeGroupReplication "VolumeGroupReplication" resource_name vgr vgrReplicationFinalizer.
Definition removeFinalizerFromVGR (vgr : VolumeGroupReplication)
    : M (VolumeGroupReplication * option error) :=
  remove_finalizer KVolumeGroupReplication "VolumeGroupReplication" resource_name vgr vgrReplicationFinalizer.
Definition addFinalizerToVGRContent (vgrc : VolumeGroupReplicationContent) (fin : string)
    : M (VolumeGroupReplicationContent * option error) :=
  add_finalizer KVolumeGroupReplicationContent "VolumeGroupReplicationContent" cluster_name vgrc fin.
Definition removeFinalizerFromVGRContent (vgrc : VolumeGroupReplicationContent) (fin : string)
    : M (VolumeGroupReplicationContent * option error) :=
  remove_finalizer KVolumeGroupReplicationContent "VolumeGroupReplicationContent" cluster_name vgrc fin.

Definition isSafeToDeleteVGR (vgr : VolumeGroupReplication) : bool :=
  if negb (bool_decide (annotation vgr VolumeGroupReplicationContentNameAnnotation = ""))
     || negb (bool_decide (annotation vgr VolumeReplicationNameAnnotation = ""))
  then false else true.

(** ** Classes *)

Definition getVolumeReplicationClass (name : string) : M (error + ReplicationClass) :=
  get_obj KVolumeReplicationClass (mkNamespacedName "" name).
Definition getVolumeGroupReplicationClass (name : string) : M (error + ReplicationClass) :=
  get_obj KVolumeGroupReplicationClass (mkNamespacedName "" name).

(** ** pvc.go *)

Definition getPVCDataSource (req : NamespacedName)
    : M (error + PersistentVolumeClaim * PersistentVolume) :=
  r ← get_obj KPersistentVolumeClaim req;
  match r with
  | inl err => mret (inl err)
  | inr pvc =>
    if negb (bool_decide (pvc.(pvc_Phase) = ClaimBound)) then
      mret (inl (ErrorString ("PVC " +:+ go_quote (nn_Name req) +:+ " is not bound to any PV")))
    else if is_deleting pvc && negb (contains (finalizers pvc) pvcReplicationFinalizer) then
      mret (inl (ErrorString ("PVC " +:+ go_quote (nn_Name req) +:+
        " is marked for deletion, cannot be part of VolumeReplication")))
    else
      r ← get_obj KPersistentVolume (mkNamespacedName "" pvc.(pvc_VolumeName));
      match r with
      | inl err => mret (inl err)
      | inr pv => mret (inr (pvc, pv))
      end
  end.

(** The common shape of the three owner annotations: take an unowned object,
    accept one that is already ours, refuse another owner's. *)
Definition claim_ownership (k : kind) `{HasMeta (obj_of k)} (key owner : string) (o : obj_of k)
    (update_error : error -> error) (refusal : error) : M (obj_of k * option error) :=
  let current := annotation o key in
  if bool_decide (current = "") then
    let o := with_annotations o (<[key := owner]> (meta o).(Annotations)) in
    '(o, err) ← update_obj k o;
    match err with
    | Some err => mret (o, Some (update_error err))
    | None => mret (o, None)
    end
  else if negb (bool_decide (current = owner)) then mret (o, Some refusal)
  else mret (o, None).

Definition release_ownership (k : kind) `{HasMeta (obj_of k)} (key : string) (o : obj_of k)
    (update_error : error -> error) : M (obj_of k * option error) :=
  match (meta o).(Annotations) !! key with
  | Some _ =>
    let o := with_annotations o (delete key (meta o).(Annotations)) in
    '(o, err) ← update_obj k o;
    match err with
    | Some err => mret (o, Some (update_error err))
    | None => mret (o, None)
    end
  | None => mret (o, None)
  end.

Definition pvc_name (pvc : PersistentVolumeClaim) : string :=
  "(" +:+ obj_Namespace pvc +:+ "/" +:+ obj_Name pvc +:+ ")".

Definition annotatePVCWithOwner (reqOwnerName : string) (pvc : PersistentVolumeClaim)
    (pvcAnnotation : string) : M (PersistentVolumeClaim * option error) :=
  if negb (bool_decide (annotation pvc VolumeReplicationNameAnnotation = ""))
     && negb (bool_decide (annotation pvc VolumeGroupReplicationNameAnnotation = "")) then
    mret (pvc, Some (ErrorString ("PVC " +:+ pvc_name pvc +:+
      " can't be owned by both VolumeReplication and VolumeGroupReplication")))
  else
    claim_ownership KPersistentVolumeClaim pvcAnnotation reqOwnerName pvc
      (fun err => WrapError ("failed to update PVC " +:+ pvc_name pvc +:+
         " annotation for replication: " +:+ Error err) err)
      (ErrorString ("PVC " +:+ pvc_name pvc +:+
         " not owned by correct VolumeReplication/VolumeGroupReplication " +:+ go_quote reqOwnerName)).

Definition removeOwnerFromPVCAnnotation (pvc : PersistentVolumeClaim) (pvcAnnotation : string)
    : M (PersistentVolumeClaim * option error) :=
  release_ownership KPersistentVolumeClaim pvcAnnotation pvc
    (fun err => WrapError ("failed to remove annotation " +:+ go_quote pvcAnnotation +:+
       " from PersistentVolumeClaim " +:+ pvc_name pvc +:+ " " +:+ Error err) err).

(** ** Owner annotations of a VolumeGroupReplication *)

(** volumereplication_controller.go: the VolumeReplication that uses it. *)
Definition annotateVolumeGroupReplicationWithOwner (reqOwnerName : string)
    (vgr : VolumeGroupReplication) : M (VolumeGroupReplication * option error) :=
  claim_ownership KVolumeGroupReplication VolumeReplicationNameAnnotation reqOwnerName vgr
    (fun err => WrapError ("failed to update VGR " +:+ go_quote (obj_Name vgr) +:+
       " annotation for VolumeReplication: " +:+ Error err) err)
    (ErrorString ("VGR " +:+ go_quote (obj_Name vgr) +:+ " not owned by VolumeReplication " +:+
       go_quote reqOwnerName)).

Definition removeOwnerFromVGRAnnotation (vgr : VolumeGroupReplication)
    : M (VolumeGroupReplication * option error) :=
  release_ownership KVolumeGroupReplication VolumeReplicationNameAnnotation vgr
    (fun err => WrapError ("failed to remove annotation " +:+
       go_quote VolumeReplicationNameAnnotation +:+ " from VolumeGroupReplication " +:+
       go_quote (obj_Name vgr) +:+ " " +:+ Error err) err).

(** volumegroupreplicationcontent_controller.go: the content that backs it. *)
Definition annotateVolumeGroupReplicationWithVGRContentOwner (reqOwnerName : string)
    (vgr : VolumeGroupReplication) : M (VolumeGroupReplication * option error) :=
  claim_ownership KVolumeGroupReplication VolumeGroupReplicationContentNameAnnotation
    reqOwnerName vgr
    (fun err => WrapError ("failed to update VGR " +:+ go_quote (obj_Name vgr) +:+
       " annotation for VolumeGroupReplicationContent: " +:+ Error err) err)
    (ErrorString ("VGRContent " +:+ go_quote reqOwnerName +:+
       " not owned by correct VolumeGroupReplication " +:+ go_quote (obj_Name vgr))).

Definition removeVGRContentOwnerFromVGRAnnotation (vgr : VolumeGroupReplication)
    : M (VolumeGroupReplication * option error) :=
  release_ownership KVolumeGroupReplication VolumeGroupReplicationContentNameAnnotation vgr
    (fun err => WrapError ("failed to remove annotation " +:+
       go_quote VolumeGroupReplicationContentNameAnnotation +:+ " from VolumeGroupReplication " +:+
       go_quote (obj_Name vgr) +:+ " " +:+ Error err) err).

(** ** The calls these functions make *)

(** Updates of objects of kind [k] only. *)
Definition updates (k : kind) (e : event) : Prop :=
  match e with EUpdate k' _ => k' = k | _ => False end.

Lemma add_finalizer_calls k `{HasMeta (obj_of k)} what name o fin :
  calls (updates k) (add_finalizer k what name o fin).
Proof. unfold add_finalizer, update_obj. calls_solve. Qed.

Lemma remove_finalizer_calls k `{HasMeta (obj_of k)} what name o fin :
  calls (updates k) (remove_finalizer k what name o fin).
Proof. unfold remove_finalizer, update_obj. calls_solve. Qed.

Lemma claim_ownership_calls k `{HasMeta (obj_of k)} key owner o ue refusal :
  calls (updates k) (claim_ownership k key owner o ue refusal).
Proof. unfold claim_ownership, update_obj. calls_solve. Qed.

Lemma release_ownership_calls k `{HasMeta (obj_of k)} key o ue :
  calls (updates k) (release_ownership k key o ue).
Proof. unfold release_ownership, update_obj. calls_solve. Qed.

Lemma add_finalizer_total k `{HasMeta (obj_of k)} what name o fin :
  no_panic (add_finalizer k what name o fin).
Proof. unfold add_finalizer, update_obj. np_solve. Qed.

Lemma remove_finalizer_total k `{HasMeta (obj_of k)} what name o fin :
  no_panic (remove_finalizer k what name o fin).
Proof. unfold remove_finalizer, update_obj. np_solve. Qed.

Lemma claim_ownership_total k `{HasMeta (obj_of k)} key owner o ue refusal :
  no_panic (claim_ownership k key owner o ue refusal).
Proof. unfold claim_ownership, update_obj. np_solve. Qed.

Lemma release_ownership_total k `{HasMeta (obj_of k)} key o ue :
  no_panic (release_ownership k key o ue).
Proof. unfold release_ownership, update_obj. np_solve. Qed.

#[export] Hint Extern 1 (no_panic (add_finalizer ?k _ _ _ _)) =>
  apply (add_finalizer_total k) : no_panic.
#[export] Hint Extern 1 (no_panic (remove_finalizer ?k _ _ _ _)) =>
  apply (remove_finalizer_total k) : no_panic.
#[export] Hint Extern 1 (no_panic (claim_ownership ?k _ _ _ _ _)) =>
  apply (claim_ownership_total k) : no_panic.
#[export] Hint Extern 1 (no_panic (release_ownership ?k _ _ _)) =>
  apply (release_ownership_total k) : no_panic.
#[export] Hint Extern 1 (calls _ (add_finalizer ?k _ _ _ _)) =>
  apply (add_finalizer_calls k) : calls.
#[export] Hint Extern 1 (calls _ (remove_finalizer ?k _ _ _ _)) =>
  apply (remove_finalizer_calls k) : calls.
#[export] Hint Extern 1 (calls _ (claim_ownership ?k _ _ _ _ _)) =>
  apply (claim_ownership_calls k) : calls.
#[export] Hint Extern 1 (calls _ (release_ownership ?k _ _ _)) =>
  apply (release_ownership_calls k) : calls.

Lemma annotatePVCWithOwner_calls owner pvc key :
  calls (updates KPersistentVolumeClaim) (annotatePVCWithOwner owner pvc key).
Proof. unfold annotatePVCWithOwner. calls_solve. Qed.

Lemma annotatePVCWithOwner_total owner pvc key : no_panic (annotatePVCWithOwner owner pvc key).
Proof. unfold annotatePVCWithOwner. np_solve. Qed.
#[export] Hint Resolve annotatePVCWithOwner_total : no_panic.

Lemma getPVCDataSource_calls req : calls read_call (getPVCDataSource req).
Proof. unfold getPVCDataSource, get_obj. calls_solve. Qed.

#[export] Hint Resolve annotatePVCWithOwner_calls getPVCDataSource_calls : calls.

(** ** Lemmas *)

Lemma validateParameter_None k v :
  validateParameter k v = None <->
  (String.prefix replicationParameterPrefix k = true ->
   k ∈ [prefixedReplicationSecretNameKey; prefixedGroupReplicationSecretNameKey;
        prefixedReplicationSecretNamespaceKey; prefixedGroupReplicationSecretNamespaceKey] /\
   v ≠ "").
Proof.
  unfold validateParameter. rewrite !elem_of_cons, elem_of_nil.
  destruct (String.prefix replicationParameterPrefix k); [|naive_solver].
  repeat case_bool_decide; naive_solver.
Qed.

Lemma validate_entries_None l :
  validate_entries l = None <-> Forall (fun kv => validateParameter kv.1 kv.2 = None) l.
Proof.
  induction l as [|[k v] l IH]; simpl; [done|]. rewrite Forall_cons. simpl.
  destruct (validateParameter k v); naive_solver.
Qed.

Lemma validate_entries_Some l err :
  validate_entries l = Some err -> exists k v, (k, v) ∈ l /\ validateParameter k v = Some err.
Proof.
  induction l as [|[k v] l IH]; simpl; [done|].
  destruct (validateParameter k v) as [e|] eqn:Hv.
  - intros [= ->]. exists k, v. split; [left|done].
  - intros (k' & v' & ? & ?)%IH. exists k', v'. split; [by right|done].
Qed.

Lemma filterPrefixedParameters_lookup prefix param k v :
  filterPrefixedParameters prefix param !! k = Some v <->
  param !! k = Some v /\ String.prefix prefix k = false.
Proof. unfold filterPrefixedParameters. by rewrite map_lookup_filter_Some. Qed.

Lemma filterPrefixedParameters_exact prefix param k :
  filterPrefixedParameters prefix param !! k = if negb (String.prefix prefix k) then param !! k else None.
Proof.
  apply option_eq. intros v. rewrite filterPrefixedParameters_lookup.
  destruct (String.prefix prefix k); cbn; naive_solver.
Qed.

(** A server that accepts an update and returns the object as it was sent. *)
Definition accepts_updates (ρ : env answer) : Prop :=
  forall h k o, ρ h (EUpdate k o) = inr o.

Lemma with_finalizers_twice {A} `{HasMeta A} (a : A) l l' :
  meta (with_finalizers (with_finalizers a l) l') = meta (with_finalizers a l').
Proof. unfold with_finalizers. by rewrite !meta_set_meta. Qed.

Lemma with_finalizers_same {A} `{HasMeta A} (a : A) :
  meta (with_finalizers a (finalizers a)) = meta a.
Proof. unfold with_finalizers, finalizers. rewrite meta_set_meta. by destruct (meta a). Qed.

(** The runs of the two finalizer functions. *)
Section finalizer_runs.
Context (ρ : env answer) (k : kind) `{HasMeta (obj_of k)} (what : string)
  (name : obj_of k -> string) (o : obj_of k) (fin : string) (h : hist).

Lemma add_finalizer_present :
  fin ∈ finalizers o -> run ρ h (add_finalizer k what name o fin) = (h, Done (o, None)).
Proof. intros Hin%contains_true. unfold add_finalizer. by rewrite Hin. Qed.

Lemma remove_finalizer_absent :
  fin ∉ finalizers o -> run ρ h (remove_finalizer k what name o fin) = (h, Done (o, None)).
Proof. intros Hin%contains_false. unfold remove_finalizer. by rewrite Hin. Qed.

Lemma add_finalizer_absent :
  accepts_updates ρ -> fin ∉ finalizers o ->
  let o' := with_finalizers o (finalizers o ++ [fin]) in
  run ρ h (add_finalizer k what name o fin) =
  (existT (EUpdate k o') (inr o') :: h, Done (o', None)).
Proof.
  intros Hρ Hin%contains_false. unfold add_finalizer, update_obj. rewrite Hin. simpl.
  by rewrite Hρ.
Qed.

Lemma remove_finalizer_present :
  accepts_updates ρ -> fin ∈ finalizers o ->
  let o' := with_finalizers o (delete_eq (finalizers o) fin) in
  run ρ h (remove_finalizer k what name o fin) =
  (existT (EUpdate k o') (inr o') :: h, Done (o', None)).
Proof.
  intros Hρ Hin%contains_true. unfold remove_finalizer, update_obj. rewrite Hin. simpl.
  by rewrite Hρ.
Qed.
End finalizer_runs.

(** What a successful claim leaves behind, whoever asks. *)
Lemma claim_ownership_wp G k `{HasMeta (obj_of k)} key owner o ue refusal h :
  (forall h e, updates k e -> G h e) ->
  wp G (fun h' out =>
    match annotation o key with
    | "" =>
      exists r, h' = existT (EUpdate k (with_annotations o (<[key := owner]> (meta o).(Annotations)))) r :: h /\
        out = Done match r with
                   | inl err => (with_annotations o (<[key := owner]> (meta o).(Annotations)), Some (ue err))
                   | inr o' => (o', None)
                   end
    | other => h' = h /\ out = Done (o, if bool_decide (other = owner) then None else Some refusal)
    end) h (claim_ownership k key owner o ue refusal).
Proof.
  intros HG. unfold claim_ownership, update_obj.
  destruct (annotation o key) as [|c s] eqn:Hann.
  - rewrite bool_decide_eq_true_2 by done. prog_simpl. split; [by apply HG|].
    intros [err|o']; simpl; eauto.
  - rewrite (bool_decide_eq_false_2 (String c s = "")) by done. by case_bool_decide.
Qed.

(** ** Properties *)

(** A class's parameters pass validation exactly when every key under the
    reserved prefix is one of the four secret keys with a non-empty value,
    whatever the order in which the map is ranged over; a rejection is the
    verdict on one of the entries. *)
Theorem validatePrefixedParameters_spec ρ param :
  exists verdict, snd (run ρ [] (validatePrefixedParameters param)) = Done verdict /\
  (verdict = None <->
   forall k v, param !! k = Some v -> String.prefix replicationParameterPrefix k = true ->
     k ∈ [prefixedReplicationSecretNameKey; prefixedGroupReplicationSecretNameKey;
          prefixedReplicationSecretNamespaceKey; prefixedGroupReplicationSecretNamespaceKey] /\
     v ≠ "") /\
  (forall err, verdict = Some err ->
   exists k v, param !! k = Some v /\ validateParameter k v = Some err).
Proof.
  eexists. split; [reflexivity|]. split.
  - rewrite validate_entries_None, Forall_forall. split.
    + intros Hall k v Hkv. apply validateParameter_None.
      apply (Hall (k, v)). by apply elem_of_map_range.
    + intros Hall [k v] Hkv%elem_of_map_range. apply validateParameter_None. simpl. eauto.
  - intros err (k & v & Hkv & Hv)%validate_entries_Some.
    exists k, v. by rewrite elem_of_map_range in Hkv.
Qed.

(** Adding a finalizer the object lacks and removing it again restores the
    object's metadata, at a server that accepts both updates; each direction is
    idempotent: an object that already has (or lacks) the finalizer is left
    alone without any call. *)
Theorem finalizer_roundtrip ρ k `{HasMeta (obj_of k)} what name (o : obj_of k) fin :
  accepts_updates ρ -> fin ∉ finalizers o ->
  exists h o1 h' o2,
    run ρ [] (add_finalizer k what name o fin) = (h, Done (o1, None)) /\
    finalizers o1 = finalizers o ++ [fin] /\
    run ρ h (add_finalizer k what name o1 fin) = (h, Done (o1, None)) /\
    run ρ h (remove_finalizer k what name o1 fin) = (h', Done (o2, None)) /\
    meta o2 = meta o /\
    run ρ h' (remove_finalizer k what name o2 fin) = (h', Done (o2, None)).
Proof.
  intros Hρ Hfin.
  set (o1 := with_finalizers o (finalizers o ++ [fin])).
  set (o2 := with_finalizers o1 (delete_eq (finalizers o1) fin)).
  assert (finalizers o1 = finalizers o ++ [fin]) as Ho1 by apply finalizers_with.
  assert (finalizers o2 = finalizers o) as Ho2.
  { unfold o2. by rewrite finalizers_with, Ho1, delete_eq_snoc. }
  assert (fin ∈ finalizers o1) as Hin by (rewrite Ho1; set_solver).
  exists [existT (EUpdate k o1) (inr o1)], o1,
    [existT (EUpdate k o2) (inr o2); existT (EUpdate k o1) (inr o1)], o2.
  split_and!; [by apply add_finalizer_absent|done|by apply add_finalizer_present
              |by apply remove_finalizer_present| |apply remove_finalizer_absent; congruence].
  unfold o2. rewrite Ho1, delete_eq_snoc by done. unfold o1.
  by rewrite with_finalizers_twice, with_finalizers_same.
Qed.

Lemma finalizer_roundtrip_witness :
  let pvc := mkPVC (new_meta "ns" "claim") "pv" None ClaimBound in
  let ρ : env answer := fun _ e =>
    match e return answer e with EUpdate k o => inr o | e => refused e end in
  exists h o1 h' (o2 : PersistentVolumeClaim),
    run ρ [] (addFinalizerToPVC pvc pvcReplicationFinalizer) = (h, Done (o1, None)) /\
    run ρ h (removeFinalizerFromPVC o1 pvcReplicationFinalizer) = (h', Done (o2, None)) /\
    meta o2 = meta pvc.
Proof.
  intros pvc ρ.
  destruct (finalizer_roundtrip ρ KPersistentVolumeClaim "PersistentVolumeClaim" resource_name pvc
              pvcReplicationFinalizer) as (h & o1 & h' & o2 & H).
  - intros h k o. reflexivity.
  - apply not_elem_of_nil.
  - destruct H as (Hadd & _ & _ & Hrem & Hmeta & _).
    exists h, o1, h', o2. exact (conj Hadd (conj Hrem Hmeta)).
Defined.

(** A claim of a PVC is exclusive.  It succeeds without a call when the PVC
    already carries our name, and otherwise only by one update that adds our
    name, and nothing else, to a PVC whose annotation was empty; a PVC that
    names another owner, or that is claimed both by a VolumeReplication and by a
    VolumeGroupReplication, is refused without any call. *)
Theorem annotatePVCWithOwner_exclusive ρ owner pvc key :
  let '(h, out) := run ρ [] (annotatePVCWithOwner owner pvc key) in
  let claimed := with_annotations pvc (<[key := owner]> (meta pvc).(Annotations)) in
  (exists pvc' err, out = Done (pvc', err) /\
   (err = None -> (h = [] /\ pvc' = pvc /\ annotation pvc key = owner) \/
                  (annotation pvc key = "" /\
                   h = [existT (EUpdate KPersistentVolumeClaim claimed) (inr pvc')]))) /\
  (annotation pvc VolumeReplicationNameAnnotation ≠ "" /\
   annotation pvc VolumeGroupReplicationNameAnnotation ≠ "" \/
   annotation pvc key ≠ "" /\ annotation pvc key ≠ owner ->
   h = [] /\ exists err, out = Done (pvc, Some err)).
Proof.
  destruct (run ρ [] _) as [h out] eqn:Hrun. unfold annotatePVCWithOwner in Hrun.
  case_bool_decide as Hvr; simpl in Hrun;
    [|case_bool_decide as Hvgr; simpl in Hrun; [|simplify_eq/=; naive_solver]].
  all: eapply wp_result in Hrun as Hwp; [|by apply (claim_ownership_wp _ KPersistentVolumeClaim)].
  all: simpl in Hwp.
  all: destruct (annotation pvc key) as [|c s] eqn:Hkey;
         [destruct Hwp as ([e|o'] & -> & ->)|destruct Hwp as [-> ->]; case_bool_decide]; naive_solver.
Qed.
