(* ===== verification/VolumeReplicationController.v ===== *)
(** * The VolumeReplication controller

    src/internal/controller/replication.storage/volumereplication_controller.go:
    [Reconcile], cut at its own seams (fetching the class, resolving the data
    source, deletion, the requested replication state, the final status) into
    functions that are composed as the code composes them.  Every function
    returns the VolumeReplication instance as it is in memory afterwards. *)

From S2P Require Import Prelude.
From S2P Require Import GoErrors.
From S2P Require Import GoStrconv.
From S2P Require Import ApiTypes.
From S2P Require Import Effects.
From S2P Require Import Connection.
From S2P Require Import Client.
From S2P Require Import Conditions.
From S2P Require Import Ownership.

Definition defaultScheduleTime : Z := hour.

Definition volumePromotionKnownErrors := [FailedPrecondition].
Definition disableReplicationKnownErrors := [NotFound].
Definition enableReplicationKnownErrors := [FailedPrecondition].
Definition getReplicationInfoKnownErrors := [NotFound].

Abbreviation VR := VolumeReplication.

Definition vr_kind (i : VR) : string := ds_Kind i.(vr_Spec).(DataSource).
Definition vr_gen (i : VR) : Z := (meta i).(Generation).
Definition vr_state (i : VR) : string := i.(vr_Status).(State).
Definition vr_spec_state (i : VR) : string := i.(vr_Spec).(vr_ReplicationState).
Definition map_conditions (f : list Condition -> list Condition) (i : VR) : VR :=
  vr_set_status i (set_Conditions i.(vr_Status) (f i.(vr_Status).(Conditions))).

(** ** Status updates *)

Definition updateReplicationStatus (instance : VR) (state message : string)
    : M (VR * option error) :=
  let instance := vr_set_status instance
    (set_State instance.(vr_Status) state message (vr_gen instance)) in
  status_update_obj KVolumeReplication instance.

(** The failure path shared by the early exits: set the failure conditions, write
    the status (a failure to do so is only logged), keep the current state. *)
Definition report_failure (instance : VR) (what msg dataSource : string) : M VR :=
  now ← call EClock;
  let instance := setFailureCondition now instance what msg dataSource in
  '(instance, _) ← updateReplicationStatus instance
      (GetCurrentReplicationState (vr_state instance)) msg;
  mret instance.

(** ** The driver operations *)

Definition fail_with (setter : clock -> list Condition -> Z -> string -> string -> string -> list Condition)
    (instance : VR) (what : string) (err : error) : M (VR * option error) :=
  now ← call EClock;
  mret (map_conditions (fun l => setter now l (vr_gen instance) (vr_kind instance) what (Error err))
          instance, Some err).

Definition markVolumeAsPrimary (instance : VR) (p : CommonRequestParameters)
    : M (VR * option error) :=
  resp ← Promote (mkReplication p false);
  match resp.(resp_Error) with
  | None => mret (instance, None)
  | Some err =>
    if negb (HasKnownGRPCError resp volumePromotionKnownErrors) then
      fail_with setFailedPromotionCondition instance "failed to promote volume" err
    else
      resp ← Promote (mkReplication p true);
      match resp.(resp_Error) with
      | None => mret (instance, None)
      | Some err =>
        fail_with setFailedPromotionCondition instance "failed to force promote volume" err
      end
  end.

Definition markVolumeAsSecondary (instance : VR) (p : CommonRequestParameters)
    : M (VR * option error) :=
  resp ← Demote (mkReplication p false);
  match resp.(resp_Error) with
  | Some err => fail_with setFailedDemotionCondition instance "failed to demote volume" err
  | None =>
    now ← call EClock;
    mret (map_conditions (fun l => setDemotedCondition now l (vr_gen instance) (vr_kind instance))
            instance, None)
  end.

(** Returns the instance, whether to requeue for the resync, and the error. *)
Definition resyncVolume (instance : VR) (p : CommonRequestParameters) (force : bool)
    : M (VR * bool * option error) :=
  resp ← ResyncOp (mkReplication p force);
  match resp.(resp_Error) with
  | Some err =>
    '(instance, err) ← fail_with setFailedResyncCondition instance "failed to resync volume" err;
    mret (instance, false, err)
  | None =>
    match resp.(resp_Response) with
    | RResync ready =>
      now ← call EClock;
      let instance := map_conditions
        (fun l => setResyncCondition now l (vr_gen instance) (vr_kind instance)) instance in
      if negb ready then mret (instance, true, None)
      else
        now ← call EClock;
        mret (map_conditions
                (fun l => setNotDegradedCondition now l (vr_gen instance) (vr_kind instance))
                instance, false, None)
    | _ =>
      now ← call EClock;
      mret (map_conditions
              (fun l => setFailedResyncCondition now l (vr_gen instance) (vr_kind instance)
                 "unable to parse resync response" "received response of unexpected type")
              instance, false, Some (ErrorString "received response of unexpected type"))
    end
  end.

Definition disableVolumeReplication (p : CommonRequestParameters) : M (option error) :=
  resp ← Disable (mkReplication p false);
  match resp.(resp_Error) with
  | None => mret None
  | Some err =>
    if HasKnownGRPCError resp disableReplicationKnownErrors then mret None else mret (Some err)
  end.

Definition enableReplication (instance : VR) (p : CommonRequestParameters)
    : M (VR * option error) :=
  resp ← Enable (mkReplication p false);
  match resp.(resp_Error) with
  | None => mret (instance, None)
  | Some err =>
    if HasKnownGRPCError resp enableReplicationKnownErrors then
      fail_with setFailedValidationCondition instance "failed to enable volume replication" err
    else
      fail_with setFailedPromotionCondition instance "failed to enable volume replication" err
  end.

(** [inr None] is the (nil, nil) answer for an unknown volume. *)
Definition getVolumeReplicationInfo (p : CommonRequestParameters)
    : M (error + option GetVolumeReplicationInfoResponse) :=
  resp ← GetInfo (mkReplication p false);
  match resp.(resp_Error) with
  | Some err =>
    if HasKnownGRPCError resp getReplicationInfoKnownErrors then mret (inr None)
    else mret (inl err)
  | None =>
    match resp.(resp_Response) with
    | RInfo info => mret (inr (Some info))
    | _ => mret (inl (ErrorString "received response of unexpected type"))
    end
  end.

(** ** getInfoReconcileInterval: Go's [scheduleTime / 2] truncates. *)
Definition getInfoReconcileInterval (parameters : gmap string string) : Z :=
  let raw := map_get parameters "schedulingInterval" in
  if bool_decide (raw = "") then defaultScheduleTime
  else
  match ParseDuration raw with
  | inl _ => defaultScheduleTime
  | inr t => if (t <? 2 * minute)%Z then t else (t ÷ 2)%Z
  end.

(** ** Finding the client *)

Fixpoint supports_replication (caps : list Capability) (dataSource : string) : bool :=
  match caps with
  | [] => false
  | CapVolumeReplication t :: caps =>
    if (t =? VolumeReplication_VOLUME_REPLICATION)%Z
       && (bool_decide (dataSource = pvcDataSource)
           || bool_decide (dataSource = volumeGroupReplicationDataSource))
    then true else supports_replication caps dataSource
  | _ :: caps => supports_replication caps dataSource
  end.

Section controller.
(** The reconciler's RPC timeout. *)
Variable timeout : Z.

Definition getReplicationClient (driverName dataSource : string)
    : M (error + VolumeReplicationClient) :=
  r ← GetLeaderByDriver driverName;
  match r with
  | inl err =>
    mret (inl (WrapError ("no leader for the ControllerService of driver " +:+
                          go_quote driverName +:+ ": " +:+ Error err) err))
  | inr conn =>
    if supports_replication conn.(Capabilities) dataSource then
      match conn.(Client) with
      | None => Panic "nil grpc.ClientConn"
      | Some cc =>
        if bool_decide (dataSource = pvcDataSource)
        then mret (inr (NewVolumeReplicationClient cc timeout))
        else mret (inr (NewVolumeGroupReplicationClient cc timeout))
      end
    else
      mret (inl (ErrorString ("leading CSIAddonsNode " +:+ go_quote conn.(conn_Name) +:+
        " for driver " +:+ go_quote driverName +:+ " does not support VolumeReplication")))
  end.

(** ** The data source *)

(** The answer of [getVolumeGroupReplicationDataSource]: what was found before
    an error, if any. *)
Definition getVolumeGroupReplicationDataSource (req : NamespacedName)
    : M (option VolumeGroupReplication * option VolumeGroupReplicationContent * option error) :=
  r ← get_obj KVolumeGroupReplication req;
  match r with
  | inl err => mret (None, None, Some err)
  | inr vgr =>
    let vgrcName := vgr.(vgr_Spec).(vgr_VolumeGroupReplicationContentName) in
    if bool_decide (vgrcName = "") then
      mret (Some vgr, None, Some (ErrorString "VolumeGroupReplicationContentName is empty"))
    else
      r ← get_obj KVolumeGroupReplicationContent (mkNamespacedName "" vgrcName);
      match r with
      | inl err => mret (Some vgr, None, Some err)
      | inr vgrc => mret (Some vgr, Some vgrc, None)
      end
  end.

(** The variables of Reconcile that the data source determines. *)
Record sources := mkSources {
  volumeHandle : string;
  s_pvc : option PersistentVolumeClaim;
  groupHandle : string;
  s_vgrc : option VolumeGroupReplicationContent;
  s_vgr : option VolumeGroupReplication
}.

Definition result : Type := Result * option error.

(** Lines 153-203: [inl] is an early return. *)
Definition resolve_sources (instance : VR) (req : NamespacedName) : M (result + sources) :=
  let nsName := mkNamespacedName (nn_Namespace req) (ds_Name instance.(vr_Spec).(DataSource)) in
  if bool_decide (vr_kind instance = pvcDataSource) then
    r ← getPVCDataSource nsName;
    match r with
    | inl pvErr =>
      _ ← report_failure instance "failed to find PVC" (Error pvErr)
            (ds_Name instance.(vr_Spec).(DataSource));
      mret (inl (no_requeue, Some pvErr))
    | inr (pvc, pv) =>
      match pv.(pv_CSI) with
      | None => Panic "nil pointer dereference: pv.Spec.CSI"
      | Some csi => mret (inr (mkSources csi.(csi_VolumeHandle) (Some pvc) "" None None))
      end
    end
  else if bool_decide (vr_kind instance = volumeGroupReplicationDataSource) then
    '(vgr, vgrc, vgrErr) ← getVolumeGroupReplicationDataSource nsName;
    match vgrErr with
    | Some vgrErr =>
      if IsNotFound vgrErr && is_deleting instance then
        mret (inr (mkSources "" None "" vgrc vgr))
      else
        _ ← report_failure instance "failed to get VolumeGroupReplication" (Error vgrErr)
              (ds_Name instance.(vr_Spec).(DataSource));
        mret (inl (no_requeue, Some vgrErr))
    | None =>
      match vgrc with
      | None => Panic "nil pointer dereference: vgrc.Spec"
      | Some c =>
        mret (inr (mkSources "" None c.(vgrc_Spec).(vgrc_VolumeGroupReplicationHandle) vgrc vgr))
      end
    end
  else
    _ ← report_failure instance "unsupported datasource" "unsupported datasource kind" "";
    mret (inl (no_requeue, None)).

(** ** Ownership and deletion *)

(** Lines 229-257: the instance is not being deleted. *)
Definition take_ownership (instance : VR) (req : NamespacedName) (s : sources)
    : M (VR * option error) :=
  '(instance, err) ← addFinalizerToVR instance;
  match err with
  | Some err => mret (instance, Some err)
  | None =>
    if bool_decide (vr_kind instance = pvcDataSource) then
      match s.(s_pvc) with
      | None => Panic "nil pointer dereference: pvc"
      | Some pvc =>
        '(pvc, err) ← annotatePVCWithOwner (obj_Name instance) pvc VolumeReplicationNameAnnotation;
        match err with
        | Some err => mret (instance, Some err)
        | None =>
          '(_, err) ← addFinalizerToPVC pvc pvcReplicationFinalizer;
          mret (instance, err)
        end
      end
    else if bool_decide (vr_kind instance = volumeGroupReplicationDataSource) then
      match s.(s_vgr), s.(s_vgrc) with
      | Some vgr, Some vgrc =>
        '(_, err) ← annotateVolumeGroupReplicationWithOwner (nn_Name req) vgr;
        match err with
        | Some err => mret (instance, Some err)
        | None =>
          '(_, err) ← addFinalizerToVGRContent vgrc volumeReplicationFinalizer;
          mret (instance, err)
        end
      | _, _ => Panic "nil pointer dereference: vgr"
      end
    else mret (instance, None)
  end.

(** Lines 272-296: give the data source up. *)
Definition release_sources (instance : VR) (s : sources) : M (option error) :=
  if bool_decide (vr_kind instance = pvcDataSource) then
    match s.(s_pvc) with
    | None => Panic "nil pointer dereference: pvc"
    | Some pvc =>
      '(pvc, err) ← removeOwnerFromPVCAnnotation pvc VolumeReplicationNameAnnotation;
      match err with
      | Some err => mret (Some err)
      | None =>
        '(_, err) ← removeFinalizerFromPVC pvc pvcReplicationFinalizer;
        mret err
      end
    end
  else if bool_decide (vr_kind instance = volumeGroupReplicationDataSource) then
    err ← match s.(s_vgrc) with
          | Some vgrc =>
            '(_, err) ← removeFinalizerFromVGRContent vgrc volumeReplicationFinalizer;
            mret err
          | None => mret None
          end;
    match err with
    | Some err => mret (Some err)
    | None =>
      match s.(s_vgr) with
      | None => Panic "nil pointer dereference: vgr.Annotations"
      | Some vgr => '(_, err) ← removeOwnerFromVGRAnnotation vgr; mret err
      end
    end
  else mret None.

(** Lines 259-303: the instance is being deleted and has our finalizer. *)
Definition release_all (instance : VR) (p : CommonRequestParameters) (s : sources)
    : M (option error) :=
  err ← (if negb (bool_decide (p.(VolumeID) = "")) || negb (bool_decide (p.(GroupID) = ""))
         then disableVolumeReplication p else mret None);
  match err with
  | Some err => mret (Some err)
  | None =>
    err ← release_sources instance s;
    match err with
    | Some err => mret (Some err)
    | None => '(_, err) ← removeFinalizerFromVR instance; mret err
    end
  end.

Definition handle_deletion (instance : VR) (p : CommonRequestParameters) (s : sources)
    : M result :=
  if contains (finalizers instance) volumeReplicationFinalizer then
    err ← release_all instance p s;
    match err with
    | Some err => mret (no_requeue, Some err)
    | None => mret (no_requeue, None)
    end
  else mret (no_requeue, None).

(** ** The requested state *)

(** How the state switch (lines 316-390) ends: an early return, or the
    replication error and whether to requeue for a resync. *)
Inductive state_outcome :=
| Returned (r : result)
| Continue (instance : VR) (requeueForResync : bool) (replicationErr : option error).

Definition reconcile_primary (instance : VR) (p : CommonRequestParameters) : M state_outcome :=
  let promoted (i : VR) (err : option error) : M state_outcome :=
    match err with
    | Some err => mret (Continue i false (Some err))
    | None =>
      now ← call EClock;
      mret (Continue (map_conditions
        (fun l => setPromotedCondition now l (vr_gen i) (vr_kind i)) i) false None)
    end in
  if negb (bool_decide (vr_state instance = PrimaryState)) then
    '(instance, err) ← enableReplication instance p;
    match err with
    | Some err =>
      '(_, _) ← updateReplicationStatus instance
          (GetCurrentReplicationState (vr_state instance)) (GetMessageFromError err);
      mret (Returned (no_requeue, Some err))
    | None =>
      '(instance, err) ← markVolumeAsPrimary instance p;
      promoted instance err
    end
  else promoted instance None.

Definition reconcile_secondary (instance : VR) (p : CommonRequestParameters) : M state_outcome :=
  if negb (bool_decide (vr_state instance = SecondaryState)) then
    '(instance, err) ← markVolumeAsSecondary instance p;
    match err with
    | Some err => mret (Continue instance false (Some err))
    | None =>
      '(_, err) ← updateReplicationStatus instance
          (GetReplicationState (vr_spec_state instance))
          "volume is marked secondary and is degraded";
      match err with
      | Some err => mret (Returned (no_requeue, Some err))
      | None => mret (Returned (mkResult true (15 * second), None))
      end
    end
  else
    '(instance, err) ← markVolumeAsSecondary instance p;
    match err with
    | Some err => mret (Continue instance false (Some err))
    | None =>
      '(instance, requeue, err) ← resyncVolume instance p instance.(vr_Spec).(vr_AutoResync);
      mret (Continue instance requeue err)
    end.

Definition reconcile_resync (instance : VR) (p : CommonRequestParameters) : M state_outcome :=
  '(instance, requeue, err) ← resyncVolume instance p true;
  mret (Continue instance requeue err).

Definition reconcile_state (instance : VR) (p : CommonRequestParameters) : M state_outcome :=
  if bool_decide (vr_spec_state instance = Primary) then reconcile_primary instance p
  else if bool_decide (vr_spec_state instance = Secondary) then reconcile_secondary instance p
  else if bool_decide (vr_spec_state instance = Resync) then reconcile_resync instance p
  else
    _ ← report_failure instance "unsupported volume state" "unsupported volume state"
          (vr_kind instance);
    mret (Returned (no_requeue, None)).

(** ** The final status *)

(** Lines 392-409: the operation failed. *)
Definition finish_error (instance : VR) (err : error) : M result :=
  '(instance, _) ← updateReplicationStatus instance
      (GetCurrentReplicationState (vr_state instance)) (GetMessageFromError err);
  if bool_decide (vr_state instance = SecondaryState)
  then mret (mkResult true (15 * second), None)
  else mret (no_requeue, Some err).

(** Lines 411-429: the volume is still resyncing. *)
Definition finish_resyncing (instance : VR) : M result :=
  let instance := map_conditions (fun l => removeCondition l ConditionReplicating) instance in
  _ ← updateReplicationStatus instance
        (GetCurrentReplicationState (vr_state instance)) "volume is degraded";
  mret (mkResult true (30 * second), None).

Definition success_message (instance : VR) : string :=
  if bool_decide (vr_spec_state instance = Resync) then "volume is marked for resyncing"
  else "volume is marked " +:+ vr_spec_state instance.

(** Lines 444-460: recording the last sync. *)
Definition record_sync (instance : VR) (info : option GetVolumeReplicationInfoResponse) : VR :=
  match info ≫= info_LastSyncTime with
  | None => instance
  | Some ts =>
    let tb := default 0%Z (info_LastSyncBytes <$> info) in
    vr_set_status instance
      (set_LastSync instance.(vr_Status) (Some ts)
         (if (tb =? 0)%Z then None else Some tb) (info ≫= info_LastSyncDuration))
  end.

(** Lines 442-477 for the primary: [inl] is an early return, [inr (i, b)] the
    instance and whether to requeue for info. *)
Definition primary_info (instance : VR) (p : CommonRequestParameters) (msg : string)
    : M (result + VR * bool) :=
  r ← getVolumeReplicationInfo p;
  match r with
  | inr info =>
    let instance := record_sync instance info in
    match info with
    | Some info =>
      now ← call EClock;
      mret (inr (setReplicationCondition now instance (vr_kind instance)
                   info.(info_StatusMessage) info.(info_Status), true))
    | None => mret (inr (instance, true))
    end
  | inl err =>
    if negb (IsUnimplementedError err) then
      now ← call EClock;
      let instance := setReplicationCondition now instance (vr_kind instance) (Error err)
                        INFO_UNKNOWN in
      '(instance, statusErr) ← updateReplicationStatus instance
          (GetReplicationState (vr_spec_state instance)) msg;
      match statusErr with
      | Some e => mret (inl (no_requeue, Some e))
      | None => mret (inl (no_requeue, Some err))
      end
    else mret (inr (instance, false))
  end.

(** Lines 478-499. *)
Definition finish_status (instance : VR) (parameters : gmap string string) (msg : string)
    (requeueForInfo : bool) : M result :=
  let instance :=
    if bool_decide (vr_spec_state instance = Secondary) then
      let s := instance.(vr_Status) in
      map_conditions (fun l => removeCondition l ConditionReplicating)
        (vr_set_status instance (set_LastSync s None s.(LastSyncBytes) s.(LastSyncDuration)))
    else instance in
  '(_, err) ← updateReplicationStatus instance
      (GetReplicationState (vr_spec_state instance)) msg;
  match err with
  | Some err => mret (no_requeue, Some err)
  | None =>
    if requeueForInfo
    then mret (mkResult true (getInfoReconcileInterval parameters), None)
    else mret (no_requeue, None)
  end.

(** Lines 431-499: the operation succeeded. *)
Definition finish_success (instance : VR) (p : CommonRequestParameters)
    (parameters : gmap string string) : M result :=
  let msg := success_message instance in
  t ← call ENow;
  let instance := vr_set_status instance
    (set_LastCompletionTime instance.(vr_Status) (Some t)) in
  if bool_decide (vr_spec_state instance = Primary) then
    r ← primary_info instance p msg;
    match r with
    | inl res => mret res
    | inr (instance, requeueForInfo) => finish_status instance parameters msg requeueForInfo
    end
  else finish_status instance parameters msg false.

(** Lines 309-499: replicate. *)
Definition replicate (instance : VR) (p : CommonRequestParameters)
    (parameters : gmap string string) : M result :=
  t ← call ENow;
  let instance := vr_set_status instance (set_LastStartTime instance.(vr_Status) (Some t)) in
  '(instance, err) ← update_obj KVolumeReplication instance;
  match err with
  | Some err => mret (no_requeue, Some err)
  | None =>
    st ← reconcile_state instance p;
    match st with
    | Returned r => mret r
    | Continue instance _ (Some err) => finish_error instance err
    | Continue instance true None => finish_resyncing instance
    | Continue instance false None => finish_success instance p parameters
    end
  end.

(** Lines 201-307 and what follows: the data source is known. *)
Definition reconcile_with_sources (instance : VR) (req : NamespacedName)
    (vrc : ReplicationClass) (s : sources) : M result :=
  let parameters := filterPrefixedParameters replicationParameterPrefix vrc.(Parameters) in
  r ← getReplicationClient vrc.(Provisioner) (vr_kind instance);
  match r with
  | inl err => mret (no_requeue, Some err)
  | inr client =>
    let p := {|
      VolumeID := s.(volumeHandle);
      GroupID := s.(groupHandle);
      ReplicationID := instance.(vr_Spec).(ReplicationHandle);
      p_Parameters := parameters;
      SecretName := map_get vrc.(Parameters) prefixedReplicationSecretNameKey;
      SecretNamespace := map_get vrc.(Parameters) prefixedReplicationSecretNamespaceKey;
      p_Replication := client
    |} in
    if negb (is_deleting instance) then
      '(instance, err) ← take_ownership instance req s;
      match err with
      | Some err => mret (no_requeue, Some err)
      | None => replicate instance p parameters
      end
    else handle_deletion instance p s
  end.

(** ** Reconcile *)
Definition Reconcile (req : NamespacedName) : M result :=
  r ← get_obj KVolumeReplication req;
  match r with
  | inl err => if IsNotFound err then mret (no_requeue, None) else mret (no_requeue, Some err)
  | inr instance =>
    r ← getVolumeReplicationClass instance.(vr_Spec).(VolumeReplicationClass);
    match r with
    | inl err =>
      _ ← report_failure instance "failed to get volumeReplication class" (Error err)
            (vr_kind instance);
      mret (no_requeue, Some err)
    | inr vrc =>
      verr ← validatePrefixedParameters vrc.(Parameters);
      match verr with
      | Some err =>
        _ ← report_failure instance "failed to validate parameters of volumeReplicationClass"
              (Error err) (vr_kind instance);
        mret (no_requeue, Some err)
      | None =>
        s ← resolve_sources instance req;
        match s with
        | inl r => mret r
        | inr s => reconcile_with_sources instance req vrc s
        end
      end
    end
  end.
End controller.
