(* ===== verification/VolumeReplicationProofs.v ===== *)
(** * Safety of the VolumeReplication controller

    What Reconcile (VolumeReplicationController.v) may do, stated on the history
    of its calls: which driver operation is permitted after which answers, what
    a status write may claim, and in which order the objects are released.  The
    statements hold for every environment. *)

From S2P Require Import Prelude.
From S2P Require Import GoErrors.
From S2P Require Import GoStrconv.
From S2P Require Import ApiTypes.
From S2P Require Import Effects.
From S2P Require Import Connection.
From S2P Require Import Client.
From S2P Require Import Conditions.
From S2P Require Import Ownership.
From S2P Require Import VolumeReplicationController.
From S2P Require Config.

(** ** What the controller knows at a point of the history *)

Definition fetched_by (c : {e & answer e}) : option VR :=
  match c with
  | existT e r =>
    match e return answer e -> option VR with
    | EGet k _ =>
      match k return error + obj_of k -> option VR with
      | KVolumeReplication => fun r => match r with inr o => Some o | inl _ => None end
      | _ => fun _ => None
      end
    | _ => fun _ => None
    end r
  end.

(** The VolumeReplication as the server last returned it. *)
Definition vr_by (c : {e & answer e}) : option VR :=
  match c with
  | existT e r =>
    match e return answer e -> option VR with
    | EGet k _ | EUpdate k _ | EStatusUpdate k _ =>
      match k return error + obj_of k -> option VR with
      | KVolumeReplication => fun r => match r with inr o => Some o | inl _ => None end
      | _ => fun _ => None
      end
    | _ => fun _ => None
    end r
  end.

Definition class_by (c : {e & answer e}) : option ReplicationClass :=
  match c with
  | existT e r =>
    match e return answer e -> option ReplicationClass with
    | EGet k _ =>
      match k return error + obj_of k -> option ReplicationClass with
      | KVolumeReplicationClass => fun r => match r with inr o => Some o | inl _ => None end
      | _ => fun _ => None
      end
    | _ => fun _ => None
    end r
  end.

(** The handle of the volume or group: of the PV read, or of the
    VolumeGroupReplicationContent read. *)
Definition handle_by (c : {e & answer e}) : option string :=
  match c with
  | existT e r =>
    match e return answer e -> option string with
    | EGet k _ =>
      match k return error + obj_of k -> option string with
      | KPersistentVolume => fun r =>
        match r with inr o => csi_VolumeHandle <$> pv_CSI o | inl _ => None end
      | KVolumeGroupReplicationContent => fun r =>
        match r with
        | inr o => Some o.(vgrc_Spec).(vgrc_VolumeGroupReplicationHandle)
        | inl _ => None
        end
      | _ => fun _ => None
      end
    | _ => fun _ => None
    end r
  end.

Definition latest {A} (f : {e & answer e} -> option A) (h : hist) : option A := head (observe f h).
Definition known_handle (h : hist) : string := default "" (latest handle_by h).

Definition succeeded (m : rpc) (h : hist) : Prop :=
  exists cc t (r : rpc_response m), existT (ERpc cc t m) (inr r) ∈ h.
Definition failed_with (m : rpc) (c : Code) (h : hist) : Prop :=
  exists cc t err msg, existT (ERpc cc t m) (inl err) ∈ h /\ as_grpc err = Some (c, msg).

(** ** The contract *)

Definition source_of (dataSource id : string) : ReplicationSource :=
  if bool_decide (dataSource = pvcDataSource) then SourceVolume id else SourceVolumeGroup id.

(** The request for an instance, its class and the handle of its data source. *)
Definition request_for (vr : VR) (cls : ReplicationClass) (id : string) (force : bool)
    : ReplicationRequest := {|
  rq_Source := source_of (vr_kind vr) id;
  rq_ReplicationId := vr.(vr_Spec).(ReplicationHandle);
  rq_Force := force;
  rq_Parameters := filterPrefixedParameters replicationParameterPrefix cls.(Parameters);
  rq_SecretName := map_get cls.(Parameters) prefixedReplicationSecretNameKey;
  rq_SecretNamespace := map_get cls.(Parameters) prefixedReplicationSecretNamespaceKey
|}.

Definition set_Force (q : ReplicationRequest) (f : bool) : ReplicationRequest :=
  mkRequest q.(rq_Source) q.(rq_ReplicationId) f q.(rq_Parameters) q.(rq_SecretName)
    q.(rq_SecretNamespace).
Definition no_Parameters (q : ReplicationRequest) : ReplicationRequest :=
  mkRequest q.(rq_Source) q.(rq_ReplicationId) q.(rq_Force) ∅ q.(rq_SecretName)
    q.(rq_SecretNamespace).

(** What the controller has read: the instance, its class and the handle. *)
Definition known (h : hist) (vr : VR) (cls : ReplicationClass) (id : string) : Prop :=
  latest fetched_by h = Some vr /\ latest class_by h = Some cls /\ known_handle h = id.

(** The latest instance asks for [st] and is in a state [P]. *)
Definition asks (h : hist) (P : VR -> Prop) : Prop :=
  exists vr, latest vr_by h = Some vr /\ P vr.

(** When the controller may send an RPC to the driver. *)
Definition rpc_permitted (h : hist) (m : rpc) : Prop :=
  match m with
  | GetCapabilities => True
  | EnableVolumeReplication q =>
    exists vr cls id, known h vr cls id /\ id ≠ "" /\ is_deleting vr = false /\
      q = request_for vr cls id false /\
      asks h (fun i => vr_spec_state i = Primary /\ vr_state i ≠ PrimaryState)
  | PromoteVolume q =>
    exists vr cls id f, known h vr cls id /\ id ≠ "" /\ is_deleting vr = false /\
      q = request_for vr cls id f /\
      asks h (fun i => vr_spec_state i = Primary /\ vr_state i ≠ PrimaryState) /\
      succeeded (EnableVolumeReplication (set_Force q false)) h /\
      (f = true -> failed_with (PromoteVolume (set_Force q false)) FailedPrecondition h)
  | DemoteVolume q =>
    exists vr cls id, known h vr cls id /\ id ≠ "" /\ is_deleting vr = false /\
      q = request_for vr cls id false /\
      asks h (fun i => vr_spec_state i = Secondary)
  | ResyncVolume q =>
    exists vr cls id f, known h vr cls id /\ id ≠ "" /\ is_deleting vr = false /\
      q = request_for vr cls id f /\
      asks h (fun i =>
        (vr_spec_state i = Resync /\ f = true) \/
        (vr_spec_state i = Secondary /\ vr_state i = SecondaryState /\
         f = i.(vr_Spec).(vr_AutoResync) /\ succeeded (DemoteVolume (set_Force q false)) h))
  | DisableVolumeReplication q =>
    exists vr cls id, known h vr cls id /\ id ≠ "" /\ is_deleting vr = true /\
      volumeReplicationFinalizer ∈ finalizers vr /\ q = request_for vr cls id false
  | GetVolumeReplicationInfo q =>
    exists vr cls id, known h vr cls id /\ id ≠ "" /\ is_deleting vr = false /\
      q = no_Parameters (request_for vr cls id false) /\
      asks h (fun i => vr_spec_state i = Primary)
  | _ => False
  end.

(** The driver's answers a claimed state rests on. *)
Definition was_promoted (h : hist) : Prop := exists q, succeeded (PromoteVolume q) h.
Definition was_demoted (h : hist) : Prop := exists q, succeeded (DemoteVolume q) h.
Definition was_resynced (h : hist) : Prop :=
  exists q cc t, existT (ERpc cc t (ResyncVolume q)) (inr true) ∈ h.

(** What a status write may say about the instance [i] the server last returned:
    it keeps the state, or claims what the driver confirmed in this run. *)
Definition state_justified (h : hist) (i : VR) (st : string) : Prop :=
  st = GetCurrentReplicationState (vr_state i) \/
  (st = PrimaryState /\ vr_spec_state i = Primary /\ was_promoted h) \/
  (st = SecondaryState /\ vr_spec_state i = Secondary /\ was_demoted h) \/
  (st = SecondaryState /\ vr_spec_state i = Resync /\ was_resynced h).

Definition status_permitted (h : hist) (o : VR) : Prop :=
  asks h (fun i =>
    meta o = meta i /\ o.(vr_Spec) = i.(vr_Spec) /\
    o.(vr_Status).(ObservedGeneration) = vr_gen i /\
    (types_unique i.(vr_Status).(Conditions) -> types_unique o.(vr_Status).(Conditions)) /\
    state_justified h i (vr_state o)).

(** Replication is disabled: by the driver's answer, or there is no handle. *)
Definition disabled (h : hist) : Prop :=
  known_handle h = "" \/
  exists q, succeeded (DisableVolumeReplication q) h \/
            failed_with (DisableVolumeReplication q) NotFound h.

Definition deletion_requested (h : hist) : Prop :=
  exists vr, latest fetched_by h = Some vr /\ is_deleting vr = true.

(** An update may drop the controller's finalizer (or release another object)
    only once replication is disabled, and only for an instance being deleted. *)
Definition update_permitted (h : hist) (k : kind) (o : obj_of k) : Prop :=
  match k return obj_of k -> Prop with
  | KVolumeReplication => fun o =>
    asks h (fun i => o.(vr_Spec) = i.(vr_Spec) /\
      (forall f, f ∈ finalizers i -> f ∈ finalizers o \/
         f = volumeReplicationFinalizer /\ deletion_requested h /\ disabled h))
  | KPersistentVolumeClaim | KVolumeGroupReplication | KVolumeGroupReplicationContent =>
    fun _ => deletion_requested h -> disabled h
  | _ => fun _ => False
  end o.

(** The whole contract: reads and dials are free, and the controller never
    creates, deletes or lists anything. *)
Definition contract (h : hist) (e : event) : Prop :=
  match e with
  | EGet _ _ | ENow | EClock | ERange | EReadPool | EStoreConn _ _
  | EGetState _ | ECloseConn _ | ENewClient _ _ => True
  | ERpc _ _ m => rpc_permitted h m
  | EStatusUpdate k o =>
    match k return obj_of k -> Prop with
    | KVolumeReplication => status_permitted h
    | _ => fun _ => False
    end o
  | EUpdate k o => update_permitted h k o
  | _ => False
  end.

(** ** Tracking what is known *)

Create HintDb track discriminated.

(** Calls that teach nothing about the instance, class or handle. *)
Definition neutral (e : event) : Prop :=
  match e with
  | EGet (KVolumeReplication | KVolumeReplicationClass | KPersistentVolume
         | KVolumeGroupReplicationContent) _ => False
  | _ => True
  end.

(** Neutral calls that do not return the instance either. *)
Definition silent (e : event) : Prop :=
  match e with
  | EUpdate KVolumeReplication _ | EStatusUpdate KVolumeReplication _ => False
  | e => neutral e
  end.

Lemma connect_silent e : connect_call e -> silent e.
Proof. destruct e as [[]| |[]|[]|[]|[]|[]|? ? []| | | | | | | | | | | |]; simpl; tauto. Qed.

Lemma silent_neutral e : silent e -> neutral e.
Proof. by destruct e as [[]| | |[]|[]| | | | | | | | | | | | | | |]. Qed.

Lemma updates_silent k e : k ≠ KVolumeReplication -> updates k e -> silent e.
Proof. destruct e as [[]| | |[]|[]| | | | | | | | | | | | | | |]; naive_solver. Qed.

Lemma neutral_fetched e r : neutral e -> fetched_by (existT e r) = None.
Proof. by destruct e as [[]| | |[]|[]| | | | | | | | | | | | | | |]. Qed.
Lemma neutral_class e r : neutral e -> class_by (existT e r) = None.
Proof. by destruct e as [[]| | |[]|[]| | | | | | | | | | | | | | |]. Qed.
Lemma neutral_handle e r : neutral e -> handle_by (existT e r) = None.
Proof. by destruct e as [[]| | |[]|[]| | | | | | | | | | | | | | |]. Qed.
Lemma silent_vr e r : silent e -> vr_by (existT e r) = None.
Proof. by destruct e as [[]| | |[]|[]| | | | | | | | | | | | | | |]. Qed.

(** What is known only depends on the calls that are not neutral. *)
Lemma known_extends h h' vr cls id :
  extends neutral h h' -> known h vr cls id -> known h' vr cls id.
Proof.
  unfold known, known_handle, latest. intros Hext.
  rewrite !(observe_extends _ _ _ _ Hext); auto using neutral_fetched, neutral_class, neutral_handle.
Qed.

(** The instance in memory agrees with the one the server last returned, up to
    the status fields the controller is preparing. *)
Definition tracks (h : hist) (i : VR) : Prop :=
  asks h (fun v => meta i = meta v /\ i.(vr_Spec) = v.(vr_Spec) /\ vr_state i = vr_state v /\
    (types_unique v.(vr_Status).(Conditions) -> types_unique i.(vr_Status).(Conditions))).

Lemma tracks_extends h h' i : extends silent h h' -> tracks h i -> tracks h' i.
Proof.
  unfold tracks, asks, latest. intros Hext.
  rewrite (observe_extends vr_by _ _ _ Hext); auto using silent_vr.
Qed.

Lemma succeeded_extends P m h h' : extends P h h' -> succeeded m h -> succeeded m h'.
Proof. intros (t & -> & _) (cc & d & r & Hin). exists cc, d, r. set_solver. Qed.

Lemma failed_extends P m c h h' : extends P h h' -> failed_with m c h -> failed_with m c h'.
Proof. intros (t & -> & _) (cc & d & e & msg & Hin & ?). exists cc, d, e, msg. set_solver. Qed.

Lemma tracks_map_conditions h i f :
  (forall l, types_unique l -> types_unique (f l)) -> tracks h i -> tracks h (map_conditions f i).
Proof. intros Hf (v & Hv & Hm & Hs & Hst & Hu). exists v. split_and!; auto. simpl. auto. Qed.

(** Changing status fields other than the state and the conditions. *)
Lemma tracks_status h i s :
  s.(State) = vr_state i -> s.(Conditions) = i.(vr_Status).(Conditions) ->
  tracks h i -> tracks h (vr_set_status i s).
Proof.
  intros Hst Hc (v & Hv & Hm & Hs & Hst' & Hu). exists v.
  split_and!; auto; [unfold vr_state in *; simpl in *; congruence|simpl; by rewrite Hc].
Qed.

Lemma tracks_fresh_update h o (i : VR) : tracks (existT (EUpdate KVolumeReplication o) (inr i) :: h) i.
Proof. exists i. split_and!; auto. Qed.
Lemma tracks_fresh_status h o (i : VR) : tracks (existT (EStatusUpdate KVolumeReplication o) (inr i) :: h) i.
Proof. exists i. split_and!; auto. Qed.

Lemma tracks_asks h i (P : VR -> Prop) :
  tracks h i -> (forall v, v.(vr_Spec) = i.(vr_Spec) -> vr_state v = vr_state i -> P v) -> asks h P.
Proof. intros (v & Hv & _ & Hs & Hst & _) HP. exists v. auto. Qed.

Lemma tracks_agree h i i' :
  tracks h i -> tracks h i' -> i'.(vr_Spec) = i.(vr_Spec) /\ vr_state i' = vr_state i.
Proof. intros (v & Hv & ? & ? & ? & _) (v' & Hv' & ? & ? & ? & _). naive_solver congruence. Qed.

Lemma extends_known h h' vr cls id :
  extends silent h h' -> known h vr cls id -> known h' vr cls id.
Proof. intros Hext. apply known_extends. eapply extends_mono; [|exact Hext]. apply silent_neutral. Qed.

#[export] Hint Resolve extends_known tracks_extends known_extends succeeded_extends
  failed_extends extends_trans : track.

(** ** The functions keep the contract *)

(** How a run may end: an error never comes with a requeue, a requeue is after
    one of three intervals, and the run-time panics are the dereferences of what
    the API server did not provide. *)
Definition requeues (cls : ReplicationClass) : list Z :=
  [(15 * second)%Z; (30 * second)%Z;
   getInfoReconcileInterval (filterPrefixedParameters replicationParameterPrefix cls.(Parameters))].

Definition panics (h : hist) : Prop :=
  (exists key pv, existT (EGet KPersistentVolume key) (inr pv) ∈ h /\ pv.(pv_CSI) = None) \/
  (deletion_requested h /\
   exists key err, existT (EGet KVolumeGroupReplication key) (inl err) ∈ h /\ IsNotFound err = true) \/
  (exists cls, latest class_by h = Some cls /\ cls.(Provisioner) = "") \/
  (exists vr v, latest fetched_by h = Some vr /\ latest vr_by h = Some v /\ vr_kind v ≠ vr_kind vr).

Definition ends_well (h : hist) (o : outcome result) : Prop :=
  match o with
  | Panicked _ => panics h
  | Done (res, Some _) => res = no_requeue
  | Done (res, None) =>
    res = no_requeue \/
    exists cls d, latest class_by h = Some cls /\ d ∈ requeues cls /\ res = mkResult true d
  end.

Section instance.
Context (timeout : Z) (vr0 : VR) (cls : ReplicationClass) (id : string).

Abbreviation here h := (known h vr0 cls id).

Definition unique_setter
    (f : clock -> list Condition -> Z -> string -> string -> string -> list Condition) : Prop :=
  forall now l gen ds a b, types_unique l -> types_unique (f now l gen ds a b).

(** The state in memory is the server's, so a justification may use either. *)
Lemma status_allowed h i st msg s :
  tracks h i -> s.(Conditions) = i.(vr_Status).(Conditions) ->
  state_justified h i st ->
  status_permitted h (vr_set_status i (set_State s st msg (vr_gen i))).
Proof.
  intros (v & Hv & Hm & Hs & Hst & Hu) Hc Hj. exists v. split; [done|].
  unfold state_justified, vr_gen, vr_state, vr_spec_state in *. simpl in *.
  rewrite Hc. rewrite <- Hs, <- Hm, <- Hst. split_and!; auto.
Qed.

(** Writing the status: afterwards, if the server accepted it, the instance is
    the server's. *)
Lemma updateReplicationStatus_wp h i st msg :
  tracks h i -> state_justified h i st ->
  wp contract (fun h' o => exists i' err, o = Done (i', err) /\
       extends neutral h h' /\ (err = None -> tracks h' i'))
    h (updateReplicationStatus i st msg).
Proof.
  intros Ht Hj. unfold updateReplicationStatus, status_update_obj.
  apply wp_call; [by apply status_allowed|]. intros [e|o]; simpl.
  - eexists _, _. split_and!; [done| |done]. by apply extends_one.
  - eexists _, _. split_and!; [done|by apply extends_one|]. intros _. apply tracks_fresh_status.
Qed.

Lemma report_failure_wp h i what msg ds :
  tracks h i ->
  wp contract (fun h' o => exists i', o = Done i' /\ extends neutral h h')
    h (report_failure i what msg ds).
Proof.
  intros Ht. unfold report_failure. apply wp_call; [done|]. intros now. cbn [mbind prog_bind].
  eapply wp_seq; [apply updateReplicationStatus_wp|].
  - eapply tracks_extends; [by apply extends_one|].
    destruct Ht as (v & Hv & ? & ? & ? & Hu). exists v.
    split_and!; [assumption..|auto with conds].
  - left. done.
  - intros h' o (i' & err & -> & Hext & _). simpl. eexists. split; [done|].
    eapply extends_trans; [|exact Hext]. by apply extends_one.
Qed.

Lemma fail_with_wp h setter i what e :
  unique_setter setter -> tracks h i ->
  wp contract (fun h' o => exists i' err, o = Done (i', Some err) /\
       extends silent h h' /\ tracks h' i')
    h (fail_with setter i what e).
Proof.
  intros Hs Ht. unfold fail_with. apply wp_call; [done|]. intros now. simpl.
  eexists _, _. split_and!; [done|by apply extends_one|].
  eapply tracks_extends; [by apply extends_one|]. apply tracks_map_conditions; auto.
Qed.

(** *** The driver operations *)

(** The parameters Reconcile prepares. *)
Definition prepared (p : CommonRequestParameters) : Prop :=
  (exists cc, ReplicationClientSpec cc timeout (source_of (vr_kind vr0)) p.(p_Replication)) /\
  getID (mkReplication p false) = (if bool_decide (id = "")
     then inl (ErrorString "VolumeID or GroupID must be provided") else inr id) /\
  p.(ReplicationID) = vr0.(vr_Spec).(ReplicationHandle) /\
  p.(p_Parameters) = filterPrefixedParameters replicationParameterPrefix cls.(Parameters) /\
  p.(SecretName) = map_get cls.(Parameters) prefixedReplicationSecretNameKey /\
  p.(SecretNamespace) = map_get cls.(Parameters) prefixedReplicationSecretNamespaceKey.

Context (p : CommonRequestParameters) (Hp : prepared p).

Abbreviation rq f := (request_for vr0 cls id f).

(** Each operation is one RPC with the prepared request; without a handle it
    fails without a call and with an error that has no gRPC code. *)
Ltac op_solve :=
  let Hcc := fresh in let Hid := fresh in
  destruct Hp as ((cc & Hcc) & Hid & Hr & Hps & Hsn & Hsns);
  unfold Enable, Disable, Promote, Demote, ResyncOp, GetInfo;
  change (getID _) with (getID (mkReplication p false)); rewrite Hid;
  intros Hgo Hno; case_bool_decide as Hempty;
  [ by apply Hno
  | simpl;
    first [rewrite enable_spec|rewrite disable_spec|rewrite promote_spec
          |rewrite demote_spec|rewrite resync_spec|rewrite info_spec];
    rewrite Hr, ?Hps, Hsn, Hsns; apply wp_call;
    [by apply Hgo|intros r; apply (Hgo cc); done] ].

Lemma Enable_wp G Q h :
  (forall cc, id ≠ "" -> let e := ERpc cc timeout (EnableVolumeReplication (rq false)) in
     G h e /\ forall r, Q (existT e r :: h) (Done (to_response (fun _ => REnable) r))) ->
  (id = "" -> forall s, Q h (Done (mkResponse RNil (Some (ErrorString s))))) ->
  wp G Q h (Enable (mkReplication p false)).
Proof. op_solve. Qed.

Lemma Disable_wp G Q h :
  (forall cc, id ≠ "" -> let e := ERpc cc timeout (DisableVolumeReplication (rq false)) in
     G h e /\ forall r, Q (existT e r :: h) (Done (to_response (fun _ => RDisable) r))) ->
  (id = "" -> forall s, Q h (Done (mkResponse RNil (Some (ErrorString s))))) ->
  wp G Q h (Disable (mkReplication p false)).
Proof. op_solve. Qed.

Lemma Promote_wp G Q h f :
  (forall cc, id ≠ "" -> let e := ERpc cc timeout (PromoteVolume (rq f)) in
     G h e /\ forall r, Q (existT e r :: h) (Done (to_response (fun _ => RPromote) r))) ->
  (id = "" -> forall s, Q h (Done (mkResponse RNil (Some (ErrorString s))))) ->
  wp G Q h (Promote (mkReplication p f)).
Proof. op_solve. Qed.

Lemma Demote_wp G Q h :
  (forall cc, id ≠ "" -> let e := ERpc cc timeout (DemoteVolume (rq false)) in
     G h e /\ forall r, Q (existT e r :: h) (Done (to_response (fun _ => RDemote) r))) ->
  (id = "" -> forall s, Q h (Done (mkResponse RNil (Some (ErrorString s))))) ->
  wp G Q h (Demote (mkReplication p false)).
Proof. op_solve. Qed.

Lemma Resync_wp G Q h f :
  (forall cc, id ≠ "" -> let e := ERpc cc timeout (ResyncVolume (rq f)) in
     G h e /\ forall r, Q (existT e r :: h) (Done (to_response RResync r))) ->
  (id = "" -> forall s, Q h (Done (mkResponse RNil (Some (ErrorString s))))) ->
  wp G Q h (ResyncOp (mkReplication p f)).
Proof. op_solve. Qed.

Lemma GetInfo_wp G Q h :
  (forall cc, id ≠ "" -> let e := ERpc cc timeout (GetVolumeReplicationInfo (no_Parameters (rq false))) in
     G h e /\ forall r, Q (existT e r :: h) (Done (to_response RInfo r))) ->
  (id = "" -> forall s, Q h (Done (mkResponse RNil (Some (ErrorString s))))) ->
  wp G Q h (GetInfo (mkReplication p false)).
Proof. op_solve. Qed.

(** *** The operations of the controller

    [operation h fact]: the outcome of an operation that may send RPCs and
    prepare conditions, but does not write the instance; without an error
    [fact] holds. *)
Definition operation (h : hist) (fact : hist -> Prop) (h' : hist)
    (o : outcome (VR * option error)) : Prop :=
  exists i err, o = Done (i, err) /\ extends silent h h' /\ tracks h' i /\ (err = None -> fact h').

Lemma fail_operation h h1 setter i what e fact :
  unique_setter setter -> extends silent h h1 -> tracks h i ->
  wp contract (operation h fact) h1 (fail_with setter i what e).
Proof.
  intros Hs Hext Ht. eapply wp_post; [apply fail_with_wp; eauto with track|].
  intros h' o (i' & err & -> & Hext' & Ht'). exists i', (Some err).
  split_and!; eauto with track. done.
Qed.

Lemma setters_unique :
  unique_setter setFailedPromotionCondition /\ unique_setter setFailedValidationCondition /\
  unique_setter setFailedDemotionCondition /\ unique_setter setFailedResyncCondition.
Proof. split_and!; intros now l gen ds a b Hu; unfold_setters; auto 6 with conds. Qed.

Lemma as_grpc_known v err c :
  HasKnownGRPCError (mkResponse v (Some err)) [c] = true -> exists msg, as_grpc err = Some (c, msg).
Proof. intros (c' & m & Hc & Hin)%HasKnownGRPCError_spec. apply list_elem_of_singleton in Hin as ->. eauto. Qed.

Context (Hlive : is_deleting vr0 = false).

Lemma enableReplication_wp h i :
  here h -> tracks h i -> vr_spec_state i = Primary -> vr_state i ≠ PrimaryState ->
  wp contract (operation h (succeeded (EnableVolumeReplication (rq false)))) h
    (enableReplication i p).
Proof.
  intros Hh Ht Hsp Hst. pose proof setters_unique as (? & ? & _).
  unfold enableReplication. apply wp_bind, Enable_wp.
  - intros cc Hid e. split.
    + exists vr0, cls, id. split_and!; try done. eapply tracks_asks; [done|].
      unfold vr_spec_state in *. naive_solver congruence.
    + intros [err|r]; simpl.
      * case_match; by apply fail_operation; [|apply extends_one|].
      * exists i, None. split_and!; [done|by apply extends_one| |].
        -- eapply tracks_extends; [by apply extends_one|done].
        -- intros _. exists cc, timeout, r. left.
  - intros Hid err. cbn [after resp_Error].
    case_match; by apply fail_operation; [|apply extends_refl|].
Qed.

Lemma markVolumeAsPrimary_wp h i :
  here h -> tracks h i -> vr_spec_state i = Primary -> vr_state i ≠ PrimaryState ->
  succeeded (EnableVolumeReplication (rq false)) h ->
  wp contract (operation h was_promoted) h (markVolumeAsPrimary i p).
Proof.
  intros Hh Ht Hsp Hst Hen. pose proof setters_unique as (? & _).
  assert (asks h (fun i => vr_spec_state i = Primary /\ vr_state i ≠ PrimaryState)) as Hasks.
  { eapply tracks_asks; [done|]. unfold vr_spec_state in *. naive_solver congruence. }
  assert (forall h1 cc f r, extends silent h h1 ->
    operation h was_promoted (existT (ERpc cc timeout (PromoteVolume (rq f))) (inr r) :: h1)
      (Done (i, None))) as Hdone.
  { intros h1 cc f r Hext. assert (extends silent h (existT (ERpc cc timeout (PromoteVolume (rq f))) (inr r) :: h1))
      by by apply extends_cons.
    exists i, None. split_and!; eauto with track. intros _. exists (rq f), cc, timeout, r. left. }
  unfold markVolumeAsPrimary. apply wp_bind, Promote_wp.
  2: { intros Hid err. cbn [after resp_Error]. by apply fail_operation; [|apply extends_refl|]. }
  intros cc Hid e. split; [by exists vr0, cls, id, false|].
  intros [err|r]; cbn [after to_response resp_Error]; [|apply Hdone, extends_refl].
  destruct (HasKnownGRPCError _ _) eqn:Hknown; cbn [negb];
    [|by apply fail_operation; [|apply extends_one|]].
  apply as_grpc_known in Hknown as [msg Hcode].
  apply wp_bind, Promote_wp; [|done]. intros cc' _ e'. split.
  - assert (extends silent h (existT e (inl err) :: h)) as Hext by by apply extends_one.
    exists vr0, cls, id, true. split_and!; eauto with track; try done.
    intros _. exists cc, timeout, err, msg. split; [left|done].
  - intros [err'|r]; cbn [after to_response resp_Error].
    + apply fail_operation; [done| |done]. by apply extends_cons; [apply extends_one|].
    + by apply Hdone, extends_one.
Qed.

Lemma markVolumeAsSecondary_wp h i :
  here h -> tracks h i -> vr_spec_state i = Secondary ->
  wp contract (operation h (succeeded (DemoteVolume (rq false)))) h (markVolumeAsSecondary i p).
Proof.
  intros Hh Ht Hsp. pose proof setters_unique as (_ & _ & ? & _).
  unfold markVolumeAsSecondary. apply wp_bind, Demote_wp.
  - intros cc Hid e. split.
    + exists vr0, cls, id. split_and!; try done. eapply tracks_asks; [done|].
      unfold vr_spec_state in *. naive_solver congruence.
    + intros [err|r]; cbn [after to_response resp_Error];
        [by apply fail_operation; [|apply extends_one|]|].
      apply wp_call; [done|]. intros now. cbn [wp mbind prog_bind mret prog_ret].
      eexists _, None. split_and!; [done|by repeat (apply extends_cons || apply extends_refl)| |].
      * apply tracks_map_conditions; [intros; unfold_setters; auto 6 with conds|].
        eapply tracks_extends; [|done]. by repeat (apply extends_cons || apply extends_refl).
      * intros _. exists cc, timeout, r. right. left.
  - intros Hid err. cbn [after resp_Error]. by apply fail_operation; [|apply extends_refl|].
Qed.
Lemma resyncVolume_wp h i f :
  here h -> tracks h i ->
  asks h (fun i => (vr_spec_state i = Resync /\ f = true) \/
    (vr_spec_state i = Secondary /\ vr_state i = SecondaryState /\
     f = i.(vr_Spec).(vr_AutoResync) /\ succeeded (DemoteVolume (rq false)) h)) ->
  wp contract (fun h' o => exists i' b err, o = Done (i', b, err) /\
      operation h (fun h' => b = false -> was_resynced h') h' (Done (i', err)))
    h (resyncVolume i p f).
Proof.
  intros Hh Ht Hasks. pose proof setters_unique as (_ & _ & _ & Hsr).
  assert (forall h1 e, extends silent h h1 ->
    wp contract (fun h' o => exists i' b err, o = Done (i', b, err) /\
      operation h (fun h' => b = false -> was_resynced h') h' (Done (i', err))) h1
      ('(i, err) ← fail_with setFailedResyncCondition i "failed to resync volume" e;
       mret (i, false, err))) as Hfail.
  { intros h1 e Hext. eapply wp_seq; [by apply (fail_operation h h1 _ _ _ _ (fun h' => false = false -> was_resynced h'))|].
    intros h' o (i' & err & -> & H). simpl. exists i', false, err. split; [done|]. by exists i', err. }
  unfold resyncVolume. apply wp_bind, Resync_wp.
  2: { intros Hid err. cbn [after resp_Error]. apply Hfail, extends_refl. }
  intros cc Hid e. split; [by exists vr0, cls, id, f|].
  intros [err|ready]; cbn [after to_response resp_Error resp_Response];
    [by apply Hfail, extends_one|].
  assert (forall now, tracks (existT EClock now :: existT e (inr ready) :: h)
    (map_conditions (fun l => setResyncCondition now l (vr_gen i) (vr_kind i)) i)) as Htr.
  { intros now. apply tracks_map_conditions; [intros; unfold_setters; auto 6 with conds|].
    eapply tracks_extends; [|done]. by repeat (apply extends_cons || apply extends_refl). }
  apply wp_call; [done|]. intros now. cbn [mbind prog_bind].
  destruct ready; cbn [negb].
  - apply wp_call; [done|]. intros now2. cbn [wp mret prog_ret].
    eexists _, _, _. split; [done|]. eexists _, _.
    split_and!; [done|by repeat (apply extends_cons || apply extends_refl)| |].
    + apply tracks_map_conditions; [intros; unfold_setters; auto 6 with conds|].
      eapply tracks_extends; [by apply extends_one|]. apply Htr.
    + intros _ _. exists (rq f), cc, timeout. do 2 right. left.
  - cbn [wp mret prog_ret]. eexists _, _, _. split; [done|]. eexists _, _.
    split_and!; [done|by repeat (apply extends_cons || apply extends_refl)|done|done].
Qed.

Lemma disableVolumeReplication_wp h :
  here h -> is_deleting vr0 = true -> volumeReplicationFinalizer ∈ finalizers vr0 ->
  wp contract (fun h' o => exists err, o = Done err /\ extends silent h h' /\
      (err = None -> disabled h')) h (disableVolumeReplication p).
Proof.
  intros Hh Hdel Hfin. unfold disableVolumeReplication. apply wp_bind, Disable_wp.
  - intros cc Hid e. split; [by exists vr0, cls, id|].
    intros r. assert (extends silent h (existT e r :: h)) by by apply extends_one.
    destruct r as [err|r]; cbn [after to_response resp_Error].
    + destruct (HasKnownGRPCError _ _) eqn:Hknown; simpl;
        [|exists (Some err); by split_and!].
      apply as_grpc_known in Hknown as [msg Hcode]. exists None. split_and!; [done..|].
      intros _. right. exists (rq false). right. exists cc, timeout, err, msg. split; [left|done].
    + simpl. exists None. split_and!; [done..|].
      intros _. right. exists (rq false). left. exists cc, timeout, r. left.
  - intros Hid s. cbn [after resp_Error]. simpl. exists (Some (ErrorString s)).
    split_and!; [done|apply extends_refl|done].
Qed.

(** *** The state switch *)

Definition switched (h' : hist) (o : outcome state_outcome) : Prop :=
  match o with
  | Done (Returned r) => ends_well h' (Done r)
  | Done (Continue i b err) =>
    here h' /\ tracks h' i /\
    (err = None -> b = false -> state_justified h' i (GetReplicationState (vr_spec_state i)))
  | Panicked _ => False
  end.

Lemma promoted_now h i :
  here h -> tracks h i -> vr_spec_state i = Primary ->
  vr_state i = PrimaryState \/ was_promoted h ->
  wp contract switched h
    (now ← call EClock;
     mret (Continue (map_conditions (fun l => setPromotedCondition now l (vr_gen i) (vr_kind i)) i)
             false None)).
Proof.
  intros Hh Ht Hsp Hst. apply wp_call; [done|]. intros now. cbn [wp mbind prog_bind mret prog_ret].
  assert (extends silent h (existT EClock now :: h)) as Hext by by apply extends_one.
  cbn [switched]. split_and!; [eauto with track| |intros _ _].
  - apply tracks_map_conditions; [intros; unfold_setters; auto 6 with conds|]. eauto with track.
  - unfold state_justified. change (vr_spec_state (map_conditions _ i)) with (vr_spec_state i).
    change (vr_state (map_conditions _ i)) with (vr_state i). rewrite Hsp.
    destruct Hst as [->|[q Hq]]; [by left|]. right; left.
    split_and!; [done..|]. exists q. eauto with track.
Qed.

Lemma requeue_ok h d : here h -> d ∈ requeues cls -> ends_well h (Done (mkResult true d, None)).
Proof. intros (_ & Hc & _) Hd. right. by exists cls, d. Qed.

Lemma reconcile_primary_wp h i :
  here h -> tracks h i -> vr_spec_state i = Primary ->
  wp contract switched h (reconcile_primary i p).
Proof.
  intros Hh Ht Hsp. unfold reconcile_primary. case_bool_decide as Hst; cbn [negb];
    [by apply promoted_now; auto|].
  eapply wp_seq; [by apply (enableReplication_wp h i)|].
  intros h1 o (i1 & err & -> & Hext & Ht1 & Hen). cbn [after].
  destruct (tracks_agree h1 i i1) as [Hspec Hstate]; eauto with track.
  assert (vr_spec_state i1 = Primary) as Hsp1 by (unfold vr_spec_state in *; congruence).
  destruct err as [err|].
  - eapply wp_seq; [apply updateReplicationStatus_wp; [done|by left]|].
    intros h2 o (i2 & err2 & -> & _). done.
  - eapply wp_seq; [apply (markVolumeAsPrimary_wp h1 i1); eauto with track; congruence|].
    intros h2 o (i2 & err2 & -> & Hext2 & Ht2 & Hpr). cbn [after].
    destruct (tracks_agree h2 i1 i2) as [Hspec2 _]; eauto with track.
    destruct err2 as [err2|]; [split_and!; eauto with track; done|].
    apply promoted_now; eauto with track. unfold vr_spec_state in *; congruence.
Qed.

Lemma demoted_justified h i :
  vr_spec_state i = Secondary -> succeeded (DemoteVolume (rq false)) h ->
  state_justified h i (GetReplicationState (vr_spec_state i)).
Proof. intros Hsp Hd. rewrite Hsp. do 2 right. left. split_and!; [done..|]. by exists (rq false). Qed.

Lemma reconcile_secondary_wp h i :
  here h -> tracks h i -> vr_spec_state i = Secondary ->
  wp contract switched h (reconcile_secondary i p).
Proof.
  intros Hh Ht Hsp. unfold reconcile_secondary.
  case_bool_decide as Hst; cbn [negb];
    (eapply wp_seq; [by apply (markVolumeAsSecondary_wp h i)|]);
    intros h1 o (i1 & err & -> & Hext & Ht1 & Hde); cbn [after];
    (destruct (tracks_agree h1 i i1) as [Hspec Hstate]; eauto with track);
    assert (vr_spec_state i1 = Secondary) as Hsp1 by (unfold vr_spec_state in *; congruence);
    (destruct err as [err|]; [split_and!; eauto with track; done|]).
  - eapply wp_seq.
    { apply (resyncVolume_wp h1 i1); eauto with track. eapply tracks_asks; [done|]. intros v Hv Hvs.
      right. rewrite Hv. split_and!; auto; unfold vr_spec_state in *; congruence. }
    intros h2 o (i2 & b & err2 & -> & (i3 & err3 & [= <- <-] & Hext2 & Ht2 & Hre)). cbn [after].
    destruct (tracks_agree h2 i1 i2) as [Hspec2 _]; eauto with track.
    split_and!; eauto with track. intros _ _. apply demoted_justified; eauto with track.
    unfold vr_spec_state in *; congruence.
  - eapply wp_seq; [apply updateReplicationStatus_wp; [done|by apply demoted_justified; auto]|].
    intros h2 o (i2 & err2 & -> & Hext2 & _). cbn [after].
    destruct err2; cbn [wp mret prog_ret]; [done|].
    apply requeue_ok; [eauto with track|]. left.
Qed.

Lemma reconcile_state_wp h i :
  here h -> tracks h i -> wp contract switched h (reconcile_state i p).
Proof.
  intros Hh Ht. unfold reconcile_state.
  case_bool_decide; [by apply reconcile_primary_wp|].
  case_bool_decide; [by apply reconcile_secondary_wp|].
  case_bool_decide as Hsp.
  - unfold reconcile_resync. eapply wp_seq.
    { apply (resyncVolume_wp h i); [done..|]. eapply tracks_asks; [done|]. intros v Hv _. left.
      unfold vr_spec_state in *. split; [congruence|done]. }
    intros h1 o (i1 & b & err & -> & (i2 & err2 & [= <- <-] & Hext & Ht1 & Hre)). cbn [after].
    destruct (tracks_agree h1 i i1) as [Hspec _]; eauto with track.
    split_and!; eauto with track. intros He Hb.
    assert (vr_spec_state i1 = Resync) as Hsp1 by (unfold vr_spec_state in *; congruence).
    rewrite Hsp1. do 3 right. split_and!; [done..|]. auto.
  - eapply wp_seq; [by apply report_failure_wp|].
    intros h1 o (i1 & -> & Hext). cbn [after wp mret prog_ret switched ends_well]. by left.
Qed.

(** *** The final status *)

Lemma finish_error_wp h i err :
  here h -> tracks h i -> wp contract ends_well h (finish_error i err).
Proof.
  intros Hh Ht. unfold finish_error.
  eapply wp_seq; [apply updateReplicationStatus_wp; [done|by left]|].
  intros h1 o (i1 & e1 & -> & Hext & _). cbn [after].
  case_bool_decide; cbn [wp mret prog_ret]; [|done].
  apply requeue_ok; [eauto with track|]. left.
Qed.

Lemma finish_resyncing_wp h i :
  here h -> tracks h i -> wp contract ends_well h (finish_resyncing i).
Proof.
  intros Hh Ht. unfold finish_resyncing. eapply wp_seq.
  { apply updateReplicationStatus_wp; [|by left].
    apply tracks_map_conditions; [auto with conds|done]. }
  intros h1 o (i1 & e1 & -> & Hext & _). cbn [after wp mret prog_ret].
  apply requeue_ok; [eauto with track|]. right. left.
Qed.

Lemma finish_status_wp h i msg b :
  here h -> tracks h i -> state_justified h i (GetReplicationState (vr_spec_state i)) ->
  wp contract ends_well h
    (finish_status i (filterPrefixedParameters replicationParameterPrefix cls.(Parameters)) msg b).
Proof.
  intros Hh Ht Hj. unfold finish_status. eapply wp_seq.
  { case_bool_decide; (apply updateReplicationStatus_wp; [|done]); [|done].
    apply tracks_map_conditions; [auto with conds|]. by apply tracks_status. }
  intros h1 o (i1 & e1 & -> & Hext & _). cbn [after].
  destruct e1; [done|]. destruct b; cbn [wp mret prog_ret]; [|by left].
  apply requeue_ok; [eauto with track|]. do 2 right. left.
Qed.

(** Two instances with the same state and spec are justified alike. *)
Lemma justified_same h h' i i' st :
  extends silent h h' -> vr_state i' = vr_state i -> vr_spec_state i' = vr_spec_state i ->
  state_justified h i st -> state_justified h' i' st.
Proof.
  intros Hext Hst Hsp. unfold state_justified. rewrite Hst, Hsp.
  intros [?|[(? & ? & q & Hq)|[(? & ? & q & Hq)|(? & ? & q & cc & t & Hq)]]]; [by left|..]; right.
  - left. split_and!; [done..|]. exists q. eauto with track.
  - right; left. split_and!; [done..|]. exists q. eauto with track.
  - do 2 right. split_and!; [done..|]. exists q, cc, t. destruct Hext as (u & -> & _). set_solver.
Qed.

Lemma tracks_setReplication h i now ds m st :
  tracks h i -> tracks h (setReplicationCondition now i ds m st).
Proof.
  intros (v & Hv & ? & ? & ? & Hu). exists v. split_and!; [assumption..|auto with conds].
Qed.

Lemma tracks_record_sync h i info : tracks h i -> tracks h (record_sync i info).
Proof. intros Ht. unfold record_sync. destruct (info ≫= _); [by apply tracks_status|done]. Qed.

Lemma record_sync_same i info :
  vr_state (record_sync i info) = vr_state i /\ vr_spec_state (record_sync i info) = vr_spec_state i.
Proof. unfold record_sync. by destruct (info ≫= _). Qed.

Lemma getVolumeReplicationInfo_wp h i :
  here h -> tracks h i -> vr_spec_state i = Primary ->
  wp contract (fun h' o => extends silent h h' /\ exists r, o = Done r) h (getVolumeReplicationInfo p).
Proof.
  intros Hh Ht Hsp. unfold getVolumeReplicationInfo. apply wp_bind, GetInfo_wp.
  - intros cc Hid e. split.
    + exists vr0, cls, id. split_and!; try done. eapply tracks_asks; [done|].
      unfold vr_spec_state in *. naive_solver congruence.
    + intros r. assert (extends silent h (existT e r :: h)) by by apply extends_one.
      destruct r as [err|r]; cbn [after to_response resp_Error resp_Response];
        [case_match|]; simpl; eauto.
  - intros Hid s. cbn [after resp_Error]. case_match; simpl; eauto using extends_refl.
Qed.

Lemma primary_info_wp h i msg :
  here h -> tracks h i -> vr_spec_state i = Primary ->
  state_justified h i (GetReplicationState (vr_spec_state i)) ->
  wp contract (fun h' o => match o with
     | Done (inl r) => ends_well h' (Done r)
     | Done (inr (i', _)) => here h' /\ tracks h' i' /\
        state_justified h' i' (GetReplicationState (vr_spec_state i'))
     | Panicked _ => False
     end) h (primary_info i p msg).
Proof.
  intros Hh Ht Hsp Hj. unfold primary_info.
  eapply wp_seq; [by apply (getVolumeReplicationInfo_wp h i)|].
  intros h1 o (Hext & r & ->). cbn [after].
  assert (here h1) as Hh1 by eauto with track. assert (tracks h1 i) as Ht1 by eauto with track.
  assert (forall now, extends silent h (existT EClock now :: h1)) as Hext1 by (intros; by apply extends_cons).
  destruct r as [err|info].
  - destruct (IsUnimplementedError err); cbn [negb wp mret prog_ret];
      [split_and!; eauto with track; by eapply justified_same|].
    apply wp_call; [done|]. intros now. cbn [mbind prog_bind]. eapply wp_seq.
    { apply updateReplicationStatus_wp; [apply tracks_setReplication; eauto with track|].
      by eapply (justified_same h _ i). }
    intros h2 o (i2 & err2 & -> & _). cbn [after]. by destruct err2.
  - destruct (record_sync_same i info) as [Hst Hspec].
    destruct info as [info|]; cbn [wp mret prog_ret].
    + apply wp_call; [done|]. intros now. cbn [wp mret prog_ret].
      split_and!; [eauto with track|apply tracks_setReplication, tracks_record_sync; eauto with track|].
      change (vr_spec_state (setReplicationCondition _ ?j _ _ _)) with (vr_spec_state j).
      rewrite Hspec. by eapply (justified_same h _ i).
    + split_and!; [done|done|]. by eapply (justified_same h _ i).
Qed.

Lemma finish_success_wp h i :
  here h -> tracks h i -> state_justified h i (GetReplicationState (vr_spec_state i)) ->
  wp contract ends_well h (finish_success i p
    (filterPrefixedParameters replicationParameterPrefix cls.(Parameters))).
Proof.
  intros Hh Ht Hj. unfold finish_success. apply wp_call; [done|]. intros t. cbn [mbind prog_bind].
  set (i1 := vr_set_status i _). set (h1 := existT ENow t :: h).
  assert (extends silent h h1) as Hext by by apply extends_one.
  assert (tracks h1 i1) as Ht1 by (apply tracks_status; eauto with track).
  assert (state_justified h1 i1 (GetReplicationState (vr_spec_state i1))) as Hj1
    by by eapply (justified_same h h1 i).
  assert (here h1) as Hh1 by eauto with track.
  case_bool_decide; [|by apply finish_status_wp].
  eapply wp_seq; [by apply (primary_info_wp h1 i1)|].
  intros h2 [[r|[i2 b]]|m] Ho; cbn [after]; [done| |done].
  destruct Ho as (? & ? & ?). by apply finish_status_wp.
Qed.

Lemma replicate_wp h i :
  here h -> tracks h i ->
  wp contract ends_well h (replicate i p
    (filterPrefixedParameters replicationParameterPrefix cls.(Parameters))).
Proof.
  intros Hh Ht. unfold replicate, update_obj. apply wp_call; [done|]. intros t.
  cbn [mbind prog_bind call]. apply wp_call.
  { destruct Ht as (v & Hv & Hm & Hs & _). exists v. split_and!; [done..|].
    intros f Hf. left. unfold finalizers in *. simpl in *. congruence. }
  intros [err|o]; cbn [mbind prog_bind mret prog_ret]; [done|].
  set (h1 := existT _ _ :: existT _ _ :: h).
  assert (extends neutral h h1) by by repeat (apply extends_cons || apply extends_refl).
  eapply wp_seq; [apply (reconcile_state_wp h1 o); [eauto with track|apply tracks_fresh_update]|].
  intros h2 [[r|i2 b err]|m] Ho; cbn [after]; [done| |done].
  destruct Ho as (Hh2 & Ht2 & Hj). destruct b, err;
    auto using finish_error_wp, finish_resyncing_wp, finish_success_wp.
Qed.
End instance.

(** *** Resolving the data source *)

(** The objects found, and why they may be missing. *)
Definition resolved (vr : VR) (h : hist) (s : sources) : Prop :=
  if bool_decide (vr_kind vr = pvcDataSource) then
    is_Some s.(s_pvc) /\ s.(volumeHandle) = known_handle h /\ s.(groupHandle) = ""
  else
    vr_kind vr = volumeGroupReplicationDataSource /\
    s.(volumeHandle) = "" /\ s.(groupHandle) = known_handle h /\
    (is_deleting vr = false -> is_Some s.(s_vgr) /\ is_Some s.(s_vgrc)) /\
    (s.(s_vgr) = None -> exists key err,
       existT (EGet KVolumeGroupReplication key) (inl err) ∈ h /\ IsNotFound err = true).

Definition sourced (vr : VR) (cls : ReplicationClass) (h : hist) (o : outcome (result + sources))
    : Prop :=
  match o with
  | Done (inl r) => ends_well h (Done r)
  | Done (inr s) => known h vr cls (known_handle h) /\ tracks h vr /\ resolved vr h s
  | Panicked _ => panics h
  end.

Lemma failed_early vr cls h what msg ds err :
  tracks h vr ->
  wp contract (sourced vr cls) h (_ ← report_failure vr what msg ds; mret (inl (no_requeue, err))).
Proof.
  intros Ht. eapply wp_seq; [by apply report_failure_wp|].
  intros h' o (i' & -> & _). destruct err; [done|by left].
Qed.

Lemma tracks_refl h vr : latest vr_by h = Some vr -> tracks h vr.
Proof. intros. exists vr. by split_and!. Qed.

(** Before the data source is read: the instance and the class are known. *)
Definition fresh (h : hist) (vr : VR) (cls : ReplicationClass) : Prop :=
  latest fetched_by h = Some vr /\ latest class_by h = Some cls /\ latest handle_by h = None /\
  latest vr_by h = Some vr.

Lemma resolve_sources_wp h vr cls req :
  fresh h vr cls -> wp contract (sourced vr cls) h (resolve_sources vr req).
Proof.
  intros (Hf & Hc & Hh & Hv). unfold resolve_sources.
  case_bool_decide as Hk.
  - unfold getPVCDataSource, get_obj. repeat wp_step; try done; simplify_eq;
      try (by apply failed_early, tracks_refl).
    + cbn [sourced]. unfold resolved. rewrite bool_decide_eq_true_2 by done.
      unfold known, known_handle, latest in *. simpl.
      match goal with H : pv_CSI _ = _ |- _ => rewrite H end.
      split_and!; try done. by apply tracks_refl.
    + left. eexists _, _. split; [left|done].
  - case_bool_decide as Hk2; [|by apply failed_early, tracks_refl].
    unfold getVolumeGroupReplicationDataSource, get_obj.
    repeat wp_step; try done; simplify_eq; try (by apply failed_early, tracks_refl).
    all: cbn [sourced]; unfold resolved; rewrite bool_decide_eq_false_2 by done.
    all: unfold known, known_handle, latest in *; simpl; rewrite ?Hh.
    all: try match goal with H : _ && _ = true |- _ => apply andb_true_iff in H as [? ?] end.
    all: split_and!; try done; try (by apply tracks_refl); try congruence.
    intros _. eexists _, _. split; [left|done].
Qed.

(** *** Ownership and deletion *)

(** The kinds a VolumeReplication takes ownership of. *)
Definition owned_kind (k : kind) : bool :=
  match k with
  | KPersistentVolumeClaim | KVolumeGroupReplication | KVolumeGroupReplicationContent => true
  | _ => false
  end.

(** A helper that only updates objects of another kind, while nothing is being
    deleted or once replication is disabled. *)
Lemma updates_wp {A} k (q : M A) h :
  calls (updates k) q -> no_panic q ->
  owned_kind k = true ->
  (deletion_requested h -> disabled h) ->
  wp contract (fun h' o => extends silent h h' /\ exists a, o = Done a) h q.
Proof.
  intros Hq Hnp Hk Hd. apply no_panic_wp; [done|].
  assert (k ≠ KVolumeReplication) as Hne by by (intros ->).
  assert (forall h', extends silent h h' -> wp contract (fun h' _ => extends silent h h') h' q)
    as Hgen; [|by apply Hgen, extends_refl].
  clear Hnp. revert Hq. induction q as [a|m|e c IH]; simpl; intros Hq h' Hext; [done..|].
  destruct Hq as [He Hc]. split.
  - destruct e as [| | |k' o| | | | | | | | | | | | | | | |]; try done. simpl in He. subst k'.
    assert (deletion_requested h' -> disabled h') as Hd'.
    { intros (vr & Hvr & Hdel). unfold disabled, known_handle, latest in *.
      rewrite !(observe_extends _ _ _ _ Hext) in * by auto using silent_neutral, neutral_fetched, neutral_handle.
      destruct Hd as [?|(q & [Hq|Hq])]; [by exists vr|by left|right; exists q; eauto with track..]. }
    by destruct k.
  - intros r. apply IH; [done|]. apply extends_cons; [done|]. by eapply updates_silent.
Qed.

Lemma deletion_requested_iff h vr cls id :
  known h vr cls id -> deletion_requested h <-> is_deleting vr = true.
Proof. intros (Hf & _). unfold deletion_requested. rewrite Hf. naive_solver. Qed.

Lemma disabled_extends h h' : extends silent h h' -> disabled h -> disabled h'.
Proof.
  intros Hext. unfold disabled, known_handle, latest.
  rewrite (observe_extends handle_by _ _ _ Hext) by auto using silent_neutral, neutral_handle.
  intros [?|(q & [Hq|Hq])]; [by left|right; exists q; eauto with track..].
Qed.
#[export] Hint Resolve disabled_extends : track.

Lemma resolved_extends vr h h' s : extends silent h h' -> resolved vr h s -> resolved vr h' s.
Proof.
  intros Hext. unfold resolved, known_handle, latest.
  rewrite (observe_extends handle_by _ _ _ Hext) by auto using silent_neutral, neutral_handle.
  destruct Hext as (t & -> & _). case_bool_decide; [done|].
  intros (? & ? & ? & ? & Hnil). split_and!; auto.
  intros Hn. destruct (Hnil Hn) as (key & err & ? & ?). exists key, err. set_solver.
Qed.
#[export] Hint Resolve resolved_extends : track.

Section lifecycle.
Context (timeout : Z) (vr0 : VR) (cls : ReplicationClass) (id : string).
Abbreviation here h := (known h vr0 cls id).

Lemma addFinalizerToVR_wp h i :
  here h -> tracks h i ->
  wp contract (fun h' o => exists i' err, o = Done (i', err) /\ here h' /\
      (err = None -> tracks h' i')) h (addFinalizerToVR i).
Proof.
  intros Hh Ht. unfold addFinalizerToVR, add_finalizer, update_obj.
  destruct (contains _ _); cbn [negb]; [by exists i, None|].
  apply wp_assoc, wp_call.
  { destruct Ht as (v & Hv & Hm & Hs & _). exists v. split_and!; [done..|].
    intros f Hf. left. rewrite finalizers_with. apply elem_of_app. left.
    unfold finalizers in *. simpl in *. by rewrite Hm. }
  intros [err|o]; cbn [wp mbind prog_bind mret prog_ret].
  - eexists _, _. split_and!; [done| |done]. eapply known_extends; [by apply extends_one|done].
  - eexists _, _. split_and!; [done| |intros _; apply tracks_fresh_update].
    eapply known_extends; [by apply extends_one|done].
Qed.

Lemma removeFinalizerFromVR_wp h :
  here h -> tracks h vr0 -> is_deleting vr0 = true -> disabled h ->
  wp contract (fun h' o => exists a, o = Done a) h (removeFinalizerFromVR vr0).
Proof.
  intros Hh Ht Hdel Hdis. unfold removeFinalizerFromVR, remove_finalizer, update_obj.
  destruct (contains _ _); [|by eexists].
  apply wp_assoc, wp_call; [|intros [err|o]; by eexists].
  destruct Ht as (v & Hv & Hm & Hs & _). exists v. split_and!; [done..|].
  intros f Hf. rewrite finalizers_with. unfold Config.RemoveFromSlice.
  destruct (decide (f = volumeReplicationFinalizer)) as [->|Hne].
  - right. split_and!; [done| |done]. by apply (deletion_requested_iff _ _ _ _ Hh).
  - left. apply elem_of_delete_eq. split; [done|].
    unfold finalizers in *. simpl in *. by rewrite Hm.
Qed.

(** Two updates in a row, the second only if the first succeeded. *)
Lemma two_updates_wp {A B} k1 k2 (q1 : M (A * option error)) (q2 : A -> M (B * option error)) i h :
  here h -> tracks h i -> (deletion_requested h -> disabled h) ->
  calls (updates k1) q1 -> no_panic q1 ->
  (forall a, calls (updates k2) (q2 a) /\ no_panic (q2 a)) ->
  owned_kind k1 = true ->
  owned_kind k2 = true ->
  wp contract (fun h' o => match o with
      | Done (i, err) => here h' /\ (err = None -> tracks h' i)
      | Panicked _ => panics h'
      end) h
    ('(a, err) ← q1;
     match err with
     | Some err => mret (i, Some err)
     | None => '(_, err) ← q2 a; mret (i, err)
     end).
Proof.
  intros Hh Ht Hok Hc1 Hn1 H2 Hk1 Hk2. eapply wp_seq; [by apply (updates_wp k1)|].
  intros h1 o (Hext & [a err] & ->). cbn [after].
  assert (here h1) as Hh1 by eauto with track.
  assert (deletion_requested h1 -> disabled h1) as Hok1.
  { rewrite (deletion_requested_iff _ _ _ _ Hh1), <- (deletion_requested_iff _ _ _ _ Hh).
    eauto with track. }
  destruct err as [err|]; [by split|]. destruct (H2 a).
  eapply wp_seq; [by apply (updates_wp k2)|].
  intros h2 o (Hext2 & [b err2] & ->). cbn [after wp mret prog_ret]. split; eauto with track.
Qed.

(** Taking ownership.  The instance the server returns with the finalizer may
    name another kind of data source than the one that was resolved. *)
Lemma take_ownership_wp h req s :
  here h -> tracks h vr0 -> is_deleting vr0 = false -> resolved vr0 h s ->
  wp contract (fun h' o => match o with
      | Done (i, err) => here h' /\ (err = None -> tracks h' i)
      | Panicked _ => panics h'
      end) h (take_ownership vr0 req s).
Proof.
  intros Hh Ht Hlive Hs. unfold take_ownership.
  eapply wp_seq; [by apply addFinalizerToVR_wp|].
  intros h1 o (i & err & -> & Hh1 & Ht1). cbn [after]. destruct err as [err|]; [done|].
  specialize (Ht1 eq_refl).
  assert (vr_kind i ≠ vr_kind vr0 -> panics h1) as Hother.
  { intros Hne. do 3 right. destruct Hh1 as [Hf _], Ht1 as (v & Hv & _ & Hsp & _).
    exists vr0, v. unfold vr_kind in *. split_and!; [done..|congruence]. }
  assert (deletion_requested h1 -> disabled h1) as Hok.
  { rewrite (deletion_requested_iff _ _ _ _ Hh1). congruence. }
  assert (forall k pvc, calls (updates KPersistentVolumeClaim) (addFinalizerToPVC pvc k) /\
            no_panic (addFinalizerToPVC pvc k)) as Hpvc.
  { intros. unfold addFinalizerToPVC. split; [calls_solve|np_solve]. }
  case_bool_decide as Hi; [|case_bool_decide as Hi2; [|done]]; unfold resolved in Hs.
  - destruct (s_pvc s) as [pvc|] eqn:Hsp.
    2: { apply Hother. case_bool_decide; [|congruence]. by destruct Hs as [[? ?] _]. }
    apply (two_updates_wp KPersistentVolumeClaim KPersistentVolumeClaim);
      auto with calls no_panic.
  - assert (s_vgr s = None \/ s_vgrc s = None -> panics h1) as Hnil.
    { intros Hnil. case_bool_decide as Hi0; [apply Hother; congruence|].
      destruct Hs as (_ & _ & _ & Hall & _). destruct (Hall Hlive) as [[? ?] [? ?]].
      naive_solver congruence. }
    destruct (s_vgr s) as [vgr|], (s_vgrc s) as [vgrc|]; try (apply Hnil; auto).
    apply (two_updates_wp KVolumeGroupReplication KVolumeGroupReplicationContent);
auto.
    + unfold annotateVolumeGroupReplicationWithOwner. calls_solve.
    + unfold annotateVolumeGroupReplicationWithOwner. np_solve.
    + intros _. unfold addFinalizerToVGRContent. split; [calls_solve|np_solve].
Qed.

(** Releasing the data source, once replication is disabled. *)
Lemma release_sources_wp h s :
  here h -> is_deleting vr0 = true -> disabled h -> resolved vr0 h s ->
  wp contract (fun h' o => match o with Done _ => extends silent h h' | Panicked _ => panics h' end)
    h (release_sources vr0 s).
Proof.
  intros Hh Hdel Hdis Hs. unfold release_sources. unfold resolved in Hs.
  assert (forall h', extends silent h h' -> deletion_requested h' -> disabled h') as Hok
    by eauto with track.
  case_bool_decide as Hk.
  - destruct Hs as ([pvc ->] & _ & _).
    eapply wp_seq; [apply (updates_wp KPersistentVolumeClaim); auto|].
    { unfold removeOwnerFromPVCAnnotation. calls_solve. }
    { unfold removeOwnerFromPVCAnnotation. np_solve. }
    intros h1 o (Hext & [pvc1 [err|]] & ->); cbn [after]; [done|].
    eapply wp_seq; [apply (updates_wp KPersistentVolumeClaim); auto|].
    { unfold removeFinalizerFromPVC. calls_solve. }
    { unfold removeFinalizerFromPVC. np_solve. }
    intros h2 o (Hext2 & [pvc2 err] & ->). cbn [after wp mret prog_ret]. eauto with track.
  - destruct Hs as (Hk2 & _ & _ & _ & Hnil). rewrite bool_decide_eq_true_2 by done.
    eapply wp_seq; [apply (updates_wp KVolumeGroupReplicationContent); auto|].
    { unfold removeFinalizerFromVGRContent. calls_solve. }
    { unfold removeFinalizerFromVGRContent. np_solve. }
    intros h1 o (Hext & [err|] & ->); cbn [after]; [done|].
    destruct (s_vgr s) as [vgr|] eqn:Hvgr.
    + eapply wp_seq; [apply (updates_wp KVolumeGroupReplication); auto|].
      { unfold removeOwnerFromVGRAnnotation. calls_solve. }
      { unfold removeOwnerFromVGRAnnotation. np_solve. }
      intros h2 o (Hext2 & [pvc2 err] & ->). cbn [after wp mret prog_ret]. eauto with track.
    + right. left. assert (here h1) as Hh1 by eauto with track.
      split; [by apply (deletion_requested_iff _ _ _ _ Hh1)|].
      destruct (Hnil eq_refl) as (key & err & Hin & He). destruct Hext as (t & -> & _).
      exists key, err. split; [|done]. apply elem_of_app. by right.
Qed.

Lemma handle_deletion_wp h p s :
  here h -> tracks h vr0 -> is_deleting vr0 = true -> resolved vr0 h s ->
  prepared timeout vr0 cls id p ->
  (p.(VolumeID) = "" /\ p.(GroupID) = "" -> id = "") ->
  wp contract ends_well h (handle_deletion vr0 p s).
Proof.
  intros Hh Ht Hdel Hs Hp Hids. unfold handle_deletion.
  destruct (contains _ _) eqn:Hfin; [|by left]. apply contains_true in Hfin.
  unfold release_all. apply wp_assoc. eapply (wp_seq _ _ (fun h' o => exists err, o = Done err /\
    extends silent h h' /\ (err = None -> disabled h'))).
  { case_bool_decide; [case_bool_decide|]; cbn [negb orb];
      try by eapply (disableVolumeReplication_wp _ vr0 cls id).
    exists None. split_and!; [done|apply extends_refl|]. intros _. left.
    destruct Hh as (_ & _ & ->). auto. }
  intros h1 o ([err|] & -> & Hext & Hdis); cbn [after]; [done|]. specialize (Hdis eq_refl).
  apply wp_assoc. eapply wp_seq; [apply (release_sources_wp h1 s); eauto with track|].
  intros h2 [[err|]|m] Ho; cbn [after]; [done| |done].
  apply wp_assoc. eapply wp_seq; [apply (removeFinalizerFromVR_wp h2); eauto with track|].
  intros h3 o ([i err] & ->). cbn [after]. destruct err; [done|]. by left.
Qed.

Lemma connect_contract h e : connect_call e -> contract h e.
Proof. by destruct e as [| | | | | | |? ? []| | | | | | | | | | | |]. Qed.

Lemma getReplicationClient_wp h :
  here h ->
  wp contract (fun h' o => extends silent h h' /\ match o with
      | Done (inr c) => exists cc, ReplicationClientSpec cc timeout (source_of (vr_kind vr0)) c
      | Done (inl _) => True
      | Panicked _ => panics h'
      end) h (getReplicationClient timeout cls.(Provisioner) (vr_kind vr0)).
Proof.
  intros Hh. unfold getReplicationClient.
  eapply wp_seq; [apply GetLeaderByDriver_client, connect_contract|].
  intros h1 o [Hext%(extends_mono _ silent) Ho]; [|apply connect_silent].
  destruct o as [[err|conn]|m]; cbn [after]; [by repeat wp_step| |].
  - destruct Ho as [cc ->]. repeat wp_step; (split; [done|]); try done; exists cc;
      unfold source_of; match goal with H : bool_decide _ = _ |- _ => rewrite H end; apply _.
  - split; [done|]. do 2 right. left. exists cls. split; [|done].
    by destruct (extends_known _ _ _ _ _ Hext Hh) as (_ & ? & _).
Qed.

Lemma reconcile_with_sources_wp h req s :
  here h -> tracks h vr0 -> resolved vr0 h s ->
  wp contract ends_well h (reconcile_with_sources timeout vr0 req cls s).
Proof.
  intros Hh Ht Hs. unfold reconcile_with_sources.
  eapply wp_seq; [by apply getReplicationClient_wp|].
  intros h1 [[err|c]|m] [Hext Ho]; cbn [after]; [done| |done].
  set (p := mkParams _ _ _ _ _ _ _).
  assert (here h1) as Hh1 by eauto with track. assert (tracks h1 vr0) as Ht1 by eauto with track.
  assert (resolved vr0 h1 s) as Hs1 by by eapply resolved_extends.
  assert (known_handle h1 = id) as Hid by apply Hh1.
  assert (prepared timeout vr0 cls id p) as Hp.
  { destruct Ho as [cc Hcc]. split; [by exists cc|]. split_and!; [|done..].
    unfold getID, resolved in *. simpl. rewrite <- Hid.
    repeat case_bool_decide; destruct_and?; simpl; congruence. }
  destruct (is_deleting vr0) eqn:Hdel; cbn [negb].
  - apply handle_deletion_wp; auto. simpl. intros [Hv Hg]. rewrite <- Hid. unfold resolved in Hs1.
    case_bool_decide; destruct_and?; congruence.
  - eapply wp_seq; [by apply take_ownership_wp|].
    intros h2 [[i err]|m] Ho2; cbn [after]; [|done]. destruct Ho2 as [Hh2 Ht2].
    destruct err; [done|]. apply (replicate_wp timeout vr0 cls id); auto.
Qed.
End lifecycle.

(** Reconcile keeps the contract and ends well, whatever the environment does. *)
Lemma Reconcile_wp timeout req : wp contract ends_well [] (Reconcile timeout req).
Proof.
  unfold Reconcile, get_obj. apply wp_call; [done|]. intros [err|vr]; cbn [mbind prog_bind].
  { case_match; [by left|done]. }
  apply wp_call; [done|]. intros [err|cls]; cbn [mbind prog_bind].
  { eapply wp_seq; [by apply report_failure_wp, tracks_refl|]. by intros h' o (i & -> & _). }
  apply wp_call; [done|]. intros seed. cbn [mbind prog_bind mret prog_ret].
  destruct (validate_entries _) as [err|].
  { eapply wp_seq; [by apply report_failure_wp, tracks_refl|]. by intros h' o (i & -> & _). }
  eapply wp_seq; [by apply (resolve_sources_wp _ vr cls)|].
  intros h' [[r|s]|m] Ho; cbn [after]; [done| |done].
  destruct Ho as (Hh & Ht & Hs). by eapply reconcile_with_sources_wp.
Qed.

(** ** Properties *)

(** The calls of a run, most recent first. *)
Definition vr_trace (ρ : env answer) (timeout : Z) (req : NamespacedName) : hist :=
  fst (run ρ [] (Reconcile timeout req)).

Lemma vr_trace_guarded ρ timeout req (G : hist -> event -> Prop) :
  (forall h e, contract h e -> G h e) -> guarded G (vr_trace ρ timeout req).
Proof.
  intros HG. eapply guarded_mono; [exact HG|].
  apply (wp_run contract ends_well _ [] (Reconcile_wp timeout req) I ρ).
Qed.

(** C1: Promotion is safe.  In every run, against every API server and driver, a
    volume is promoted only if the latest instance asks for primary and is not
    reported primary yet, only after the driver accepted Enable for the same
    volume with the same parameters in this run, and forcefully only after an
    unforced attempt was refused with FailedPrecondition; Enable itself is sent
    under the same condition, and neither for an instance being deleted. *)
Theorem VR_promotion_safe ρ timeout req :
  guarded (fun h e => match e with
    | ERpc _ _ (EnableVolumeReplication q) =>
      exists vr i, latest fetched_by h = Some vr /\ is_deleting vr = false /\
        latest vr_by h = Some i /\ vr_spec_state i = Primary /\ vr_state i ≠ PrimaryState
    | ERpc _ _ (PromoteVolume q) =>
      exists vr i, latest fetched_by h = Some vr /\ is_deleting vr = false /\
        latest vr_by h = Some i /\ vr_spec_state i = Primary /\ vr_state i ≠ PrimaryState /\
        succeeded (EnableVolumeReplication (set_Force q false)) h /\
        (q.(rq_Force) = true -> failed_with (PromoteVolume (set_Force q false)) FailedPrecondition h)
    | _ => True
    end) (vr_trace ρ timeout req).
Proof.
  apply vr_trace_guarded. intros h [| | | | | | |cc t []| | | | | | | | | | | |]; try done; cbn [contract rpc_permitted].
  - intros (vr & cls & id & [Hf _] & _ & ? & _ & i & Hi & ? & ?). by exists vr, i.
  - intros (vr & cls & id & f & [Hf _] & _ & ? & -> & (i & Hi & ? & ?) & ? & ?). by exists vr, i.
Qed.

(** C2: Demotion and resync are safe.  A volume is demoted only if the latest
    instance asks for secondary.  A resync is sent only for an instance that
    asks for resync, forced, or for one that asks for secondary, is already
    reported secondary (so never right after its first demotion) and was demoted
    again in this run, forced exactly if it has autoResync. *)
Theorem VR_resync_safe ρ timeout req :
  guarded (fun h e => match e with
    | ERpc _ _ (DemoteVolume q) =>
      exists i, latest vr_by h = Some i /\ vr_spec_state i = Secondary
    | ERpc _ _ (ResyncVolume q) =>
      exists i, latest vr_by h = Some i /\
        ((vr_spec_state i = Resync /\ q.(rq_Force) = true) \/
         (vr_spec_state i = Secondary /\ vr_state i = SecondaryState /\
          q.(rq_Force) = i.(vr_Spec).(vr_AutoResync) /\ succeeded (DemoteVolume (set_Force q false)) h))
    | _ => True
    end) (vr_trace ρ timeout req).
Proof.
  apply vr_trace_guarded. intros h [| | | | | | |cc t []| | | | | | | | | | | |]; try done; cbn [contract rpc_permitted].
  - intros (vr & cls & id & _ & _ & _ & _ & i & Hi & ?). by exists i.
  - intros (vr & cls & id & f & _ & _ & _ & -> & i & Hi & ?). by exists i.
Qed.


(** C16: The status is honest.  Every status the controller writes belongs to the
    instance the server last returned (same metadata and spec, its generation
    as the observed one, no condition type twice unless the server had it so),
    and its state either stays what it was (Unknown when empty), or is Primary
    when asked for and the driver accepted a promotion in this run, or Secondary
    when asked for and the driver accepted a demotion, or completed a resync. *)
Theorem VR_status_honest ρ timeout req :
  guarded (fun h e => match e with
    | EStatusUpdate KVolumeReplication o =>
      exists i, latest vr_by h = Some i /\
        meta o = meta i /\ o.(vr_Spec) = i.(vr_Spec) /\
        o.(vr_Status).(ObservedGeneration) = vr_gen i /\
        (types_unique i.(vr_Status).(Conditions) -> types_unique o.(vr_Status).(Conditions)) /\
        (vr_state o = GetCurrentReplicationState (vr_state i) \/
         (vr_state o = PrimaryState /\ vr_spec_state i = Primary /\ was_promoted h) \/
         (vr_state o = SecondaryState /\ vr_spec_state i = Secondary /\ was_demoted h) \/
         (vr_state o = SecondaryState /\ vr_spec_state i = Resync /\ was_resynced h))
    | EStatusUpdate _ _ => False
    | _ => True
    end) (vr_trace ρ timeout req).
Proof.
  apply vr_trace_guarded. by intros h [| | | |[]| | | | | | | | | | | | | | |].
Qed.

(** The operations that are sent the class's parameters. *)
Definition with_parameters (m : rpc) : bool := match m with GetVolumeReplicationInfo _ => false | _ => true end.


(** Every run ends: an error comes without a requeue, a requeue is after 15
    or 30 seconds or the info interval of the class, and the process panics only
    if the PV has no CSI source, the VolumeGroupReplication is already gone while
    the instance is being deleted, the class has no provisioner, or the server
    changed the kind of the data source under the controller. *)
Theorem VR_ends_well ρ timeout req :
  let '(h, o) := run ρ [] (Reconcile timeout req) in
  match o with
  | Panicked _ =>
    (exists key pv, existT (EGet KPersistentVolume key) (inr pv) ∈ h /\ pv.(pv_CSI) = None) \/
    (deletion_requested h /\
     exists key err, existT (EGet KVolumeGroupReplication key) (inl err) ∈ h /\ IsNotFound err = true) \/
    (exists cls, latest class_by h = Some cls /\ cls.(Provisioner) = "") \/
    (exists vr v, latest fetched_by h = Some vr /\ latest vr_by h = Some v /\ vr_kind v ≠ vr_kind vr)
  | Done (res, Some _) => res = no_requeue
  | Done (res, None) =>
    res = no_requeue \/ exists cls d, latest class_by h = Some cls /\ res = mkResult true d /\
      d ∈ [(15 * second)%Z; (30 * second)%Z; getInfoReconcileInterval
             (filterPrefixedParameters replicationParameterPrefix cls.(Parameters))]
  end.
Proof.
  destruct (run ρ [] _) as [h o] eqn:Hrun. eapply wp_result in Hrun.
  2: { eapply wp_mono; [apply Reconcile_wp|done|]. intros h' o' H. exact H. }
  destruct o as [[res [err|]]|m]; [done| |done].
  destruct Hrun as [?|(cls & d & ? & ? & ?)]; [by left|]. right. by exists cls, d.
Qed.

(** The info interval is an hour unless the class has a parsable
    schedulingInterval; then it is half of it (rounded toward zero), or all of it
    below two minutes.  It stays a 64-bit duration, never exceeds the scheduling
    interval, and is positive exactly when the scheduling interval is: the
    controller does not protect itself against a zero or negative one. *)
Theorem info_interval parameters :
  let raw := map_get parameters "schedulingInterval" in
  let d := getInfoReconcileInterval parameters in
  match ParseDuration raw with
  | inr t =>
    raw ≠ "" /\ (- 2 ^ 63 <= d < 2 ^ 63)%Z /\ (0 < d <-> 0 < t)%Z /\
    (2 * minute <= t -> minute <= d /\ 2 * d <= t < 2 * d + 2)%Z /\ (t < 2 * minute -> d = t)%Z
  | inl _ => d = hour
  end.
Proof.
  unfold getInfoReconcileInterval. set (raw := map_get parameters "schedulingInterval").
  case_bool_decide as Hraw.
  { rewrite Hraw. done. }
  destruct (ParseDuration raw) as [err|t] eqn:Ht; [done|].
  apply ParseDuration_range in Ht. unfold min_int64, max_int64 in Ht.
  assert (minute = 60000000000)%Z as Hm by done. rewrite Hm.
  destruct (Z.ltb_spec t (2 * 60000000000)) as [Hlt|Hge].
  - split_and!; [done|lia..].
  - rewrite Z.quot_div_nonneg by lia.
    pose proof (Z.div_mod t 2). pose proof (Z.mod_pos_bound t 2). split_and!; [done|lia..].
Qed.
