(* ===== verification/VolumeReplicationLiveness.v ===== *)
(** * The VolumeReplication controller reaches the requested state

    The safety contract (VolumeReplicationProofs.v) is kept by a controller that
    does nothing; here are the runs in which every call succeeds: a volume asked
    to be primary becomes primary in one reconciliation. *)

From S2P Require Import Prelude.
From S2P Require Import GoErrors.
From S2P Require Import GoStrconv.
From S2P Require Import ApiTypes.
From S2P Require Import Effects.
From S2P Require Import Connection.
From S2P Require Import Client.
From S2P Require Import Conditions.
From S2P Require Import Ownership.
From S2P Require Import VolumeReplicationController.

(** An API server that accepts writes, and a driver behind [cc] that accepts the
    replication requests and reports [info].  The status of a VolumeReplication is
    a subresource: an Update leaves the stored status [st] alone and returns it, and
    only a status update writes one. *)
Record cooperative (ρ : env answer) (cc : ClientConn) (info : GetVolumeReplicationInfoResponse)
    (st : VolumeReplicationStatus) : Prop := {
  co_update h o : ρ h (EUpdate KVolumeReplication o) = inr (vr_set_status o st);
  co_update_pvc h o : ρ h (EUpdate KPersistentVolumeClaim o) = inr o;
  co_status h o : ρ h (EStatusUpdate KVolumeReplication o) = inr o;
  co_enable h t q : ρ h (ERpc cc t (EnableVolumeReplication q)) = inr tt;
  co_promote h t q : ρ h (ERpc cc t (PromoteVolume q)) = inr tt;
  co_demote h t q : ρ h (ERpc cc t (DemoteVolume q)) = inr tt;
  co_info h t q : ρ h (ERpc cc t (GetVolumeReplicationInfo q)) = inr info
}.

(** The last call of [h] wrote the status [o]. *)
Definition wrote_status (o : VR) (h : hist) : Prop :=
  exists h0, h = existT (EStatusUpdate KVolumeReplication o) (inr o) :: h0.

Section cooperative.
Context (ρ : env answer) (cc : ClientConn) (info : GetVolumeReplicationInfoResponse) (timeout : Z).
Context (st : VolumeReplicationStatus) (Hco : cooperative ρ cc info st).

Abbreviation client := (NewVolumeReplicationClient cc timeout).

Lemma update_vr_run h (o : VR) :
  @run event answer (VR * option error) ρ h (update_obj KVolumeReplication o) =
  (existT (EUpdate KVolumeReplication o) (inr (vr_set_status o st)) :: h, Done (vr_set_status o st, None)).
Proof. unfold update_obj. simpl. by rewrite (co_update _ _ _ _ Hco). Qed.

Lemma status_run h i state msg :
  let o := vr_set_status i (set_State i.(vr_Status) state msg (vr_gen i)) in
  run ρ h (updateReplicationStatus i state msg) =
  (existT (EStatusUpdate KVolumeReplication o) (inr o) :: h, Done (o, None)).
Proof. unfold updateReplicationStatus, status_update_obj. simpl. by rewrite (co_status _ _ _ _ Hco). Qed.

Context (p : CommonRequestParameters) (Hclient : p.(p_Replication) = client).
Context (Hid : exists id, getID (mkReplication p false) = inr id).

Lemma enable_run h i : exists h', run ρ h (enableReplication i p) = (h', Done (i, None)).
Proof.
  destruct Hid as [id Hid']. unfold enableReplication, Enable. rewrite Hid'. simpl. rewrite Hclient. simpl.
  rewrite (co_enable _ _ _ _ Hco). simpl. by eexists.
Qed.

Lemma promote_run h i : exists h', run ρ h (markVolumeAsPrimary i p) = (h', Done (i, None)).
Proof.
  destruct Hid as [id Hid']. unfold markVolumeAsPrimary, Promote. rewrite Hid'. simpl. rewrite Hclient. simpl.
  rewrite (co_promote _ _ _ _ Hco). simpl. by eexists.
Qed.

Lemma info_run h : exists h', run ρ h (getVolumeReplicationInfo p) = (h', Done (inr (Some info))).
Proof.
  destruct Hid as [id Hid']. unfold getVolumeReplicationInfo, GetInfo. rewrite Hid'. simpl. rewrite Hclient. simpl.
  rewrite (co_info _ _ _ _ Hco). simpl. by eexists.
Qed.

Lemma reconcile_primary_run h i :
  vr_spec_state i = Primary -> vr_state i ≠ PrimaryState ->
  exists h' now, run ρ h (reconcile_primary i p) =
    (h', Done (Continue (map_conditions (fun l => setPromotedCondition now l (vr_gen i) (vr_kind i)) i)
                 false None)).
Proof.
  intros Hsp Hst. unfold reconcile_primary. rewrite bool_decide_eq_false_2 by done. cbn [negb].
  rewrite run_bind. destruct (enable_run h i) as [h1 ->].
  rewrite run_bind. destruct (promote_run h1 i) as [h2 ->]. simpl. by eexists _, _.
Qed.

Lemma finish_primary_run h i parameters msg :
  vr_spec_state i = Primary ->
  exists h' o, run ρ h (finish_status i parameters msg true) =
    (h', Done (mkResult true (getInfoReconcileInterval parameters), None)) /\
    wrote_status o h' /\ vr_state o = PrimaryState /\
    o.(vr_Status).(ObservedGeneration) = vr_gen i /\
    summary o.(vr_Status).(Conditions) = summary i.(vr_Status).(Conditions).
Proof.
  intros Hsp. unfold finish_status. rewrite Hsp. rewrite bool_decide_eq_false_2 by done.
  rewrite run_bind, status_run. cbn [run mret prog_ret].
  eexists _, _. split_and!; [done|by eexists|by rewrite Hsp|done|done].
Qed.

Lemma summary_setReplication now i ds m health :
  summary (setReplicationCondition now i ds m health).(vr_Status).(Conditions) =
  summary i.(vr_Status).(Conditions).
Proof.
  unfold summary, setReplicationCondition; simpl. unfold_setters.
  destruct health; by rewrite ?status_of_set_at.
Qed.

(** The final status of a primary: the state, the conditions, the interval. *)
Lemma finish_success_run h i parameters :
  vr_spec_state i = Primary ->
  exists h' o, run ρ h (finish_success i p parameters) =
    (h', Done (mkResult true (getInfoReconcileInterval parameters), None)) /\
    wrote_status o h' /\ vr_state o = PrimaryState /\
    o.(vr_Status).(ObservedGeneration) = vr_gen i /\
    summary o.(vr_Status).(Conditions) = summary i.(vr_Status).(Conditions).
Proof.
  intros Hsp. unfold finish_success. cbn [run call mbind prog_bind].
  set (t := ρ h ENow). set (h0 := existT ENow t :: h).
  change (vr_spec_state (vr_set_status i _)) with (vr_spec_state i).
  rewrite bool_decide_eq_true_2 by done. rewrite run_bind.
  unfold primary_info. rewrite run_bind.
  destruct (info_run h0) as [h1 ->]. cbn [run call mbind prog_bind mret prog_ret].
  set (i1 := record_sync _ _). set (i2 := setReplicationCondition _ _ _ _ _).
  destruct (finish_primary_run (existT EClock (ρ h1 EClock) :: h1) i2 parameters (success_message i))
    as (h' & o & Hrun & Hw & Hst & Hgen & Hc).
  { unfold i2, i1, record_sync. by destruct (Some info ≫= _). }
  exists h', o. split_and!; [exact Hrun|done..| |].
  - rewrite Hgen. unfold i2, i1, record_sync. by destruct (Some info ≫= _).
  - rewrite Hc. unfold i2. rewrite summary_setReplication. unfold i1, record_sync.
    by destruct (Some info ≫= _).
Qed.

(** From the fetched objects to a primary volume. *)
Lemma replicate_run h i parameters :
  vr_spec_state i = Primary -> st.(State) ≠ PrimaryState ->
  exists h' o, run ρ h (replicate i p parameters) =
    (h', Done (mkResult true (getInfoReconcileInterval parameters), None)) /\
    wrote_status o h' /\ vr_state o = PrimaryState /\
    o.(vr_Status).(ObservedGeneration) = vr_gen i /\
    summary o.(vr_Status).(Conditions) = (Some ConditionTrue, Some ConditionFalse, Some ConditionFalse).
Proof.
  intros Hsp Hst. unfold replicate. cbn [run call mbind prog_bind].
  rewrite run_bind, update_vr_run. set (h1 := existT (EUpdate _ _) _ :: _).
  set (i1 := vr_set_status _ st). assert (vr_spec_state i1 = Primary) as Hsp1 by done.
  unfold reconcile_state. rewrite bool_decide_eq_true_2 by done. rewrite run_bind.
  destruct (reconcile_primary_run h1 i1) as (h2 & now & ->); [done|done|].
  set (i2 := map_conditions _ i1).
  destruct (finish_success_run h2 i2 parameters) as (h' & o & Hrun & Hw & Hs & Hg & Hc); [done|].
  exists h', o. split_and!; [exact Hrun|done..|]. rewrite Hc. simpl.
  unfold summary. unfold_setters. by rewrite !status_of_set_at.
Qed.
End cooperative.

(** ** The whole run *)

(** A volume that may be replicated: a bound PVC that is not being deleted and is
    unclaimed or already ours, on a CSI volume with a handle. *)
Record replicable (vr : VR) (pvc : PersistentVolumeClaim) (pv : PersistentVolume) : Prop := {
  re_kind : vr_kind vr = pvcDataSource;
  re_live : is_deleting vr = false;
  re_bound : pvc.(pvc_Phase) = ClaimBound;
  re_pvc_live : is_deleting pvc = false;
  re_unclaimed : annotation pvc VolumeGroupReplicationNameAnnotation = "";
  re_owner : annotation pvc VolumeReplicationNameAnnotation = "" \/
             annotation pvc VolumeReplicationNameAnnotation = obj_Name vr;
  re_handle : exists csi, pv.(pv_CSI) = Some csi /\ csi.(csi_VolumeHandle) ≠ ""
}.

(** The objects the API server serves for the request, and a leader that can be
    connected to and supports replication. *)
Record serves (ρ : env answer) (cc : ClientConn) (req : NamespacedName) (vr : VR)
    (cls : ReplicationClass) (pvc : PersistentVolumeClaim) (pv : PersistentVolume) : Prop := {
  se_vr h : ρ h (EGet KVolumeReplication req) = inr vr;
  se_class h : ρ h (EGet KVolumeReplicationClass (mkNamespacedName "" vr.(vr_Spec).(VolumeReplicationClass))) = inr cls;
  se_valid : map_Forall (fun k v => validateParameter k v = None) cls.(Parameters);
  se_pvc h : ρ h (EGet KPersistentVolumeClaim
    (mkNamespacedName (nn_Namespace req) vr.(vr_Spec).(DataSource).(ds_Name))) = inr pvc;
  se_pv h : ρ h (EGet KPersistentVolume (mkNamespacedName "" pvc.(pvc_VolumeName))) = inr pv;
  se_leader h : exists h' conn, run ρ h (GetLeaderByDriver cls.(Provisioner)) = (h', Done (inr conn)) /\
    conn.(Effects.Client) = Some cc /\ supports_replication conn.(Capabilities) pvcDataSource = true
}.

Section whole_run.
Context (ρ : env answer) (cc : ClientConn) (info : GetVolumeReplicationInfoResponse) (timeout : Z).
Context (vr : VR) (Hco : cooperative ρ cc info vr.(vr_Status)).
Context (pvc : PersistentVolumeClaim) (pv : PersistentVolume) (Hre : replicable vr pvc pv).

(** Adding a finalizer always succeeds and changes only the finalizers. *)
Lemma addFinalizerToVR_run h :
  exists h' (i : VR), run ρ h (addFinalizerToVR vr) = (h', Done (i, None)) /\
    i.(vr_Spec) = vr.(vr_Spec) /\ i.(vr_Status) = vr.(vr_Status) /\ vr_gen i = vr_gen vr /\
    obj_Name i = obj_Name vr.
Proof.
  unfold addFinalizerToVR, add_finalizer, update_obj. case_match; simpl; rewrite ?(co_update _ _ _ _ Hco); by eexists _, _.
Qed.

Lemma addFinalizerToPVC_run h c fin :
  exists h' (c' : PersistentVolumeClaim), run ρ h (addFinalizerToPVC c fin) = (h', Done (c', None)).
Proof.
  unfold addFinalizerToPVC, add_finalizer, update_obj. case_match; simpl; rewrite ?(co_update_pvc _ _ _ _ Hco); by eexists _, _.
Qed.

Lemma annotate_run h (i : VR) : obj_Name i = obj_Name vr ->
  exists h' pvc', run ρ h (annotatePVCWithOwner (obj_Name i) pvc VolumeReplicationNameAnnotation) =
    (h', Done (pvc', None)).
Proof.
  intros ->. unfold annotatePVCWithOwner. rewrite (re_unclaimed _ _ _ Hre).
  rewrite (bool_decide_eq_true_2 ("" = "")), andb_false_r by done.
  unfold claim_ownership, update_obj. destruct (re_owner _ _ _ Hre) as [Ha|Ha].
  - rewrite (bool_decide_eq_true_2 (_ = "")) by done. simpl. rewrite (co_update_pvc _ _ _ _ Hco). simpl. eauto.
  - case_bool_decide; [simpl; rewrite (co_update_pvc _ _ _ _ Hco); simpl; eauto|].
    rewrite bool_decide_eq_true_2 by done. simpl. eauto.
Qed.

Lemma take_ownership_run h req s :
  s.(s_pvc) = Some pvc ->
  exists h' i, run ρ h (take_ownership vr req s) = (h', Done (i, None)) /\
    i.(vr_Spec) = vr.(vr_Spec) /\ i.(vr_Status) = vr.(vr_Status) /\ vr_gen i = vr_gen vr.
Proof.
  intros Hs. unfold take_ownership. rewrite run_bind.
  destruct (addFinalizerToVR_run h) as (h1 & i & -> & Hsp & Hst & Hgen & Hname).
  assert (vr_kind i = pvcDataSource) as Hk by (unfold vr_kind; rewrite Hsp; apply (re_kind _ _ _ Hre)).
  cbn beta iota. rewrite bool_decide_eq_true_2 by done. rewrite Hs, run_bind.
  destruct (annotate_run h1 i Hname) as (h2 & pvc2 & ->). rewrite run_bind.
  destruct (addFinalizerToPVC_run h2 pvc2 pvcReplicationFinalizer) as (h3 & pvc3 & ->). by exists h3, i.
Qed.

Lemma resolve_run h req : forall cls, serves ρ cc req vr cls pvc pv ->
  exists h' csi, run ρ h (resolve_sources vr req) =
    (h', Done (inr (mkSources csi.(csi_VolumeHandle) (Some pvc) "" None None))) /\
    csi.(csi_VolumeHandle) ≠ "".
Proof.
  intros cls Hse. unfold resolve_sources, getPVCDataSource, get_obj.
  rewrite (bool_decide_eq_true_2 (vr_kind vr = _)) by apply (re_kind _ _ _ Hre).
  cbn [run call mbind prog_bind]. rewrite (se_pvc _ _ _ _ _ _ _ Hse). cbn [mbind prog_bind].
  rewrite bool_decide_eq_true_2 by apply (re_bound _ _ _ Hre). cbn [negb].
  rewrite (re_pvc_live _ _ _ Hre). cbn [andb run call mbind prog_bind].
  rewrite (se_pv _ _ _ _ _ _ _ Hse). cbn [mbind prog_bind mret prog_ret].
  destruct (re_handle _ _ _ Hre) as (csi & -> & Hh). by eexists _, csi.
Qed.
End whole_run.

(** C17: A replicable volume becomes primary.  When every call succeeds (the status
    being a subresource that only status updates write), one reconciliation of a
    live instance that asks for primary and is not yet, for a claim that is bound to
    a CSI volume with a handle, not being deleted, in no group and unclaimed or
    its own, under a valid class whose driver has a leader that supports
    replication, ends without an error,
    requeues after the info interval of its class, and its last call writes the
    status Primary for the current generation, with the conditions Completed and
    neither Degraded nor Resyncing. *)
Theorem VR_becomes_primary ρ cc info timeout req vr cls pvc pv :
  cooperative ρ cc info vr.(vr_Status) -> serves ρ cc req vr cls pvc pv -> replicable vr pvc pv ->
  vr_spec_state vr = Primary -> vr_state vr ≠ PrimaryState ->
  let interval := getInfoReconcileInterval
    (filterPrefixedParameters replicationParameterPrefix cls.(Parameters)) in
  exists o h, run ρ [] (Reconcile timeout req) = (h, Done (mkResult true interval, None)) /\
    wrote_status o h /\ vr_state o = PrimaryState /\
    o.(vr_Status).(ObservedGeneration) = vr_gen vr /\
    summary o.(vr_Status).(Conditions) = (Some ConditionTrue, Some ConditionFalse, Some ConditionFalse).
Proof.
  intros Hco Hse Hre Hsp Hst interval. unfold Reconcile, get_obj.
  cbn [run call mbind prog_bind]. rewrite (se_vr _ _ _ _ _ _ _ Hse). cbn [mbind prog_bind].
  unfold getVolumeReplicationClass, get_obj. cbn [run call mbind prog_bind].
  rewrite (se_class _ _ _ _ _ _ _ Hse). unfold validatePrefixedParameters.
  cbn [run call mbind prog_bind mret prog_ret].
  rewrite (proj2 (validate_entries_None _)).
  2: { apply Forall_forall. intros [k v] Hkv%elem_of_map_range. by apply (se_valid _ _ _ _ _ _ _ Hse). }
  set (h0 := existT ERange _ :: _). rewrite run_bind.
  destruct (resolve_run ρ cc vr pvc pv Hre h0 req cls Hse) as (h1 & csi & Hres & Hh).
  unfold result in Hres. rewrite Hres.
  unfold reconcile_with_sources, getReplicationClient. rewrite run_bind, run_bind.
  destruct (se_leader _ _ _ _ _ _ _ Hse h1) as (h2 & conn & -> & Hcc & Hsup).
  rewrite (re_kind _ _ _ Hre), Hsup, Hcc.
  rewrite (bool_decide_eq_true_2 (pvcDataSource = pvcDataSource)) by done.
  cbn [run mret prog_ret volumeHandle groupHandle]. set (p := mkParams _ _ _ _ _ _ _).
  rewrite (re_live _ _ _ Hre). cbn [negb]. rewrite run_bind.
  destruct (take_ownership_run ρ cc info vr Hco pvc pv Hre h2 req
    (mkSources (csi_VolumeHandle csi) (Some pvc) "" None None)) as (h3 & i & -> & Hspec & Hstat & Hgen); [done|].
  destruct (replicate_run ρ cc info timeout vr.(vr_Status) Hco p) with (h := h3) (i := i)
    (parameters := filterPrefixedParameters replicationParameterPrefix cls.(Parameters))
    as (h' & o & Hrun & ? & ? & Hog & ?).
  - done.
  - exists (csi_VolumeHandle csi). unfold getID. simpl. by rewrite bool_decide_eq_false_2.
  - unfold vr_spec_state in *. congruence.
  - exact Hst.
  - exists o, h'. split_and!; [exact Hrun|done..|congruence|done].
Qed.

(** A concrete cluster: one driver, its leader connected, one bound PVC. *)
Module Example_cluster.
Definition cc := mkClientConn 7 "10.0.0.1:9070" false.
Definition conn := mkConnection (Some cc) [CapService 1; CapVolumeReplication 1] "storage" "node"
  "worker-1" "rbd" 60 false "10.0.0.1:9070" "pod".
Definition info := mkInfo (Some 100%Z) None 4096 INFO_HEALTHY "ok".
Definition status0 := mkVRStatus "" "" [] 0 None None None None None.
Definition vr := mkVR (mkObjectMeta "vr" "ns" "uid" 3 (Some 1%Z) None ∅ ∅ [] [])
  (mkVRSpec "class" Primary (mkDataSource None "PersistentVolumeClaim" "claim") false "") status0.
Definition cls := mkClass (new_meta "" "class") "rbd"
  {["schedulingInterval" := "10m"; prefixedReplicationSecretNameKey := "s";
    prefixedReplicationSecretNamespaceKey := "sns"]}.
Definition pvc := mkPVC (new_meta "ns" "claim") "pv" None ClaimBound.
Definition pv := mkPV (new_meta "" "pv") (Some (mkCSI "rbd" "vol-1")).
Definition lease := mkLease (new_meta "storage" "rbd-csi-addons") (Some "pod").

Definition ρ : env answer := fun _ e =>
  match e return answer e with
  | EGet KVolumeReplication _ => inr vr
  | EGet KVolumeReplicationClass _ => inr cls
  | EGet KPersistentVolumeClaim _ => inr pvc
  | EGet KPersistentVolume _ => inr pv
  | EGet KLease _ => inr lease
  | EUpdate KVolumeReplication o => inr (vr_set_status o status0)
  | EUpdate _ o => inr o
  | EStatusUpdate k o => inr o
  | EReadPool => {["storage/pod" := conn]}
  | ERpc _ _ (EnableVolumeReplication _) | ERpc _ _ (PromoteVolume _)
  | ERpc _ _ (DemoteVolume _) => inr tt
  | ERpc _ _ (GetVolumeReplicationInfo _) => inr info
  | e => refused e
  end.
End Example_cluster.

Lemma VR_becomes_primary_witness :
  exists o h, run Example_cluster.ρ [] (Reconcile 60 (mkNamespacedName "ns" "vr")) =
    (h, Done (mkResult true (5 * minute), None)) /\ vr_state o = PrimaryState.
Proof.
  destruct (VR_becomes_primary Example_cluster.ρ Example_cluster.cc Example_cluster.info 60
              (mkNamespacedName "ns" "vr") Example_cluster.vr Example_cluster.cls
              Example_cluster.pvc Example_cluster.pv) as (o & h & Hrun & _ & Hst & _).
  - constructor; reflexivity.
  - constructor; try reflexivity.
    + apply (bool_decide_unpack _). vm_compute. exact I.
    + intros h. eexists _, _. split; [vm_compute; reflexivity|]. split; vm_compute; reflexivity.
  - constructor; try reflexivity.
    + left. reflexivity.
    + eexists. split; [reflexivity|]. discriminate.
  - reflexivity.
  - discriminate.
  - exists o, h. split; [|exact Hst]. etransitivity; [exact Hrun|]. vm_compute. reflexivity.
Defined.

(** Deleting an instance whose VolumeGroupReplication is already gone panics:
    whenever the server answers NotFound for the group of an instance that is
    being deleted, still has our finalizer and names a group, and the leader
    supports replication, the run ends in a nil pointer dereference instead of
    releasing the instance. *)
Theorem VR_deletion_panics_without_group (ρ : env answer) timeout req vr cls nf :
  vr_kind vr = volumeGroupReplicationDataSource -> is_deleting vr = true ->
  volumeReplicationFinalizer ∈ finalizers vr ->
  (forall h, ρ h (EGet KVolumeReplication req) = inr vr) ->
  (forall h key, ρ h (EGet KVolumeReplicationClass key) = inr cls) ->
  map_Forall (fun k v => validateParameter k v = None) cls.(Parameters) ->
  (forall h key, ρ h (EGet KVolumeGroupReplication key) = inl nf) -> IsNotFound nf = true ->
  (forall h, exists h' conn, run ρ h (GetLeaderByDriver cls.(Provisioner)) = (h', Done (inr conn)) /\
     is_Some conn.(Effects.Client) /\
     supports_replication conn.(Capabilities) volumeGroupReplicationDataSource = true) ->
  snd (run ρ [] (Reconcile timeout req)) = Panicked "nil pointer dereference: vgr.Annotations".
Proof.
  intros Hk Hdel Hfin Hvr Hcls Hvalid Hvgr Hnf Hleader. unfold Reconcile, get_obj.
  cbn [run call mbind prog_bind]. rewrite Hvr. cbn [mbind prog_bind].
  unfold getVolumeReplicationClass, get_obj. cbn [run call mbind prog_bind]. rewrite Hcls.
  unfold validatePrefixedParameters. cbn [run call mbind prog_bind mret prog_ret].
  rewrite (proj2 (validate_entries_None _)).
  2: { apply Forall_forall. intros [k v] Hkv%elem_of_map_range. by apply Hvalid. }
  unfold resolve_sources, getVolumeGroupReplicationDataSource, get_obj. rewrite Hk.
  rewrite (bool_decide_eq_false_2 (volumeGroupReplicationDataSource = pvcDataSource)) by done.
  rewrite (bool_decide_eq_true_2 (volumeGroupReplicationDataSource = _)) by done.
  cbn [run call mbind prog_bind]. rewrite Hvgr. cbn [run call mbind prog_bind mret prog_ret].
  rewrite Hnf, Hdel. cbn [andb run call mbind prog_bind mret prog_ret].
  unfold reconcile_with_sources, getReplicationClient. rewrite run_bind, run_bind.
  match goal with |- context [run ρ ?h (GetLeaderByDriver _)] =>
    destruct (Hleader h) as (h' & conn & -> & [cc Hcc] & Hsup) end.
  rewrite Hk, Hsup, Hcc. rewrite (bool_decide_eq_false_2 (volumeGroupReplicationDataSource = pvcDataSource)) by done.
  cbn [run mret prog_ret]. rewrite Hdel. cbn [negb]. unfold handle_deletion.
  rewrite (proj2 (contains_true _ _)) by done. unfold release_all, release_sources. rewrite Hk. done.
Qed.

Lemma VR_deletion_panics_without_group_witness :
  let vr := mkVR (mkObjectMeta "vr" "ns" "uid" 3 (Some 1%Z) (Some 5%Z) ∅ ∅ [volumeReplicationFinalizer] [])
    (mkVRSpec "class" Primary (mkDataSource None "VolumeGroupReplication" "g") false "")
    Example_cluster.status0 in
  let ρ : env answer := fun h e =>
    match e return answer e with
    | EGet KVolumeReplication _ => inr vr
    | EGet KVolumeGroupReplication _ => inl (APIStatus ReasonNotFound 404 "not found")
    | e => Example_cluster.ρ h e
    end in
  snd (run ρ [] (Reconcile 60 (mkNamespacedName "ns" "vr"))) =
  Panicked "nil pointer dereference: vgr.Annotations".
Proof.
  intros vr ρ.
  apply (VR_deletion_panics_without_group ρ 60 (mkNamespacedName "ns" "vr") vr Example_cluster.cls
           (APIStatus ReasonNotFound 404 "not found")); try reflexivity.
  - left.
  - apply (bool_decide_unpack _). vm_compute. exact I.
  - intros h. eexists _, _. split; [vm_compute; reflexivity|]. split; [eexists|]; vm_compute; reflexivity.
Defined.
