(* ===== verification/VolumeGroupReplicationController.v ===== *)
(** * The VolumeGroupReplication controller

    src/internal/controller/replication.storage/volumegroupreplication_controller.go
    with SetOwnerReference of the vendored controllerutil, its watch predicates and request mappings, and
    WaitForVolumeReplicationResource of utils.go.  Label selectors are
    apimachinery's: a selector is its string form. *)

From S2P Require Import Prelude.
From S2P Require Import GoErrors.
From S2P Require Import GoStrconv.
From S2P Require Import ApiTypes.
From S2P Require Import Effects.
From S2P Require Import ControllerUtil.
From S2P Require Import Client.
From S2P Require Import Conditions.
From S2P Require Import Ownership.
From S2P Require Config.

Abbreviation VGR := VolumeGroupReplication.
Abbreviation VGRC := VolumeGroupReplicationContent.

Definition volumeGroupReplicationRef := "replication.storage.openshift.io/volumegroupref".
Definition pvcSelector := "pvcSelector".
Definition annDynamicallyProvisioned := "replication.storage.openshift.io/provisioned-by".

(** ** Field updates *)

Definition vgr_set_status (i : VGR) (s : VolumeGroupReplicationStatus) : VGR :=
  mkVGR i.(vgr_APIVersion) i.(vgr_Kind) i.(vgr_meta) i.(vgr_Spec) s.
Definition vgr_status (i : VGR) : VolumeReplicationStatus :=
  i.(vgr_Status).(VolumeReplicationStatusOf).
Definition vgr_refs (i : VGR) : option (list string) :=
  i.(vgr_Status).(PersistentVolumeClaimsRefList).
Definition vgr_set_names (i : VGR) (vrName contentName : string) : VGR :=
  let s := i.(vgr_Spec) in
  mkVGR i.(vgr_APIVersion) i.(vgr_Kind) i.(vgr_meta)
    (mkVGRSpec s.(vgr_VolumeGroupReplicationClassName) s.(vgr_VolumeReplicationClassName)
       vrName contentName s.(vgr_Selector) s.(vgr_ReplicationState) s.(vgr_AutoResync)
       s.(vgr_External)) i.(vgr_Status).
Definition vgrc_set_spec (c : VGRC) (s : VolumeGroupReplicationContentSpec) : VGRC :=
  mkVGRC c.(vgrc_meta) s c.(vgrc_PersistentVolumeRefList).
Definition vgrc_handle (c : VGRC) : string := c.(vgrc_Spec).(vgrc_VolumeGroupReplicationHandle).

(** ** Watches *)

Definition watchOnlyStatusUpdates (oldObj newObj : option VolumeReplication) : bool :=
  match oldObj, newObj with
  | Some o, Some n => negb (bool_decide (o.(vr_Status) = n.(vr_Status)))
  | _, _ => false
  end.

Definition watchOnlySpecUpdates (oldObj newObj : option VGRC) : bool :=
  match oldObj, newObj with
  | Some o, Some n => negb (bool_decide (o.(vgrc_Spec) = n.(vgrc_Spec)))
  | _, _ => false
  end.

(** The request for the owner named by an object's annotation.  Only one key
    matters, so the order of ranging over the map does not. *)
Definition enqueueVGRRequest (annotations : gmap string string) : outcome (list NamespacedName) :=
  match annotations !! volumeGroupReplicationRef with
  | None => Done []
  | Some v =>
    match Split v with
    | ns :: name :: _ =>
      if bool_decide (name = "") || bool_decide (ns = "") then Done []
      else Done [mkNamespacedName ns name]
    | _ => Panicked "index out of range [1] with length 1"
    end
  end.

Section selectors.
(** labels.Parse and Selector.Matches. *)
Variable labels_Parse : string -> error + string.
Variable Matches : string -> gmap string string -> bool.

Fixpoint first_match (objLabels : gmap string string) (vgrs : list VGR) : list NamespacedName :=
  match vgrs with
  | [] => []
  | vgr :: vgrs =>
    if vgr.(vgr_Spec).(vgr_External) then first_match objLabels vgrs
    else if bool_decide (annotation vgr pvcSelector = "") then first_match objLabels vgrs
    else
    match labels_Parse (annotation vgr pvcSelector) with
    | inl _ => []
    | inr sel =>
      if Matches sel objLabels then [obj_key vgr] else first_match objLabels vgrs
    end
  end.

Definition enqueueVGRForPVCRequest (objLabels : gmap string string) : M (list NamespacedName) :=
  if bool_decide (objLabels = ∅) then mret []
  else
    r ← call (EList KVolumeGroupReplication None "");
    match r with
    | inl _ => mret []
    | inr vgrs => mret (first_match objLabels vgrs)
    end.
End selectors.

(** ** Waiting for the CRDs *)

(** The loop has no bound: [None] when [fuel] rounds were not enough. *)
Fixpoint WaitForVolumeReplicationResource (fuel : nat) (resource : kind)
    : M (option (option error)) :=
  match fuel with
  | O => mret None
  | S fuel =>
    r ← call (EList resource None "");
    match r with
    | inr _ => mret (Some None)
    | inl err =>
      if negb (as_nomatch err) then mret (Some (Some err))
      else
        _ ← call (ESleep (5 * second));
        WaitForVolumeReplicationResource fuel resource
    end
  end.

Definition waitForCrds (fuel : nat) : M (option (option error)) :=
  r ← WaitForVolumeReplicationResource fuel KVolumeReplicationClass;
  match r with
  | Some None => WaitForVolumeReplicationResource fuel KVolumeReplication
  | r => mret r
  end.

Definition waitForGroupCrds (fuel : nat) : M (option (option error)) :=
  r ← WaitForVolumeReplicationResource fuel KVolumeGroupReplicationClass;
  match r with
  | Some None =>
    r ← WaitForVolumeReplicationResource fuel KVolumeGroupReplication;
    match r with
    | Some None => WaitForVolumeReplicationResource fuel KVolumeGroupReplicationContent
    | r => mret r
    end
  | r => mret r
  end.

(** ** The reconciler *)

Definition string_le (a b : string) : Prop := String.leb a b = true.
#[global] Instance string_le_dec : RelDecision string_le.
Proof. intros a b. unfold string_le. apply _. Defined.

Section controller.
(** metav1.LabelSelectorAsSelector, and the (apiVersion, kind) the scheme knows
    for a VolumeGroupReplication. *)
Variable LabelSelectorAsSelector : option LabelSelector -> error + string.
Variable GVKForObject : error + string * string.
Variable MaxGroupPVCCount : Z.

Definition result : Type := Result * option error.

Definition setGroupReplicationFailure (instance : VGR) (err : error) : M (VGR * option error) :=
  let s := vgr_status instance in
  let instance := vgr_set_status instance
    (mkVGRStatus (set_State s (GetCurrentReplicationState s.(State)) (GetMessageFromError err)
                    (meta instance).(Generation))
       (vgr_refs instance)) in
  status_update_obj KVolumeGroupReplication instance.

Definition fail_group (instance : VGR) (err : error) : M result :=
  _ ← setGroupReplicationFailure instance err;
  mret (no_requeue, Some err).

(** *** The PVCs of the group *)

(** The two loops over the listed PVCs: warn about the members that are being
    deleted, collect the names of those that were never members. *)
Fixpoint removeDeletingPVC (instance : VGR) (pvcs : list PersistentVolumeClaim)
    : M (list string) :=
  match pvcs with
  | [] => mret []
  | pvc :: pvcs =>
    if is_deleting pvc then
      if contains (finalizers pvc) vgrReplicationFinalizer then
        _ ← call (EEventf KPersistentVolumeClaim (obj_key pvc) "Warning"
              "PersistentVolumeClaimDeletionBlocked" "deleting PersistentVolumeClaim"
              ("PersistentVolumeClaim is part of the group(" +:+ obj_Namespace instance +:+ "/" +:+
               obj_Name instance +:+ ") using matching label selector. Remove label from " +:+
               "PersistentVolumeClaim (" +:+ obj_Namespace pvc +:+ "/" +:+ obj_Name pvc +:+
               ") to allow deletion"));
        removeDeletingPVC instance pvcs
      else
        l ← removeDeletingPVC instance pvcs;
        mret (obj_Name pvc :: l)
    else removeDeletingPVC instance pvcs
  end.

Definition getMatchingPVCsFromSource (instance : VGR)
    : M (error + list PersistentVolumeClaim * string) :=
  match LabelSelectorAsSelector instance.(vgr_Spec).(vgr_Selector) with
  | inl err => mret (inl err)
  | inr selector =>
    r ← call (EList KPersistentVolumeClaim (Some selector) (obj_Namespace instance));
    match r with
    | inl err => mret (inl err)
    | inr pvcs =>
      removed ← removeDeletingPVC instance pvcs;
      mret (inr (filter (fun pvc : PersistentVolumeClaim => contains removed (obj_Name pvc) = false) pvcs,
                 selector))
    end
  end.

Fixpoint collect_handles (provisioner : string) (pvcs : list PersistentVolumeClaim)
    : M (error + list string) :=
  match pvcs with
  | [] => mret (inr [])
  | pvc :: pvcs =>
    r ← get_obj KPersistentVolume (mkNamespacedName "" pvc.(pvc_VolumeName));
    match r with
    | inl err => mret (inl err)
    | inr pv =>
      match pv.(pv_CSI) with
      | None => mret (inl (ErrorString ("pvc " +:+ obj_Name pvc +:+ " is not bound to a CSI PV")))
      | Some csi =>
        if negb (bool_decide (csi.(csi_Driver) = provisioner)) then
          mret (inl (ErrorString ("driver (" +:+ obj_Name pvc +:+ ") of PV for PVC " +:+
            csi.(csi_Driver) +:+ " is different than the VolumeGroupReplicationClass driver (" +:+
            provisioner +:+ ")")))
        else
          r ← collect_handles provisioner pvcs;
          mret match r with inl err => inl err | inr l => inr (csi.(csi_VolumeHandle) :: l) end
      end
    end
  end.

Definition getPVHandles (vgrClass : ReplicationClass) (pvcs : list PersistentVolumeClaim)
    : M (error + list string) :=
  r ← collect_handles vgrClass.(Provisioner) pvcs;
  mret match r with inl err => inl err | inr l => inr (merge_sort string_le l) end.

(** Taking a PVC into the group, and letting it go. *)
Definition add_member (owner : string) (pvc : PersistentVolumeClaim) : M (option error) :=
  '(pvc, err) ← annotatePVCWithOwner owner pvc VolumeGroupReplicationNameAnnotation;
  match err with
  | Some err => mret (Some err)
  | None => '(_, err) ← addFinalizerToPVC pvc vgrReplicationFinalizer; mret err
  end.

Definition remove_member (pvc : PersistentVolumeClaim) : M (option error) :=
  '(pvc, err) ← removeOwnerFromPVCAnnotation pvc VolumeGroupReplicationNameAnnotation;
  match err with
  | Some err => mret (Some err)
  | None => '(_, err) ← removeFinalizerFromPVC pvc vgrReplicationFinalizer; mret err
  end.

Fixpoint each_err {A} (f : A -> M (option error)) (l : list A) : M (option error) :=
  match l with
  | [] => mret None
  | a :: l =>
    err ← f a;
    match err with
    | Some err => mret (Some err)
    | None => each_err f l
    end
  end.

(** The PVCs that were in the group and no longer match. *)
Fixpoint fetch_removed (ns : string) (current : list string) (names : list string)
    : M (error + list PersistentVolumeClaim) :=
  match names with
  | [] => mret (inr [])
  | name :: names =>
    if contains current name then fetch_removed ns current names
    else
      r ← get_obj KPersistentVolumeClaim (mkNamespacedName ns name);
      match r with
      | inl err => mret (inl err)
      | inr pvc =>
        r ← fetch_removed ns current names;
        mret match r with inl err => inl err | inr l => inr (pvc :: l) end
      end
  end.

Definition updateFinalizerAndAnnotationOnPVCs (vgr : VGR) (pvcList : list PersistentVolumeClaim)
    : M (error + list string) :=
  let oldPVCs : gmap string unit := list_to_map ((fun n => (n, tt)) <$> default [] (vgr_refs vgr)) in
  let pvcRefList := obj_Name <$> pvcList in
  let toAddPVCs := filter (fun pvc : PersistentVolumeClaim => oldPVCs !! obj_Name pvc = None) pvcList in
  seed ← call ERange;
  r ← fetch_removed (obj_Namespace vgr) pvcRefList (map_range seed oldPVCs).*1;
  match r with
  | inl err => mret (inl err)
  | inr toRemovePVCs =>
    err ← each_err (add_member (obj_Name vgr)) toAddPVCs;
    match err with
    | Some err => mret (inl err)
    | None =>
      err ← each_err remove_member toRemovePVCs;
      mret match err with Some err => inl err | None => inr pvcRefList end
    end
  end.

Definition cleanupGroupPVC (vgr : VGR) : M (option error) :=
  each_err (fun name =>
    r ← get_obj KPersistentVolumeClaim (mkNamespacedName (obj_Namespace vgr) name);
    match r with
    | inl err => mret (Some err)
    | inr pvc => remove_member pvc
    end) (default [] (vgr_refs vgr)).

(** *** The dependent objects *)

Definition vgr_reference (vgr : VGR) : ObjectReference :=
  mkObjectReference vgr.(vgr_APIVersion) vgr.(vgr_Kind) (obj_Name vgr) (obj_Namespace vgr)
    (meta vgr).(UID).

(** The MutateFn of createOrUpdateVolumeGroupReplicationContentCR. *)
Definition mutate_content (vgr : VGR) (driver : string) (pvHandlesList : list string) (c : VGRC)
    : VGRC * option error :=
  let vgrRef := obj_Namespace vgr +:+ "/" +:+ obj_Name vgr in
  if negb (bool_decide (vgr.(vgr_Spec).(vgr_VolumeGroupReplicationContentName) = ""))
     && is_new c then
    (c, Some (ErrorString "dependent VGRContent resource is not yet created, waiting for it to be created"))
  else if is_new c then
    let c := SetMetaDataAnnotation c volumeGroupReplicationRef vgrRef in
    (vgrc_set_spec c
       (mkVGRCSpec (Some (vgr_reference vgr)) "" driver
          vgr.(vgr_Spec).(vgr_VolumeGroupReplicationClassName) ∅ pvHandlesList), None)
  else
    let c := if negb (bool_decide (annotation c volumeGroupReplicationRef = vgrRef))
             then SetMetaDataAnnotation c volumeGroupReplicationRef vgrRef else c in
    let c := SetMetaDataAnnotation c annDynamicallyProvisioned driver in
    let s := c.(vgrc_Spec) in
    (vgrc_set_spec c
       (mkVGRCSpec (match s.(vgrc_VolumeGroupReplicationRef) with
                    | None => Some (vgr_reference vgr) | ref => ref end)
          s.(vgrc_VolumeGroupReplicationHandle) s.(vgrc_Provisioner)
          s.(vgrc_VolumeGroupReplicationClassName) s.(vgrc_VolumeGroupAttributes) pvHandlesList), None).

Definition createOrUpdateVolumeGroupReplicationContentCR (vgr : VGR) (c : VGRC) (driver : string)
    (pvHandlesList : list string) : M (VGRC * option error) :=
  CreateOrUpdate KVolumeGroupReplicationContent c (mutate_content vgr driver pvHandlesList).

(** controllerutil.SetOwnerReference for a VolumeReplication. *)
Definition SetOwnerReference (owner : VGR) (vr : VolumeReplication)
    : VolumeReplication * option error :=
  match validateOwner (obj_Namespace owner) (obj_Namespace vr) with
  | Some err => (vr, Some err)
  | None =>
    match GVKForObject with
    | inl err => (vr, Some err)
    | inr (apiVersion, kind) =>
      let ref := mkOwnerReference apiVersion kind (obj_Name owner) (meta owner).(UID) None None in
      (set_meta vr (set_OwnerReferences (meta vr) (upsertOwnerRef ref (meta vr).(OwnerReferences))), None)
    end
  end.

(** The MutateFn of createOrUpdateVolumeReplicationCR. *)
Definition mutate_vr (vgr : VGR) (vr : VolumeReplication) : VolumeReplication * option error :=
  let vr :=
    if is_new vr then
      mkVR (set_Annotations (meta vr)
              {[ volumeGroupReplicationRef := obj_Namespace vgr +:+ "/" +:+ obj_Name vgr ]})
        (mkVRSpec vgr.(vgr_Spec).(vgr_VolumeReplicationClassName) ""
           (mkDataSource (Some "replication.storage.openshift.io") vgr.(vgr_Kind) (obj_Name vgr))
           false "")
        vr.(vr_Status)
    else vr in
  let s := vr.(vr_Spec) in
  let vr := mkVR vr.(vr_meta)
    (mkVRSpec s.(VolumeReplicationClass) vgr.(vgr_Spec).(vgr_ReplicationState) s.(DataSource)
       vgr.(vgr_Spec).(vgr_AutoResync) s.(ReplicationHandle)) vr.(vr_Status) in
  SetOwnerReference vgr vr.

Definition createOrUpdateVolumeReplicationCR (vgr : VGR) (vr : VolumeReplication)
    : M (VolumeReplication * option error) :=
  CreateOrUpdate KVolumeReplication vr (mutate_vr vgr).

(** cleanupVR and cleanupVGRContent: a missing object is fine. *)
Definition cleanup (k : kind) (key : NamespacedName) : M (option error) :=
  r ← get_obj k key;
  match r with
  | inl err => if negb (IsNotFound err) then mret (Some err) else mret None
  | inr o => call (EDelete k o)
  end.

Definition cleanupVR (vgr : VGR) : M (option error) :=
  cleanup KVolumeReplication
    (mkNamespacedName (obj_Namespace vgr) vgr.(vgr_Spec).(vgr_VolumeReplicationName)).

Definition cleanupVGRContent (vgr : VGR) : M (option error) :=
  cleanup KVolumeGroupReplicationContent
    (mkNamespacedName "" vgr.(vgr_Spec).(vgr_VolumeGroupReplicationContentName)).

(** *** Reconcile

    The creation branch, cut after each write; [inl] is an early return. *)

(** Lines 176-206: the members and the selector annotation. *)
Definition sync_selector (instance : VGR) : M (result + VGR * list PersistentVolumeClaim) :=
  r ← getMatchingPVCsFromSource instance;
  match r with
  | inl err => r ← fail_group instance err; mret (inl r)
  | inr (pvcList, labelSelector) =>
    if (MaxGroupPVCCount <? Z.of_nat (length pvcList))%Z then
      r ← fail_group instance (ErrorString ("more than " +:+ go_quote_int MaxGroupPVCCount +:+
                                      " PVCs match the given selector"));
      mret (inl r)
    else if negb (bool_decide (annotation instance pvcSelector = labelSelector)) then
      '(instance, err) ← update_obj KVolumeGroupReplication
          (SetMetaDataAnnotation instance pvcSelector labelSelector);
      match err with
      | Some err => r ← fail_group instance err; mret (inl r)
      | None => mret (inr (instance, pvcList))
      end
    else mret (inr (instance, pvcList))
  end.

(** Lines 208-225: membership of the PVCs, and the list in the status. *)
Definition sync_refs (instance : VGR) (pvcList : list PersistentVolumeClaim) : M (result + VGR) :=
  r ← updateFinalizerAndAnnotationOnPVCs instance pvcList;
  match r with
  | inl err => r ← fail_group instance err; mret (inl r)
  | inr pvcRefList =>
    if negb (bool_decide (vgr_refs instance = Some pvcRefList)) then
      '(instance, err) ← status_update_obj KVolumeGroupReplication
          (vgr_set_status instance (mkVGRStatus (vgr_status instance) (Some pvcRefList)));
      match err with
      | Some err => r ← fail_group instance err; mret (inl r)
      | None => mret (inr instance)
      end
    else mret (inr instance)
  end.

(** Lines 226-249: the VolumeGroupReplicationContent. *)
Definition sync_content (instance : VGR) (cls : ReplicationClass) (c : VGRC)
    (pvcList : list PersistentVolumeClaim) : M (result + VGR * VGRC) :=
  r ← getPVHandles cls pvcList;
  match r with
  | inl err => r ← fail_group instance err; mret (inl r)
  | inr pvHandlesList =>
    '(c, err) ← createOrUpdateVolumeGroupReplicationContentCR instance c cls.(Provisioner) pvHandlesList;
    match err with
    | Some err => r ← fail_group instance err; mret (inl r)
    | None =>
      if bool_decide (instance.(vgr_Spec).(vgr_VolumeGroupReplicationContentName) = "") then
        '(instance, err) ← update_obj KVolumeGroupReplication
            (vgr_set_names instance instance.(vgr_Spec).(vgr_VolumeReplicationName) (obj_Name c));
        match err with
        | Some err => r ← fail_group instance err; mret (inl r)
        | None => mret (inr (instance, c))
        end
      else mret (inr (instance, c))
    end
  end.

(** Lines 251-275: the VolumeReplication, once the group has a handle. *)
Definition sync_vr (instance : VGR) (c : VGRC) (vr : VolumeReplication)
    : M (result + VGR * VolumeReplication) :=
  if bool_decide (vgrc_handle c = "") then mret (inl (no_requeue, None))
  else
    '(vr, err) ← createOrUpdateVolumeReplicationCR instance vr;
    match err with
    | Some err => r ← fail_group instance err; mret (inl r)
    | None =>
      if bool_decide (instance.(vgr_Spec).(vgr_VolumeReplicationName) = "") then
        '(instance, err) ← update_obj KVolumeGroupReplication
            (vgr_set_names instance (obj_Name vr)
               instance.(vgr_Spec).(vgr_VolumeGroupReplicationContentName));
        match err with
        | Some err => r ← fail_group instance err; mret (inl r)
        | None => mret (inr (instance, vr))
        end
      else mret (inr (instance, vr))
    end.

(** Lines 323-336: the group's status is the VolumeReplication's. *)
Definition final_status (instance : VGR) (vr : VolumeReplication) : M result :=
  let gen := (meta instance).(Generation) in
  let s := vr.(vr_Status) in
  let conds := (fun c => mkCondition c.(c_Type) c.(c_Status) gen c.(c_LastTransitionTime)
                           c.(c_Reason) c.(c_Message)) <$> s.(Conditions) in
  let s := set_Conditions (set_State s s.(State) s.(Message) gen) conds in
  '(_, err) ← status_update_obj KVolumeGroupReplication
      (vgr_set_status instance (mkVGRStatus s (vgr_refs instance)));
  mret (no_requeue, err).

Definition reconcile_live (instance : VGR) (cls : ReplicationClass) (c : VGRC)
    (vr : VolumeReplication) : M result :=
  '(instance, err) ← addFinalizerToVGR instance;
  match err with
  | Some err => mret (no_requeue, Some err)
  | None =>
    r ← sync_selector instance;
    match r with
    | inl r => mret r
    | inr (instance, pvcList) =>
      r ← sync_refs instance pvcList;
      match r with
      | inl r => mret r
      | inr instance =>
        r ← sync_content instance cls c pvcList;
        match r with
        | inl r => mret r
        | inr (instance, c) =>
          r ← sync_vr instance c vr;
          match r with
          | inl r => mret r
          | inr (instance, vr) => final_status instance vr
          end
        end
      end
    end
  end.

(** Lines 276-321: the group is being deleted. *)
Definition reconcile_deleted (instance : VGR) : M result :=
  err ← (if negb (bool_decide (instance.(vgr_Spec).(vgr_VolumeReplicationName) = ""))
         then cleanupVR instance else mret None);
  match err with
  | Some err => mret (no_requeue, Some err)
  | None =>
    err ← (if negb (bool_decide (instance.(vgr_Spec).(vgr_VolumeGroupReplicationContentName) = ""))
           then cleanupVGRContent instance else mret None);
    match err with
    | Some err => mret (no_requeue, Some err)
    | None =>
      if isSafeToDeleteVGR instance then
        err ← (match vgr_refs instance with Some _ => cleanupGroupPVC instance | None => mret None end);
        match err with
        | Some err => mret (no_requeue, Some err)
        | None => _ ← removeFinalizerFromVGR instance; mret (no_requeue, None)
        end
      else mret (mkResult false (10 * second), None)
    end
  end.

(** Lines 139-166: the dependent objects, before they are read. *)
Definition new_content (instance : VGR) (cls : ReplicationClass) : VGRC :=
  let name := instance.(vgr_Spec).(vgr_VolumeGroupReplicationContentName) in
  let name := if negb (bool_decide (name = "")) then name
              else "vgrcontent-" +:+ (meta instance).(UID) in
  let c := mkVGRC (new_meta "" name) (mkVGRCSpec None "" "" "" ∅ []) [] in
  let secretName := map_get cls.(Parameters) prefixedGroupReplicationSecretNameKey in
  let secretNamespace := map_get cls.(Parameters) prefixedGroupReplicationSecretNamespaceKey in
  if negb (bool_decide (secretName = "")) && negb (bool_decide (secretNamespace = "")) then
    SetMetaDataAnnotation
      (SetMetaDataAnnotation c prefixedGroupReplicationSecretNameKey secretName)
      prefixedGroupReplicationSecretNamespaceKey secretNamespace
  else c.

Definition empty_status : VolumeReplicationStatus := mkVRStatus "" "" [] 0 None None None None None.

Definition new_vr (instance : VGR) : VolumeReplication :=
  let name := instance.(vgr_Spec).(vgr_VolumeReplicationName) in
  let name := if negb (bool_decide (name = "")) then name else "vr-" +:+ (meta instance).(UID) in
  mkVR (new_meta (obj_Namespace instance) name)
    (mkVRSpec "" "" (mkDataSource None "" "") false "") empty_status.

Definition Reconcile (req : NamespacedName) : M result :=
  r ← get_obj KVolumeGroupReplication req;
  match r with
  | inl err => if IsNotFound err then mret (no_requeue, None) else mret (no_requeue, Some err)
  | inr instance =>
    if instance.(vgr_Spec).(vgr_External) then mret (no_requeue, None)
    else
    r ← getVolumeGroupReplicationClass instance.(vgr_Spec).(vgr_VolumeGroupReplicationClassName);
    match r with
    | inl err => fail_group instance err
    | inr cls =>
      verr ← validatePrefixedParameters cls.(Parameters);
      match verr with
      | Some err => fail_group instance err
      | None =>
        if negb (is_deleting instance)
        then reconcile_live instance cls (new_content instance cls) (new_vr instance)
        else reconcile_deleted instance
      end
    end
  end.
End controller.
