(* ===== verification/VolumeGroupReplicationProofs.v ===== *)
(** * Correctness of the VolumeGroupReplication controller

    Statements about Reconcile (VolumeGroupReplicationController.v) for every
    environment: the order in which the group and its dependent objects are
    created and given up, what its status may say, and that creating or updating
    a dependent object converges; then the parts with a functional contract:
    member selection, volume handles, request mapping and the wait loop. *)

From S2P Require Import Prelude.
From S2P Require Import GoErrors.
From S2P Require Import GoStrconv.
From S2P Require Import ApiTypes.
From S2P Require Import Effects.
From S2P Require Import ControllerUtil.
From S2P Require Import Client.
From S2P Require Import Conditions.
From S2P Require Import Ownership.
From S2P Require Import VolumeGroupReplicationController.
From S2P Require Config.

(** ** Convergence of CreateOrUpdate *)

Lemma referSameObject_refl r : ParseGroup r.(or_APIVersion) <> None -> referSameObject r r = true.
Proof.
  unfold referSameObject. destruct (ParseGroup _); [|done]. intros _.
  by rewrite !bool_decide_eq_true_2.
Qed.

Lemma upsertOwnerRef_idem ref l :
  ParseGroup ref.(or_APIVersion) <> None ->
  upsertOwnerRef ref (upsertOwnerRef ref l) = upsertOwnerRef ref l.
Proof.
  intros Hg. induction l as [|r l IH]; simpl.
  - by rewrite referSameObject_refl.
  - destruct (referSameObject r ref) eqn:Hr; simpl; [by rewrite referSameObject_refl|].
    by rewrite Hr, IH.
Qed.

Lemma is_new_SetMetaDataAnnotation {A} `{HasMeta A} (a : A) k v :
  is_new (SetMetaDataAnnotation a k v) = is_new a.
Proof. unfold is_new, SetMetaDataAnnotation, with_annotations. by rewrite meta_set_meta. Qed.

Lemma annotation_SetMeta {A} `{HasMeta A} (a : A) k v k' :
  annotation (SetMetaDataAnnotation a k v) k' = if decide (k' = k) then v else annotation a k'.
Proof.
  unfold SetMetaDataAnnotation. rewrite annotation_with. unfold map_get, annotation, map_get.
  case_decide as Hk; [by rewrite Hk, lookup_insert_eq|by rewrite lookup_insert_ne].
Qed.

Lemma SetMeta_twice (c : VGRC) k v :
  SetMetaDataAnnotation (SetMetaDataAnnotation c k v) k v = SetMetaDataAnnotation c k v.
Proof.
  unfold SetMetaDataAnnotation, with_annotations. simpl. by rewrite insert_insert_eq.
Qed.

(** The annotations a live group keeps on its content. *)
Definition mark_content (vgrRef driver : string) (c : VGRC) : VGRC :=
  let c := if negb (bool_decide (annotation c volumeGroupReplicationRef = vgrRef))
           then SetMetaDataAnnotation c volumeGroupReplicationRef vgrRef else c in
  SetMetaDataAnnotation c annDynamicallyProvisioned driver.

Lemma mark_content_idem vgrRef driver c s :
  mark_content vgrRef driver (vgrc_set_spec (mark_content vgrRef driver c) s) =
  vgrc_set_spec (mark_content vgrRef driver c) s.
Proof.
  assert (annotation (mark_content vgrRef driver c) volumeGroupReplicationRef = vgrRef) as Ha.
  { unfold mark_content. rewrite annotation_SetMeta, decide_False by done.
    case_bool_decide; [done|]. cbn [negb]. by rewrite annotation_SetMeta, decide_True. }
  unfold mark_content at 1.
  change (annotation (vgrc_set_spec ?x s)) with (annotation x). rewrite Ha.
  rewrite bool_decide_eq_true_2 by done. cbn [negb].
  unfold mark_content. generalize (if negb (bool_decide (annotation c volumeGroupReplicationRef = vgrRef))
    then SetMetaDataAnnotation c volumeGroupReplicationRef vgrRef else c).
  intros c0. unfold SetMetaDataAnnotation, with_annotations, vgrc_set_spec. simpl.
  by rewrite insert_insert_eq.
Qed.

Lemma mutate_content_existing vgr driver l c :
  is_new c = false ->
  mutate_content vgr driver l c =
  (let c' := mark_content (obj_Namespace vgr +:+ "/" +:+ obj_Name vgr) driver c in
   let s := c'.(vgrc_Spec) in
   vgrc_set_spec c'
     (mkVGRCSpec (match s.(vgrc_VolumeGroupReplicationRef) with
                  | None => Some (vgr_reference vgr) | ref => ref end)
        s.(vgrc_VolumeGroupReplicationHandle) s.(vgrc_Provisioner)
        s.(vgrc_VolumeGroupReplicationClassName) s.(vgrc_VolumeGroupAttributes) l), None).
Proof. intros Hnew. unfold mutate_content. by rewrite Hnew, andb_false_r. Qed.

Lemma is_new_mark vgrRef driver c s : is_new (vgrc_set_spec (mark_content vgrRef driver c) s) = is_new c.
Proof. unfold mark_content. by destruct (negb _). Qed.

Lemma mutate_content_idem vgr driver l c :
  is_new c = false ->
  mutate_content vgr driver l (fst (mutate_content vgr driver l c)) = mutate_content vgr driver l c.
Proof.
  intros Hnew. rewrite (mutate_content_existing vgr driver l c) by done. cbn [fst].
  rewrite mutate_content_existing by by rewrite is_new_mark. cbv zeta.
  rewrite mark_content_idem. simpl. by destruct (vgrc_VolumeGroupReplicationRef _).
Qed.

Lemma mutate_vr_existing gvk vgr vr :
  is_new vr = false ->
  mutate_vr gvk vgr vr =
  SetOwnerReference gvk vgr
    (let s := vr.(vr_Spec) in
     mkVR vr.(vr_meta)
      (mkVRSpec s.(VolumeReplicationClass) vgr.(vgr_Spec).(vgr_ReplicationState) s.(DataSource)
         vgr.(vgr_Spec).(vgr_AutoResync) s.(ReplicationHandle)) vr.(vr_Status)).
Proof. intros Hnew. unfold mutate_vr. by rewrite Hnew. Qed.

Lemma mutate_vr_idem apiVersion k vgr vr :
  ParseGroup apiVersion <> None -> is_new vr = false ->
  let f := mutate_vr (inr (apiVersion, k)) vgr in f (fst (f vr)) = f vr.
Proof.
  intros Hg Hnew. cbv zeta. rewrite (mutate_vr_existing _ vgr vr) by done.
  unfold SetOwnerReference. cbn [fst snd]. cbv zeta.
  destruct (validateOwner _ _) eqn:Hv; cbn [fst]; rewrite mutate_vr_existing by done;
    unfold SetOwnerReference, obj_Namespace in *; simpl in *; rewrite Hv; [done|].
  by rewrite upsertOwnerRef_idem.
Qed.

(** ** The order of volume handles *)

Lemma leb_cons a s b t :
  String.leb (String a s) (String b t) = true <->
  (N_of_ascii a < N_of_ascii b)%N \/ (a = b /\ String.leb s t = true).
Proof.
  unfold String.leb. simpl. unfold Ascii.compare.
  destruct (N.compare_spec (N_of_ascii a) (N_of_ascii b)) as [Heq|Hlt|Hgt].
  - assert (a = b) as -> by (rewrite <- (ascii_N_embedding a), Heq; apply ascii_N_embedding).
    split; [tauto|]. intros [?|[_ ?]]; [lia|done].
  - tauto.
  - split; [done|]. intros [?|[-> _]]; lia.
Qed.

#[global] Instance string_le_total : Total string_le.
Proof. intros a b. apply String.leb_total. Qed.
#[global] Instance string_le_antisymm : AntiSymm (=) string_le.
Proof. intros a b. apply String.leb_antisym. Qed.
#[global] Instance string_le_trans : Transitive string_le.
Proof.
  unfold string_le. intros a. induction a as [|ca a IH]; intros b c.
  - by destruct c.
  - destruct b as [|cb b], c as [|cc c]; try done. rewrite !leb_cons.
    intros [?|[-> ?]] [?|[-> ?]]; [left; lia|left; lia|left; lia|right; eauto].
Qed.

(** A PVC contributes handle [hd] when its PV is a CSI volume of the driver. *)
Definition contributes (pv : string -> error + PersistentVolume) (driver : string)
    (pvc : PersistentVolumeClaim) (hd : string) : Prop :=
  exists p csi, pv pvc.(pvc_VolumeName) = inr p /\ p.(pv_CSI) = Some csi /\
    csi.(csi_Driver) = driver /\ csi.(csi_VolumeHandle) = hd.

Section handles.
Context (ρ : env answer) (pv : string -> error + PersistentVolume).
Context (Hpv : forall h key, ρ h (EGet KPersistentVolume key) = pv (nn_Name key)).

Lemma collect_handles_spec driver pvcs h :
  exists r, snd (run ρ h (collect_handles driver pvcs)) = Done r /\
    match r with
    | inr l => Forall2 (contributes pv driver) pvcs l
    | inl _ => exists pvc, pvc ∈ pvcs /\ forall hd, ~ contributes pv driver pvc hd
    end.
Proof.
  revert h. induction pvcs as [|pvc pvcs IH]; intros h; simpl; [by exists (inr [])|].
  rewrite Hpv. simpl. destruct (pv (pvc_VolumeName pvc)) as [err|p] eqn:Hp; simpl.
  { exists (inl err). split; [done|]. exists pvc. split; [left|].
    intros hd (p & csi & ? & _). congruence. }
  destruct (pv_CSI p) as [csi|] eqn:Hcsi; simpl.
  2: { eexists (inl _). split; [done|]. exists pvc. split; [left|].
       intros hd (p' & csi & ? & ? & _). congruence. }
  case_bool_decide as Hd; simpl.
  2: { eexists (inl _). split; [done|]. exists pvc. split; [left|].
       intros hd (p' & csi' & ? & ? & ? & _). congruence. }
  rewrite run_bind. set (h1 := _ :: h).
  destruct (IH h1) as (r & Hr & Hspec). destruct (run ρ h1 _) as [h2 o]; simpl in *; subst o.
  eexists. split; [done|]. destruct r as [err|l].
  - destruct Hspec as (pvc' & ? & ?). exists pvc'. split; [by right|done].
  - constructor; [|done]. by exists p, csi.
Qed.

Lemma contributes_Permutation driver pvcs pvcs' l :
  Forall2 (contributes pv driver) pvcs l -> pvcs' ≡ₚ pvcs ->
  exists l', Forall2 (contributes pv driver) pvcs' l' /\ l' ≡ₚ l.
Proof.
  intros Hl Hperm. symmetry in Hperm. revert l Hl. induction Hperm; intros l0 Hl.
  - inversion Hl. by exists [].
  - inversion Hl as [|? y ? l1 Hx Hl1]; subst. destruct (IHHperm _ Hl1) as (l2 & ? & ?).
    exists (y :: l2). split; [by constructor|by f_equiv].
  - inversion Hl as [|? y1 ? l1 Hx Hl1]; subst. inversion Hl1 as [|? y2 ? l3 Hy Hl3]; subst.
    exists (y2 :: y1 :: l3). split; [by repeat constructor|by constructor].
  - destruct (IHHperm1 _ Hl) as (l1 & Hl1 & ?). destruct (IHHperm2 _ Hl1) as (l4 & ? & ?).
    exists l4. split; [done|by etrans].
Qed.

Lemma contributes_inj driver pvcs l1 l2 :
  Forall2 (contributes pv driver) pvcs l1 -> Forall2 (contributes pv driver) pvcs l2 -> l1 = l2.
Proof.
  intros H1. revert l2. induction H1 as [|pvc hd pvcs l1 Hc H1 IH]; intros l2 H2;
    inversion H2 as [|? hd2 ? l2' Hc2 H2']; subst; [done|].
  rewrite (IH _ H2'). f_equal. destruct Hc as (p & csi & ? & ? & ? & ?), Hc2 as (p2 & csi2 & ? & ? & ? & ?).
  congruence.
Qed.
End handles.

(** ** Request mapping *)

Lemma split_slash_cons w s :
  "/"%char ∉ String.list_ascii_of_string w ->
  split_slash (w +:+ String "/" s) = (w, let '(v, ws) := split_slash s in v :: ws).
Proof.
  induction w as [|c w IH]; simpl; intros Hw.
  - by destruct (split_slash s).
  - rewrite IH by set_solver. destruct (Ascii.eqb_spec c "/"); [set_solver|done].
Qed.

Lemma split_slash_none w :
  "/"%char ∉ String.list_ascii_of_string w -> split_slash w = (w, []).
Proof.
  induction w as [|c w IH]; simpl; intros Hw; [done|].
  rewrite IH by set_solver. destruct (Ascii.eqb_spec c "/"); [set_solver|done].
Qed.

Lemma split_slash_single w : (split_slash w).2 = [] -> "/"%char ∉ String.list_ascii_of_string w.
Proof.
  induction w as [|c w IH]; simpl; [set_solver|].
  destruct (split_slash w) as [v ws]. destruct (Ascii.eqb_spec c "/"); simpl in *; [done|set_solver].
Qed.

(** ** What the controller knows *)

Definition group_fetched_by (c : {e & answer e}) : option VGR :=
  match c with
  | existT e r =>
    match e return answer e -> option VGR with
    | EGet k _ =>
      match k return error + obj_of k -> option VGR with
      | KVolumeGroupReplication => fun r => match r with inr o => Some o | inl _ => None end
      | _ => fun _ => None
      end
    | _ => fun _ => None
    end r
  end.

(** The group, its content and its VolumeReplication as the server last
    returned them. *)
Definition group_by (c : {e & answer e}) : option VGR :=
  match c with
  | existT e r =>
    match e return answer e -> option VGR with
    | EGet k _ | EUpdate k _ | EStatusUpdate k _ =>
      match k return error + obj_of k -> option VGR with
      | KVolumeGroupReplication => fun r => match r with inr o => Some o | inl _ => None end
      | _ => fun _ => None
      end
    | _ => fun _ => None
    end r
  end.

Definition content_by (c : {e & answer e}) : option VGRC :=
  match c with
  | existT e r =>
    match e return answer e -> option VGRC with
    | EGet k _ | ECreate k _ | EUpdate k _ =>
      match k return error + obj_of k -> option VGRC with
      | KVolumeGroupReplicationContent => fun r => match r with inr o => Some o | inl _ => None end
      | _ => fun _ => None
      end
    | _ => fun _ => None
    end r
  end.

Definition dependent_vr_by (c : {e & answer e}) : option VolumeReplication :=
  match c with
  | existT e r =>
    match e return answer e -> option VolumeReplication with
    | EGet k _ | ECreate k _ | EUpdate k _ =>
      match k return error + obj_of k -> option VolumeReplication with
      | KVolumeReplication => fun r => match r with inr o => Some o | inl _ => None end
      | _ => fun _ => None
      end
    | _ => fun _ => None
    end r
  end.

(** An object under [key] is gone: the server does not have it, or accepted its
    deletion. *)
Definition gone (k : kind) (key : NamespacedName) (h : hist) : Prop :=
  (exists err, existT (EGet k key) (inl err) ∈ h /\ IsNotFound err = true) \/
  (exists o, existT (EGet k key) (inr o) ∈ h /\ existT (EDelete k o) None ∈ h).

(** The group may let its PVCs go: it is being deleted, no dependent object
    claims it, and the ones it created are gone. *)
Definition may_release (h : hist) : Prop :=
  exists i, newest group_fetched_by h = Some i /\ is_deleting i = true /\
    annotation i VolumeReplicationNameAnnotation = "" /\
    annotation i VolumeGroupReplicationContentNameAnnotation = "" /\
    (i.(vgr_Spec).(vgr_VolumeReplicationName) ≠ "" ->
     gone KVolumeReplication
       (mkNamespacedName (obj_Namespace i) i.(vgr_Spec).(vgr_VolumeReplicationName)) h) /\
    (i.(vgr_Spec).(vgr_VolumeGroupReplicationContentName) ≠ "" ->
     gone KVolumeGroupReplicationContent
       (mkNamespacedName "" i.(vgr_Spec).(vgr_VolumeGroupReplicationContentName)) h).

(** The PVC that was read no longer names a group as its owner, nor carries the
    finalizer: either it did not, or the server accepted an update of it that
    removes them. *)
Definition released (pvc : PersistentVolumeClaim) (h : hist) : Prop :=
  exists pvc',
    ((meta pvc).(Annotations) !! VolumeGroupReplicationNameAnnotation = None /\ pvc' = pvc \/
     existT (EUpdate KPersistentVolumeClaim
       (with_annotations pvc (delete VolumeGroupReplicationNameAnnotation (meta pvc).(Annotations)))) (inr pvc') ∈ h) /\
    (vgrReplicationFinalizer ∉ finalizers pvc' \/
     exists pvc'', existT (EUpdate KPersistentVolumeClaim
       (with_finalizers pvc' (delete_eq (finalizers pvc') vgrReplicationFinalizer))) (inr pvc'') ∈ h).

(** Every PVC listed in the group's status was read in this run, and released. *)
Definition member_released (ns name : string) (h : hist) : Prop :=
  exists pvc, existT (EGet KPersistentVolumeClaim (mkNamespacedName ns name)) (inr pvc) ∈ h /\ released pvc h.
Definition members_released (h : hist) : Prop :=
  exists i, newest group_fetched_by h = Some i /\
    forall name, name ∈ default [] (vgr_refs i) -> member_released (obj_Namespace i) name h.

Definition live (h : hist) : Prop :=
  exists i, newest group_fetched_by h = Some i /\ is_deleting i = false /\
    i.(vgr_Spec).(vgr_External) = false.

(** The volume group exists on the storage side. *)
Definition grouped (h : hist) : Prop :=
  exists c, newest content_by h = Some c /\ vgrc_handle c ≠ "".

(** ** The contract *)

Definition vr_write_permitted (h : hist) (vr : VolumeReplication) : Prop :=
  live h /\ grouped h /\
  exists i, newest group_by h = Some i /\
    vr.(vr_Spec).(vr_ReplicationState) = i.(vgr_Spec).(vgr_ReplicationState) /\
    vr.(vr_Spec).(vr_AutoResync) = i.(vgr_Spec).(vgr_AutoResync).

Definition group_update_permitted (h : hist) (o : VGR) : Prop :=
  exists i, newest group_by h = Some i /\ obj_key o = obj_key i /\
    forall f, f ∈ finalizers i -> f ∈ finalizers o \/
      f = vgrReplicationFinalizer /\ may_release h /\ members_released h.

Definition group_status_permitted (h : hist) (o : VGR) : Prop :=
  exists i, newest group_by h = Some i /\ obj_key o = obj_key i /\
    let st := (vgr_status o).(State) in
    (st = (vgr_status i).(State) \/ st = GetCurrentReplicationState (vgr_status i).(State) \/
     exists vr, newest dependent_vr_by h = Some vr /\ grouped h /\ st = vr.(vr_Status).(State)).

Definition group_contract (h : hist) (e : event) : Prop :=
  match e with
  | EGet _ _ | EList _ _ _ | ERange => True
  | EEventf k _ _ _ _ _ => k = KPersistentVolumeClaim
  | ECreate k o =>
    match k return obj_of k -> Prop with
    | KVolumeGroupReplicationContent => fun _ => live h
    | KVolumeReplication => vr_write_permitted h
    | _ => fun _ => False
    end o
  | EUpdate k o =>
    match k return obj_of k -> Prop with
    | KVolumeGroupReplicationContent => fun _ => live h
    | KVolumeReplication => vr_write_permitted h
    | KPersistentVolumeClaim => fun _ => live h \/ may_release h
    | KVolumeGroupReplication => group_update_permitted h
    | _ => fun _ => False
    end o
  | EStatusUpdate k o =>
    match k return obj_of k -> Prop with
    | KVolumeGroupReplication => group_status_permitted h
    | _ => fun _ => False
    end o
  | EDelete k _ =>
    (k = KVolumeReplication \/ k = KVolumeGroupReplicationContent) /\
    exists i, newest group_fetched_by h = Some i /\ is_deleting i = true
  | _ => False
  end.

(** ** Tracking *)

(** Calls that return neither the group, the content nor the VolumeReplication. *)
Definition quiet (e : event) : Prop :=
  match e with
  | EGet k _ | ECreate k _ | EUpdate k _ | EStatusUpdate k _ =>
    match k with
    | KVolumeGroupReplication | KVolumeGroupReplicationContent | KVolumeReplication => False
    | _ => True
    end
  | _ => True
  end.

Lemma quiet_silent e r : quiet e ->
  group_fetched_by (existT e r) = None /\ group_by (existT e r) = None /\
  content_by (existT e r) = None /\ dependent_vr_by (existT e r) = None.
Proof. destruct e as [[]| |[]|[]|[]| | | | | | | | | | | | | | |]; naive_solver. Qed.

Lemma newest_quiet {A} (f : {e & answer e} -> option A) h h' :
  (forall e r, quiet e -> f (existT e r) = None) -> extends quiet h h' -> newest f h' = newest f h.
Proof. intros Hf Hext. unfold newest. by rewrite (observe_extends f _ _ _ Hext). Qed.

(** A live run: the instance fetched and the group as the server returned it. *)
Definition group_at (h : hist) (i0 i : VGR) : Prop :=
  newest group_fetched_by h = Some i0 /\ newest group_by h = Some i.

Lemma group_at_quiet h h' i0 i : extends quiet h h' -> group_at h i0 i -> group_at h' i0 i.
Proof.
  intros Hext. unfold group_at. rewrite !(newest_quiet _ h h'); auto;
    intros e r He; by apply (quiet_silent e r He).
Qed.

Lemma live_quiet h h' : extends quiet h h' -> live h -> live h'.
Proof.
  intros Hext. unfold live. rewrite (newest_quiet _ h h'); auto.
  intros e r He; by apply (quiet_silent e r He).
Qed.

Lemma gone_extends P k key h h' : extends P h h' -> gone k key h -> gone k key h'.
Proof.
  intros (t & -> & _) [(err & ? & ?)|(o & ? & ?)]; [left; exists err|right; exists o];
    split; try done; apply elem_of_app; by right.
Qed.

Lemma may_release_quiet h h' : extends quiet h h' -> may_release h -> may_release h'.
Proof.
  intros Hext (i & Hi & ? & ? & ? & Hv & Hc). exists i.
  rewrite (newest_quiet _ h h'); auto; [|intros e r He; by apply (quiet_silent e r He)].
  split_and!; try done; intros Hne; (eapply gone_extends; [exact Hext|]); auto.
Qed.

(** The last call returned [o] as the object of kind [k]. *)
Definition returned (k : kind) (o : obj_of k) (h : hist) : Prop :=
  exists h0, (exists key, h = existT (EGet k key) (inr o) :: h0) \/
             (exists o', h = existT (ECreate k o') (inr o) :: h0) \/
             (exists o', h = existT (EUpdate k o') (inr o) :: h0).

Lemma returned_content c h : returned KVolumeGroupReplicationContent c h -> newest content_by h = Some c.
Proof. by intros (h0 & [[key ->]|[[o' ->]|[o' ->]]]). Qed.

Lemma returned_vr vr h : returned KVolumeReplication vr h -> newest dependent_vr_by h = Some vr.
Proof. by intros (h0 & [[key ->]|[[o' ->]|[o' ->]]]). Qed.

(** Calls on objects of kind [k] only. *)
Definition on_kind (k : kind) (e : event) : Prop :=
  match e with EGet k' _ | ECreate k' _ | EUpdate k' _ => k' = k | _ => False end.

(** CreateOrUpdate writes only what the mutation accepted; on success the caller
    holds the object the server last returned. *)
Lemma CreateOrUpdate_wp G k `{HasMeta (obj_of k)} `{EqDecision (obj_of k)} (o : obj_of k) f h :
  G h (EGet k (obj_key o)) ->
  (forall r c, snd (f c) = None ->
     let h1 := existT (EGet k (obj_key o)) r :: h in
     G h1 (ECreate k (fst (f c))) /\ G h1 (EUpdate k (fst (f c)))) ->
  wp G (fun h' out => exists o' err, out = Done (o', err) /\ extends (on_kind k) h h' /\
          (err = None -> returned k o' h'))
    h (CreateOrUpdate k o f).
Proof.
  intros Hget Hf. unfold CreateOrUpdate, get_obj, update_obj. apply wp_call; [done|].
  assert (forall e r h1, on_kind k e -> extends (on_kind k) h h1 -> extends (on_kind k) h (existT e r :: h1))
    as Hone by (intros; by apply extends_cons).
  pose proof (extends_refl (on_kind k) h) as Hrefl.
  intros r. pose proof (Hf r) as Hfr. destruct r as [err|c]; cbn [mbind prog_bind].
  - destruct (IsNotFound err); cbn [negb]; [|by eexists _, _; split_and!; [done|apply Hone|]].
    specialize (Hfr o). destruct (f o) as [o' [e|]];
      [by eexists _, _; split_and!; [done|apply Hone|]|].
    case_bool_decide; [|by eexists _, _; split_and!; [done|apply Hone|]].
    apply wp_call; [by apply Hfr|]. intros [e|o2]; cbn [wp mbind prog_bind mret prog_ret];
      eexists _, _; (split_and!; [done|by apply Hone, Hone|]); [done|].
    intros _. eexists. right. left. by eexists.
  - specialize (Hfr c). destruct (f c) as [o' [e|]] eqn:Hfc;
      [by eexists _, _; split_and!; [done|apply Hone|]|].
    case_bool_decide; [|by eexists _, _; split_and!; [done|apply Hone|]].
    case_bool_decide as Heq.
    { eexists _, _. split_and!; [done|by apply Hone|]. intros _. eexists. left. eexists. by rewrite <- Heq. }
    apply wp_call; [by apply Hfr|]. intros [e|o2]; cbn [wp mbind prog_bind mret prog_ret];
      eexists _, _; (split_and!; [done|by apply Hone, Hone|]); [done|].
    intros _. eexists. right. right. by eexists.
Qed.

(** An object the mutation leaves alone is not written. *)
Lemma CreateOrUpdate_fixpoint ρ k `{HasMeta (obj_of k)} `{EqDecision (obj_of k)} (o stored : obj_of k) f :
  ρ [] (EGet k (obj_key o)) = inr stored -> f stored = (stored, None) ->
  obj_key stored = obj_key o ->
  run ρ [] (CreateOrUpdate k o f) = ([existT (EGet k (obj_key o)) (inr stored)], Done (stored, None)).
Proof.
  intros Hρ Hf Hk. unfold CreateOrUpdate, get_obj. simpl. rewrite Hρ. simpl. rewrite Hf.
  by rewrite !bool_decide_eq_true_2.
Qed.

Lemma upsertOwnerRef_in ref l : ref ∈ upsertOwnerRef ref l.
Proof. induction l as [|r l IH]; simpl; [left|]. destruct (referSameObject r ref); [left|by right]. Qed.

(** ** The functions keep the contract *)

(** A run ends without a panic; the only requeue is that of a group whose
    dependent objects are not gone yet. *)
Definition group_ends (h : hist) (o : outcome result) : Prop :=
  exists res err, o = Done (res, err) /\
    (res = no_requeue \/ (err = None /\ res = mkResult false (10 * second))).

(** The instance in memory is the server's up to fields being prepared. *)
Definition near (h : hist) (i : VGR) : Prop :=
  exists v, newest group_by h = Some v /\ obj_key i = obj_key v /\
    (vgr_status i).(State) = (vgr_status v).(State).

Lemma fail_group_wp h i err :
  near h i -> wp group_contract (fun _ o => o = Done (no_requeue, Some err)) h (fail_group i err).
Proof.
  intros (v & Hv & Hk & Hst). unfold fail_group, setGroupReplicationFailure, status_update_obj.
  apply wp_assoc, wp_call.
  - exists v. split_and!; [done..|]. right. left. simpl. by rewrite Hst.
  - by intros [e|o].
Qed.

(** Failing from a step: the early return. *)
Lemma fail_step_wp {A} h i err (Q : hist -> outcome (result + A) -> Prop) :
  near h i -> (forall h', Q h' (Done (inl (no_requeue, Some err)))) ->
  wp group_contract Q h (r ← fail_group i err; mret (inl r)).
Proof.
  intros Hn HQ. eapply wp_seq; [by apply fail_group_wp|]. intros h' o ->. apply HQ.
Qed.

Lemma near_at h i0 i : group_at h i0 i -> near h i.
Proof. intros [_ Hi]. by exists i. Qed.

(** Calls on PVCs and PVs. *)
Definition pvc_call (e : event) : Prop :=
  match e with
  | EUpdate KPersistentVolumeClaim _ => True
  | EGet (KPersistentVolumeClaim | KPersistentVolume) _ | EList _ _ _ | ERange
  | EEventf KPersistentVolumeClaim _ _ _ _ _ => True
  | _ => False
  end.

Lemma pvc_call_quiet e : pvc_call e -> quiet e.
Proof. by destruct e as [[]| |[]|[]|[]| |[]| | | | | | | | | | | | |]. Qed.

Lemma updates_pvc_call e : updates KPersistentVolumeClaim e -> pvc_call e.
Proof. destruct e as [[]| |[]|[]|[]| |[]| | | | | | | | | | | | |]; naive_solver. Qed.

Lemma pvc_calls_wp {A} (q : M A) h :
  calls pvc_call q -> no_panic q -> live h \/ may_release h ->
  wp group_contract (fun h' o => extends pvc_call h h' /\ exists a, o = Done a) h q.
Proof.
  intros Hq Hnp Hl. apply no_panic_wp; [done|].
  assert (forall h', extends pvc_call h h' -> wp group_contract (fun h' _ => extends pvc_call h h') h' q)
    as Hgen; [|by apply Hgen, extends_refl].
  clear Hnp. revert Hq. induction q as [a|m|e c IH]; simpl; intros Hq h' Hext; [done..|].
  destruct Hq as [He Hc]. split.
  - assert (live h' \/ may_release h') as Hl'.
    { assert (extends quiet h h') as Hquiet.
      { destruct Hext as (t & -> & Ht). exists t. split; [done|].
        eapply Forall_impl; [exact Ht|]. intros. by apply pvc_call_quiet. }
      destruct Hl; eauto using live_quiet, may_release_quiet. }
    by destruct e as [[]| |[]|[]|[]| |[]| | | | | | | | | | | | |].
  - intros r. apply IH; [done|]. by apply extends_cons.
Qed.

(** *** The calls of the member functions *)

Lemma calls_updates_pvc {A} (q : M A) : calls (updates KPersistentVolumeClaim) q -> calls pvc_call q.
Proof. intros Hq. eapply calls_mono; [exact Hq|]. apply updates_pvc_call. Qed.

Lemma each_err_calls {A} P (f : A -> M (option error)) l :
  (forall a, calls P (f a)) -> calls P (each_err f l).
Proof. intros Hf. induction l as [|a l IH]; simpl; [done|]. calls_solve; auto. Qed.

Lemma each_err_total {A} (f : A -> M (option error)) l :
  (forall a, no_panic (f a)) -> no_panic (each_err f l).
Proof. intros Hf. induction l as [|a l IH]; simpl; [done|]. np_solve; auto. Qed.

Lemma add_member_calls owner pvc : calls pvc_call (add_member owner pvc).
Proof.
  apply calls_updates_pvc. unfold add_member, addFinalizerToPVC. calls_solve.
Qed.
Lemma add_member_total owner pvc : no_panic (add_member owner pvc).
Proof. unfold add_member, addFinalizerToPVC. np_solve. Qed.

Lemma remove_member_calls pvc : calls pvc_call (remove_member pvc).
Proof.
  apply calls_updates_pvc. unfold remove_member, removeOwnerFromPVCAnnotation, removeFinalizerFromPVC.
  calls_solve.
Qed.
Lemma remove_member_total pvc : no_panic (remove_member pvc).
Proof. unfold remove_member, removeOwnerFromPVCAnnotation, removeFinalizerFromPVC. np_solve. Qed.

#[export] Hint Resolve add_member_calls remove_member_calls each_err_calls : calls.
#[export] Hint Resolve add_member_total remove_member_total each_err_total : no_panic.

Lemma fetch_removed_calls ns current names : calls pvc_call (fetch_removed ns current names).
Proof. induction names; simpl; unfold get_obj; calls_solve. Qed.
Lemma fetch_removed_total ns current names : no_panic (fetch_removed ns current names).
Proof. induction names; simpl; unfold get_obj; np_solve. Qed.
#[export] Hint Resolve fetch_removed_calls : calls.
#[export] Hint Resolve fetch_removed_total : no_panic.

Lemma updatePVCs_calls vgr pvcs : calls pvc_call (updateFinalizerAndAnnotationOnPVCs vgr pvcs).
Proof. unfold updateFinalizerAndAnnotationOnPVCs. calls_solve. Qed.
Lemma updatePVCs_total vgr pvcs : no_panic (updateFinalizerAndAnnotationOnPVCs vgr pvcs).
Proof. unfold updateFinalizerAndAnnotationOnPVCs. np_solve. Qed.

Lemma removeDeletingPVC_calls i pvcs : calls pvc_call (removeDeletingPVC i pvcs).
Proof. induction pvcs; simpl; calls_solve. Qed.
Lemma removeDeletingPVC_total i pvcs : no_panic (removeDeletingPVC i pvcs).
Proof. induction pvcs; simpl; np_solve. Qed.
#[export] Hint Resolve removeDeletingPVC_calls : calls.
#[export] Hint Resolve removeDeletingPVC_total : no_panic.

Lemma getMatching_calls sel i : calls pvc_call (getMatchingPVCsFromSource sel i).
Proof. unfold getMatchingPVCsFromSource. calls_solve. Qed.
Lemma getMatching_total sel i : no_panic (getMatchingPVCsFromSource sel i).
Proof. unfold getMatchingPVCsFromSource. np_solve. Qed.

Lemma collect_handles_calls driver pvcs : calls pvc_call (collect_handles driver pvcs).
Proof. induction pvcs; simpl; unfold get_obj; calls_solve. Qed.
Lemma collect_handles_total driver pvcs : no_panic (collect_handles driver pvcs).
Proof. induction pvcs; simpl; unfold get_obj; np_solve. Qed.
#[export] Hint Resolve collect_handles_calls : calls.
#[export] Hint Resolve collect_handles_total : no_panic.

Lemma getPVHandles_calls cls pvcs : calls pvc_call (getPVHandles cls pvcs).
Proof. unfold getPVHandles. calls_solve. Qed.
Lemma getPVHandles_total cls pvcs : no_panic (getPVHandles cls pvcs).
Proof. unfold getPVHandles. np_solve. Qed.

(** *** The live branch *)
Section live.
Context (sel : option LabelSelector -> error + string) (gvk : error + string * string) (maxn : Z).
Context (i0 : VGR) (Hlive : is_deleting i0 = false) (Hint : i0.(vgr_Spec).(vgr_External) = false).

Abbreviation at_ h i := (group_at h i0 i).

(** A step either returns early without a requeue, or goes on with the group
    as the server returned it. *)
Definition step {A} (P : hist -> A -> Prop) (h : hist) (o : outcome (result + A)) : Prop :=
  match o with
  | Done (inl (res, err)) => res = no_requeue
  | Done (inr a) => P h a
  | Panicked _ => False
  end.

Lemma at_live h i : at_ h i -> live h.
Proof. intros [H _]. by exists i0. Qed.

Lemma at_pvc h h' i : extends pvc_call h h' -> at_ h i -> at_ h' i.
Proof.
  intros (t & -> & Ht). apply group_at_quiet. exists t. split; [done|].
  eapply Forall_impl; [exact Ht|]. intros. by apply pvc_call_quiet.
Qed.

(** Updating the group: afterwards the caller holds the server's object. *)
Lemma update_group_wp h i o :
  at_ h i -> obj_key o = obj_key i -> (forall f, f ∈ finalizers i -> f ∈ finalizers o) ->
  (vgr_status o).(State) = (vgr_status i).(State) ->
  wp group_contract (fun h' out => exists o' err, out = Done (o', err) /\
      (err = None -> at_ h' o') /\ (err ≠ None -> near h' o') /\
      exists r, h' = existT (EUpdate KVolumeGroupReplication o) r :: h)
    h (update_obj KVolumeGroupReplication o).
Proof.
  intros Hat Hk Hf Hst. unfold update_obj. apply wp_call.
  { exists i. split_and!; [apply Hat|done|]. auto. }
  intros [err|o']; cbn [wp mbind prog_bind mret prog_ret]; eexists _, _; split_and!; eauto; try done.
  - intros _. exists i. by split_and!; [apply Hat|..].
  - intros _. by split; [apply Hat|].
Qed.

Lemma sync_selector_wp h i :
  at_ h i -> wp group_contract (step (fun h' a => at_ h' a.1)) h (sync_selector sel maxn i).
Proof.
  intros Hat. unfold sync_selector. eapply wp_seq.
  { apply pvc_calls_wp; [apply getMatching_calls|apply getMatching_total|].
    left. by eapply at_live. }
  intros h1 o (Hext & r & ->). cbn [after]. pose proof (at_pvc _ _ _ Hext Hat) as Hat1.
  pose proof (near_at _ _ _ Hat1) as Hn1.
  destruct r as [err|[pvcs selector]]; [by apply fail_step_wp|].
  case_match; [by apply fail_step_wp|].
  case_bool_decide; cbn [negb]; [done|].
  eapply wp_seq; [apply (update_group_wp h1 i)|].
  - done.
  - done.
  - done.
  - done.
  - intros h2 o (i2 & err & -> & Hok & Hbad & _). cbn [after]. destruct err; [|by apply Hok].
    apply fail_step_wp; [by apply Hbad|done].
Qed.

Lemma sync_refs_wp h i pvcs :
  at_ h i -> wp group_contract (step (fun h' a => at_ h' a)) h (sync_refs i pvcs).
Proof.
  intros Hat. unfold sync_refs, status_update_obj. eapply wp_seq.
  { apply pvc_calls_wp; [apply updatePVCs_calls|apply updatePVCs_total|].
    left. by eapply at_live. }
  intros h1 o (Hext & r & ->). cbn [after]. pose proof (at_pvc _ _ _ Hext Hat) as Hat1.
  pose proof (near_at _ _ _ Hat1) as Hn1.
  destruct r as [err|refs]; [by apply fail_step_wp|].
  case_bool_decide; cbn [negb]; [done|]. apply wp_assoc, wp_call.
  { exists i. split_and!; [apply Hat1|done|]. by left. }
  intros [err|o']; cbn [mbind prog_bind mret prog_ret].
  - apply fail_step_wp; [|done]. exists i. by split_and!; [apply Hat1|..].
  - by split; [apply Hat1|].
Qed.

Lemma at_on_kind k h h' i :
  k ≠ KVolumeGroupReplication -> extends (on_kind k) h h' -> at_ h i -> at_ h' i.
Proof.
  intros Hk Hext. unfold group_at, newest.
  rewrite (observe_extends group_fetched_by _ _ _ Hext), (observe_extends group_by _ _ _ Hext);
    [done|..]; intros e r; destruct e as [[]| |[]|[]|[]| | | | | | | | | | | | | | |]; naive_solver.
Qed.

(** The content in memory is the one the server last returned. *)
Lemma sync_content_wp h i cls c pvcs :
  at_ h i ->
  wp group_contract (step (fun h' a => at_ h' a.1 /\ newest content_by h' = Some a.2))
    h (sync_content i cls c pvcs).
Proof.
  intros Hat. unfold sync_content. eapply wp_seq.
  { apply pvc_calls_wp; [apply getPVHandles_calls|apply getPVHandles_total|].
    left. by eapply at_live. }
  intros h1 o (Hext & r & ->). cbn [after]. pose proof (at_pvc _ _ _ Hext Hat) as Hat1.
  destruct r as [err|l]; [by apply fail_step_wp; [eapply near_at|]|].
  eapply wp_seq.
  { apply CreateOrUpdate_wp; [done|]. intros r c' _. pose proof (at_live _ _ Hat1). done. }
  intros h2 o (c2 & err & -> & Hext2 & Hret). cbn [after].
  pose proof (at_on_kind KVolumeGroupReplicationContent _ _ _ ltac:(done) Hext2 Hat1) as Hat2.
  destruct err as [err|]; [by apply fail_step_wp; [eapply near_at|]|].
  pose proof (returned_content _ _ (Hret eq_refl)) as Hc2.
  case_bool_decide; [|done].
  eapply wp_seq; [by apply (update_group_wp h2 i)|].
  intros h3 o (i3 & err & -> & Hok & Hbad & r & Hh3). cbn [after].
  destruct err; [by apply fail_step_wp; [apply Hbad|]|].
  split; [by apply Hok|]. by rewrite Hh3.
Qed.

Lemma mutate_vr_spec vgr vr :
  let s := (fst (mutate_vr gvk vgr vr)).(vr_Spec) in
  s.(vr_ReplicationState) = vgr.(vgr_Spec).(vgr_ReplicationState) /\
  s.(vr_AutoResync) = vgr.(vgr_Spec).(vgr_AutoResync).
Proof.
  unfold mutate_vr, SetOwnerReference. destruct (validateOwner _ _); [done|].
  by destruct gvk as [err|[a k]].
Qed.

Lemma grouped_on_vr h h' : extends (on_kind KVolumeReplication) h h' -> grouped h -> grouped h'.
Proof.
  intros Hext. unfold grouped, newest. rewrite (observe_extends content_by _ _ _ Hext); [done|].
  intros e r. destruct e as [[]| |[]|[]|[]| | | | | | | | | | | | | | |]; naive_solver.
Qed.

Lemma sync_vr_wp h i c vr :
  at_ h i -> newest content_by h = Some c ->
  wp group_contract
    (step (fun h' a => at_ h' a.1 /\ newest dependent_vr_by h' = Some a.2 /\ grouped h'))
    h (sync_vr gvk i c vr).
Proof.
  intros Hat Hc. unfold sync_vr. case_bool_decide as Hh; [done|].
  assert (grouped h) as Hg by by exists c.
  eapply wp_seq.
  { apply CreateOrUpdate_wp; [done|]. intros r c' _. destruct (mutate_vr_spec i c') as [? ?].
    assert (extends (on_kind KVolumeReplication) h (existT (EGet KVolumeReplication (obj_key vr)) r :: h))
      as Hext by by apply extends_cons; [apply extends_refl|].
    pose proof (at_on_kind KVolumeReplication _ _ _ ltac:(done) Hext Hat) as Hat1.
    split; (split_and!; [by eapply at_live|by eapply grouped_on_vr|]; exists i;
      by split_and!; [apply Hat1|..]). }
  intros h2 o (vr2 & err & -> & Hext2 & Hret). cbn [after].
  pose proof (at_on_kind KVolumeReplication _ _ _ ltac:(done) Hext2 Hat) as Hat2.
  destruct err as [err|]; [by apply fail_step_wp; [eapply near_at|]|].
  pose proof (returned_vr _ _ (Hret eq_refl)) as Hvr2.
  pose proof (grouped_on_vr _ _ Hext2 Hg) as Hg2.
  case_bool_decide; [|done].
  eapply wp_seq; [by apply (update_group_wp h2 i)|].
  intros h3 o (i3 & err & -> & Hok & Hbad & r & Hh3). cbn [after].
  destruct err; [by apply fail_step_wp; [apply Hbad|]|].
  split; [by apply Hok|]. by rewrite Hh3.
Qed.

Lemma final_status_wp h i vr :
  at_ h i -> newest dependent_vr_by h = Some vr -> grouped h ->
  wp group_contract group_ends h (final_status i vr).
Proof.
  intros Hat Hvr Hg. unfold final_status, status_update_obj. apply wp_assoc, wp_call.
  { exists i. split_and!; [apply Hat|done|]. right. right. by exists vr. }
  intros [err|o]; cbn [wp mbind prog_bind mret prog_ret]; eexists _, _; by split; [|left].
Qed.

Lemma step_seq {A} (P : hist -> A -> Prop) h q (k : A -> M result) :
  wp group_contract (step P) h q ->
  (forall h' a, P h' a -> wp group_contract group_ends h' (k a)) ->
  wp group_contract group_ends h (r ← q; match r with inl r => mret r | inr a => k a end).
Proof.
  intros Hq Hk. eapply wp_seq; [exact Hq|].
  intros h' [[[res err]|a]|m] Ho; cbn [after]; [|by apply Hk|done].
  eexists _, _. by split; [|left].
Qed.

Lemma reconcile_live_wp h cls c vr :
  at_ h i0 -> wp group_contract group_ends h (reconcile_live sel gvk maxn i0 cls c vr).
Proof.
  intros Hat. unfold reconcile_live.
  assert (wp group_contract (fun h' o => exists i err, o = Done (i, err) /\ (err = None -> at_ h' i))
            h (addFinalizerToVGR i0)) as Hadd.
  { unfold addFinalizerToVGR, add_finalizer. case_match; [|by eexists _, _; split].
    eapply wp_seq; [apply (update_group_wp h i0); auto; try done|].
    - intros f Hf. rewrite finalizers_with. apply elem_of_app. by left.
    - intros h' o (i & err & -> & Hok & _). cbn [after]. destruct err; by eexists _, _. }
  eapply wp_seq; [exact Hadd|]. intros h1 o (i1 & err & -> & Hat1). cbn [after].
  destruct err as [err|]; [eexists _, _; by split; [|left]|]. specialize (Hat1 eq_refl).
  eapply step_seq; [by apply sync_selector_wp|]. intros h2 [i2 pvcs] Hat2.
  eapply step_seq; [by apply sync_refs_wp|]. intros h3 i3 Hat3.
  eapply step_seq; [by apply sync_content_wp|]. intros h4 [i4 c4] [Hat4 Hc4].
  eapply step_seq; [by apply sync_vr_wp|]. intros h5 [i5 vr5] (Hat5 & Hvr5 & Hg5).
  by apply final_status_wp.
Qed.
End live.

(** *** The deletion branch *)
Section deleted.
Context (i0 : VGR) (Hdel : is_deleting i0 = true).

(** Calls of the deletion branch that return neither group, content nor
    VolumeReplication under another role than the one being cleaned up. *)
Definition fetched_only (h : hist) : Prop := group_at h i0 i0.

Lemma cleanup_wp k key h :
  k = KVolumeReplication \/ k = KVolumeGroupReplicationContent -> fetched_only h ->
  wp group_contract (fun h' o => exists err, o = Done err /\ fetched_only h' /\
      (exists t, h' = t ++ h) /\ (err = None -> gone k key h')) h (cleanup k key).
Proof.
  intros Hk Hf. unfold cleanup, get_obj. apply wp_call; [done|].
  assert (forall r, fetched_only (existT (EGet k key) r :: h)) as Hget
    by (intros r; by destruct Hk as [-> | ->]).
  intros [err|o]; cbn [mbind prog_bind].
  - destruct (IsNotFound err) eqn:Herr; cbn [negb wp mret prog_ret]; eexists;
      (split_and!; [done|apply Hget|by eexists [_]|]); [|done].
    intros _. left. exists err. split; [left|done].
  - apply wp_call; [split; [done|]; exists i0; split; [apply (Hget (inr o))|done]|].
    intros r. eexists. split_and!; [done| |by eexists [_; _]|].
    + specialize (Hget (inr o)). done.
    + intros ->. right. exists o. split; [right; left|left].
Qed.

Lemma gone_app k key t h : gone k key h -> gone k key (t ++ h).
Proof.
  intros [(err & ? & ?)|(o & ? & ?)]; [left; exists err|right; exists o];
    split; try done; apply elem_of_app; by right.
Qed.

Lemma released_app pvc t h : released pvc h -> released pvc (t ++ h).
Proof.
  intros (pvc' & Ha & Hf). exists pvc'. split.
  - destruct Ha as [Ha|Ha]; [by left|right]. apply elem_of_app. by right.
  - destruct Hf as [Hf|[pvc'' Hf]]; [by left|right]. exists pvc''. apply elem_of_app. by right.
Qed.

(** A member is released when its removal succeeds. *)
Lemma removed_finalizer pvc h :
  wp (fun _ _ => True) (fun h' o => extends (fun _ => True) h h' /\ forall pvc1, o = Done (pvc1, None) ->
       vgrReplicationFinalizer ∉ finalizers pvc \/
       exists pvc', existT (EUpdate KPersistentVolumeClaim
         (with_finalizers pvc (delete_eq (finalizers pvc) vgrReplicationFinalizer))) (inr pvc') ∈ h')
    h (removeFinalizerFromPVC pvc vgrReplicationFinalizer).
Proof.
  unfold removeFinalizerFromPVC, remove_finalizer, update_obj. destruct (contains _ _) eqn:Hc.
  - split; [done|]. intros [err|pvc']; (split; [by apply extends_cons; [apply extends_refl|]|]); [done|].
    intros pvc1 _. right. exists pvc'. left.
  - split; [apply extends_refl|]. intros pvc1 _. left. by apply contains_false.
Qed.

Lemma removed_owner pvc h :
  wp (fun _ _ => True) (fun h' o => forall pvc', o = Done (pvc', None) ->
       (meta pvc).(Annotations) !! VolumeGroupReplicationNameAnnotation = None /\ pvc' = pvc \/
       existT (EUpdate KPersistentVolumeClaim
         (with_annotations pvc (delete VolumeGroupReplicationNameAnnotation (meta pvc).(Annotations)))) (inr pvc') ∈ h')
    h (removeOwnerFromPVCAnnotation pvc VolumeGroupReplicationNameAnnotation).
Proof.
  unfold removeOwnerFromPVCAnnotation, release_ownership, update_obj.
  destruct (_ !! VolumeGroupReplicationNameAnnotation) eqn:Ha; [|intros pvc' [= <-]; by left].
  split; [done|]. intros [err|pvc']; [done|]. intros pvc1 [= <-]. right. left.
Qed.

Lemma remove_member_released pvc h :
  wp (fun _ _ => True) (fun h' o => o = Done None -> released pvc h') h (remove_member pvc).
Proof.
  unfold remove_member. eapply wp_seq; [apply removed_owner|].
  intros h1 [[pvc' [err|]]|m] Ha; [done| |done]. specialize (Ha _ eq_refl). cbn [after].
  eapply wp_seq; [apply removed_finalizer|]. intros h2 [[pvc1 err]|m] [(t & -> & _) Hf]; [|done].
  intros [= ->]. exists pvc'. split; [|by eapply Hf].
  destruct Ha as [Ha|Ha]; [by left|right]. apply elem_of_app. by right.
Qed.

(** Every listed PVC was read and released when the cleanup succeeds. *)
Lemma cleanupGroupPVC_wp names h :
  may_release h ->
  wp group_contract (fun h' o => exists err, o = Done err /\ extends pvc_call h h' /\
      (err = None -> forall name, name ∈ names -> member_released (obj_Namespace i0) name h'))
    h (each_err (fun name =>
         r ← get_obj KPersistentVolumeClaim (mkNamespacedName (obj_Namespace i0) name);
         match r with
         | inl err => mret (Some err)
         | inr pvc => remove_member pvc
         end) names).
Proof.
  revert h. induction names as [|name names IH]; intros h Hm; simpl.
  { eexists. split_and!; [done|apply extends_refl|set_solver]. }
  split; [done|]. intros [err|pvc].
  { eexists. split_and!; [done|by apply extends_cons; [apply extends_refl|]|done]. }
  set (h1 := existT _ _ :: h).
  assert (extends pvc_call h h1) as Hext1 by by apply extends_cons; [apply extends_refl|].
  assert (forall h', extends pvc_call h h' -> may_release h') as Hm'.
  { intros h' Hext. eapply may_release_quiet; [|exact Hm]. destruct Hext as (t & -> & Ht).
    exists t. split; [done|]. eapply Forall_impl; [exact Ht|]. intros. by apply pvc_call_quiet. }
  eapply wp_seq; [eapply wp_and_any; [apply pvc_calls_wp; auto with calls no_panic|apply remove_member_released]|].
  intros h2 o ((Hext2 & err & ->) & Hrel). cbn [after].
  assert (extends pvc_call h h2) as Hext02 by by eapply extends_trans.
  destruct err as [err|]; [by eexists; split_and!|]. specialize (Hrel eq_refl).
  eapply wp_post; [by apply IH, Hm'|]. intros h3 o (err & -> & Hext3 & Hall).
  eexists. split_and!; [done|by eapply extends_trans|]. intros He name' [->|Hin]%elem_of_cons; [|by apply Hall].
  exists pvc. destruct Hext3 as (t3 & -> & _). split; [|by apply released_app].
  destruct Hext2 as (t2 & -> & _). rewrite !elem_of_app. right. right. left.
Qed.

(** A conditional cleanup. *)
Lemma cleanup_if_wp (b : bool) k key h :
  k = KVolumeReplication \/ k = KVolumeGroupReplicationContent -> fetched_only h ->
  wp group_contract (fun h' o => exists err, o = Done err /\ fetched_only h' /\
      (exists t, h' = t ++ h) /\ (err = None -> b = true -> gone k key h'))
    h (if b then cleanup k key else mret None).
Proof.
  intros Hk Hf. destruct b.
  - eapply wp_post; [by apply cleanup_wp|]. intros h' o (err & -> & ? & ? & Hg).
    eexists. split_and!; eauto.
  - eexists. split_and!; [done|done|by exists []|done].
Qed.

Lemma removeFinalizerFromVGR_wp h :
  fetched_only h -> may_release h -> members_released h ->
  wp group_contract (fun h' o => exists a, o = Done a) h (removeFinalizerFromVGR i0).
Proof.
  intros [Hf Hg] Hm Hv. unfold removeFinalizerFromVGR, remove_finalizer, update_obj.
  case_match; [|by eexists]. apply wp_assoc, wp_call; [|intros [err|o]; by eexists].
  exists i0. split_and!; [done..|]. intros f Hin. rewrite finalizers_with.
  unfold Config.RemoveFromSlice. rewrite elem_of_delete_eq.
  destruct (decide (f = vgrReplicationFinalizer)); auto.
Qed.

Lemma isSafe_spec vgr :
  isSafeToDeleteVGR vgr = true ->
  annotation vgr VolumeReplicationNameAnnotation = "" /\
  annotation vgr VolumeGroupReplicationContentNameAnnotation = "".
Proof. unfold isSafeToDeleteVGR. repeat case_bool_decide; naive_solver. Qed.

Lemma release_members_wp h :
  may_release h ->
  wp group_contract (fun h' o => exists err, o = Done err /\ extends pvc_call h h' /\
      (err = None -> forall name, name ∈ default [] (vgr_refs i0) -> member_released (obj_Namespace i0) name h'))
    h (match vgr_refs i0 with
       | Some _ => cleanupGroupPVC i0
       | None => mret None : M (option error)
       end).
Proof.
  intros Hm. unfold cleanupGroupPVC. destruct (vgr_refs i0); [by apply cleanupGroupPVC_wp|].
  eexists. split_and!; [done|apply extends_refl|]. simpl. set_solver.
Qed.

Lemma reconcile_deleted_wp h :
  fetched_only h -> wp group_contract group_ends h (reconcile_deleted i0).
Proof.
  intros Hf. unfold reconcile_deleted, cleanupVR, cleanupVGRContent.
  assert (forall h res err, res = no_requeue \/ err = None /\ res = mkResult false (10 * second) ->
    group_ends h (Done (res, err))) as Hend by (intros; by eexists _, _).
  eapply wp_seq; [apply cleanup_if_wp; auto|].
  intros h1 o (err & -> & Hf1 & [t1 Ht1] & Hvr). cbn [after]. destruct err; [by apply Hend; left|].
  eapply wp_seq; [apply cleanup_if_wp; auto|].
  intros h2 o (err & -> & Hf2 & [t2 Ht2] & Hc). cbn [after]. destruct err; [by apply Hend; left|].
  destruct (isSafeToDeleteVGR i0) eqn:Hsafe; [|by apply Hend; right].
  apply isSafe_spec in Hsafe as [Ha1 Ha2].
  assert (may_release h2) as Hm.
  { exists i0. split_and!; [apply Hf2|done..| |]; intros Hne.
    - rewrite Ht2. apply gone_app, Hvr; [done|]. by rewrite bool_decide_eq_false_2.
    - apply Hc; [done|]. by rewrite bool_decide_eq_false_2. }
  eapply wp_seq; [by apply release_members_wp|]. intros h3 o (err & -> & Hext & Hall). cbn [after].
  destruct err; [by apply Hend; left|].
  assert (extends quiet h2 h3) as Hq.
  { destruct Hext as (t & -> & Ht). exists t. split; [done|].
    eapply Forall_impl; [exact Ht|]. intros. by apply pvc_call_quiet. }
  eapply wp_seq; [apply removeFinalizerFromVGR_wp|].
  - by eapply group_at_quiet.
  - by eapply may_release_quiet.
  - exists i0. split; [apply (group_at_quiet _ _ _ _ Hq Hf2)|auto].
  - intros h4 o (a & ->). by apply Hend; left.
Qed.
End deleted.

(** Reconcile keeps the contract and ends without a panic. *)
Lemma group_Reconcile_wp sel gvk maxn req :
  wp group_contract group_ends [] (Reconcile sel gvk maxn req).
Proof.
  assert (forall h err, group_ends h (Done (no_requeue, err))) as Hend
    by (intros; eexists _, _; by split; [|left]).
  unfold Reconcile, get_obj. apply wp_call; [done|]. intros [err|i]; cbn [mbind prog_bind].
  { case_match; apply Hend. }
  destruct (vgr_External (vgr_Spec i)) eqn:Hext; [apply Hend|].
  assert (forall h e, near h i -> wp group_contract group_ends h (fail_group i e)) as Hfail.
  { intros h e Hn. eapply wp_post; [by apply fail_group_wp|]. intros h' o ->. apply Hend. }
  apply wp_call; [done|]. intros [err|cls]; cbn [mbind prog_bind]; [apply Hfail; by exists i|].
  apply wp_call; [done|]. intros seed. cbn [mbind prog_bind mret prog_ret].
  destruct (validate_entries _) as [err|]; [apply Hfail; by exists i|].
  destruct (negb _) eqn:Hdel.
  - apply negb_true_iff in Hdel. by apply reconcile_live_wp.
  - apply negb_false_iff in Hdel. by apply reconcile_deleted_wp.
Qed.

(** ** Properties *)

Definition vgr_trace (ρ : env answer) sel gvk maxn (req : NamespacedName) : hist :=
  fst (run ρ [] (Reconcile sel gvk maxn req)).

Lemma vgr_trace_guarded ρ sel gvk maxn req (G : hist -> event -> Prop) :
  (forall h e, group_contract h e -> G h e) -> guarded G (vgr_trace ρ sel gvk maxn req).
Proof.
  intros HG. eapply guarded_mono; [exact HG|].
  apply (wp_run group_contract group_ends _ [] (group_Reconcile_wp sel gvk maxn req) I ρ).
Qed.

(** C9: Replication of a group starts only when the group exists.  The
    controller creates or changes the VolumeReplication only for a group that is
    not external and not being deleted, only once the content the server last
    returned has a group handle, and always with the state and autoResync the
    latest group asks for. *)
Theorem VGR_replicates_grouped ρ sel gvk maxn req :
  guarded (fun h e => match e with
    | ECreate KVolumeReplication vr | EUpdate KVolumeReplication vr =>
      live h /\ (exists c, newest content_by h = Some c /\ vgrc_handle c ≠ "") /\
      exists i, newest group_by h = Some i /\
        vr.(vr_Spec).(vr_ReplicationState) = i.(vgr_Spec).(vgr_ReplicationState) /\
        vr.(vr_Spec).(vr_AutoResync) = i.(vgr_Spec).(vgr_AutoResync)
    | ECreate KVolumeGroupReplicationContent _ | EUpdate KVolumeGroupReplicationContent _ => live h
    | _ => True
    end) (vgr_trace ρ sel gvk maxn req).
Proof. apply vgr_trace_guarded. by intros h [| |[]|[]| | | | | | | | | | | | | | | |]. Qed.

(** C10: A group is taken apart in order.  Dependent objects are deleted only for
    a group being deleted; its PVCs are released, and its finalizer dropped,
    only when neither the VolumeReplication nor the content claims the group any
    more and the ones it named are gone (not found, or their deletion accepted);
    the finalizer goes last, after every PVC in the status was read and released
    (it had no owner annotation and no finalizer of the group, or the server
    accepted the updates that remove them).  No other finalizer of the group is ever
    dropped. *)
Theorem VGR_deletion_ordered ρ sel gvk maxn req :
  guarded (fun h e => match e with
    | EDelete k _ =>
      (k = KVolumeReplication \/ k = KVolumeGroupReplicationContent) /\
      exists i, newest group_fetched_by h = Some i /\ is_deleting i = true
    | EUpdate KPersistentVolumeClaim _ => live h \/ may_release h
    | EUpdate KVolumeGroupReplication o =>
      exists i, newest group_by h = Some i /\
        forall f, f ∈ finalizers i -> f ∈ finalizers o \/
          f = vgrReplicationFinalizer /\ may_release h /\ members_released h
    | _ => True
    end) (vgr_trace ρ sel gvk maxn req).
Proof.
  apply vgr_trace_guarded. intros h [| |[]|[] o| | | | | | | | | | | | | | | |]; try done.
  intros (i & Hi & _ & Hf). by exists i.
Qed.

(** The status of a group mirrors its VolumeReplication.  A status write
    keeps the group's state (Unknown when empty), or takes the state of the
    VolumeReplication the server last returned, for a group with a handle; the
    run never panics and only requeues a group that cannot be deleted yet. *)
Theorem VGR_status_mirrors ρ sel gvk maxn req :
  guarded (fun h e => match e with
    | EStatusUpdate KVolumeGroupReplication o =>
      exists i, newest group_by h = Some i /\ obj_key o = obj_key i /\
        ((vgr_status o).(State) = (vgr_status i).(State) \/
         (vgr_status o).(State) = GetCurrentReplicationState (vgr_status i).(State) \/
         exists vr, newest dependent_vr_by h = Some vr /\ grouped h /\
           (vgr_status o).(State) = vr.(vr_Status).(State))
    | EStatusUpdate _ _ => False
    | _ => True
    end) (vgr_trace ρ sel gvk maxn req) /\
  exists res err, snd (run ρ [] (Reconcile sel gvk maxn req)) = Done (res, err) /\
    (res = no_requeue \/ (err = None /\ res = mkResult false (10 * second))).
Proof.
  split.
  - apply vgr_trace_guarded. by intros h [| | | |[] o| | | | | | | | | | | | | | |].
  - apply (wp_final group_ends). eapply wp_mono; [apply group_Reconcile_wp|done|done].
Qed.

(** The handles of a group are those of its PVCs' volumes, sorted, whatever
    order the PVCs are listed in; they are computed exactly when every PVC is
    bound to a CSI volume of the class's driver. *)
Theorem getPVHandles_sorted (ρ : env answer) pv cls pvcs pvcs' :
  (forall h key, ρ h (EGet KPersistentVolume key) = pv (nn_Name key)) -> pvcs' ≡ₚ pvcs ->
  exists r, snd (run ρ [] (getPVHandles cls pvcs)) = Done r /\
    match r with
    | inr l => Sorted string_le l /\
        (exists hs, Forall2 (contributes pv cls.(Provisioner)) pvcs hs /\ l ≡ₚ hs) /\
        snd (run ρ [] (getPVHandles cls pvcs')) = Done (inr l)
    | inl _ => exists pvc, pvc ∈ pvcs /\ forall hd, ~ contributes pv cls.(Provisioner) pvc hd
    end.
Proof.
  intros Hpv Hperm. unfold getPVHandles. rewrite !run_bind.
  destruct (collect_handles_spec ρ pv Hpv cls.(Provisioner) pvcs []) as (r & Hr & Hspec).
  destruct (collect_handles_spec ρ pv Hpv cls.(Provisioner) pvcs' []) as (r' & Hr' & Hspec').
  destruct (run ρ [] (collect_handles _ pvcs)) as [h1 o1]; simpl in Hr; subst o1.
  destruct (run ρ [] (collect_handles _ pvcs')) as [h2 o2]; simpl in Hr'; subst o2.
  eexists. split; [done|]. destruct r as [err|l]; [done|].
  destruct (contributes_Permutation pv _ _ _ _ Hspec Hperm) as (l' & Hl' & Hll').
  split_and!; [apply Sorted_merge_sort, _|exists l; split; [done|apply merge_sort_Permutation]|].
  destruct r' as [err|l2].
  - destruct Hspec' as (pvc & Hin & Hno). apply list_elem_of_lookup in Hin as [n Hn].
    destruct (Forall2_lookup_l _ _ _ _ _ Hl' Hn) as (hd & _ & Hc). by destruct (Hno hd).
  - rewrite (contributes_inj pv _ _ _ _ Hspec' Hl'). simpl. do 2 f_equal.
    apply (Sorted_unique string_le); [apply Sorted_merge_sort, _..|].
    by rewrite !merge_sort_Permutation.
Qed.

Lemma getPVHandles_sorted_witness :
  let pv name := inr (mkPV (new_meta "" name) (Some (mkCSI "rbd" ("vol-" +:+ name)))) in
  let ρ : env answer := fun _ e =>
    match e return answer e with
    | EGet KPersistentVolume key => pv (nn_Name key)
    | e => refused e
    end in
  let cls := mkClass (new_meta "" "cls") "rbd" ∅ in
  let a := mkPVC (new_meta "ns" "a") "a" None ClaimBound in
  let b := mkPVC (new_meta "ns" "b") "b" None ClaimBound in
  exists r, snd (run ρ [] (getPVHandles cls [b; a])) = Done r /\ r = inr ["vol-a"; "vol-b"].
Proof.
  intros pv ρ cls a b.
  destruct (getPVHandles_sorted ρ pv cls [b; a] [a; b]) as (r & Hr & _).
  - intros h key. reflexivity.
  - apply perm_swap.
  - exists r. split; [exact Hr|]. vm_compute in Hr. congruence.
Defined.

(** Writing the content converges.  When the server holds what a previous
    write of the content produced, the next one reads it and writes nothing. *)
Theorem content_converges (ρ : env answer) vgr driver l c0 c :
  is_new c = false -> obj_key c = obj_key c0 ->
  let stored := fst (mutate_content vgr driver l c) in
  let get := EGet KVolumeGroupReplicationContent (obj_key c0) in
  ρ [] get = inr stored ->
  run ρ [] (createOrUpdateVolumeGroupReplicationContentCR vgr c0 driver l) =
  ([existT get (inr stored)], Done (stored, None)).
Proof.
  intros Hc Hk stored get Hρ. apply (CreateOrUpdate_fixpoint ρ KVolumeGroupReplicationContent).
  - exact Hρ.
  - unfold stored. rewrite mutate_content_idem by done.
    by rewrite (mutate_content_existing vgr driver l c Hc).
  - etrans; [|exact Hk]. unfold stored. rewrite (mutate_content_existing vgr driver l c Hc).
    unfold mark_content. by destruct (negb _).
Qed.

Lemma content_converges_witness :
  let vgr := mkVGR "v1alpha1" "VolumeGroupReplication" (new_meta "ns" "g")
    (mkVGRSpec "gc" "rc" "" "" None Primary false false) (mkVGRStatus empty_status None) in
  let m := new_meta "" "content" in
  let c := mkVGRC (mkObjectMeta (Name m) "" "" 0 (Some 1%Z) None ∅ ∅ [] [])
    (mkVGRCSpec None "group-1" "rbd" "gc" ∅ []) [] in
  let stored := fst (mutate_content vgr "rbd" ["vol-a"] c) in
  let ρ : env answer := fun _ e =>
    match e return answer e with
    | EGet KVolumeGroupReplicationContent _ => inr stored
    | e => refused e
    end in
  snd (run ρ [] (createOrUpdateVolumeGroupReplicationContentCR vgr c "rbd" ["vol-a"])) =
    Done (stored, None) /\
  annotation stored volumeGroupReplicationRef = "ns/g".
Proof.
  intros vgr m c stored ρ. split; [|vm_compute; reflexivity].
  rewrite (content_converges ρ vgr "rbd" ["vol-a"] c c); reflexivity.
Defined.

(** Writing the group's VolumeReplication converges in the same way, its
    owner reference included: it is inserted once and then only replaced. *)
Theorem group_vr_converges (ρ : env answer) apiVersion k vgr vr0 vr :
  ParseGroup apiVersion ≠ None -> is_new vr = false ->
  obj_key vr = obj_key vr0 -> obj_Namespace vr = obj_Namespace vgr ->
  let f := mutate_vr (inr (apiVersion, k)) vgr in
  let get := EGet KVolumeReplication (obj_key vr0) in
  ρ [] get = inr (fst (f vr)) ->
  run ρ [] (createOrUpdateVolumeReplicationCR (inr (apiVersion, k)) vgr vr0) =
    ([existT get (inr (fst (f vr)))], Done (fst (f vr), None)) /\
  exists ref, ref ∈ (meta (fst (f vr))).(OwnerReferences) /\ ref.(or_UID) = (meta vgr).(UID).
Proof.
  intros Hg Hn Hk Hns f get Hρ.
  assert (f vr = (fst (f vr), None)) as Hok.
  { unfold f. rewrite mutate_vr_existing by done. unfold SetOwnerReference, validateOwner.
    simpl. unfold obj_Namespace in *. simpl in *. rewrite Hns. repeat case_bool_decide; naive_solver. }
  split.
  - apply (CreateOrUpdate_fixpoint ρ KVolumeReplication); [exact Hρ| |].
    + etrans; [|exact Hok]. by apply mutate_vr_idem.
    + etrans; [|exact Hk]. unfold f. rewrite mutate_vr_existing by done. unfold SetOwnerReference.
      by destruct (validateOwner _ _).
  - revert Hok. unfold f. rewrite mutate_vr_existing by done. unfold SetOwnerReference.
    destruct (validateOwner _ _); [by intros [=]|]. intros _. eexists.
    split; [apply upsertOwnerRef_in|done].
Qed.

Lemma group_vr_converges_witness :
  let m := mkObjectMeta "g" "ns" "uid-g" 1 (Some 1%Z) None ∅ ∅ [] [] in
  let vgr := mkVGR "v1alpha1" "VolumeGroupReplication" m
    (mkVGRSpec "gc" "rc" "" "" None Primary false false) (mkVGRStatus empty_status None) in
  let vr := mkVR (mkObjectMeta "vr" "ns" "" 0 (Some 1%Z) None ∅ ∅ [] [])
    (mkVRSpec "rc" Secondary (mkDataSource None "VolumeGroupReplication" "g") false "") empty_status in
  let stored := fst (mutate_vr (inr ("replication.storage.openshift.io/v1alpha1", "VolumeGroupReplication")) vgr vr) in
  let ρ : env answer := fun _ e =>
    match e return answer e with
    | EGet KVolumeReplication _ => inr stored
    | e => refused e
    end in
  exists ref, ref ∈ (meta stored).(OwnerReferences) /\ ref.(or_UID) = "uid-g".
Proof.
  intros m vgr vr stored ρ.
  apply (group_vr_converges ρ "replication.storage.openshift.io/v1alpha1" "VolumeGroupReplication"
           vgr vr vr); try reflexivity. vm_compute. congruence.
Defined.

(** A change of a dependent object wakes up its group: the annotation the
    controller writes ("namespace/name", neither of them empty nor containing a
    slash) maps back to exactly that group; no annotation maps to nothing; and
    the mapping panics exactly when the annotation has no slash. *)
Theorem enqueueVGRRequest_roundtrip annotations :
  (forall ns name, ns ≠ "" -> name ≠ "" ->
     "/"%char ∉ String.list_ascii_of_string ns -> "/"%char ∉ String.list_ascii_of_string name ->
     enqueueVGRRequest (<[volumeGroupReplicationRef := ns +:+ "/" +:+ name]> annotations) =
     Done [mkNamespacedName ns name]) /\
  (annotations !! volumeGroupReplicationRef = None -> enqueueVGRRequest annotations = Done []) /\
  ((exists m, enqueueVGRRequest annotations = Panicked m) <->
   exists v, annotations !! volumeGroupReplicationRef = Some v /\
     "/"%char ∉ String.list_ascii_of_string v).
Proof.
  unfold enqueueVGRRequest. split_and!.
  - intros ns name Hns Hname Hs1 Hs2. rewrite lookup_insert_eq. unfold Split, split.
    change (ns +:+ "/" +:+ name) with (ns +:+ String "/" name).
    rewrite split_slash_cons, split_slash_none by done. simpl.
    by rewrite !bool_decide_eq_false_2.
  - by intros ->.
  - destruct (annotations !! volumeGroupReplicationRef) as [v|]; [|naive_solver].
    unfold Split, split. destruct (split_slash v) as [w ws] eqn:Hv. split.
    + intros [m Hm]. exists v. split; [done|]. destruct ws; [|by case_match].
      apply split_slash_single. by rewrite Hv.
    + intros (v' & [= <-] & Hno). rewrite (split_slash_none v Hno) in Hv. injection Hv as <- <-. eauto.
Qed.

(** The names of the PVCs that are being deleted without being members. *)
Definition leaving (pvc : PersistentVolumeClaim) : bool :=
  is_deleting pvc && negb (contains (finalizers pvc) vgrReplicationFinalizer).

Lemma removeDeletingPVC_run ρ i pvcs :
  forall h, snd (run ρ h (removeDeletingPVC i pvcs)) = Done (obj_Name <$> filter (fun p => leaving p = true) pvcs).
Proof.
  induction pvcs as [|pvc pvcs IH]; intros h; [done|].
  destruct (leaving pvc) eqn:Hl; [rewrite filter_cons_True by done|rewrite filter_cons_False by congruence];
    unfold leaving in Hl; cbn [removeDeletingPVC];
    destruct (is_deleting pvc); simpl in Hl; try done; try apply IH;
    destruct (contains _ _); try done; [|apply IH].
  rewrite run_bind. specialize (IH h). destruct (run ρ h _) as [h' o]; simpl in *; by subst o.
Qed.

(** The members of a group are the PVCs its selector matches in its
    namespace, except those being deleted that never carried the group's
    finalizer: a member that is being deleted stays. *)
Theorem getMatchingPVCs_members (ρ : env answer) sel i selector pvcs :
  sel i.(vgr_Spec).(vgr_Selector) = inr selector ->
  (forall h, ρ h (EList KPersistentVolumeClaim (Some selector) (obj_Namespace i)) = inr pvcs) ->
  NoDup (obj_Name <$> pvcs) ->
  snd (run ρ [] (getMatchingPVCsFromSource sel i)) =
  Done (inr (filter (fun p => leaving p = false) pvcs, selector)).
Proof.
  intros Hsel Hρ Hnd. unfold getMatchingPVCsFromSource. rewrite Hsel. simpl. rewrite Hρ. simpl.
  rewrite run_bind. set (h := [_]). pose proof (removeDeletingPVC_run ρ i pvcs h) as Hrun.
  destruct (run ρ h _) as [h' o]; simpl in *; subst o. simpl. do 3 f_equal.
  apply filter_ext_in. intros p Hp. rewrite contains_false. split.
  - intros Hno. destruct (leaving p) eqn:Hl; [|done]. destruct Hno.
    apply list_elem_of_fmap. exists p. split; [done|]. by apply list_elem_of_filter.
  - intros Hl (q & Hq & [Hlq Hin]%list_elem_of_filter)%list_elem_of_fmap.
    assert (p = q) as -> by by eapply (NoDup_fmap_inj obj_Name). congruence.
Qed.

Lemma getMatchingPVCs_members_witness :
  let i := mkVGR "v1" "VolumeGroupReplication" (new_meta "ns" "g")
    (mkVGRSpec "gc" "rc" "" "" None Primary false false) (mkVGRStatus empty_status None) in
  let a := mkPVC (new_meta "ns" "a") "pv-a" None ClaimBound in
  let b := mkPVC (mkObjectMeta "b" "ns" "" 0 None (Some 5%Z) ∅ ∅ [] []) "pv-b" None ClaimBound in
  let ρ : env answer := fun _ e =>
    match e return answer e with
    | EList KPersistentVolumeClaim _ _ => inr [a; b]
    | e => refused e
    end in
  snd (run ρ [] (getMatchingPVCsFromSource (fun _ => inr "app=db") i)) = Done (inr ([a], "app=db")).
Proof.
  intros i a b ρ.
  rewrite (getMatchingPVCs_members ρ (fun _ => inr "app=db") i "app=db" [a; b]).
  - vm_compute. reflexivity.
  - reflexivity.
  - intros h. reflexivity.
  - apply (bool_decide_unpack (NoDup ["a"; "b"])). vm_compute. exact I.
Defined.

(** The number of sleeps so far. *)
Definition sleeps (h : hist) : nat :=
  length (observe (fun c => match projT1 c with ESleep _ => Some tt | _ => None end) h).

Lemma Wait_run (ρ : env answer) k (ans : nat -> error + list (obj_of k)) n fuel :
  (forall h, ρ h (EList k None "") = ans (sleeps h)) ->
  forall h, sleeps h <= n ->
  (forall m, sleeps h <= m < n -> exists err, ans m = inl err /\ as_nomatch err = true) ->
  (forall err, ans n = inl err -> as_nomatch err = false) ->
  n - sleeps h < fuel ->
  let '(h', o) := run ρ h (WaitForVolumeReplicationResource fuel k) in
  sleeps h' = n /\ o = Done (Some match ans n with inl err => Some err | inr _ => None end).
Proof.
  intros Hρ. induction fuel as [|fuel IH]; intros h Hle Hbefore Hn Hfuel; [lia|].
  simpl. rewrite Hρ. destruct (decide (sleeps h = n)) as [Heq|Hne].
  - rewrite Heq. destruct (ans n) as [err|l] eqn:Hans; [|done].
    rewrite (Hn err) by done. done.
  - destruct (Hbefore (sleeps h)) as (err & -> & Herr); [lia|]. rewrite Herr. simpl.
    set (h1 := _ :: _ :: h). assert (sleeps h1 = S (sleeps h)) as Hs by done.
    apply IH; rewrite ?Hs; [lia|intros; apply Hbefore; lia|done|lia].
Qed.

(** Waiting for a CRD ends as soon as the resource is served: if the server
    answers "no match" to the first n listings and something else to the next
    one, then any fuel above n is enough, the loop slept exactly n times, and it
    returns that answer's error (none when the listing succeeded). *)
Theorem Wait_terminates (ρ : env answer) k (ans : nat -> error + list (obj_of k)) n fuel :
  (forall h, ρ h (EList k None "") = ans (sleeps h)) ->
  (forall m, m < n -> exists err, ans m = inl err /\ as_nomatch err = true) ->
  (forall err, ans n = inl err -> as_nomatch err = false) ->
  n < fuel ->
  sleeps (fst (run ρ [] (WaitForVolumeReplicationResource fuel k))) = n /\
  snd (run ρ [] (WaitForVolumeReplicationResource fuel k)) =
    Done (Some match ans n with inl err => Some err | inr _ => None end).
Proof.
  intros Hρ Hbefore Hn Hfuel.
  pose proof (Wait_run ρ k ans n fuel Hρ []) as H. change (sleeps []) with 0 in H.
  destruct (run ρ [] _) as [h' o]. apply H; [lia|intros; apply Hbefore; lia|done|lia].
Qed.

Lemma Wait_terminates_witness :
  let ans (m : nat) : error + list VolumeGroupReplication :=
    if m <? 2 then inl (NoMatchError "VolumeGroupReplication") else inr [] in
  let ρ : env answer := fun h e =>
    match e return answer e with
    | EList KVolumeGroupReplication _ _ => ans (sleeps h)
    | e => refused e
    end in
  snd (run ρ [] (WaitForVolumeReplicationResource 3 KVolumeGroupReplication)) = Done (Some None).
Proof.
  intros ans ρ.
  apply (Wait_terminates ρ KVolumeGroupReplication ans 2 3).
  - intros h. reflexivity.
  - intros m Hm. exists (NoMatchError "VolumeGroupReplication"). unfold ans.
    destruct m as [|[|m]]; [split; reflexivity..|exfalso; clear -Hm; lia].
  - intros err. discriminate.
  - lia.
Defined.
