(* ===== verification/VolumeGroupReplicationContentController.v ===== *)
(** * The VolumeGroupReplicationContent controller

    src/internal/controller/replication.storage/volumegroupreplicationcontent_controller.go:
    [Reconcile] and the client lookup.  The owner-annotation functions are in Ownership.v. *)

From S2P Require Import Prelude.
From S2P Require Import GoErrors.
From S2P Require Import ApiTypes.
From S2P Require Import Effects.
From S2P Require Import ControllerUtil.
From S2P Require Import Connection.
From S2P Require Import Client.
From S2P Require Import Conditions.
From S2P Require Import Ownership.
From S2P Require Import VolumeGroupReplicationController.

Fixpoint supports_volume_group (caps : list Capability) : bool :=
  match caps with
  | [] => false
  | CapVolumeGroup t :: caps =>
    if (t =? VolumeGroup_VOLUME_GROUP)%Z then true else supports_volume_group caps
  | _ :: caps => supports_volume_group caps
  end.

Section controller.
Variable timeout : Z.

Definition getVolumeGroupClient (driverName : string) : M (error + VolumeGroupClient) :=
  r ← GetLeaderByDriver driverName;
  match r with
  | inl _ =>
    mret (inl (ErrorString ("no leader for the ControllerService of driver " +:+ go_quote driverName)))
  | inr conn =>
    if supports_volume_group conn.(Capabilities) then
      match conn.(Effects.Client) with
      | None => Panic "nil grpc.ClientConn"
      | Some cc => mret (inr (NewVolumeGroupClient cc timeout))
      end
    else
      mret (inl (ErrorString ("leading CSIAddonsNode " +:+ go_quote conn.(conn_Name) +:+
        " for driver " +:+ go_quote driverName +:+ " does not support VolumeGroup")))
  end.

(** Lines 140-158: empty and delete the volume group, if there is one. *)
Definition remove_group (instance : VGRC) (client : VolumeGroupClient)
    (parameters : gmap string string) (secretName secretNamespace : string) : M (option error) :=
  let groupID := vgrc_handle instance in
  if negb (bool_decide (groupID = "")) then
    err ←
      (if negb (bool_decide (instance.(vgrc_Spec).(vgrc_VolumeHandles) = [])) then
         r ← vgc_Modify client groupID [] secretName secretNamespace parameters;
         mret match r with
              | inl err =>
                if negb (bool_decide (status_Code (Some err) = NotFound)) then Some err else None
              | inr _ => None
              end
       else mret None);
    match err with
    | Some err => mret (Some err)
    | None =>
      r ← vgc_Delete client groupID secretName secretNamespace;
      mret match r with inl err => Some err | inr _ => None end
    end
  else mret None.

(** Lines 134-179: the content is being deleted. *)
Definition delete_content (instance : VGRC) (vgr : VGR) (client : VolumeGroupClient)
    (parameters : gmap string string) (secretName secretNamespace : string) : M result :=
  if negb (is_deleting vgr) then mret (no_requeue, None)
  else if negb (contains (finalizers instance) volumeReplicationFinalizer) then
    err ← remove_group instance client parameters secretName secretNamespace;
    match err with
    | Some err => mret (no_requeue, Some err)
    | None =>
      '(_, err) ← removeVGRContentOwnerFromVGRAnnotation vgr;
      match err with
      | Some err => mret (no_requeue, Some err)
      | None =>
        '(_, err) ← removeFinalizerFromVGRContent instance vgrReplicationFinalizer;
        mret (no_requeue, err)
      end
    end
  else
    mret (no_requeue, Some (ErrorString
      "cannot delete VolumeGroupReplicationContent resource, until dependent VolumeReplication instance is deleted")).

Definition set_group (c : VGRC) (id : string) (attributes : gmap string string) : VGRC :=
  let s := c.(vgrc_Spec) in
  vgrc_set_spec c (mkVGRCSpec s.(vgrc_VolumeGroupReplicationRef) id s.(vgrc_Provisioner)
    s.(vgrc_VolumeGroupReplicationClassName) attributes s.(vgrc_VolumeHandles)).

(** The PVs whose handle is one of the group's. *)
Definition pv_refs (handles : list string) (pvs : list PersistentVolume) : list string :=
  (fun pv => (pv_meta pv).(Name)) <$>
    filter (fun pv => match pv.(pv_CSI) with
                      | Some csi => contains handles csi.(csi_VolumeHandle)
                      | None => false
                      end = true) pvs.

(** Lines 205-231: list the PVs of the group in the status. *)
Definition write_refs (instance : VGRC) : M result :=
  r ← call (EList KPersistentVolume None "");
  match r with
  | inl err => mret (no_requeue, Some err)
  | inr pvs =>
    let refs := pv_refs instance.(vgrc_Spec).(vgrc_VolumeHandles) pvs in
    '(_, err) ← status_update_obj KVolumeGroupReplicationContent
        (mkVGRC instance.(vgrc_meta) instance.(vgrc_Spec) refs);
    mret (no_requeue, err)
  end.

(** Lines 181-231: create or modify the group, then list its PVs. *)
Definition sync_group (instance : VGRC) (groupID : string) (client : VolumeGroupClient)
    (parameters : gmap string string) (secretName secretNamespace : string) : M result :=
  let handles := instance.(vgrc_Spec).(vgrc_VolumeHandles) in
  '(instance, err) ←
    (if bool_decide (groupID = "") then
       r ← vgc_Create client (obj_Name instance) handles secretName secretNamespace parameters;
       match r with
       | inl err => mret (instance, Some err)
       | inr vg => update_obj KVolumeGroupReplicationContent (set_group instance vg.(vg_Id) vg.(vg_Context))
       end
     else
       r ← vgc_Modify client groupID handles secretName secretNamespace parameters;
       mret (instance, match r with inl err => Some err | inr _ => None end));
  match err with
  | Some err => mret (no_requeue, Some err)
  | None => write_refs instance
  end.

Definition Reconcile (req : NamespacedName) : M result :=
  r ← get_obj KVolumeGroupReplicationContent req;
  match r with
  | inl err => if IsNotFound err then mret (no_requeue, None) else mret (no_requeue, Some err)
  | inr instance =>
    r ← getVolumeGroupClient instance.(vgrc_Spec).(vgrc_Provisioner);
    match r with
    | inl err => mret (no_requeue, Some err)
    | inr client =>
      r ← get_obj KVolumeGroupReplicationClass
            (mkNamespacedName "" instance.(vgrc_Spec).(vgrc_VolumeGroupReplicationClassName));
      match r with
      | inl err => mret (no_requeue, Some err)
      | inr cls =>
        let parameters := filterPrefixedParameters replicationParameterPrefix cls.(Parameters) in
        let secretName := map_get cls.(Parameters) prefixedGroupReplicationSecretNameKey in
        let secretNamespace := map_get cls.(Parameters) prefixedGroupReplicationSecretNamespaceKey in
        match instance.(vgrc_Spec).(vgrc_VolumeGroupReplicationRef) with
        | None => mret (no_requeue, None)
        | Some ref =>
          r ← get_obj KVolumeGroupReplication (mkNamespacedName ref.(ref_Namespace) ref.(ref_Name));
          match r with
          | inl err => mret (no_requeue, Some err)
          | inr vgr =>
            if negb (is_deleting instance) then
              let groupID := vgrc_handle instance in
              '(_, err) ← annotateVolumeGroupReplicationWithVGRContentOwner (nn_Name req) vgr;
              match err with
              | Some err => mret (no_requeue, Some err)
              | None =>
                '(instance, err) ← addFinalizerToVGRContent instance vgrReplicationFinalizer;
                match err with
                | Some err => mret (no_requeue, Some err)
                | None => sync_group instance groupID client parameters secretName secretNamespace
                end
              end
            else delete_content instance vgr client parameters secretName secretNamespace
          end
        end
      end
    end
  end.
End controller.
