(* ===== verification/VolumeGroupReplicationContentProofs.v ===== *)
(** * Safety of the VolumeGroupReplicationContent controller

    When a volume group is created, modified and deleted on the storage side, and
    when the content's finalizer and its claim on the group are given up, for
    every environment. *)

From S2P Require Import Prelude.
From S2P Require Import GoErrors.
From S2P Require Import ApiTypes.
From S2P Require Import Effects.
From S2P Require Import ControllerUtil.
From S2P Require Import Connection.
From S2P Require Import Client.
From S2P Require Import Conditions.
From S2P Require Import Ownership.
From S2P Require Import VolumeGroupReplicationController.
From S2P Require Import VolumeGroupReplicationProofs.
From S2P Require Import VolumeGroupReplicationContentController.
From S2P Require Config.

(** ** What the controller knows *)

Definition content_fetched_by (c : {e & answer e}) : option VGRC :=
  match c with
  | existT e r =>
    match e return answer e -> option VGRC with
    | EGet k _ =>
      match k return error + obj_of k -> option VGRC with
      | KVolumeGroupReplicationContent => fun r => match r with inr o => Some o | inl _ => None end
      | _ => fun _ => None
      end
    | _ => fun _ => None
    end r
  end.

Definition group_class_by (c : {e & answer e}) : option ReplicationClass :=
  match c with
  | existT e r =>
    match e return answer e -> option ReplicationClass with
    | EGet k _ =>
      match k return error + obj_of k -> option ReplicationClass with
      | KVolumeGroupReplicationClass => fun r => match r with inr o => Some o | inl _ => None end
      | _ => fun _ => None
      end
    | _ => fun _ => None
    end r
  end.

(** The group was created in this run with this handle. *)
Definition created_as (id : string) (h : hist) : Prop :=
  exists cc t name ids ps sn sns (vg : VolumeGroup),
    existT (ERpc cc t (CreateVolumeGroup name ids ps sn sns)) (inr vg) ∈ h /\ vg.(vg_Id) = id.

(** The driver emptied the group, or does not know it. *)
Definition emptied (id : string) (h : hist) : Prop :=
  exists cc t ps sn sns (r : error + VolumeGroup),
    existT (ERpc cc t (ModifyVolumeGroupMembership id [] ps sn sns)) r ∈ h /\
    match r with inr _ => True | inl err => status_Code (Some err) = NotFound end.

Definition group_removed (id : string) (h : hist) : Prop :=
  exists cc t sn sns (r : unit), existT (ERpc cc t (DeleteVolumeGroup id sn sns)) (inr r) ∈ h.

(** Our finalizer is on the content: it was there, or an update with it was
    accepted. *)
Definition placed (h : hist) : Prop :=
  (exists c, newest content_fetched_by h = Some c /\ vgrReplicationFinalizer ∈ finalizers c) \/
  (exists o o' : VGRC, existT (EUpdate KVolumeGroupReplicationContent o) (inr o') ∈ h /\
     vgrReplicationFinalizer ∈ finalizers o).

(** The secret and parameters of a request are the class's. *)
Definition of_class (cls : ReplicationClass) (ps : gmap string string) (sn sns : string) : Prop :=
  ps = filterPrefixedParameters replicationParameterPrefix cls.(Parameters) /\
  sn = map_get cls.(Parameters) prefixedGroupReplicationSecretNameKey /\
  sns = map_get cls.(Parameters) prefixedGroupReplicationSecretNamespaceKey.

(** ** The contract *)

(** [c0] is the content fetched, [cls] its class, [vgr] its owner. *)
Definition facts (h : hist) (c0 : VGRC) (cls : ReplicationClass) (vgr : VGR) : Prop :=
  newest content_fetched_by h = Some c0 /\ newest group_class_by h = Some cls /\
  newest group_fetched_by h = Some vgr.

(** The content may be taken apart. *)
Definition dismantling (c0 : VGRC) (vgr : VGR) : Prop :=
  is_deleting c0 = true /\ is_deleting vgr = true /\
  volumeReplicationFinalizer ∉ finalizers c0.

Definition content_rpc_permitted (h : hist) (m : rpc) : Prop :=
  match m with
  | GetCapabilities => True
  | CreateVolumeGroup name ids ps sn sns =>
    exists c0 cls vgr c, facts h c0 cls vgr /\ is_deleting c0 = false /\ vgrc_handle c0 = "" /\
      newest content_by h = Some c /\ name = obj_Name c /\ ids = c.(vgrc_Spec).(vgrc_VolumeHandles) /\
      of_class cls ps sn sns /\ placed h
  | ModifyVolumeGroupMembership id ids ps sn sns =>
    exists c0 cls vgr, facts h c0 cls vgr /\ id = vgrc_handle c0 /\ id ≠ "" /\ of_class cls ps sn sns /\
      ((dismantling c0 vgr /\ ids = []) \/
       (is_deleting c0 = false /\ placed h /\
        exists c, newest content_by h = Some c /\ ids = c.(vgrc_Spec).(vgrc_VolumeHandles)))
  | DeleteVolumeGroup id sn sns =>
    exists c0 cls vgr, facts h c0 cls vgr /\ id = vgrc_handle c0 /\ id ≠ "" /\
      sn = map_get cls.(Parameters) prefixedGroupReplicationSecretNameKey /\
      sns = map_get cls.(Parameters) prefixedGroupReplicationSecretNamespaceKey /\
      dismantling c0 vgr /\ (c0.(vgrc_Spec).(vgrc_VolumeHandles) ≠ [] -> emptied id h)
  | _ => False
  end.

(** The storage side is clean: there was no group, or it was removed. *)
Definition cleaned (h : hist) : Prop :=
  exists c0 cls vgr, facts h c0 cls vgr /\ dismantling c0 vgr /\
    (vgrc_handle c0 ≠ "" -> group_removed (vgrc_handle c0) h).

Definition content_update_permitted (h : hist) (o : VGRC) : Prop :=
  exists c0 c, newest content_fetched_by h = Some c0 /\ newest content_by h = Some c /\
    (vgrc_handle o = vgrc_handle c \/ (vgrc_handle c0 = "" /\ created_as (vgrc_handle o) h)) /\
    o.(vgrc_Spec).(vgrc_VolumeHandles) = c.(vgrc_Spec).(vgrc_VolumeHandles) /\
    (forall f, f ∈ finalizers c -> f ∈ finalizers o \/ (f = vgrReplicationFinalizer /\ cleaned h)).

Definition content_contract (h : hist) (e : event) : Prop :=
  match e with
  | EGet _ _ | EReadPool | EStoreConn _ _ | ERange | EGetState _ | ECloseConn _ | ENewClient _ _ => True
  | EList k _ _ => k = KPersistentVolume
  | ERpc _ _ m => content_rpc_permitted h m
  | EUpdate k o =>
    match k return obj_of k -> Prop with
    | KVolumeGroupReplicationContent => content_update_permitted h
    | KVolumeGroupReplication => fun _ =>
      cleaned h \/ exists c0, newest content_fetched_by h = Some c0 /\ is_deleting c0 = false
    | _ => fun _ => False
    end o
  | EStatusUpdate k o =>
    match k return obj_of k -> Prop with
    | KVolumeGroupReplicationContent => fun o =>
      exists (c : VGRC) pvs, newest content_by h = Some c /\ existT (EList KPersistentVolume None "") (inr pvs) ∈ h /\
        o.(vgrc_Spec) = c.(vgrc_Spec) /\
        o.(vgrc_PersistentVolumeRefList) = pv_refs c.(vgrc_Spec).(vgrc_VolumeHandles) pvs
    | _ => fun _ => False
    end o
  | _ => False
  end.

(** ** The functions keep the contract *)

Definition content_ends (h : hist) (o : outcome result) : Prop :=
  match o with
  | Done (res, _) => res = no_requeue
  | Panicked _ => exists c, newest content_fetched_by h = Some c /\ c.(vgrc_Spec).(vgrc_Provisioner) = ""
  end.

(** Calls that read none of the three objects. *)
Definition mute (e : event) : Prop :=
  match e with
  | EGet (KVolumeGroupReplicationContent | KVolumeGroupReplicationClass | KVolumeGroupReplication) _
  | ECreate KVolumeGroupReplicationContent _ | EUpdate KVolumeGroupReplicationContent _ => False
  | _ => True
  end.

Lemma mute_silent e r : mute e ->
  content_fetched_by (existT e r) = None /\ group_class_by (existT e r) = None /\
  group_fetched_by (existT e r) = None /\ content_by (existT e r) = None.
Proof. destruct e as [[]| |[]|[]| | | | | | | | | | | | | | | |]; naive_solver. Qed.

Lemma facts_mute h h' c0 cls vgr : extends mute h h' -> facts h c0 cls vgr -> facts h' c0 cls vgr.
Proof.
  intros Hext. unfold facts, newest.
  rewrite !(observe_extends _ _ _ _ Hext); auto; intros e r He; by apply (mute_silent e r He).
Qed.

Lemma content_mute h h' : extends mute h h' -> newest content_by h' = newest content_by h.
Proof.
  intros Hext. unfold newest. rewrite (observe_extends _ _ _ _ Hext); auto.
  intros e r He. by apply (mute_silent e r He).
Qed.

Lemma connect_mute e : connect_call e -> mute e.
Proof. destruct e as [[]| |[]|[]|[]|[]|[]|? ? []| | | | | | | | | | | |]; simpl; tauto. Qed.

Lemma connect_content_contract h e : connect_call e -> content_contract h e.
Proof. by destruct e as [| | | | | | |? ? []| | | | | | | | | | | |]. Qed.

Lemma extends_mute_one e r (h : hist) : mute e -> extends mute h (existT e r :: h).
Proof. intros. by apply extends_cons; [apply extends_refl|]. Qed.

Lemma cleaned_mute h h' : extends mute h h' -> cleaned h -> cleaned h'.
Proof.
  intros Hext (c0 & cls & vgr & Hf & Hd & Hr). exists c0, cls, vgr.
  split_and!; [by eapply facts_mute|done|]. intros Hid.
  destruct (Hr Hid) as (cc & t & sn & sns & r & Hin), Hext as (u & -> & _).
  exists cc, t, sn, sns, r. apply elem_of_app. by right.
Qed.

Section content.
Context (timeout : Z) (c0 : VGRC) (cls : ReplicationClass) (vgr : VGR) (cc : ClientConn).

Abbreviation params := (filterPrefixedParameters replicationParameterPrefix cls.(Parameters)).
Abbreviation secret := (map_get cls.(Parameters) prefixedGroupReplicationSecretNameKey).
Abbreviation secretNs := (map_get cls.(Parameters) prefixedGroupReplicationSecretNamespaceKey).
Abbreviation client := (NewVolumeGroupClient cc timeout).

(** Listing the PVs and writing the status of the content [c]. *)
Lemma write_refs_wp h (c : VGRC) :
  newest content_by h = Some c ->
  wp content_contract content_ends h (write_refs c).
Proof.
  intros Hc. apply wp_call; [done|]. intros [err|pvs]; cbn [mbind prog_bind]; [done|].
  unfold status_update_obj. apply wp_assoc, wp_call.
  - exists c, pvs. split_and!; [done|left|done|done].
  - by intros [err|o].
Qed.

Lemma sync_group_wp h c :
  facts h c0 cls vgr -> is_deleting c0 = false -> newest content_by h = Some c -> placed h ->
  wp content_contract content_ends h
    (sync_group c (vgrc_handle c0) client params secret secretNs).
Proof.
  intros Hf Hlive Hc Hp. unfold sync_group. case_bool_decide as Hid.
  - apply wp_assoc, wp_call; [by exists c0, cls, vgr, c|].
    intros r. set (e := ERpc _ _ _). set (h1 := existT e r :: h).
    assert (extends mute h h1) as Hext by by apply extends_mute_one.
    assert (newest content_by h1 = Some c) as Hc1 by by rewrite (content_mute _ _ Hext).
    destruct r as [err|vg]; cbn [mbind prog_bind]; [done|].
    unfold update_obj. apply wp_assoc, wp_call.
    + exists c0, c. split_and!; [apply (facts_mute _ _ _ _ _ Hext Hf)|done| |done|auto].
      right. split; [done|]. do 8 eexists. split; [left|done].
    + intros [err|c2]; cbn [mbind prog_bind mret prog_ret]; [done|]. by apply write_refs_wp.
  - apply wp_assoc, wp_call.
    + exists c0, cls, vgr. split_and!; try done. right. split_and!; try done. by exists c.
    + intros [err|vg]; cbn [mbind prog_bind mret prog_ret]; [done|]. by apply write_refs_wp.
Qed.

(** Emptying and deleting the group on the storage side. *)
Lemma remove_group_wp h :
  facts h c0 cls vgr -> dismantling c0 vgr ->
  wp content_contract (fun h' o => exists err, o = Done err /\ extends mute h h' /\
      (err = None -> cleaned h'))
    h (remove_group c0 client params secret secretNs).
Proof.
  intros Hf Hd. unfold remove_group. case_bool_decide as Hid; cbn [negb].
  { exists None. split_and!; [done|apply extends_refl|]. intros _. exists c0, cls, vgr. by split_and!. }
  eapply (wp_seq _ _ (fun h' o => exists err, o = Done err /\ extends mute h h' /\
    (err = None -> c0.(vgrc_Spec).(vgrc_VolumeHandles) ≠ [] -> emptied (vgrc_handle c0) h'))).
  - case_bool_decide as Hh; cbn [negb]; [exists None; split_and!; [done|apply extends_refl|done]|].
    apply wp_call; [exists c0, cls, vgr; split_and!; try done; by left|].
    intros r. eexists. split_and!; [done|by apply extends_mute_one|]. intros Hr _.
    exists cc, timeout, params, secret, secretNs, r. split; [left|].
    destruct r as [err|vg]; [|done]. by case_bool_decide.
  - intros h1 o (err & -> & Hext & He). cbn [after].
    destruct err as [err|]; [by exists (Some err)|]. specialize (He eq_refl).
    pose proof (facts_mute _ _ _ _ _ Hext Hf) as Hf1.
    apply wp_call; [by exists c0, cls, vgr|]. intros r.
    assert (extends mute h1 (existT (ERpc cc timeout (DeleteVolumeGroup (vgrc_handle c0) secret secretNs)) r :: h1))
      as Hext1 by by apply extends_mute_one.
    eexists. split_and!; [done|by eapply extends_trans|]. destruct r as [err|u]; [done|]. intros _.
    exists c0, cls, vgr. split_and!; [by eapply facts_mute|done|]. intros _.
    exists cc, timeout, secret, secretNs, u. left.
Qed.

Lemma delete_content_wp h :
  facts h c0 cls vgr -> newest content_by h = Some c0 -> is_deleting c0 = true ->
  wp content_contract content_ends h (delete_content c0 vgr client params secret secretNs).
Proof.
  intros Hf Hc Hdel. unfold delete_content. destruct (is_deleting vgr) eqn:Hown; cbn [negb]; [|done].
  destruct (contains _ _) eqn:Hfin; cbn [negb]; [done|]. apply contains_false in Hfin.
  eapply wp_seq; [by apply remove_group_wp|].
  intros h1 o (err & -> & Hext & Hcl). cbn [after]. destruct err as [err|]; [done|].
  specialize (Hcl eq_refl). pose proof (content_mute _ _ Hext) as Hc1. rewrite Hc in Hc1.
  eapply (wp_seq _ _ (fun h' o => exists a err, o = Done (a, err) /\ extends mute h1 h')).
  { unfold removeVGRContentOwnerFromVGRAnnotation, release_ownership, update_obj.
    case_match; [|eexists _, _; split; [done|apply extends_refl]].
    apply wp_assoc, wp_call; [by left|]. intros [err|o]; eexists _, _; by split; [|apply extends_mute_one]. }
  intros h2 o (a & err & -> & Hext2). cbn [after]. destruct err as [err|]; [done|].
  unfold removeFinalizerFromVGRContent, remove_finalizer, update_obj.
  case_match; [|done]. apply wp_assoc, wp_assoc, wp_call; [|by intros [err|o]].
  assert (cleaned h2) as Hcl2 by by eapply cleaned_mute.
  exists c0, c0. split_and!.
  - by destruct (facts_mute _ _ _ _ _ (extends_trans _ _ _ _ Hext Hext2) Hf).
  - by rewrite (content_mute _ _ Hext2).
  - by left.
  - done.
  - intros f Hin. rewrite finalizers_with. unfold Config.RemoveFromSlice. rewrite elem_of_delete_eq.
    destruct (decide (f = vgrReplicationFinalizer)); auto.
Qed.
End content.

Lemma getVolumeGroupClient_wp timeout d h :
  wp content_contract (fun h' o => extends mute h h' /\ match o with
      | Done (inr c) => exists cc, c = NewVolumeGroupClient cc timeout
      | Done (inl _) => True
      | Panicked _ => d = ""
      end) h (getVolumeGroupClient timeout d).
Proof.
  unfold getVolumeGroupClient.
  eapply wp_seq; [apply GetLeaderByDriver_client, connect_content_contract|].
  intros h1 o [Hext Ho].
  assert (extends mute h h1) as Hm.
  { destruct Hext as (t & -> & Ht). exists t. split; [done|].
    eapply Forall_impl; [exact Ht|]. intros. by apply connect_mute. }
  destruct o as [[err|conn]|m]; cbn [after]; [done| |done].
  destruct Ho as [cc ->]. case_match; cbn [wp mret prog_ret]; eauto.
Qed.

(** The content claims its owner. *)
Lemma claim_group_wp h c0 name vgr :
  newest content_fetched_by h = Some c0 -> is_deleting c0 = false ->
  wp content_contract (fun h' o => exists a err, o = Done (a, err) /\ extends mute h h')
    h (annotateVolumeGroupReplicationWithVGRContentOwner name vgr).
Proof.
  intros Hf Hlive. unfold annotateVolumeGroupReplicationWithVGRContentOwner, claim_ownership, update_obj.
  case_bool_decide.
  - apply wp_assoc, wp_call; [right; by exists c0|].
    intros [err|o]; eexists _, _; by split; [|apply extends_mute_one].
  - case_match; eexists _, _; (split; [done|apply extends_refl]).
Qed.

(** Our finalizer is put on the content before anything else. *)
Lemma add_content_finalizer_wp h c0 :
  newest content_fetched_by h = Some c0 -> newest content_by h = Some c0 ->
  wp content_contract (fun h' o => exists c err, o = Done (c, err) /\
      (forall cls vgr, facts h c0 cls vgr -> facts h' c0 cls vgr) /\
      (err = None -> newest content_by h' = Some c /\ placed h'))
    h (addFinalizerToVGRContent c0 vgrReplicationFinalizer).
Proof.
  intros Hf Hc. unfold addFinalizerToVGRContent, add_finalizer, update_obj.
  destruct (contains _ _) eqn:Hin; cbn [negb].
  { eexists _, _. split_and!; [done|done|]. intros _. split; [done|]. left. exists c0.
    split; [done|]. by apply contains_true. }
  apply wp_assoc, wp_call.
  - exists c0, c0. split_and!; [done..|by left|done|].
    intros f Hfin. left. rewrite finalizers_with. apply elem_of_app. by left.
  - intros [err|c]; eexists _, _; (split_and!; [done|done|]); [done|]. intros _. split; [done|].
    right. eexists _, c. split; [left|]. rewrite finalizers_with. set_solver.
Qed.

Lemma content_Reconcile_wp timeout req :
  wp content_contract content_ends [] (Reconcile timeout req).
Proof.
  unfold Reconcile, get_obj. apply wp_call; [done|]. intros [err|c0]; cbn [mbind prog_bind].
  { by case_match. }
  eapply wp_seq; [apply getVolumeGroupClient_wp|].
  intros h1 o [Hext Ho]. set (h0 := [_]) in Hext.
  assert (newest content_fetched_by h1 = Some c0 /\ newest content_by h1 = Some c0) as [Hf1 Hc1].
  { rewrite (content_mute _ _ Hext). split; [|done]. unfold newest.
    rewrite (observe_extends content_fetched_by _ _ _ Hext); [done|].
    intros e r He. by apply (mute_silent e r He). }
  destruct o as [[err|client]|m]; cbn [after]; [done| |by exists c0]. destruct Ho as [cc ->].
  apply wp_call; [done|]. intros [err|cls]; cbn [mbind prog_bind]; [done|].
  destruct (vgrc_VolumeGroupReplicationRef _) as [ref|]; [|done].
  apply wp_call; [done|]. intros [err|vgr]; cbn [mbind prog_bind]; [done|].
  set (h3 := _ :: _ :: h1). assert (facts h3 c0 cls vgr) as Hfacts by by split_and!.
  destruct (negb _) eqn:Hdel; [apply negb_true_iff in Hdel|apply negb_false_iff in Hdel; by apply delete_content_wp].
  eapply wp_seq; [by apply (claim_group_wp h3 c0)|].
  intros h4 o (a & err & -> & Hext4). cbn [after]. destruct err as [err|]; [done|].
  eapply wp_seq; [apply (add_content_finalizer_wp h4 c0)|].
  - by destruct (facts_mute _ _ _ _ _ Hext4 Hfacts).
  - by rewrite (content_mute _ _ Hext4).
  - intros h5 o (c & err & -> & Hfs & Hc5). cbn [after]. destruct err as [err|]; [done|].
    destruct (Hc5 eq_refl) as [Hc Hp]. apply (sync_group_wp timeout c0 cls vgr); auto.
    apply Hfs. by eapply facts_mute.
Qed.

(** ** Properties *)

Definition content_trace (ρ : env answer) (timeout : Z) (req : NamespacedName) : hist :=
  fst (run ρ [] (Reconcile timeout req)).

Lemma content_trace_guarded ρ timeout req (G : hist -> event -> Prop) :
  (forall h e, content_contract h e -> G h e) -> guarded G (content_trace ρ timeout req).
Proof.
  intros HG. eapply guarded_mono; [exact HG|].
  apply (wp_run content_contract content_ends _ [] (content_Reconcile_wp timeout req) I ρ).
Qed.

(** C14: A volume group is created at most once and never orphaned.  The driver is
    asked to create a group only for a content that has no handle and is not
    being deleted, under the content's own name and with its volume handles, and
    only after our finalizer is on the content; the handle of a content changes
    only from empty to the one the driver returned. *)
Theorem content_group_created_once ρ timeout req :
  guarded (fun h e => match e with
    | ERpc _ _ (CreateVolumeGroup name ids _ _ _) =>
      exists c0 c, newest content_fetched_by h = Some c0 /\ is_deleting c0 = false /\
        vgrc_handle c0 = "" /\ newest content_by h = Some c /\ name = obj_Name c /\
        ids = c.(vgrc_Spec).(vgrc_VolumeHandles) /\ placed h
    | EUpdate KVolumeGroupReplicationContent o =>
      exists c0 c, newest content_fetched_by h = Some c0 /\ newest content_by h = Some c /\
        (vgrc_handle o = vgrc_handle c \/ (vgrc_handle c0 = "" /\ created_as (vgrc_handle o) h)) /\
        o.(vgrc_Spec).(vgrc_VolumeHandles) = c.(vgrc_Spec).(vgrc_VolumeHandles)
    | _ => True
    end) (content_trace ρ timeout req).
Proof.
  apply content_trace_guarded.
  intros h [| | |[] o| | | |cc t []| | | | | | | | | | | |]; try done; cbn [content_contract content_rpc_permitted].
  - intros (c0 & c & ? & ? & ? & ? & _). by exists c0, c.
  - intros (c0 & cls & vgr & c & [? _] & ? & ? & ? & ? & ? & _ & ?). by exists c0, c.
Qed.


(** The group requests and the status are faithful.  Every membership request
    carries the class's secret and its parameters without the reserved ones; the
    status lists exactly the PVs whose handle the content names; a run never
    requeues by itself and panics only for a content without a provisioner. *)
Theorem content_requests_faithful ρ timeout req :
  guarded (fun h e => match e with
    | ERpc _ _ (CreateVolumeGroup _ _ ps sn sns | ModifyVolumeGroupMembership _ _ ps sn sns) =>
      exists cls, newest group_class_by h = Some cls /\ of_class cls ps sn sns
    | EStatusUpdate KVolumeGroupReplicationContent o =>
      exists (c : VGRC) pvs, newest content_by h = Some c /\
        existT (EList KPersistentVolume None "") (inr pvs) ∈ h /\
        o.(vgrc_PersistentVolumeRefList) = pv_refs c.(vgrc_Spec).(vgrc_VolumeHandles) pvs
    | _ => True
    end) (content_trace ρ timeout req) /\
  match snd (run ρ [] (Reconcile timeout req)) with
  | Done (res, _) => res = no_requeue
  | Panicked _ => exists c, newest content_fetched_by (content_trace ρ timeout req) = Some c /\
                    c.(vgrc_Spec).(vgrc_Provisioner) = ""
  end.
Proof.
  split.
  - apply content_trace_guarded.
    intros h [| | | |[] o| | |cc t []| | | | | | | | | | | |]; try done; cbn [content_contract content_rpc_permitted].
    + intros (c & pvs & ? & ? & _ & ?). by exists c, pvs.
    + intros (c0 & cls & vgr & c & (_ & ? & _) & _ & _ & _ & _ & _ & ? & _). by exists cls.
    + intros (c0 & cls & vgr & (_ & ? & _) & _ & _ & ? & _). by exists cls.
  - apply (wp_final content_ends). eapply wp_mono; [apply content_Reconcile_wp|done|done].
Qed.
