(* ===== verification/GoCrypto.v ===== *)
(** * crypto/sha256 and path/filepath

    What the side-car uses of Go's standard library to find a volume's staging
    path: SHA-256 in hexadecimal, and filepath.Join on a Unix system. *)

From S2P Require Import Prelude.
From Stdlib Require Import ZArith.
#[local] Open Scope Z_scope.

(** ** SHA-256 (FIPS 180-4), on 32-bit words *)
Module Sha256.
Definition w32 (x : Z) : Z := Z.land x 4294967295.
Definition add32 (x y : Z) : Z := w32 (x + y).
Definition rotr (n x : Z) : Z := w32 (Z.lor (Z.shiftr x n) (Z.shiftl x (32 - n))).
Definition not32 (x : Z) : Z := Z.lxor x 4294967295.

(** The constants of the standard, by their definition: the first 32 bits of the
    fractional parts of the square roots of the first 8 primes, and of the cube
    roots of the first 64. *)
Definition is_prime (n : nat) : bool :=
  Nat.ltb 1 n && forallb (fun d => negb (Nat.eqb (n mod d) 0)) (seq 2 (n - 2)).
Definition primes : list Z :=
  Eval vm_compute in Z.of_nat <$> List.filter is_prime (seq 2 310).

(** The integer cube root of [x], bit by bit from [2 ^ n]. *)
Fixpoint cbrt (n : nat) (x r : Z) : Z :=
  match n with
  | O => r
  | S n => let r' := r + Z.shiftl 1 (Z.of_nat n) in cbrt n x (if r' * r' * r' <=? x then r' else r)
  end.

Definition K : list Z := Eval vm_compute in (fun p => w32 (cbrt 40 (Z.shiftl p 96) 0)) <$> primes.
Definition H0 : list Z := Eval vm_compute in (fun p => w32 (Z.sqrt (Z.shiftl p 64))) <$> take 8 primes.

Example K_size : length K = 64%nat.
Proof. reflexivity. Qed.

(** The message followed by 0x80, zeros and its bit length. *)
Definition be64 (n : Z) : list Z := (fun i => Z.land (Z.shiftr n (8 * (7 - Z.of_nat i))) 255) <$> seq 0 8.
Definition pad (m : list Z) : list Z :=
  let n := length m in
  m ++ [128] ++ replicate ((119 - n mod 64) mod 64) 0 ++ be64 (8 * Z.of_nat n).

Fixpoint words (l : list Z) : list Z :=
  match l with
  | a :: b :: c :: d :: l => (a * 16777216 + b * 65536 + c * 256 + d) :: words l
  | _ => []
  end.

Fixpoint blocks (fuel : nat) (l : list Z) : list (list Z) :=
  match fuel, l with
  | S fuel, _ :: _ => take 16 l :: blocks fuel (drop 16 l)
  | _, _ => []
  end.

(** The schedule, most recent word first. *)
Fixpoint schedule (n : nat) (w : list Z) : list Z :=
  match n with
  | O => w
  | S n =>
    let at_ i := nth i w 0 in
    let s0 := Z.lxor (Z.lxor (rotr 7 (at_ 14%nat)) (rotr 18 (at_ 14%nat))) (Z.shiftr (at_ 14%nat) 3) in
    let s1 := Z.lxor (Z.lxor (rotr 17 (at_ 1%nat)) (rotr 19 (at_ 1%nat))) (Z.shiftr (at_ 1%nat) 10) in
    schedule n (add32 (add32 (at_ 15%nat) s0) (add32 (at_ 6%nat) s1) :: w)
  end.

Definition round (s : list Z) (kw : Z * Z) : list Z :=
  match s with
  | [a; b; c; d; e; f; g; h] =>
    let s1 := Z.lxor (Z.lxor (rotr 6 e) (rotr 11 e)) (rotr 25 e) in
    let ch := Z.lxor (Z.land e f) (Z.land (not32 e) g) in
    let t1 := add32 (add32 (add32 h s1) ch) (add32 kw.1 kw.2) in
    let s0 := Z.lxor (Z.lxor (rotr 2 a) (rotr 13 a)) (rotr 22 a) in
    let maj := Z.lxor (Z.lxor (Z.land a b) (Z.land a c)) (Z.land b c) in
    [add32 t1 (add32 s0 maj); a; b; c; add32 d t1; e; f; g]
  | s => s
  end.

Definition compress (s : list Z) (block : list Z) : list Z :=
  zip_with add32 s (foldl round s (zip K (rev (schedule 48 (rev block))))).

Definition bytes_of (s : string) : list Z :=
  (fun c => Z.of_N (N_of_ascii c)) <$> String.list_ascii_of_string s.

Definition digest (s : string) : list Z :=
  let ws := words (pad (bytes_of s)) in
  foldl compress H0 (blocks (length ws) ws).

(** %x of the digest. *)
Definition hex_word (w : Z) : list ascii :=
  (fun i => hex_digit (Z.to_nat (Z.land (Z.shiftr w (4 * (7 - Z.of_nat i))) 15))) <$> seq 0 8.
Definition hex (s : string) : string := String.string_of_list_ascii (digest s ≫= hex_word).

(** The two test vectors of the standard. *)
Example hex_empty :
  hex "" = "e3b0c44298fc1c149afbf4c8996fb92427ae41e4649b934ca495991b7852b855".
Proof. vm_compute. reflexivity. Qed.
Example hex_abc :
  hex "abc" = "ba7816bf8f01cfea414140de5dae2223b00361a396177a9cb410ff61f20015ad".
Proof. vm_compute. reflexivity. Qed.
Example hex_two_blocks :
  hex "abcdbcdecdefdefgefghfghighijhijkijkljklmklmnlmnomnopnopq" =
  "248d6a61d20638b8e5c026930c3e6039a33ce45964ff2167f6ecedd419db06c1".
Proof. vm_compute. reflexivity. Qed.
End Sha256.

(** ** filepath.Join *)
Module Filepath.
Fixpoint split (s : string) : string * list string :=
  match s with
  | EmptyString => ("", [])
  | String c s =>
    let '(w, ws) := split s in
    if Ascii.eqb c "/" then ("", w :: ws) else (String c w, ws)
  end.

(** The components kept by Clean, most recent first. *)
Definition push (rooted : bool) (acc : list string) (w : string) : list string :=
  if bool_decide (w = "") || bool_decide (w = ".") then acc
  else if bool_decide (w = "..") then
    match acc with
    | [] => if rooted then [] else [".."]
    | p :: acc' => if bool_decide (p = "..") then ".." :: acc else acc'
    end
  else w :: acc.

Fixpoint join (l : list string) : string :=
  match l with
  | [] => ""
  | [w] => w
  | w :: l => w +:+ "/" +:+ join l
  end.

Definition Clean (p : string) : string :=
  let rooted := match p with String "/" _ => true | _ => false end in
  let '(w, ws) := split p in
  let kept := rev (foldl (push rooted) [] (w :: ws)) in
  if rooted then "/" +:+ join kept
  else match kept with [] => "." | _ => join kept end.

(** Empty elements are dropped; all empty gives the empty path. *)
Definition Join (elems : list string) : string :=
  match filter (fun e : string => e ≠ "") elems with
  | [] => ""
  | l => Clean (join l)
  end.

Example Join_clean : Join ["/var/lib/"; ""; "../csi"; "./x"; "globalmount"] = "/var/csi/x/globalmount".
Proof. reflexivity. Qed.
Example Join_dots : Join ["a"; "../../b"] = "../b".
Proof. reflexivity. Qed.
End Filepath.
