(* ===== verification/Sidecar.v ===== *)
(** * The side-car's gRPC services

    src/internal/sidecar/service (volumereplication.go, volumegroup.go,
    networkfence.go, reclaimspace.go, encryptionkeyrotation.go, identity.go),
    src/internal/kubernetes/secret.go and the server side of
    src/internal/kubernetes/token/grpc.go.  A handler reads secrets and PVs from
    the Kubernetes API and forwards one request to the CSI driver; the requests
    are the messages of the CSI-Addons specification. *)

From S2P Require Import Prelude.
From S2P Require Import GoErrors.
From S2P Require Import ApiTypes.
From S2P Require Import Effects.
From S2P Require Import GoCrypto.

(** ** The outside world of the side-car *)

Record SecretReference := mkSecretRef { sr_Name : string; sr_Namespace : string }.

Record SidecarCSI := mkSidecarCSI {
  sc_Driver : string;
  sc_VolumeHandle : string;
  sc_VolumeAttributes : gmap string string;
  sc_NodeStageSecretRef : option SecretReference
}.

(** What the side-car reads of a PersistentVolume. *)
Record SidecarPV := mkSidecarPV {
  spv_CSI : option SidecarCSI;
  spv_AccessModes : list string;
  spv_VolumeMode : option string
}.

(** Requests to the driver's replication service; [Force] is false and
    [Parameters] empty where the message has no such field. *)
Record csi_ReplicationRequest := mkCsiReplication {
  cr_Source : ReplicationSource;
  cr_ReplicationId : string;
  cr_Force : bool;
  cr_Parameters : gmap string string;
  cr_Secrets : gmap string string
}.

(** A volume capability: the access mode and whether it is a block device. *)
Record VolumeCapability := mkCapability { cap_Mode : Z; cap_Block : option bool }.

Inductive csi_call :=
| CEnable (r : csi_ReplicationRequest) | CDisable (r : csi_ReplicationRequest)
| CPromote (r : csi_ReplicationRequest) | CDemote (r : csi_ReplicationRequest)
| CResync (r : csi_ReplicationRequest) | CInfo (r : csi_ReplicationRequest)
| CCreateGroup (name : string) (ids : list string) (params secrets : gmap string string)
| CModifyGroup (id : string) (ids : list string) (params secrets : gmap string string)
| CDeleteGroup (id : string) (secrets : gmap string string)
| CGetGroup (id : string) (secrets : gmap string string)
| CFence (params : gmap string string) (cidrs : list string) (secrets : gmap string string)
| CUnfence (params : gmap string string) (cidrs : list string) (secrets : gmap string string)
| CFenceClients (params secrets : gmap string string)
| CControllerReclaim (id : string) (params : gmap string string) (secrets : gmap string string)
| CNodeReclaim (id staging : string) (cap : VolumeCapability) (secrets : gmap string string)
| CRotateKey (id : string) (params : gmap string string) (cap : VolumeCapability)
    (secrets : gmap string string)
| CGetIdentity | CGetCapabilities | CProbe.

(** A driver's reclaim-space response: usage before and after, each optional. *)
Record Usage := mkUsage { PreUsage : option Z; PostUsage : option Z }.

Definition csi_response (c : csi_call) : Type :=
  match c with
  | CResync _ => bool
  | CInfo _ => GetVolumeReplicationInfoResponse
  | CCreateGroup _ _ _ _ | CModifyGroup _ _ _ _ | CGetGroup _ _ => VolumeGroup
  | CFenceClients _ _ => list (string * list string)
  | CControllerReclaim _ _ _ | CNodeReclaim _ _ _ _ => option Usage
  | CGetIdentity => string
  | CGetCapabilities => list Capability
  | CProbe => option bool
  | _ => unit
  end.

Inductive sevent :=
| SSecret (ns name : string)          (* Secrets(ns).Get(name) *)
| SPV (name : string)                 (* PersistentVolumes().Get(name) *)
| SDriver (c : csi_call)              (* the CSI driver *)
| STokenReview (token : string).      (* TokenReviews().Create *)

Definition sanswer (e : sevent) : Type :=
  match e with
  | SSecret _ _ => error + gmap string string
  | SPV _ => error + SidecarPV
  | SDriver c => error + csi_response c
  | STokenReview _ => error + bool
  end.

Abbreviation SM := (prog sanswer).
Abbreviation shist := (history sanswer).

(** status.Error. *)
Definition status_Error (c : Code) (m : string) : error := GRPCStatus c m.

(** ** kubernetes/secret.go *)

(** The entries are copied one by one: the order does not matter. *)
Definition GetSecret (name ns : string) : SM (error + gmap string string) :=
  call (SSecret ns name).

(** ** service/volumereplication.go *)

(** A request as it arrives: the source message may be missing, or hold neither
    a volume nor a group. *)
Record proto_ReplicationRequest := mkProtoReplication {
  pr_Source : option (option ReplicationSource);
  pr_ReplicationId : string;
  pr_Force : bool;
  pr_Parameters : gmap string string;
  pr_SecretName : string;
  pr_SecretNamespace : string
}.

Definition setReplicationSource (req : option (option ReplicationSource)) : error + ReplicationSource :=
  match req with
  | None => inl (ErrorString "replication source is required")
  | Some None => inl (ErrorString "either volume or volume group is required")
  | Some (Some (SourceVolume id)) => inr (SourceVolume id)
  | Some (Some (SourceVolumeGroup id)) => inr (SourceVolumeGroup id)
  end.

(** What the six handlers begin with: the secret, then the source. *)
Definition prepare (req : proto_ReplicationRequest) (force : bool) (params : gmap string string)
    : SM (error + csi_ReplicationRequest) :=
  r ← GetSecret req.(pr_SecretName) req.(pr_SecretNamespace);
  match r with
  | inl err => mret (inl (status_Error Internal (Error err)))
  | inr data =>
    match setReplicationSource req.(pr_Source) with
    | inl err => mret (inl (status_Error Internal (Error err)))
    | inr src => mret (inr (mkCsiReplication src req.(pr_ReplicationId) force params data))
    end
  end.

Definition drive (c : csi_call) : SM (error + csi_response c) := call (SDriver c).

Definition EnableVolumeReplication (req : proto_ReplicationRequest) : SM (error + unit) :=
  r ← prepare req false req.(pr_Parameters);
  match r with inl err => mret (inl err) | inr q => drive (CEnable q) end.

Definition DisableVolumeReplication (req : proto_ReplicationRequest) : SM (error + unit) :=
  r ← prepare req false req.(pr_Parameters);
  match r with inl err => mret (inl err) | inr q => drive (CDisable q) end.

Definition PromoteVolume (req : proto_ReplicationRequest) : SM (error + unit) :=
  r ← prepare req req.(pr_Force) req.(pr_Parameters);
  match r with inl err => mret (inl err) | inr q => drive (CPromote q) end.

Definition DemoteVolume (req : proto_ReplicationRequest) : SM (error + unit) :=
  r ← prepare req req.(pr_Force) req.(pr_Parameters);
  match r with inl err => mret (inl err) | inr q => drive (CDemote q) end.

Definition ResyncVolume (req : proto_ReplicationRequest) : SM (error + bool) :=
  r ← prepare req req.(pr_Force) req.(pr_Parameters);
  match r with inl err => mret (inl err) | inr q => drive (CResync q) end.

(** The missing last sync time is only logged. *)
Definition GetVolumeReplicationInfo (req : proto_ReplicationRequest)
    : SM (error + GetVolumeReplicationInfoResponse) :=
  r ← prepare req false ∅;
  match r with
  | inl err => mret (inl err)
  | inr q =>
    r ← drive (CInfo q);
    mret match r with
         | inl err => inl err
         | inr resp => inr (mkInfo resp.(info_LastSyncTime) resp.(info_LastSyncDuration)
                              resp.(info_LastSyncBytes) resp.(info_Status) resp.(info_StatusMessage))
         end
  end.

(** ** service/volumegroup.go *)

Definition with_secret {A} (name ns : string) (k : gmap string string -> SM (error + A))
    : SM (error + A) :=
  r ← GetSecret name ns;
  match r with
  | inl err => mret (inl (status_Error Internal (Error err)))
  | inr data => k data
  end.

(** The response's group, rebuilt from the driver's. *)
Definition group_response (vg : VolumeGroup) : VolumeGroup :=
  mkVolumeGroup vg.(vg_Id) vg.(vg_Context) vg.(vg_VolumeIds).

Definition CreateVolumeGroup (name : string) (ids : list string) (params : gmap string string)
    (secret secretNs : string) : SM (error + VolumeGroup) :=
  with_secret secret secretNs (fun data =>
    r ← drive (CCreateGroup name ids params data);
    mret match r with inl err => inl err | inr vg => inr (group_response vg) end).

Definition ModifyVolumeGroupMembership (id : string) (ids : list string) (params : gmap string string)
    (secret secretNs : string) : SM (error + VolumeGroup) :=
  with_secret secret secretNs (fun data =>
    r ← drive (CModifyGroup id ids params data);
    mret match r with inl err => inl err | inr vg => inr (group_response vg) end).

Definition DeleteVolumeGroup (id secret secretNs : string) : SM (error + unit) :=
  with_secret secret secretNs (fun data => drive (CDeleteGroup id data)).

Definition ControllerGetVolumeGroup (id secret secretNs : string) : SM (error + VolumeGroup) :=
  with_secret secret secretNs (fun data =>
    r ← drive (CGetGroup id data);
    mret match r with inl err => inl err | inr vg => inr (group_response vg) end).

(** ** service/networkfence.go *)

Definition getCIDRS (cidr : list string) : list string := cidr.

Definition FenceClusterNetwork (params : gmap string string) (cidrs : list string)
    (secret secretNs : string) : SM (error + unit) :=
  r ← GetSecret secret secretNs;
  match r with
  | inl err => mret (inl (status_Error InvalidArgument (Error err)))
  | inr data => drive (CFence params (getCIDRS cidrs) data)
  end.

Definition UnFenceClusterNetwork (params : gmap string string) (cidrs : list string)
    (secret secretNs : string) : SM (error + unit) :=
  r ← GetSecret secret secretNs;
  match r with
  | inl err => mret (inl (status_Error InvalidArgument (Error err)))
  | inr data => drive (CUnfence params (getCIDRS cidrs) data)
  end.

Definition GetFenceClients (params : gmap string string) (secret secretNs : string)
    : SM (error + list (string * list string)) :=
  r ← (if negb (bool_decide (secret = "")) || negb (bool_decide (secretNs = ""))
       then GetSecret secret secretNs else mret (inr ∅));
  match r with
  | inl err => mret (inl (status_Error InvalidArgument (Error err)))
  | inr data => drive (CFenceClients params data)
  end.

(** ** service/reclaimspace.go and service/encryptionkeyrotation.go *)

Section volumes.
(** accessmodes.ToCSIAccessMode of csi-lib-utils, for a single-node multi-writer
    capable driver. *)
Variable ToCSIAccessMode : list string -> error + Z.
(** The server's staging path. *)
Variable stagingPath : string.

(** The node stage secret, if the PV names one. *)
Definition stage_secret (csi : SidecarCSI) : SM (error + gmap string string) :=
  match csi.(sc_NodeStageSecretRef) with
  | None => mret (inr ∅)
  | Some ref =>
    r ← GetSecret ref.(sr_Name) ref.(sr_Namespace);
    mret match r with
         | inl err => inl (status_Error InvalidArgument (Error err))
         | inr data => inr data
         end
  end.

Definition ControllerReclaimSpace (pvName : string) : SM (error + Usage) :=
  r ← call (SPV pvName);
  match r with
  | inl _ => mret (inl (status_Error InvalidArgument ("failed to get pv " +:+ go_quote pvName)))
  | inr pv =>
    match pv.(spv_CSI) with
    | None => mret (inl (status_Error InvalidArgument ("pv " +:+ go_quote pvName +:+ " is not a CSI volume")))
    | Some csi =>
      r ← stage_secret csi;
      match r with
      | inl err => mret (inl err)
      | inr data =>
        r ← drive (CControllerReclaim csi.(sc_VolumeHandle) csi.(sc_VolumeAttributes) data);
        match r with
        | inl err => mret (inl err)
        | inr None => mret (inl (status_Error InvalidArgument
                        "nil value returned as the response of ControllerReclaimSpace"))
        | inr (Some res) => mret (inr (mkUsage res.(PreUsage) res.(PostUsage)))
        end
      end
    end
  end.

Definition getStagingTargetPath (csi : SidecarCSI) : string :=
  Filepath.Join [stagingPath; csi.(sc_Driver); Sha256.hex csi.(sc_VolumeHandle); "globalmount"].

Definition PersistentVolumeBlock := "Block".

Definition NodeReclaimSpace (pvName : string) : SM (error + Usage) :=
  r ← call (SPV pvName);
  match r with
  | inl _ => mret (inl (status_Error InvalidArgument ("failed to get pv " +:+ go_quote pvName)))
  | inr pv =>
    match pv.(spv_CSI) with
    | None => mret (inl (status_Error InvalidArgument ("pv " +:+ go_quote pvName +:+ " is not a CSI volume")))
    | Some csi =>
      match ToCSIAccessMode pv.(spv_AccessModes) with
      | inl err => mret (inl (status_Error InvalidArgument (Error err)))
      | inr csiMode =>
        match pv.(spv_VolumeMode) with
        | None => Panic "nil pointer dereference: pv.Spec.VolumeMode"
        | Some mode =>
          let block := bool_decide (mode = PersistentVolumeBlock) in
          let path := if block then Filepath.Join [stagingPath; "volumeDevices"; "staging"; pvName]
                      else getStagingTargetPath csi in
          r ← stage_secret csi;
          match r with
          | inl err => mret (inl err)
          | inr data =>
            r ← drive (CNodeReclaim csi.(sc_VolumeHandle) path (mkCapability csiMode (Some block)) data);
            match r with
            | inl err => mret (inl err)
            | inr None => mret (inl (status_Error InvalidArgument
                            "nil value returned as the response of NodeReclaimSpace"))
            | inr (Some res) => mret (inr (mkUsage res.(PreUsage) res.(PostUsage)))
            end
          end
        end
      end
    end
  end.

Definition EncryptionKeyRotate (pvName : string) : SM (error + unit) :=
  if bool_decide (pvName = "") then
    mret (inl (status_Error InvalidArgument "pv name is missing from the request"))
  else
  r ← call (SPV pvName);
  match r with
  | inl err => mret (inl (status_Error InvalidArgument
                 ("failed to find a pv with name: " +:+ pvName +:+ ". error: " +:+ Error err)))
  | inr pv =>
    match pv.(spv_CSI) with
    | None => mret (inl (status_Error InvalidArgument (pvName +:+ " is not a CSI volume")))
    | Some csi =>
      match ToCSIAccessMode pv.(spv_AccessModes) with
      | inl err => mret (inl (status_Error InvalidArgument (Error err)))
      | inr csiMode =>
        r ← stage_secret csi;
        match r with
        | inl err => mret (inl err)
        | inr data =>
          drive (CRotateKey csi.(sc_VolumeHandle) csi.(sc_VolumeAttributes)
                   (mkCapability csiMode None) data)
        end
      end
    end
  end.
End volumes.

(** ** service/identity.go *)
Definition GetIdentity : SM (error + string) := drive CGetIdentity.
Definition GetCapabilities : SM (error + list Capability) := drive CGetCapabilities.
Definition Probe : SM (error + option bool) := drive CProbe.

(** ** kubernetes/token/grpc.go: the server's interceptor *)

Definition bearerPrefix := "Bearer ".
Definition authorizationKey := "authorization".

(** strings.TrimPrefix. *)
Definition parseToken (authHeader : string) : string :=
  if String.prefix bearerPrefix authHeader
  then String.substring (String.length bearerPrefix)
         (String.length authHeader - String.length bearerPrefix) authHeader
  else authHeader.

Definition validateBearerToken (token : string) : SM (error + bool) :=
  r ← call (STokenReview (parseToken token));
  match r with
  | inl err => mret (inl (WrapError ("failed to review token " +:+ Error err) err))
  | inr authenticated => mret (inr authenticated)
  end.

(** The incoming metadata; [None] when the context has none. *)
Definition authorizeConnection (md : option (gmap string (list string))) : SM (option error) :=
  match md with
  | None => mret (Some (status_Error Unauthenticated "missing metadata"))
  | Some md =>
    match md !! authorizationKey with
    | None | Some [] => mret (Some (status_Error Unauthenticated "missing authorization token"))
    | Some (token :: _) =>
      r ← validateBearerToken token;
      match r with
      | inl err => mret (Some err)
      | inr true => mret None
      | inr false => mret (Some (status_Error Unauthenticated "invalid token"))
      end
    end
  end.

Definition AuthorizationInterceptor {A} (md : option (gmap string (list string)))
    (handler : SM (error + A)) : SM (error + A) :=
  err ← authorizeConnection md;
  match err with
  | Some err => mret (inl err)
  | None => handler
  end.

(** ** Properties *)

(** [forwards code handler name ns c conv]: the handler reads the named secret;
    if that fails it answers with [code] and the error's text and does nothing
    else, and otherwise it makes exactly one driver call, [c] of the secret's
    data, and answers with the driver's answer, errors unchanged. *)
Definition forwards {A} (code : Code) (handler : SM (error + A)) (name ns : string)
    (c : gmap string string -> csi_call) (conv : forall data, csi_response (c data) -> A) : Prop :=
  forall ρ : env sanswer,
    let get := SSecret ns name in
    run ρ [] handler =
    match ρ [] get as r return shist * outcome (error + A) with
    | inl err => ([existT get (inl err)], Done (inl (GRPCStatus code (Error err))))
    | inr data =>
      let h := [existT get (inr data : sanswer get)] in
      let r := ρ h (SDriver (c data)) in
      (existT (SDriver (c data)) r :: h,
       Done match r with inl err => inl err | inr x => inr (conv data x) end)
    end.

(** The message the manager's client sends for a request of the controller. *)
Definition wire (q : ReplicationRequest) : proto_ReplicationRequest :=
  mkProtoReplication (Some (Some q.(rq_Source))) q.(rq_ReplicationId) q.(rq_Force)
    q.(rq_Parameters) q.(rq_SecretName) q.(rq_SecretNamespace).

(** The driver's request for it. *)
Definition driver_request (q : ReplicationRequest) (force : bool) (params data : gmap string string)
    : csi_ReplicationRequest :=
  mkCsiReplication q.(rq_Source) q.(rq_ReplicationId) force params data.

Lemma prepare_wire ρ q force params :
  run ρ [] (prepare (wire q) force params) =
  let get := SSecret q.(rq_SecretNamespace) q.(rq_SecretName) in
  match ρ [] get as r return shist * outcome (error + csi_ReplicationRequest) with
  | inl err => ([existT get (inl err)], Done (inl (GRPCStatus Internal (Error err))))
  | inr data => ([existT get (inr data : sanswer get)], Done (inr (driver_request q force params data)))
  end.
Proof.
  unfold prepare, GetSecret. simpl. destruct (ρ [] _) as [err|data]; [done|]. simpl.
  unfold driver_request. by destruct (rq_Source q).
Qed.

(** Each handler, once the first answer is known, computes. *)
Ltac forwards_tac :=
  intros ρ get; subst get;
  unfold EnableVolumeReplication, DisableVolumeReplication, PromoteVolume, DemoteVolume,
    ResyncVolume, GetVolumeReplicationInfo;
  rewrite run_bind, prepare_wire; cbv zeta;
  match goal with |- context [ρ [] ?e] => destruct (ρ [] e) as [err|data] end; [done|];
  simpl; match goal with |- context [ρ ?h ?e] => destruct (ρ h e) as [err|[]] end; done.

(** The side-car passes every replication request of the controller on
    unchanged: the same volume or group, replication id, force flag (for the
    requests that have one) and parameters, with the data of the named secret;
    the driver's answer comes back unchanged.  Only when the secret cannot be
    read does it answer by itself, with Internal, and without a driver call. *)
Theorem replication_forwarded q :
  let sn := q.(rq_SecretName) in
  let sns := q.(rq_SecretNamespace) in
  let f := q.(rq_Force) in
  let ps := q.(rq_Parameters) in
  forwards Internal (EnableVolumeReplication (wire q)) sn sns
    (fun d => CEnable (driver_request q false ps d)) (fun _ u => u) /\
  forwards Internal (DisableVolumeReplication (wire q)) sn sns
    (fun d => CDisable (driver_request q false ps d)) (fun _ u => u) /\
  forwards Internal (PromoteVolume (wire q)) sn sns
    (fun d => CPromote (driver_request q f ps d)) (fun _ u => u) /\
  forwards Internal (DemoteVolume (wire q)) sn sns
    (fun d => CDemote (driver_request q f ps d)) (fun _ u => u) /\
  forwards Internal (ResyncVolume (wire q)) sn sns
    (fun d => CResync (driver_request q f ps d)) (fun _ ready => ready) /\
  forwards Internal (GetVolumeReplicationInfo (wire q)) sn sns
    (fun d => CInfo (driver_request q false ∅ d)) (fun _ info => info).
Proof.
  split_and!; forwards_tac.
Qed.

(** The volume-group and fencing services forward in the same way: names,
    identifiers, volume lists, CIDRs and parameters reach the driver as they
    came, with the data of the named secret; a secret that cannot be read is an
    Internal error for groups and an InvalidArgument for fencing. *)
Theorem groups_and_fences_forwarded name id ids ps cidrs sn sns :
  forwards Internal (CreateVolumeGroup name ids ps sn sns) sn sns
    (fun d => CCreateGroup name ids ps d) (fun _ vg => vg) /\
  forwards Internal (ModifyVolumeGroupMembership id ids ps sn sns) sn sns
    (fun d => CModifyGroup id ids ps d) (fun _ vg => vg) /\
  forwards Internal (DeleteVolumeGroup id sn sns) sn sns (fun d => CDeleteGroup id d) (fun _ u => u) /\
  forwards Internal (ControllerGetVolumeGroup id sn sns) sn sns (fun d => CGetGroup id d) (fun _ vg => vg) /\
  forwards InvalidArgument (FenceClusterNetwork ps cidrs sn sns) sn sns
    (fun d => CFence ps cidrs d) (fun _ u => u) /\
  forwards InvalidArgument (UnFenceClusterNetwork ps cidrs sn sns) sn sns
    (fun d => CUnfence ps cidrs d) (fun _ u => u) /\
  (sn ≠ "" \/ sns ≠ "" ->
   forwards InvalidArgument (GetFenceClients ps sn sns) sn sns (fun d => CFenceClients ps d) (fun _ l => l)).
Proof.
  split_and!.
  1-6: intros ρ get; subst get;
    unfold CreateVolumeGroup, ModifyVolumeGroupMembership, DeleteVolumeGroup, ControllerGetVolumeGroup,
      FenceClusterNetwork, UnFenceClusterNetwork, getCIDRS, with_secret, GetSecret; simpl;
    match goal with |- context [ρ [] ?e] => destruct (ρ [] e) as [err|data] end; [done|];
    simpl; match goal with |- context [ρ ?h ?e] => destruct (ρ h e) as [err|[]] end; done.
  intros Hs ρ get. subst get. unfold GetFenceClients, GetSecret.
  assert (negb (bool_decide (sn = "")) || negb (bool_decide (sns = "")) = true) as ->
    by (repeat case_bool_decide; naive_solver).
  simpl. destruct (ρ [] _) as [err|data]; [done|]. simpl. by destruct (ρ _ (SDriver _)).
Qed.

Lemma groups_and_fences_forwarded_witness :
  forwards InvalidArgument (GetFenceClients ∅ "secret" "ns") "secret" "ns"
    (fun d => CFenceClients ∅ d) (fun _ l => l).
Proof.
  apply (groups_and_fences_forwarded "" "" [] ∅ [] "secret" "ns"). left. discriminate.
Defined.

(** Without a secret the fence clients are queried with no secret data and
    without reading any secret; a request that names neither a volume nor a
    group is refused before the driver is involved. *)
Theorem sidecar_guards (ρ : env sanswer) ps req :
  fst (run ρ [] (GetFenceClients ps "" "")) = [existT (SDriver (CFenceClients ps ∅)) (ρ [] (SDriver (CFenceClients ps ∅)))] /\
  (req.(pr_Source) = None \/ req.(pr_Source) = Some None ->
   exists err, snd (run ρ [] (PromoteVolume req)) = Done (inl (GRPCStatus Internal err)) /\
     length (fst (run ρ [] (PromoteVolume req))) = 1).
Proof.
  split; [done|]. intros Hsrc. unfold PromoteVolume, prepare, GetSecret. simpl.
  destruct (ρ [] _) as [err|data]; simpl; [by eexists|].
  destruct Hsrc as [-> | ->]; simpl; by eexists.
Qed.

Lemma sidecar_guards_witness :
  let req := mkProtoReplication None "" true ∅ "s" "ns" in
  let ρ : env sanswer := fun _ e =>
    match e return sanswer e with
    | SSecret _ _ => inr ∅
    | SPV _ => inl (ErrorString "none")
    | SDriver _ => inl (ErrorString "none")
    | STokenReview _ => inr false
    end in
  exists err, snd (run ρ [] (PromoteVolume req)) = Done (inl (GRPCStatus Internal err)).
Proof.
  intros req ρ.
  destruct (proj2 (sidecar_guards ρ ∅ req)) as (err & Herr & _); [left; reflexivity|].
  exists err. exact Herr.
Defined.

(** *** Authorization *)

(** The client's header (WithServiceAccountToken) is "Bearer " and the token. *)
Lemma parseToken_bearer token : parseToken (bearerPrefix +:+ token) = token.
Proof.
  assert (forall s, String.substring 0 (String.length s) s = s) as Hall.
  { induction s as [|c s IH]; simpl; congruence. }
  unfold parseToken. simpl. change ("" +:+ token) with token. rewrite Nat.sub_0_r, Hall.
  by destruct token.
Qed.

Lemma guarded_after {A} (h0 : shist) (p : SM A) (P : shist -> Prop) :
  (forall c h, P h -> P (c :: h)) -> P h0 ->
  wp (fun h _ => P h) (fun _ _ => True) h0 p.
Proof.
  intros Hc. revert h0. induction p as [a|m|e k IH]; intros h0 HP; simpl; [done..|].
  split; [done|]. intros r. by apply IH, Hc.
Qed.

(** The API server authenticated the token. *)
Definition authenticated (token : string) (h : shist) : Prop :=
  existT (STokenReview token) (inr true) ∈ h.

(** Behind the interceptor nothing happens without authentication: whatever
    the handler is, each call other than the token review itself follows a
    review of the caller's own token (the first authorization header without its
    Bearer prefix) that the API server answered with yes; without such a header
    there is no call at all and the answer is Unauthenticated. *)
Theorem interceptor_authenticates {A} (ρ : env sanswer) md (handler : SM (error + A)) :
  guarded (fun h e =>
    exists m header rest, md = Some m /\ m !! authorizationKey = Some (header :: rest) /\
      (h = [] /\ e = STokenReview (parseToken header) \/ authenticated (parseToken header) h))
    (fst (run ρ [] (AuthorizationInterceptor md handler))) /\
  (match md with Some m => m !! authorizationKey = None \/ m !! authorizationKey = Some []
               | None => True end ->
   exists msg, run ρ [] (AuthorizationInterceptor md handler) =
     ([], Done (inl (GRPCStatus Unauthenticated msg)))).
Proof.
  split.
  - apply wp_guarded. unfold AuthorizationInterceptor, authorizeConnection, validateBearerToken.
    destruct md as [m|]; [|done]. destruct (m !! authorizationKey) as [[|header rest]|] eqn:Hm; [done| |done].
    apply wp_assoc, wp_assoc, wp_call; [exists m, header, rest; by auto|].
    intros [err|[]]; cbn [mbind prog_bind mret prog_ret]; [done| |done].
    eapply wp_mono; [apply (guarded_after _ _ (authenticated (parseToken header)))|..].
    + intros c h Hh. by right.
    + left.
    + intros h e Hh. exists m, header, rest. auto.
    + done.
  - unfold AuthorizationInterceptor, authorizeConnection.
    destruct md as [m|]; [|by eexists]. intros [-> | ->]; by eexists.
Qed.

Lemma interceptor_authenticates_witness :
  let ρ : env sanswer := fun _ e =>
    match e return sanswer e with
    | SSecret _ _ => inr ∅
    | SPV _ => inl (ErrorString "none")
    | SDriver _ => inl (ErrorString "none")
    | STokenReview _ => inr false
    end in
  exists msg, run ρ [] (AuthorizationInterceptor (Some ∅) Probe) =
    ([], Done (inl (GRPCStatus Unauthenticated msg))).
Proof.
  intros ρ. apply (interceptor_authenticates ρ (Some ∅) Probe). left. reflexivity.
Defined.

(** *** Node operations *)

(** Space is reclaimed on the right path.  The driver is asked to reclaim
    space only for the CSI volume of the PV read, under the volume's own staging
    directory: volumeDevices/staging/<pv> for a block volume, and the SHA-256 of
    its handle under its driver for a file system, with a capability that says
    which; the handler panics only if the PV has no volume mode. *)
Theorem NodeReclaimSpace_path (ρ : env sanswer) toMode staging pvName :
  guarded (fun h e => match e with
    | SDriver (CNodeReclaim id path cap _) =>
      exists pv csi mode, existT (SPV pvName) (inr pv) ∈ h /\ pv.(spv_CSI) = Some csi /\
        pv.(spv_VolumeMode) = Some mode /\ id = csi.(sc_VolumeHandle) /\
        toMode pv.(spv_AccessModes) = inr cap.(cap_Mode) /\
        cap.(cap_Block) = Some (bool_decide (mode = "Block")) /\
        path = if bool_decide (mode = "Block")
               then Filepath.Join [staging; "volumeDevices"; "staging"; pvName]
               else Filepath.Join [staging; csi.(sc_Driver); Sha256.hex csi.(sc_VolumeHandle); "globalmount"]
    | SDriver _ => False
    | _ => True
    end) (fst (run ρ [] (NodeReclaimSpace toMode staging pvName))) /\
  (forall m, snd (run ρ [] (NodeReclaimSpace toMode staging pvName)) = Panicked m ->
   exists pv, existT (SPV pvName) (inr pv) ∈ fst (run ρ [] (NodeReclaimSpace toMode staging pvName)) /\
     pv.(spv_VolumeMode) = None).
Proof.
  set (G := fun (h : shist) (e : sevent) => _).
  assert (wp G (fun h o => forall m, o = Panicked m -> exists pv, existT (SPV pvName) (inr pv) ∈ h /\
                  pv.(spv_VolumeMode) = None) [] (NodeReclaimSpace toMode staging pvName)) as Hwp.
  { unfold NodeReclaimSpace, stage_secret, GetSecret, drive.
    repeat wp_step; try done; subst G; simpl.
    all: try (intros ? _; eexists; split; [left|done]).
    all: eexists _, _, _; split_and!; try done; try (rewrite ?elem_of_cons; tauto). }
  destruct (wp_run G _ _ [] Hwp I ρ) as [HG HQ]. split; [exact HG|exact HQ].
Qed.
