(* ===== verification/Token.v ===== *)
(** * Tokens: the client's half

    The client side of src/internal/kubernetes/token/grpc.go: the interceptor that
    adds the token of the manager's service account to every call, and the
    certificate of the side-car's server.  The server's half, [AuthorizationInterceptor],
    is in Sidecar. *)

From S2P Require Import Prelude.
From S2P Require Import GoErrors.
From S2P Require Import GoStrconv.
From S2P Require Import GoURL.
From S2P Require Import Sidecar.

(** ** The outside world *)

(** Metadata of a gRPC call. *)
Abbreviation metadata := (gmap string (list string)).

(** What the code sets of an x509 template. *)
Record Certificate := mkCertificate {
  SerialNumber : Z;
  Organization : list string;
  NotBefore : Z;
  NotAfter : Z;
  KeyEncipherment : bool;
  DigitalSignature : bool;
  ServerAuth : bool;
  IsCA : bool
}.

Inductive kevent :=
| KOpen (path : string)
| KReadAll
| KCloseFile
| KInvoke (md : metadata) (method : string)       (* the invoker, with the outgoing metadata *)
| KGenerateKey (bits : Z)
| KNow
| KCreateCertificate (template : Certificate)     (* self-signed: the template is its own parent *)
| KX509KeyPair (certDER : string).                (* of the PEM encodings of the certificate and the key *)

Definition kanswer (e : kevent) : Type :=
  match e with
  | KOpen _ | KCloseFile | KInvoke _ _ | KGenerateKey _ => option error
  | KReadAll => error + string
  | KNow => Z
  | KCreateCertificate _ => error + string
  | KX509KeyPair _ => error + string
  end.

Abbreviation KM := (prog kanswer).

(** ** grpc.go *)

(** The error of Close is logged; the value to be returned is already evaluated when
    the deferred call assigns to [err]. *)
Definition readFile (filePath : string) : KM (error + string) :=
  err ← call (KOpen filePath);
  match err with
  | Some err => mret (inl err)
  | None =>
    r ← call KReadAll;
    _ ← call KCloseFile;
    mret r
  end.

Definition tokenFile := "/var/run/secrets/kubernetes.io/serviceaccount/token".
Definition getToken : KM (error + string) := readFile tokenFile.

(** metadata.AppendToOutgoingContext with one pair: behind the values the key has. *)
Definition AppendToOutgoingContext (md : metadata) (key value : string) : metadata :=
  let key := to_lower key in <[key := default [] (md !! key) ++ [value]]> md.

Definition addAuthorizationHeader (md : metadata) (method : string) : KM (option error) :=
  r ← getToken;
  match r with
  | inl err => mret (Some err)
  | inr token => call (KInvoke (AppendToOutgoingContext md authorizationKey (bearerPrefix +:+ token)) method)
  end.

Definition GenerateSelfSignedCert : KM (error + string) :=
  err ← call (KGenerateKey 2048);
  match err with
  | Some err => mret (inl err)
  | None =>
    now ← call KNow;
    now' ← call KNow;
    r ← call (KCreateCertificate (mkCertificate 1 ["k8s-addons-sidecar-server"] now (now' + 365 * 24 * 60 * minute)%Z
               true true true true));
    match r with
    | inl err => mret (inl err)
    | inr certDER => call (KX509KeyPair certDER)
    end
  end.

(** ** The hand-shake *)

Lemma append_authorization (md : metadata) value : md !! authorizationKey = None ->
  AppendToOutgoingContext md authorizationKey value = <[authorizationKey := [value]]> md.
Proof. intros Hmd. unfold AppendToOutgoingContext. by replace (to_lower authorizationKey) with authorizationKey by reflexivity; rewrite Hmd. Qed.

(** C33: The token that the client's interceptor reads from the service account is the
    token that the server's interceptor has reviewed: on metadata without an
    authorization header of its own, what arrives at the server is reviewed
    first, and exactly when the review says yes the handler runs; a caller
    without a readable token makes no call at all. *)
Theorem authorization_handshake {A} (ρ : env kanswer) md method (handler : SM (error + A)) :
  md !! authorizationKey = None ->
  (forall token, ρ [] (KOpen tokenFile) = None -> ρ [existT (KOpen tokenFile) None] KReadAll = inr token ->
     exists md' h, (run ρ [] (addAuthorizationHeader md method)).1 = existT (KInvoke md' method) (ρ h (KInvoke md' method)) :: h /\
       (forall key, key ≠ authorizationKey -> md' !! key = md !! key) /\
       forall ρ' : env sanswer,
         match ρ' [] (STokenReview token) with
         | inr true => run ρ' [] (AuthorizationInterceptor (Some md') handler) =
                         run ρ' [existT (STokenReview token) (inr true)] handler
         | r => exists err, run ρ' [] (AuthorizationInterceptor (Some md') handler) =
                         ([existT (STokenReview token) r], Done (inl err))
         end) /\
  ((forall token, (run ρ [] getToken).2 ≠ Done (inr token)) ->
   Forall (fun c => forall md' m, projT1 c ≠ KInvoke md' m) (run ρ [] (addAuthorizationHeader md method)).1).
Proof.
  intros Hmd. split.
  - intros token Hopen Hread. unfold addAuthorizationHeader, getToken, readFile.
    cbn -[AppendToOutgoingContext]. rewrite Hopen. cbn -[AppendToOutgoingContext]. rewrite Hread.
    cbn -[AppendToOutgoingContext]. rewrite append_authorization by done. eexists _, _. split; [reflexivity|]. split.
    + intros key Hkey. by apply lookup_insert_ne.
    + intros ρ'. unfold AuthorizationInterceptor, authorizeConnection, validateBearerToken. rewrite lookup_insert_eq.
      rewrite parseToken_bearer. cbn. destruct (ρ' [] (STokenReview token)) as [err|[]] eqn:Hr; cbn; eauto.
  - intros Hno. unfold addAuthorizationHeader, getToken, readFile in *. cbn in *.
    destruct (ρ [] (KOpen tokenFile)) as [err|]; cbn in *; [by repeat constructor|].
    destruct (ρ [existT (KOpen tokenFile) None] KReadAll) as [err|token] eqn:Hr; cbn in *.
    + by repeat constructor.
    + by destruct (Hno token).
Qed.

Module Demo.
(** A mounted service account token. *)
Definition account : env kanswer := fun _ e =>
  match e with
  | KOpen _ | KCloseFile | KInvoke _ _ | KGenerateKey _ => None
  | KReadAll => inr "eyJhbGciOi"
  | KNow => 0%Z
  | KCreateCertificate _ => inr "cert"
  | KX509KeyPair c => inr c
  end.

Lemma authorization_handshake_witness :
  exists md' h, (run account [] (addAuthorizationHeader ∅ "Probe")).1 = existT (KInvoke md' "Probe") None :: h /\
    (forall key, key ≠ authorizationKey -> md' !! key = (∅ : metadata) !! key) /\
    forall ρ' : env sanswer,
      match ρ' [] (STokenReview "eyJhbGciOi") with
      | inr true => run ρ' [] (AuthorizationInterceptor (Some md') Probe) =
                      run ρ' [existT (STokenReview "eyJhbGciOi") (inr true)] Probe
      | r => exists err, run ρ' [] (AuthorizationInterceptor (Some md') Probe) =
                      ([existT (STokenReview "eyJhbGciOi") r], Done (inl err))
      end.
Proof.
  exact (proj1 (authorization_handshake account ∅ "Probe" Probe (lookup_empty _)) "eyJhbGciOi" eq_refl eq_refl).
Defined.

Example certificate : (run account [] GenerateSelfSignedCert).2 = Done (inr "cert").
Proof. vm_compute. reflexivity. Qed.
End Demo.
