(* ===== verification/SidecarNode.v ===== *)
(** * The side-car announces itself

    src/sidecar/internal/client/client.go asks the CSI driver who it is;
    src/sidecar/internal/csiaddonsnode/csiaddonsnode.go creates the CSIAddonsNode
    of this side-car, watches it, and creates it again when it is deleted.

    The loops of this code need not end.  They take a number of rounds and answer
    [None] when the rounds are used up: the loop is then still running. *)

From S2P Require Import Prelude.
From S2P Require Import GoErrors.
From S2P Require Import GoStrconv.
From S2P Require Import GoURL.
From S2P Require Import GoTime.
From S2P Require Import GoCrypto.
From S2P Require Import ApiTypes.
From S2P Require Import CsiaddonsTypes.
From S2P Require Import Effects.
From S2P Require Import ControllerUtil.
From S2P Require Sidecar.

(** ** The outside world of the process *)

Inductive watch_event := WatchAdded | WatchModified | WatchDeleted | WatchBookmark | WatchError.

(** What a select between a context's Done channel and a ticker yields: the
    context has expired, or a tick that came [t] after the start. *)
Inductive selected := Expired | Tick (t : Z).

Inductive devent :=
| DApi (e : event)                       (* controller-runtime's client, and the clock *)
| DDriver (c : Sidecar.csi_call)         (* the CSI driver *)
| DGetPod (ns name : string)
| DGetReplicaSet (ns name : string)
| DAddToScheme | DNewClient | DNewDynamic
| DWatch (ns selector : string)
| DNextEvent                             (* the next element of ResultChan; [None] when it is closed *)
| DStopWatch
| DSelect (interval timeout : Z)
| DSleep (d : Z).

Definition danswer (e : devent) : Type :=
  match e with
  | DApi e => answer e
  | DDriver c => error + Sidecar.csi_response c
  | DGetPod _ _ => error + Pod
  | DGetReplicaSet _ _ => error + ObjectMeta
  | DAddToScheme | DNewClient | DNewDynamic | DWatch _ _ => option error
  | DNextEvent => option watch_event
  | DStopWatch | DSleep _ => unit
  | DSelect _ _ => selected
  end.

Abbreviation DM := (prog danswer).
Abbreviation dhist := (history danswer).

(** A program of the API client, run by this process. *)
Definition lift {A} (p : M A) : DM A := embed (R' := danswer) DApi (fun _ r => r) p.

(** klog.Fatalf ends the process, as a panic does. *)
Definition Fatalf {A} (msg : string) : DM A := Panic ("fatal: " +:+ msg).

(** ** client.go *)

Definition drive (c : Sidecar.csi_call) : DM (error + Sidecar.csi_response c) := call (DDriver c).

Definition probeInterval : Z := second.

(** A missing Ready means ready. *)
Definition probeOnce : DM (error + bool) :=
  r ← drive Sidecar.CProbe;
  mret match r with
       | inl err => inl err
       | inr ready => inr (default true ready)
       end.

Definition probe_failed (err : error) : error := ErrorString ("CSI driver probe failed: " +:+ Error err).

Fixpoint Probe (rounds : nat) : DM (option (option error)) :=
  match rounds with
  | O => mret None
  | S rounds =>
    let again := (call (DSleep probeInterval) ≫= fun _ => Probe rounds) in
    r ← probeOnce;
    match r with
    | inl err =>
      let '(c, _, ok) := FromError err in
      if negb ok then mret (Some (Some (probe_failed err)))
      else if negb (bool_decide (c = DeadlineExceeded)) then mret (Some (Some (probe_failed err)))
      else again
    | inr true => mret (Some None)
    | inr false => again
    end
  end.

Definition HasControllerService : DM (error + bool) :=
  r ← drive Sidecar.CGetCapabilities;
  mret match r with
       | inl err => inl err
       | inr caps => inr (existsb (fun c => match c with
                                           | CapService t => (t =? Service_CONTROLLER_SERVICE)%Z
                                           | _ => false
                                           end) caps)
       end.

Definition GetDriverName : DM (error + string) :=
  r ← drive Sidecar.CGetIdentity;
  mret match r with
       | inl err => inl err
       | inr name => if bool_decide (name = "") then inl (ErrorString "driver name is empty") else inr name
       end.

(** ** csiaddonsnode.go *)

Definition nodeCreationRetry : Z := minute * 5.
Definition nodeCreationTimeout : Z := minute * 3.
Definition watcherRetryCount : Z := 10.
Definition watcherRetryDelay : Z := second * 5.

Definition errInvalidConfig : error := ErrorString "invalid configuration".
Definition invalid_config (m : string) : error := WrapError ("invalid configuration: " +:+ m) errInvalidConfig.

Record Manager := mkManager {
  mgr_Node : string;
  mgr_Endpoint : string;
  PodName : string;
  PodNamespace : string;
  PodUID : string
}.

Definition wrap (m : string) (err : error) : error := WrapError (m +:+ ": " +:+ Error err) err.

Definition generateName (nodeID namespace ownerKind ownerName : string) : error + string :=
  if bool_decide (nodeID = "") then inl (ErrorString "nodeID is required")
  else if bool_decide (ownerKind = "") then inl (ErrorString "ownerKind is required")
  else if bool_decide (ownerName = "") then inl (ErrorString "ownerName is required")
  else if bool_decide (namespace = "") then inl (ErrorString "namespace is required")
  else
  let ownerKind := to_lower ownerKind in
  let base := nodeID +:+ "-" +:+ namespace +:+ "-" +:+ ownerKind +:+ "-" +:+ ownerName in
  if 253 <? String.length base then
    let data := nodeID +:+ namespace +:+ ownerKind +:+ ownerName in
    let uuid := String.substring 0 16 (Sha256.hex data) in
    inr (String.substring 0 (251 - String.length uuid - 1) base +:+ "-" +:+ uuid)
  else inr base.

Section manager.
(** The manager, and the offset of the local time zone. *)
Context (mgr : Manager) (zone : Z -> Z).

Definition missing_config : option error :=
  if bool_decide (mgr.(PodName) = "") then Some (invalid_config "missing Pod name")
  else if bool_decide (mgr.(PodNamespace) = "") then Some (invalid_config "missing Pod namespace")
  else if bool_decide (mgr.(PodUID) = "") then Some (invalid_config "missing Pod UID")
  else if bool_decide (mgr.(mgr_Endpoint) = "") then Some (invalid_config "missing endpoint")
  else if bool_decide (mgr.(mgr_Node) = "") then Some (invalid_config "missing node")
  else None.

(** The owner whose kind and name go into the name of the object, and the owner
    reference of the object. *)
Definition ownerOfPod (pod : Pod) : DM (error + string * string * OwnerReference) :=
  match pod.(pod_meta).(OwnerReferences) with
  | [] => mret (inl (invalid_config "pod has no owner"))
  | ref :: _ =>
    if bool_decide (ref.(or_Kind) = "ReplicaSet") then
      r ← call (DGetReplicaSet mgr.(PodNamespace) ref.(or_Name));
      match r with
      | inl err => mret (inl (wrap "failed to get replicaset" err))
      | inr rs =>
        match rs.(OwnerReferences) with
        | [] => mret (inl (invalid_config "replicaset has no owner"))
        | rsref :: _ =>
          mret (inr (rsref.(or_Kind), rsref.(or_Name),
            mkOwnerReference "v1" "Pod" pod.(pod_meta).(Name) mgr.(PodUID) None None))
        end
      end
    else mret (inr (ref.(or_Kind), ref.(or_Name), ref))
  end.

Definition getCSIAddonsNode : DM (error + CSIAddonsNode) :=
  match missing_config with
  | Some err => mret (inl err)
  | None =>
    r ← GetDriverName;
    match r with
    | inl err => mret (inl (wrap "failed to get driver name" err))
    | inr driver =>
      if bool_decide (driver = "") then
        mret (inl (invalid_config "CSI-driver returned an empty driver name"))
      else
      r ← call (DGetPod mgr.(PodNamespace) mgr.(PodName));
      match r with
      | inl err => mret (inl (wrap "failed to get pod" err))
      | inr pod =>
        r ← ownerOfPod pod;
        match r with
        | inl err => mret (inl err)
        | inr (ownerKind, ownerName, ref) =>
          match generateName mgr.(mgr_Node) mgr.(PodNamespace) ownerKind ownerName with
          | inl err => mret (inl (wrap "failed to generate name" err))
          | inr name =>
            mret (inr (mkNode (set_OwnerReferences (new_meta mgr.(PodNamespace) name) [ref])
              (mkNodeDriver driver mgr.(mgr_Endpoint) mgr.(mgr_Node))
              (mkNodeStatus "" "" "" [] [])))
          end
        end
      end
    end
  end.

Definition annotationPrefix := "sidecar.csiaddons.openshift.io".
Definition createdByPodUID := annotationPrefix +:+ "/createdByPodUID".
Definition lastUpdatedAt := annotationPrefix +:+ "/lastUpdatedAt".

(** The MutateFn of newCSIAddonsNode. *)
Definition mutate_node (node o : CSIAddonsNode) : M (CSIAddonsNode * option error) :=
  if is_deleting o then mret (o, Some (ErrorString "csiaddonnode is being deleted"))
  else
  now ← call ENow;
  let m := set_OwnerReferences o.(node_meta) node.(node_meta).(OwnerReferences) in
  let annotations := <[createdByPodUID := mgr.(PodUID)]> m.(Annotations) in
  let annotations := <[lastUpdatedAt := FormatRFC3339 (zone now) now]> annotations in
  mret (mkNode (set_Annotations m annotations) node.(node_Driver) o.(node_Status), None).

Definition newCSIAddonsNode (node : CSIAddonsNode) : DM (option error) :=
  err ← call DAddToScheme;
  match err with
  | Some err => mret (Some (wrap "failed to register scheme" err))
  | None =>
    err ← call DNewClient;
    match err with
    | Some err => mret (Some (wrap "failed to create controller-runtime client" err))
    | None =>
      let csiaddonNode := mkNode (new_meta (obj_Namespace node) (obj_Name node))
        (mkNodeDriver "" "" "") (mkNodeStatus "" "" "" [] []) in
      '(_, err) ← lift (CreateOrUpdateM KCSIAddonsNode csiaddonNode (mutate_node node));
      mret (wrap "failed to create/update csiaddonsnode object" <$> err)
    end
  end.

(** context.DeadlineExceeded. *)
Definition deadline_exceeded : error := ErrorString "context deadline exceeded".

(** wait.PollUntilContextTimeout with [immediate]: the condition runs at once,
    and again at every tick of the interval until the timeout has passed. *)
Fixpoint PollUntilContextTimeout (rounds : nat) (interval timeout : Z) (condition : DM bool)
    : DM (option (option error)) :=
  match rounds with
  | O => mret None
  | S rounds =>
    ok ← condition;
    if (ok : bool) then mret (Some None)
    else
    s ← call (DSelect interval timeout);
    match s with
    | Expired => mret (Some (Some deadline_exceeded))
    | Tick t =>
      if (timeout <=? t)%Z then mret (Some (Some deadline_exceeded))
      else PollUntilContextTimeout rounds interval timeout condition
    end
  end.

Definition deploy (rounds : nat) (object : CSIAddonsNode) : DM (option (option error)) :=
  PollUntilContextTimeout rounds nodeCreationRetry nodeCreationTimeout
    (err ← newCSIAddonsNode object;
     mret match err with Some _ => false | None => true end).

(** The loop over the events of the watch. *)
Fixpoint watch_loop (rounds polls : nat) (node : CSIAddonsNode) : DM (option (option error)) :=
  match rounds with
  | O => mret None
  | S rounds =>
    e ← call DNextEvent;
    match e with
    | None => mret (Some None)
    | Some WatchDeleted =>
      err ← deploy polls node;
      match err with
      | None => mret None
      | Some (Some err) => mret (Some (Some (wrap "failed to recreate CSIAddonsNode" err)))
      | Some None => watch_loop rounds polls node
      end
    | Some _ => watch_loop rounds polls node
    end
  end.

Definition watchCSIAddonsNode (rounds polls : nat) (node : CSIAddonsNode) : DM (option (option error)) :=
  err ← deploy polls node;
  match err with
  | None => mret None
  | Some (Some err) => Fatalf ("Failed to create csiaddonsnode: " +:+ Error err)
  | Some None =>
    err ← call DNewDynamic;
    match err with
    | Some err => mret (Some (Some (wrap "failed to create dynamic client" err)))
    | None =>
      err ← call (DWatch (obj_Namespace node) ("metadata.name=" +:+ obj_Name node));
      match err with
      | Some err => mret (Some (Some (wrap "failed to watch CSIAddonsNode objects" err)))
      | None =>
        r ← watch_loop rounds polls node;
        match r with
        | None => mret None
        | Some err => _ ← call DStopWatch; mret (Some err)
        end
      end
    end
  end.

Definition giving_up (node : CSIAddonsNode) : error :=
  ErrorString ("watcher for " +:+ obj_Name node +:+ " reached max retries, giving up").

Fixpoint dispatch_loop (turns rounds polls : nat) (retryCount : Z) (node : CSIAddonsNode) : DM (option error) :=
  match turns with
  | O => mret None
  | S turns =>
    if negb (retryCount <? watcherRetryCount)%Z then mret (Some (giving_up node))
    else
    err ← watchCSIAddonsNode rounds polls node;
    match err with
    | None => mret None
    | Some (Some _) =>
      let retryCount := (retryCount + 1)%Z in
      _ ← call (DSleep (watcherRetryDelay * retryCount));
      dispatch_loop turns rounds polls retryCount node
    | Some None => dispatch_loop turns rounds polls 0 node
    end
  end.

(** [None] while it runs; it returns only with an error. *)
Definition DispatchWatcher (turns rounds polls : nat) : DM (option error) :=
  r ← getCSIAddonsNode;
  match r with
  | inl err => mret (Some (wrap "failed to get CSIAddonsNode object due to error" err))
  | inr node => dispatch_loop turns rounds polls 0 node
  end.
End manager.
