(* ===== verification/SidecarNodeProofs.v ===== *)
(** * The side-car's announcement keeps its promises

    What is announced and under which name, how the object is written, how often
    the side-car tries, and that the manager understands the announcement. *)

From S2P Require Import Prelude.
From S2P Require Import GoErrors.
From S2P Require Import GoStrconv.
From S2P Require Import GoURL.
From S2P Require Import GoText.
From S2P Require Import GoTime.
From S2P Require Import GoJSON.
From S2P Require Import GoCrypto.
From S2P Require Import ApiTypes.
From S2P Require Import CsiaddonsTypes.
From S2P Require Import Effects.
From S2P Require Import ControllerUtil.
From S2P Require CSIAddonsNodeController.
From S2P Require Import SidecarEndpoint.
From S2P Require Sidecar.
From S2P Require Import SidecarNode.

(** ** Names *)

Lemma length_substring n m s : (n + m <= String.length s)%nat -> String.length (String.substring n m s) = m.
Proof.
  revert n m. induction s as [|c s IH]; intros n m Hn; destruct n, m; simpl in *; try lia; try done.
  - rewrite (IH 0)%nat by lia. done.
  - by rewrite IH by lia.
  - rewrite IH by lia. done.
Qed.

Lemma to_lower_length s : String.length (to_lower s) = String.length s.
Proof. induction s as [|c s IH]; [done|]. cbn. by rewrite IH. Qed.

Lemma compress_length s b : length s = 8%nat -> length (Sha256.compress s b) = 8%nat.
Proof.
  intros Hs. unfold Sha256.compress. rewrite length_zip_with, Hs. apply Nat.min_l.
  assert (forall l s, length s = 8%nat -> length (foldl Sha256.round s l) = 8%nat) as Hf.
  { induction l as [|x l IH]; intros s' Hs'; [done|]. cbn [foldl]. apply IH.
    do 9 (destruct s' as [|? s']; try discriminate Hs'). done. }
  by rewrite Hf.
Qed.

Lemma string_of_list_length l : String.length (String.string_of_list_ascii l) = length l.
Proof. induction l as [|c l IH]; [done|]. cbn. by rewrite IH. Qed.

(** The hexadecimal text of a digest has 64 bytes. *)
Lemma hex_length s : String.length (Sha256.hex s) = 64%nat.
Proof.
  unfold Sha256.hex. rewrite string_of_list_length.
  assert (length (Sha256.digest s) = 8%nat) as Hd.
  { unfold Sha256.digest. generalize (Sha256.blocks (length (Sha256.words (Sha256.pad (Sha256.bytes_of s))))
      (Sha256.words (Sha256.pad (Sha256.bytes_of s)))). intros bs.
    assert (length Sha256.H0 = 8%nat) as H0 by done. revert H0. generalize Sha256.H0.
    induction bs as [|b bs IH]; intros s0 H0; [done|]. cbn [foldl]. by apply IH, compress_length. }
  assert (forall l, length (l ≫= Sha256.hex_word) = 8 * length l)%nat as Hb.
  { induction l as [|w l IH]; [done|]. cbn [mbind list_bind]. rewrite length_app, IH.
    change (length (Sha256.hex_word w)) with 8%nat. cbn [length]. lia. }
  rewrite Hb, Hd. done.
Qed.

(** Two strings with the same tail differ in front of it. *)
Lemma string_app_inj_2 (a b t : string) : a +:+ t = b +:+ t -> a = b.
Proof.
  intros Heq. assert (String.length a = String.length b) as Hlen.
  { apply (f_equal String.length) in Heq. rewrite !string_app_length in Heq. lia. }
  revert b Hlen Heq. induction a as [|c a IH]; intros [|d b] Hlen Heq; [done..|].
  rewrite !app_cons_string in Heq. injection Heq as -> Heq. f_equal. apply IH; [by injection Hlen|done].
Qed.

Definition base_name (nodeID namespace ownerKind ownerName : string) : string :=
  nodeID +:+ "-" +:+ namespace +:+ "-" +:+ to_lower ownerKind +:+ "-" +:+ ownerName.

(** C40: The name of the object: refused exactly when a part is missing, never longer
    than Kubernetes allows, and where nothing had to be cut, different for two
    nodes. *)
Theorem generateName_spec nodeID namespace ownerKind ownerName :
  match generateName nodeID namespace ownerKind ownerName with
  | inl _ => "" ∈ [nodeID; namespace; ownerKind; ownerName]
  | inr name =>
    ("" ∉ [nodeID; namespace; ownerKind; ownerName]) /\ String.length name <= 253 /\
    (String.length (base_name nodeID namespace ownerKind ownerName) <= 253 ->
     name = base_name nodeID namespace ownerKind ownerName /\
     forall nodeID', generateName nodeID' namespace ownerKind ownerName = inr name ->
       String.length (base_name nodeID' namespace ownerKind ownerName) <= 253 -> nodeID' = nodeID)
  end.
Proof.
  unfold generateName. fold (base_name nodeID namespace ownerKind ownerName).
  do 4 (case_bool_decide; [set_solver|]). cbv zeta.
  assert ("" ∉ [nodeID; namespace; ownerKind; ownerName]) as Hin by set_solver.
  pose proof (hex_length (nodeID +:+ namespace +:+ to_lower ownerKind +:+ ownerName)) as Hh.
  destruct (253 <? String.length (base_name nodeID namespace ownerKind ownerName)) eqn:Hlt.
  - apply Nat.ltb_lt in Hlt. split_and!; [done| |lia].
    rewrite !string_app_length, (length_substring 0 16) by lia. rewrite length_substring by lia.
    change (String.length "-") with 1%nat. lia.
  - apply Nat.ltb_ge in Hlt. split_and!; [done..|]. intros _. split; [done|].
    intros nodeID'. fold (base_name nodeID' namespace ownerKind ownerName). case_bool_decide; [done|].
    destruct (253 <? String.length (base_name nodeID' namespace ownerKind ownerName)) eqn:Hlt'; [apply Nat.ltb_lt in Hlt'; lia|]. intros [= Heq] _. unfold base_name in Heq.
    by apply string_app_inj_2 in Heq.
Qed.

(** ** What is written, and when *)

(** The calls of the API client in a history of the process. *)
Definition api_of (c : {e & danswer e}) : option {e & answer e} :=
  match c with
  | existT e r =>
    match e return danswer e -> option {e & answer e} with
    | DApi e => fun r => Some (existT e r)
    | _ => fun _ => None
    end r
  end.
Definition api (h : dhist) : hist := omap api_of h.

Lemma wp_lift {A} (G : hist -> event -> Prop) (Q : hist -> outcome A -> Prop) (p : M A) (h : dhist) :
  wp G Q (api h) p ->
  wp (fun h e => match e with DApi e => G (api h) e | _ => False end) (fun h o => Q (api h) o) h (lift p).
Proof. by apply (wp_embed (R' := danswer) DApi (fun _ r => r) api). Qed.

(** [c] is the answer of the history's latest clock reading. *)
Definition clock_of (c : {e & answer e}) : option Z :=
  match c with
  | existT e r => match e return answer e -> option Z with ENow => fun t => Some t | _ => fun _ => None end r
  end.

Section contract.
Context (mgr : Manager) (zone : Z -> Z).

Definition answered (h : dhist) (e : devent) (r : danswer e) : Prop := existT e r ∈ h.
Arguments answered h e r : clear implicits.

(** The owner the object is named after, and the one it gets: those of the pod,
    or for a pod of a replica set its deployment and the pod itself. *)
Definition owned (h : dhist) (pod : Pod) (kind name : string) (ref : OwnerReference) : Prop :=
  exists first rest, pod.(pod_meta).(OwnerReferences) = first :: rest /\
    if bool_decide (first.(or_Kind) = "ReplicaSet") then
      exists rs top rest', answered h (DGetReplicaSet mgr.(PodNamespace) first.(or_Name)) (inr rs) /\
        rs.(OwnerReferences) = top :: rest' /\ kind = top.(or_Kind) /\ name = top.(or_Name) /\
        ref = mkOwnerReference "v1" "Pod" pod.(pod_meta).(Name) mgr.(PodUID) None None
    else kind = first.(or_Kind) /\ name = first.(or_Name) /\ ref = first.

(** The object describes this side-car: its driver as the driver names itself,
    its node and endpoint, owner and name. *)
Definition described (h : dhist) (node : CSIAddonsNode) : Prop :=
  exists driver pod kind name ref,
    answered h (DDriver Sidecar.CGetIdentity) (inr driver) /\ driver ≠ "" /\
    mgr.(mgr_Endpoint) ≠ "" /\
    node.(node_Driver) = mkNodeDriver driver mgr.(mgr_Endpoint) mgr.(mgr_Node) /\
    answered h (DGetPod mgr.(PodNamespace) mgr.(PodName)) (inr pod) /\
    owned h pod kind name ref /\ node.(node_meta).(OwnerReferences) = [ref] /\
    obj_Namespace node = mgr.(PodNamespace) /\
    generateName mgr.(mgr_Node) mgr.(PodNamespace) kind name = inr (obj_Name node).

Lemma described_extends P h h' node : extends P h h' -> described h node -> described h' node.
Proof.
  intros (t & -> & _) (d & pod & k & n & ref & Hd & ? & ? & ? & Hp & Ho & ? & ? & ?).
  assert (forall e r, answered h e r -> answered (t ++ h) e r) as Hmono.
  { intros e r Hin. apply elem_of_app. by right. }
  exists d, pod, k, n, ref. split_and!; try done; [by apply Hmono..|].
  destruct Ho as (f & rest & Hf & Ho). exists f, rest. split; [done|]. case_bool_decide; [|done].
  destruct Ho as (rs & top & rest' & Hrs & ?). exists rs, top, rest'. split; [by apply Hmono|done].
Qed.

(** [o] is [cur] with this side-car's data: nothing else of [cur] changes. *)
Definition announced (node : CSIAddonsNode) (now : Z) (cur o : CSIAddonsNode) : Prop :=
  obj_key o = obj_key node /\ o.(node_Driver) = node.(node_Driver) /\
  o.(node_meta).(OwnerReferences) = node.(node_meta).(OwnerReferences) /\
  annotation o createdByPodUID = mgr.(PodUID) /\ annotation o lastUpdatedAt = FormatRFC3339 (zone now) now /\
  (forall k, k ≠ createdByPodUID -> k ≠ lastUpdatedAt ->
     o.(node_meta).(Annotations) !! k = cur.(node_meta).(Annotations) !! k) /\
  finalizers o = finalizers cur /\ o.(node_meta).(Labels) = cur.(node_meta).(Labels) /\
  o.(node_Status) = cur.(node_Status) /\ is_deleting o = false.

Definition fresh_node (node : CSIAddonsNode) : CSIAddonsNode :=
  mkNode (new_meta (obj_Namespace node) (obj_Name node)) (mkNodeDriver "" "" "") (mkNodeStatus "" "" "" [] []).

(** The API calls made for [node]. *)
Definition node_call (node : CSIAddonsNode) (h : hist) (e : event) : Prop :=
  match e with
  | EGet k key => k = KCSIAddonsNode /\ key = obj_key node
  | ENow => True
  | ECreate k o => exists o' now, obj_in KCSIAddonsNode o = Some o' /\ newest clock_of h = Some now /\
      announced node now (fresh_node node) o'
  | EUpdate k o => exists o' now cur, obj_in KCSIAddonsNode o = Some o' /\ newest clock_of h = Some now /\
      newest (fetched KCSIAddonsNode) h = Some cur /\ is_deleting cur = false /\ announced node now cur o'
  | _ => False
  end.

Definition announce_guard (h : dhist) (e : devent) : Prop :=
  match e with
  | DApi e => exists node, described h node /\ node_call node (api h) e
  | DWatch ns selector => exists node, described h node /\ ns = obj_Namespace node /\
      selector = "metadata.name=" +:+ obj_Name node
  | _ => True
  end.

Lemma mutate_announced node now cur :
  obj_key cur = obj_key node -> is_deleting cur = false ->
  announced node now cur
    (mkNode (set_Annotations (set_OwnerReferences cur.(node_meta) node.(node_meta).(OwnerReferences))
       (<[lastUpdatedAt := FormatRFC3339 (zone now) now]>
          (<[createdByPodUID := mgr.(PodUID)]> cur.(node_meta).(Annotations))))
       node.(node_Driver) cur.(node_Status)).
Proof.
  intros Hkey Hdel. unfold announced, annotation, map_get. cbn.
  rewrite lookup_insert_eq, lookup_insert_ne, lookup_insert_eq by done. split_and!; try done.
  intros k H1 H2. by rewrite !lookup_insert_ne by done.
Qed.

Lemma create_or_update_wp node h :
  wp (node_call node) (fun _ _ => True) h
    (CreateOrUpdateM KCSIAddonsNode (fresh_node node) (mutate_node mgr zone node)).
Proof.
  unfold CreateOrUpdateM, get_obj, update_obj.
  apply wp_call; [done|]. intros [err|cur]; cbn [mbind prog_bind call]; cbv beta iota.
  - destruct (negb _); [done|]. unfold mutate_node. change (is_deleting (fresh_node node)) with false. cbv iota.
    apply wp_assoc. apply wp_call; [done|]. intros now. cbn [mbind prog_bind mret prog_ret]. cbv beta iota zeta.
    case_bool_decide as Hk; [|done]. cbn [mbind prog_bind mret prog_ret]. cbv beta iota.
    apply wp_call; [|by intros []].
    eexists _, now. split_and!; [apply obj_in_self|done|]. by apply mutate_announced.
  - assert (exists b, is_deleting (A:=CSIAddonsNode) cur = b) as [[] Hdel] by eauto; unfold mutate_node; rewrite Hdel; [done|].
    apply wp_assoc. apply wp_call; [done|]. intros now. cbn [mbind prog_bind mret prog_ret]. cbv beta iota zeta.
    case_bool_decide as Hk; [|done]. cbn [mbind prog_bind mret prog_ret]. cbv beta iota.
    case_bool_decide; [done|]. apply wp_call; [|by intros []].
    eexists _, now, cur. split_and!; [apply obj_in_self|done| |done|by apply mutate_announced].
    unfold newest. cbn. unfold obj_answer. by rewrite obj_in_self.
Qed.

Lemma described_cons e r h node : described h node -> described (existT e r :: h) node.
Proof. apply (described_extends (fun _ => True)), extends_one. done. Qed.

(** Every step keeps [described], which only looks at what was answered. *)
Definition keeps {A} (node : CSIAddonsNode) (h : dhist) (p : DM A) : Prop :=
  wp announce_guard (fun h' _ => described h' node) h p.

Lemma newCSIAddonsNode_keeps h node : described h node -> keeps node h (newCSIAddonsNode mgr zone node).
Proof.
  intros Hd. unfold newCSIAddonsNode, keeps.
  apply wp_call; [done|]. intros [err|]; cbn [mbind prog_bind call]; [by apply described_cons|].
  apply wp_call; [done|]. intros [err|]; cbn [mbind prog_bind call]; [by apply described_cons, described_cons|].
  eapply wp_seq.
  - eapply wp_mono; [apply (wp_calls (fun _ => True)); [apply calls_any|apply wp_lift, create_or_update_wp]|..].
    + intros h' e [Hext HG]. destruct e; try done. exists node. split; [|done].
      eapply described_extends; [exact Hext|]. by apply described_cons, described_cons.
    + intros h' o [Hext _]. eapply (described_extends _ _ h' node); [exact Hext|]. by apply described_cons, described_cons.
  - intros h' [[o err]|m] Hd'; done.
Qed.

Lemma deploy_keeps rounds h node : described h node -> keeps node h (deploy mgr zone rounds node).
Proof.
  revert h. unfold deploy, keeps. induction rounds as [|rounds IH]; intros h Hd; [done|]. cbn [PollUntilContextTimeout].
  apply wp_assoc. eapply wp_seq; [by apply newCSIAddonsNode_keeps|]. intros h' [err|m] Hd'; [|done].
  destruct err as [err|]; cbn [mret prog_ret mbind prog_bind after]; [|done].
  apply wp_call; [done|]. intros [|t]; cbn [mbind prog_bind]; [by apply described_cons|].
  case_match; [by apply described_cons|]. by apply IH, described_cons.
Qed.

Lemma watch_loop_keeps rounds polls h node : described h node -> keeps node h (watch_loop mgr zone rounds polls node).
Proof.
  revert h. unfold keeps. induction rounds as [|rounds IH]; intros h Hd; [done|]. cbn [watch_loop].
  apply wp_call; [done|]. intros r.
  apply (described_cons DNextEvent r) in Hd.
  destruct r as [[]|]; cbn [mbind prog_bind]; try (by apply IH); [|done].
  eapply wp_seq; [by apply deploy_keeps|]. intros h' [[[err|]|]|m] Hd'; cbn [after]; try done. by apply IH.
Qed.

Lemma watch_keeps rounds polls h node :
  described h node -> keeps node h (watchCSIAddonsNode mgr zone rounds polls node).
Proof.
  intros Hd. unfold watchCSIAddonsNode, keeps.
  eapply wp_seq; [by apply deploy_keeps|]. intros h1 [[[err|]|]|m] Hd1; cbn [after]; try done.
  apply wp_call; [done|]. intros [err|]; cbn [mbind prog_bind]; [by apply described_cons|].
  apply wp_call; [by exists node; split; [apply described_cons|]|]. intros [err|]; cbn [mbind prog_bind]; [by apply described_cons, described_cons|].
  eapply wp_seq; [apply watch_loop_keeps; by apply described_cons, described_cons|].
  intros h2 [[err|]|m] Hd2; cbn [after]; try done. apply wp_call; [done|]. intros r. by apply described_cons.
Qed.

Lemma dispatch_keeps turns rounds polls k h node :
  described h node -> keeps node h (dispatch_loop mgr zone turns rounds polls k node).
Proof.
  revert h k. unfold keeps. induction turns as [|turns IH]; intros h k Hd; [done|]. cbn [dispatch_loop].
  destruct (negb _); [done|]. eapply wp_seq; [by apply watch_keeps|].
  intros h1 [[[err|]|]|m] Hd1; cbn [after]; try done; [|by apply IH].
  apply wp_call; [done|]. intros r. by apply IH, described_cons.
Qed.

Lemma getCSIAddonsNode_wp :
  wp announce_guard (fun h o => match o with
    | Done (inr node) => described h node
    | Done (inl _) => True
    | Panicked _ => False
    end) [] (getCSIAddonsNode mgr).
Proof.
  unfold getCSIAddonsNode, missing_config. do 5 (case_bool_decide; [done|]).
  unfold GetDriverName, drive. apply wp_assoc. apply wp_call; [done|]. intros [err|driver]; cbn [mbind prog_bind mret prog_ret]; [done|].
  case_bool_decide as Hd; [done|]. cbv iota beta. rewrite bool_decide_false by done.
  apply wp_call; [done|]. intros [err|pod]; cbn [mbind prog_bind]; [done|].
  unfold ownerOfPod. destruct (pod.(pod_meta).(OwnerReferences)) as [|ref refs] eqn:Hrefs; [done|].
  set (h := [existT (DGetPod (PodNamespace mgr) (PodName mgr)) (inr pod); existT (DDriver Sidecar.CGetIdentity) (inr driver)] : dhist).
  assert (forall h' kind name ref', extends (fun _ => True) h h' -> owned h' pod kind name ref' ->
    wp announce_guard (fun h o => match o with Done (inr node) => described h node | Done (inl _) => True | Panicked _ => False end) h'
      match generateName mgr.(mgr_Node) mgr.(PodNamespace) kind name with
      | inl err => mret (inl (wrap "failed to generate name" err))
      | inr name => mret (inr (mkNode (set_OwnerReferences (new_meta mgr.(PodNamespace) name) [ref'])
          (mkNodeDriver driver mgr.(mgr_Endpoint) mgr.(mgr_Node)) (mkNodeStatus "" "" "" [] [])))
      end) as Hfinish.
  { intros h' kind name ref' (t & -> & _) Ho. destruct (generateName _ _ kind name) as [|n] eqn:Hn; [done|].
    exists driver, pod, kind, name, ref'. unfold answered. set_solver. }
  case_bool_decide as Hrs.
  - apply wp_assoc. apply wp_call; [done|]. intros [err|rs]; cbn [mbind prog_bind]; [done|].
    destruct (rs.(OwnerReferences)) as [|top rest] eqn:Htop; [done|].
    apply Hfinish; [by apply extends_one|]. exists ref, refs. split; [done|]. rewrite bool_decide_true by done.
    exists rs, top, rest. unfold answered. set_solver.
  - apply Hfinish; [apply extends_refl|]. exists ref, refs. split; [done|]. by rewrite bool_decide_false.
Qed.

Lemma DispatchWatcher_wp turns rounds polls :
  wp announce_guard (fun _ _ => True) [] (DispatchWatcher mgr zone turns rounds polls).
Proof.
  unfold DispatchWatcher. eapply wp_seq; [apply getCSIAddonsNode_wp|].
  intros h [[err|node]|m] Hd; cbn [after]; try done.
  eapply wp_post; [by apply dispatch_keeps|done].
Qed.

(** C18: Whatever the API server, the driver and the watch answer, and for as long as
    the side-car runs: it announces only an object that describes itself, writes
    that object and no other, never writes one that is being deleted, and changes
    nothing of an existing object but what is its own. *)
Theorem announcement_contract (ρ : env danswer) turns rounds polls :
  guarded announce_guard (run ρ [] (DispatchWatcher mgr zone turns rounds polls)).1.
Proof. apply wp_guarded, DispatchWatcher_wp. Qed.

(** ** The manager understands the announcement *)

(** The object written by a call, if it writes a CSIAddonsNode. *)
Definition writes (e : devent) (o : CSIAddonsNode) : Prop :=
  match e with
  | DApi (ECreate k o') | DApi (EUpdate k o') => obj_in KCSIAddonsNode o' = Some o
  | _ => False
  end.

Lemma written_described h e o : announce_guard h e -> writes e o ->
  exists node, described h node /\ o.(node_Driver) = node.(node_Driver).
Proof.
  destruct e as [[]| | | | | | | | | | |]; try done; cbn [writes announce_guard node_call];
    intros (node & Hd & Hcall) Hw; exists node; (split; [done|]).
  - destruct Hcall as (o' & now & Ho & _ & _ & Hdrv & _). congruence.
  - destruct Hcall as (o' & now & cur & Ho & _ & _ & _ & _ & Hdrv & _). congruence.
Qed.

Lemma described_accepted h node rawPort :
  all_bytes name_byte mgr.(PodName) = true -> mgr.(PodName) ≠ "" ->
  all_bytes label_byte mgr.(PodNamespace) = true -> mgr.(PodNamespace) ≠ "" ->
  BuildEndpointURL "" rawPort mgr.(PodName) mgr.(PodNamespace) = inr mgr.(mgr_Endpoint) ->
  described h node ->
  CSIAddonsNodeController.validateCSIAddonsNodeSpec node = None /\
  exists port, ParseUint 16 rawPort = inr port /\
    CSIAddonsNodeController.parseEndpoint node.(node_Driver).(drv_EndPoint) =
      inr (mgr.(PodNamespace), mgr.(PodName), Itoa port).
Proof.
  intros Hp Hpne Hn Hnne Hb (driver & pod & kind & name & ref & _ & Hd & He & Hdrv & _).
  pose proof (endpoint_roundtrip rawPort _ _ Hp Hpne Hn Hnne) as Hr. rewrite Hb in Hr.
  unfold CSIAddonsNodeController.validateCSIAddonsNodeSpec. rewrite Hdrv. cbn [drv_Name drv_EndPoint].
  rewrite !bool_decide_false by done. by split.
Qed.

(** C32: A side-car with no controller IP configured and with valid names, which builds
    its endpoint from its pod, namespace and port, writes
    only objects that pass the manager's validation, and from which the manager
    reads this very pod and port. *)
Theorem announcement_understood (ρ : env danswer) turns rounds polls rawPort :
  all_bytes name_byte mgr.(PodName) = true -> mgr.(PodName) ≠ "" ->
  all_bytes label_byte mgr.(PodNamespace) = true -> mgr.(PodNamespace) ≠ "" ->
  BuildEndpointURL "" rawPort mgr.(PodName) mgr.(PodNamespace) = inr mgr.(mgr_Endpoint) ->
  guarded (fun _ e => forall o, writes e o ->
    CSIAddonsNodeController.validateCSIAddonsNodeSpec o = None /\
    exists port, ParseUint 16 rawPort = inr port /\
      CSIAddonsNodeController.parseEndpoint o.(node_Driver).(drv_EndPoint) =
        inr (mgr.(PodNamespace), mgr.(PodName), Itoa port))
    (run ρ [] (DispatchWatcher mgr zone turns rounds polls)).1.
Proof.
  intros Hp Hpne Hn Hnne Hb. eapply guarded_mono; [|apply wp_guarded, DispatchWatcher_wp].
  intros h e Hg o Hw. destruct (written_described h e o Hg Hw) as (node & Hd & Hdrv).
  unfold CSIAddonsNodeController.validateCSIAddonsNodeSpec. rewrite Hdrv. by apply (described_accepted h node).
Qed.
End contract.

(** ** How often *)

Section attempts.
Context (mgr : Manager) (zone : Z -> Z).

(** A ticker does not fire before its interval has passed. *)
Definition ticker_law (ρ : env danswer) : Prop :=
  forall h interval timeout t, ρ h (DSelect interval timeout) = Tick t -> (interval <= t)%Z.

(** The interval between two attempts is longer than the time they may take
    together: a deployment is one attempt, and a failed one ends with the
    context's error, which hides what went wrong. *)
Theorem deploy_tries_once (ρ : env danswer) rounds h node :
  ticker_law ρ ->
  run ρ h (deploy mgr zone (S rounds) node) =
    match run ρ h (newCSIAddonsNode mgr zone node) with
    | (h', Done None) => (h', Done (Some None))
    | (h', Done (Some _)) =>
      let select := DSelect nodeCreationRetry nodeCreationTimeout in
      (existT select (ρ h' select) :: h', Done (Some (Some deadline_exceeded)))
    | (h', Panicked m) => (h', Panicked m)
    end.
Proof.
  intros Hlaw. unfold deploy. cbn [PollUntilContextTimeout]. rewrite !run_bind.
  destruct (run ρ h (newCSIAddonsNode mgr zone node)) as [h' [[err|]|m]]; [|done..].
  cbn [mret prog_ret run]. rewrite run_bind. cbn [call run].
  destruct (ρ h' (DSelect nodeCreationRetry nodeCreationTimeout)) as [|t] eqn:Hs; [done|].
  apply Hlaw in Hs. cbn [run]. rewrite (proj2 (Z.leb_le _ _)); [done|].
  assert (nodeCreationTimeout <= nodeCreationRetry)%Z by done. lia.
Qed.

(** The pauses the process made, newest first. *)
Definition pause_of (c : {e & danswer e}) : option Z :=
  match projT1 c with DSleep d => Some d | _ => None end.

(** The pauses after [k] failures in a row, newest first. *)
Fixpoint backoff (k : nat) : list Z :=
  match k with O => [] | S k => (watcherRetryDelay * Z.of_nat (S k))%Z :: backoff k end.

Definition no_pause (e : devent) : Prop := match e with DSleep _ => False | _ => True end.

Lemma calls_lift {A} (p : M A) : calls no_pause (lift p).
Proof. by apply calls_embed. Qed.
#[local] Hint Resolve calls_lift : calls.

Lemma deploy_quiet rounds node : calls no_pause (deploy mgr zone rounds node).
Proof.
  unfold deploy. induction rounds as [|rounds IH]; [done|]. cbn [PollUntilContextTimeout].
  apply calls_bind; [unfold newCSIAddonsNode; calls_solve|]. intros []; [done|]. calls_solve.
Qed.
#[local] Hint Resolve deploy_quiet : calls.

Lemma watch_loop_quiet rounds polls node : calls no_pause (watch_loop mgr zone rounds polls node).
Proof. induction rounds as [|rounds IH]; cbn [watch_loop]; calls_solve. Qed.
#[local] Hint Resolve watch_loop_quiet : calls.

Lemma watch_quiet rounds polls node : calls no_pause (watchCSIAddonsNode mgr zone rounds polls node).
Proof. unfold watchCSIAddonsNode, Fatalf. calls_solve. Qed.

(** Every pause of the dispatcher is the next one of the back-off, or the first. *)
Definition pause_guard (h : dhist) (e : devent) : Prop :=
  match e with
  | DSleep d => exists k rest, (k < 10)%nat /\ observe pause_of h = backoff k ++ rest /\
      d = (watcherRetryDelay * Z.of_nat (S k))%Z
  | _ => True
  end.

Lemma dispatch_pauses turns rounds polls k rest h node :
  (k <= 10)%nat -> observe pause_of h = backoff k ++ rest ->
  wp pause_guard (fun h' o => match o with
    | Done (Some err) => err = giving_up node /\ exists rest, observe pause_of h' = backoff 10 ++ rest
    | _ => True
    end) h (dispatch_loop mgr zone turns rounds polls (Z.of_nat k) node).
Proof.
  revert k rest h. induction turns as [|turns IH]; intros k rest h Hk Hobs; [done|]. cbn [dispatch_loop].
  destruct (negb _) eqn:Hend.
  { unfold watcherRetryCount in Hend. apply negb_true_iff, Z.ltb_ge in Hend.
    assert (k = 10)%nat as -> by lia. split; [done|]. by exists rest. }
  unfold watcherRetryCount in Hend. apply negb_false_iff, Z.ltb_lt in Hend.
  eapply wp_seq.
  { eapply wp_mono; [apply (calls_wp no_pause (fun _ e => no_pause e)); [apply watch_quiet|done]|..].
    - by intros h' [].
    - intros h' o Hext. exact Hext. }
  intros h1 [[[err|]|]|m] Hext; cbn [after]; try done.
  - assert (observe pause_of h1 = backoff k ++ rest) as Hobs1.
    { rewrite <- Hobs. apply (observe_extends pause_of no_pause); [done|]. by intros []. }
    apply wp_call.
    + exists k, rest. split_and!; [lia|done|]. f_equal. lia.
    + intros r. cbn [mbind prog_bind]. replace (Z.of_nat k + 1)%Z with (Z.of_nat (S k)) by lia.
      apply (IH (S k) rest); [lia|]. rewrite observe_cons. cbn [pause_of projT1 backoff app]. by rewrite Hobs1.
  - apply (IH 0%nat (observe pause_of h1)); [lia|done].
Qed.

(** The dispatcher gives up only after ten failures in a row, with pauses of
    5, 10, ..., 50 seconds between them; a watch that ends well resets the count. *)
Theorem dispatch_gives_up_late (ρ : env danswer) turns rounds polls node :
  let '(h, o) := run ρ [] (dispatch_loop mgr zone turns rounds polls 0 node) in
  guarded pause_guard h /\
  forall err, o = Done (Some err) -> err = giving_up node /\
    exists rest, observe pause_of h = backoff 10 ++ rest.
Proof.
  pose proof (wp_run _ _ _ _ (dispatch_pauses turns rounds polls 0 [] [] node ltac:(lia) eq_refl) I ρ) as [Hg HQ].
  change (Z.of_nat 0) with 0%Z in *. destruct (run ρ [] _) as [h o]. split; [done|]. intros err ->. exact HQ.
Qed.

(** When every watch fails, the side-car does give up, after ten of them. *)
Lemma dispatch_ends (ρ : env danswer) rounds polls node :
  (forall h, exists h' err, run ρ h (watchCSIAddonsNode mgr zone rounds polls node) = (h', Done (Some (Some err)))) ->
  forall h, exists h', run ρ h (dispatch_loop mgr zone 11 rounds polls 0 node) = (h', Done (Some (giving_up node))).
Proof.
  intros Hfail. assert (forall n k h, (n + k = 10)%nat -> exists h',
    run ρ h (dispatch_loop mgr zone (S n) rounds polls (Z.of_nat k) node) = (h', Done (Some (giving_up node)))) as Hgen;
    [|intros h; by apply (Hgen 10%nat 0%nat)].
  induction n as [|n IH]; intros k h Hk.
  - exists h. by replace k with 10%nat by lia.
  - remember (S n) as m. cbn [dispatch_loop]. unfold watcherRetryCount.
    rewrite (proj2 (Z.ltb_lt _ _)) by lia. cbn [negb]. rewrite run_bind.
    destruct (Hfail h) as (h' & err & ->). cbn [mbind prog_bind call run].
    replace (Z.of_nat k + 1)%Z with (Z.of_nat (S k)) by lia. subst m. apply IH. lia.
Qed.
End attempts.

(** ** A side-car of a daemon set *)
Module Demo.
Definition mgr : Manager := mkManager "worker-1" "pod://plugin-abc.storage:9070" "plugin-abc" "storage" "uid-7".
Definition owner : OwnerReference := mkOwnerReference "apps/v1" "DaemonSet" "plugin" "uid-1" (Some true) None.
Definition pod : Pod :=
  mkPod (set_OwnerReferences (new_meta "storage" "plugin-abc") [owner]) "10.0.0.7".

(** The object does not exist yet; [created] says whether creating it works.  The
    watch ends at once. *)
Definition world (created : bool) : env danswer := fun h e =>
  match e return danswer e with
  | DApi e =>
    match e return answer e with
    | EGet k _ => inl (APIStatus ReasonNotFound 404 "not found")
    | ECreate k o => if created then inr o else inl (ErrorString "forbidden")
    | e => refused e
    end
  | DDriver c =>
    match c return error + Sidecar.csi_response c with
    | Sidecar.CGetIdentity => inr "rbd.csi.ceph.com"
    | _ => inl (ErrorString "unreachable")
    end
  | DGetPod _ _ => inr pod
  | DGetReplicaSet _ _ => inl (ErrorString "not found")
  | DAddToScheme | DNewClient | DNewDynamic | DWatch _ _ => None
  | DNextEvent => None
  | DStopWatch | DSleep _ => tt
  | DSelect _ timeout => Expired
  end.

Definition created_name (c : {e & danswer e}) : option string :=
  match projT1 c with
  | DApi (ECreate k o) => (fun o : CSIAddonsNode => obj_Name o) <$> obj_in KCSIAddonsNode o
  | _ => None
  end.

(** Two turns: created at the start of each watch, under the same name. *)
Example announces : observe created_name (run (world true) [] (DispatchWatcher mgr (fun _ => 0%Z) 2 1 1)).1 =
  ["worker-1-storage-daemonset-plugin"; "worker-1-storage-daemonset-plugin"].
Proof. vm_compute. reflexivity. Qed.

Lemma announcement_understood_witness :
  guarded (fun _ e => forall o, writes e o ->
    CSIAddonsNodeController.validateCSIAddonsNodeSpec o = None /\
    exists port, ParseUint 16 "9070" = inr port /\
      CSIAddonsNodeController.parseEndpoint o.(node_Driver).(drv_EndPoint) =
        inr ("storage", "plugin-abc", Itoa port))
    (run (world true) [] (DispatchWatcher mgr (fun _ => 0%Z) 2 1 1)).1.
Proof. by apply (announcement_understood mgr (fun _ => 0%Z) (world true) 2 1 1 "9070"). Defined.

Lemma deploy_tries_once_witness :
  exists h, run (world false) [] (deploy mgr (fun _ => 0%Z) 1 (fresh_node (mkNode (new_meta "storage" "n")
    (mkNodeDriver "" "" "") (mkNodeStatus "" "" "" [] [])))) = (h, Done (Some (Some deadline_exceeded))).
Proof. eexists. rewrite (deploy_tries_once mgr (fun _ => 0%Z) (world false) 0); [|by intros h i t t']. vm_compute. reflexivity. Defined.
End Demo.
