(* ===== verification/VolumeCondition.v ===== *)
(** * The side-car's volume condition reporter

    src/sidecar/internal/volume-condition: reporter.go with the recorders, node
    (the volumes attached to this node), platform (where kubelet mounts them) and
    volume (the CSI driver).  The reporter asks the driver for the condition of
    every attached volume at an interval and records the conditions that are new. *)

From S2P Require Import Prelude.
From S2P Require Import GoErrors.
From S2P Require Import GoText.
From S2P Require Import GoTime.
From S2P Require Import GoJSONValue.
From S2P Require Import GoCrypto.
From S2P Require Import ApiTypes.
From S2P Require Import ControllerUtil.

(** ** The outside world of the reporter *)

(** What the reporter uses of a PersistentVolume. *)
Record ReportedPV := mkReportedPV { rpv_Name : string; ClaimRef : option NamespacedName }.

(** The condition in a NodeGetVolumeStats response. *)
Record CSICondition := mkCSICondition { Abnormal : bool; cc_Message : string }.

Inductive EventType := EventTypeNormal | EventTypeWarning.

Inductive cevent :=
| CTick                                   (* the next tick of the interval *)
| CGetNode (name : string)                (* the node's Status.VolumesAttached *)
| CMounts                                 (* mounter.List: the mount points *)
| CGlob (pattern : string)
| CReadFile (name : string)
| CNewClient (endpoint : string)
| CPluginInfo
| CNodeCapabilities
| CVolumeStats (volumeID path : string)
| CGetPV (name : string)
| CGetPVC (ns name : string)
| CEvent (host : string) (pvc : NamespacedName) (t : EventType) (reason message : string)
| CInfof (format name : string)
| CWarningf (format name message : string).

Definition canswer (e : cevent) : Type :=
  match e with
  | CTick => unit
  | CGetNode _ => error + list string
  | CMounts => error + list string
  | CGlob _ => error + list string
  | CReadFile _ => error + string
  | CNewClient _ => option error
  | CPluginInfo => error + string
  | CNodeCapabilities => error + list Z
  | CVolumeStats _ _ => error + option CSICondition
  | CGetPV _ => error + ReportedPV
  | CGetPVC _ _ => error + NamespacedName
  | CEvent _ _ _ _ _ | CInfof _ _ | CWarningf _ _ _ => unit
  end.

Abbreviation CM := (prog canswer).
Abbreviation chist := (history canswer).

Definition errorf (m : string) (err : error) : error := WrapError (m +:+ ": " +:+ Error err) err.
(** The same with [%v] for the inner error: it cannot be unwrapped. *)
Definition errorv (m : string) (err : error) : error := ErrorString (m +:+ ": " +:+ Error err).

(** ** volume/volume.go, volume/condition.go *)

Record CSIVolume := mkCSIVolume { GetDriver : string; GetVolumeID : string }.
Definition NewCSIVolume : string -> string -> CSIVolume := mkCSIVolume.

Record VolumeCondition := mkVolumeCondition { IsHealthy : bool; GetMessage : string }.
#[global] Instance VolumeCondition_eq_dec : EqDecision VolumeCondition.
Proof. solve_decision. Defined.

Definition GetReason (vc : VolumeCondition) : string :=
  if vc.(IsHealthy) then "VolumeConditionHealthy" else "VolumeConditionAbnormal".

(** ** platform/kubelet.go *)
Module kubelet.
Definition basedir := "/var/lib/kubelet".
Definition pluginPath := "/plugins".
Definition csiPath := "/kubernetes.io/csi".

(** A list of mounts that cannot be read has no mount point. *)
Definition isMountPoint (path : string) : CM bool :=
  r ← call CMounts;
  mret match r with
       | inl _ => false
       | inr mps => contains mps path
       end.

Definition globalmount (driver volumeID : string) : string :=
  Filepath.Join [basedir; pluginPath; csiPath; driver; Sha256.hex volumeID; "globalmount"].

Definition GetStagingPath (driver volumeID : string) : CM (error + string) :=
  let stagingPath := globalmount driver volumeID in
  m ← isMountPoint stagingPath;
  if (m : bool) then mret (inr stagingPath)
  else
  let stagingPath := Filepath.Join [stagingPath; volumeID] in
  m ← isMountPoint stagingPath;
  if (m : bool) then mret (inr stagingPath)
  else mret (inl (ErrorString ("could not find a mountpoint at " +:+ go_quote stagingPath))).

(** The three fields of vol_data.json: driver, PersistentVolume and handle. *)
Definition vol_data (data : string) : option (string * string * string) :=
  match UnmarshalStruct ["driverName"; "specVolID"; "volumeHandle"] data with
  | Some [(_, d); (_, pv); (_, id)] => Some (d, pv, id)
  | _ => None
  end.

Definition vol_data_pattern : string :=
  Filepath.Join [basedir; "pods"; "*"; "volumes/kubernetes.io~csi/"; "*"; "vol_data.json"].

(** The path and the PersistentVolume of the first file that matches. *)
Fixpoint find_vol_data (driver volumeID : string) (files : list string) : CM (error + string * string) :=
  match files with
  | [] => mret (inl (ErrorString ("could not find a vol_data.json for driver " +:+ go_quote driver +:+
            " and volumeID " +:+ go_quote volumeID)))
  | filename :: files =>
    r ← call (CReadFile filename);
    match r with
    | inl _ => find_vol_data driver volumeID files
    | inr data =>
      match vol_data data with
      | None => find_vol_data driver volumeID files
      | Some (d, pv, id) =>
        if negb (bool_decide (d = driver)) || negb (bool_decide (id = volumeID))
        then find_vol_data driver volumeID files
        else mret (inr (ReplaceAll filename "vol_data.json" "mount", pv))
      end
    end
  end.

Definition getPublishDetails (driver volumeID : string) : CM (error + string * string) :=
  r ← call (CGlob vol_data_pattern);
  match r with
  | inl err => mret (inl (errorv "could not find vol_data.json" err))
  | inr volDatas => find_vol_data driver volumeID volDatas
  end.

Definition of_volume (m driver volumeID : string) : string :=
  m +:+ " for volume handle " +:+ go_quote volumeID +:+ " of driver " +:+ go_quote driver.

Definition GetPublishPath (driver volumeID : string) : CM (error + string) :=
  r ← getPublishDetails driver volumeID;
  mret match r with
       | inl err => inl (errorf (of_volume "failed to find publish path" driver volumeID) err)
       | inr (path, _) => inr path
       end.

Definition ResolvePersistentVolumeName (driver volumeID : string) : CM (error + string) :=
  r ← getPublishDetails driver volumeID;
  mret match r with
       | inl err => inl (errorf (of_volume "failed to get persistent volume name" driver volumeID) err)
       | inr (_, pvName) => inr pvName
       end.

Definition GetCSISocket (driver : string) : string :=
  Filepath.Join ["unix://"; basedir; pluginPath; driver; "csi.sock"].
End kubelet.

(** ** volume/driver.go *)

(** The interface: a driver that answers without an error may still answer nil. *)
Record Driver := mkDriver {
  GetDrivername : string;
  SupportsVolumeCondition : bool;
  GetVolumeCondition : CSIVolume -> CM (error + option VolumeCondition)
}.

Record csiDriver := mkCsiDriver { drv_name : string; supportVolumeCondition : bool; supportsNodeStageVolume : bool }.

Definition STAGE_UNSTAGE_VOLUME : Z := 1.
Definition VOLUME_CONDITION : Z := 4.

Fixpoint note_capabilities (drv : csiDriver) (caps : list Z) : csiDriver :=
  match caps with
  | [] => drv
  | c :: caps =>
    note_capabilities
      (if (c =? VOLUME_CONDITION)%Z then mkCsiDriver drv.(drv_name) true drv.(supportsNodeStageVolume)
       else if (c =? STAGE_UNSTAGE_VOLUME)%Z then mkCsiDriver drv.(drv_name) drv.(supportVolumeCondition) true
       else drv) caps
  end.

Definition detectCapabilities (drv : csiDriver) : CM (error + csiDriver) :=
  r ← call CNodeCapabilities;
  mret match r with
       | inl err => inl (errorv ("failed to get capabilities of driver " +:+ go_quote drv.(drv_name)) err)
       | inr caps => inr (note_capabilities drv caps)
       end.

Definition csi_GetVolumeCondition (drv : csiDriver) (v : CSIVolume) : CM (error + option VolumeCondition) :=
  r ← (if drv.(supportsNodeStageVolume) then
         r ← kubelet.GetStagingPath drv.(drv_name) v.(GetVolumeID);
         mret match r with inl err => inl (errorf "failed to get staging path" err) | inr p => inr p end
       else
         r ← kubelet.GetPublishPath drv.(drv_name) v.(GetVolumeID);
         mret match r with inl err => inl (errorf "failed to get publish path" err) | inr p => inr p end);
  match r with
  | inl err => mret (inl err)
  | inr volumePath =>
    r ← call (CVolumeStats v.(GetVolumeID) volumePath);
    match r with
    | inl err => mret (inl (errorf "failed to call NodeGetVolumeStats" err))
    | inr None => mret (inl (ErrorString "VolumeCondition unknown"))
    | inr (Some c) => mret (inr (Some (mkVolumeCondition (negb c.(Abnormal)) c.(cc_Message))))
    end
  end.

Definition csi_Driver (drv : csiDriver) : Driver :=
  mkDriver drv.(drv_name) drv.(supportVolumeCondition) (csi_GetVolumeCondition drv).

Definition FindDriver (name : string) : CM (error + csiDriver) :=
  let endpoint := kubelet.GetCSISocket name in
  err ← call (CNewClient endpoint);
  match err with
  | Some err => mret (inl (errorf ("failed to connect to endpoint " +:+ endpoint) err))
  | None =>
    r ← call CPluginInfo;
    match r with
    | inl err => mret (inl (errorf ("failed to connect to get info from CSI driver " +:+ go_quote name) err))
    | inr info =>
      if negb (bool_decide (info = name)) then
        mret (inl (ErrorString ("CSI driver " +:+ go_quote name +:+ " incorrectly identifies itself as " +:+ go_quote info)))
      else
      r ← detectCapabilities (mkCsiDriver name false false);
      mret match r with
           | inl err => inl (errorf ("failed to detect the capabilities of CSI driver " +:+ go_quote name) err)
           | inr drv => inr drv
           end
    end
  end.

(** ** node/node.go *)

Definition csiDriverPrefix := "kubernetes.io/csi/".

Definition newAttachedCSIVolume (name : string) : error + CSIVolume :=
  if negb (String.prefix csiDriverPrefix name) then
    inl (ErrorString ("attached volume " +:+ go_quote name +:+ " is not a CSI volume"))
  else
  let driverVolume := drop_bytes (String.length csiDriverPrefix) name in
  match split "^" driverVolume with
  | [d; id] => inr (NewCSIVolume d id)
  | _ => inl (ErrorString ("format of attached volume " +:+ go_quote name +:+ " is not supported: " +:+ driverVolume))
  end.

(** NewNode: the node must exist. *)
Definition NewNode (nodename : string) : CM (error + string) :=
  r ← call (CGetNode nodename);
  mret match r with
       | inl err => inl (errorv ("could not get my local Node " +:+ go_quote nodename) err)
       | inr _ => inr nodename
       end.

Definition csi_volumes (attached : list string) : list CSIVolume :=
  omap (fun name => match newAttachedCSIVolume name with inr v => Some v | inl _ => None end) attached.

Definition ListCSIVolumes (nodename : string) : CM (error + list CSIVolume) :=
  r ← call (CGetNode nodename);
  mret match r with
       | inl err => inl (errorv ("could not get Node " +:+ go_quote nodename) err)
       | inr attached => inr (csi_volumes attached)
       end.

(** ** recorder.go, log_recorder.go, event_recorder.go *)

Inductive RecorderOption := WithLogRecorder | WithEventRecorder.
Inductive conditionRecorder := logRecorder | eventRecorder (hostname : string).

Definition newRecorder (opt : RecorderOption) (hostname : string) : error + conditionRecorder :=
  match opt with
  | WithLogRecorder => inr logRecorder
  | WithEventRecorder => inr (eventRecorder hostname)
  end.

(** The message of a healthy volume becomes a part of the format. *)
Definition log_record (pv : ReportedPV) (vc : VolumeCondition) : CM (option error) :=
  if vc.(IsHealthy) then
    let msg := vc.(GetMessage) in
    let msg := if bool_decide (msg ≠ "") then ": " +:+ msg else msg in
    _ ← call (CInfof ("persistent volume %q is healthy" +:+ msg) pv.(rpv_Name));
    mret None
  else
    _ ← call (CWarningf "persistent volume %q is not healthy: %v" pv.(rpv_Name) vc.(GetMessage));
    mret None.

Definition event_record (hostname : string) (pv : ReportedPV) (vc : VolumeCondition) : CM (option error) :=
  match pv.(ClaimRef) with
  | None => mret (Some (ErrorString ("persistent volume " +:+ go_quote pv.(rpv_Name) +:+
              " does not have a claim (unused?)")))
  | Some claim =>
    r ← call (CGetPVC claim.(nn_Namespace) claim.(nn_Name));
    match r with
    | inl err => mret (Some (errorf ("failed to get persistent volume claim " +:+ go_quote claim.(nn_Name) +:+
                   " in namespace " +:+ go_quote claim.(nn_Namespace)) err))
    | inr pvc =>
      let severity := if negb vc.(IsHealthy) then EventTypeWarning else EventTypeNormal in
      _ ← call (CEvent hostname pvc severity (GetReason vc) vc.(GetMessage));
      mret None
    end
  end.

Definition record (r : conditionRecorder) : ReportedPV -> VolumeCondition -> CM (option error) :=
  match r with
  | logRecorder => log_record
  | eventRecorder hostname => event_record hostname
  end.

(** ** reporter.go *)

(** The cache may hold a nil condition: pruning copies what was never stored. *)
Abbreviation cache := (gmap string (option VolumeCondition)).

Record volumeConditionReporter := mkReporter {
  driver : Driver;
  localNode : string;
  recorders : list conditionRecorder
}.

Fixpoint new_recorders (opts : list RecorderOption) (hostname : string) : error + list conditionRecorder :=
  match opts with
  | [] => inr []
  | opt :: opts =>
    match newRecorder opt hostname with
    | inl err => inl (errorf "failed to create recorder" err)
    | inr rec => match new_recorders opts hostname with inl err => inl err | inr l => inr (rec :: l) end
    end
  end.

Definition NewVolumeConditionReporter (hostname drivername : string) (opts : list RecorderOption)
    : CM (error + volumeConditionReporter) :=
  r ← FindDriver drivername;
  match r with
  | inl err => mret (inl (errorf ("failed to find driver " +:+ go_quote drivername) err))
  | inr drv =>
    if negb (csi_Driver drv).(SupportsVolumeCondition) then
      mret (inl (ErrorString ("driver " +:+ go_quote drivername +:+ " does not support volume-condition")))
    else
    r ← NewNode hostname;
    match r with
    | inl err => mret (inl (errorf ("failed to get node " +:+ go_quote hostname) err))
    | inr n =>
      match new_recorders opts hostname with
      | inl err => mret (inl err)
      | inr recs => mret (inr (mkReporter (csi_Driver drv) n recs))
      end
    end
  end.

Definition isUpdatedVolumeCondition (conditionCache : cache) (volumeID : string) (vc : VolumeCondition) : cache * bool :=
  let updated := (<[volumeID := Some vc]> conditionCache, true) in
  match mjoin (conditionCache !! volumeID) with
  | None => updated
  | Some lastCondition =>
    if negb (bool_decide (lastCondition.(IsHealthy) = vc.(IsHealthy)))
       || negb (bool_decide (lastCondition.(GetMessage) = vc.(GetMessage)))
    then updated else (conditionCache, false)
  end.

Definition pruneConditionCache (conditionCache : cache) (volumes : list CSIVolume) : cache :=
  foldl (fun newConditionCache v => <[v.(GetVolumeID) := mjoin (conditionCache !! v.(GetVolumeID))]> newConditionCache)
    ∅ volumes.

Section reporter.
Context (cvr : volumeConditionReporter).

Fixpoint record_all (recs : list conditionRecorder) (pv : ReportedPV) (vc : VolumeCondition) : CM unit :=
  match recs with
  | [] => mret tt
  | rec :: recs => _ ← record rec pv vc; record_all recs pv vc
  end.

Definition recordVolumeCondition (volumeID : string) (vc : VolumeCondition) : CM unit :=
  r ← kubelet.ResolvePersistentVolumeName cvr.(driver).(GetDrivername) volumeID;
  match r with
  | inl _ => mret tt
  | inr pvName =>
    r ← call (CGetPV pvName);
    match r with
    | inl _ => mret tt
    | inr pv => record_all cvr.(recorders) pv vc
    end
  end.

(** One volume of a round. *)
Definition check_volume (conditionCache : cache) (v : CSIVolume) : CM cache :=
  if negb (bool_decide (v.(GetDriver) = cvr.(driver).(GetDrivername))) then mret conditionCache
  else
  r ← cvr.(driver).(GetVolumeCondition) v;
  match r with
  | inl _ => mret conditionCache
  | inr None => mret conditionCache
  | inr (Some vc) =>
    let '(conditionCache, updated) := isUpdatedVolumeCondition conditionCache v.(GetVolumeID) vc in
    if negb updated then mret conditionCache
    else _ ← recordVolumeCondition v.(GetVolumeID) vc; mret conditionCache
  end.

Fixpoint check_volumes (conditionCache : cache) (volumes : list CSIVolume) : CM cache :=
  match volumes with
  | [] => mret conditionCache
  | v :: volumes => conditionCache ← check_volume conditionCache v; check_volumes conditionCache volumes
  end.

(** The body of the loop for one tick. *)
Definition tick (conditionCache : cache) : CM (error + cache) :=
  r ← ListCSIVolumes cvr.(localNode);
  match r with
  | inl err => mret (inl (errorf "failed to list volumes" err))
  | inr volumes =>
    conditionCache ← check_volumes conditionCache volumes;
    mret (inr (pruneConditionCache conditionCache volumes))
  end.

(** The loop ends only with an error; [None] while it runs. *)
Fixpoint ticks (rounds : nat) (conditionCache : cache) : CM (option error) :=
  match rounds with
  | O => mret None
  | S rounds =>
    _ ← call CTick;
    r ← tick conditionCache;
    match r with
    | inl err => mret (Some err)
    | inr conditionCache => ticks rounds conditionCache
    end
  end.

(** time.Tick answers nil for an interval that is not positive. *)
Definition Run (rounds : nat) (interval : Z) : CM (option error) :=
  if (interval <=? 0)%Z then mret (Some (ErrorString ("interval " +:+ Duration_String interval +:+ " is invalid")))
  else ticks rounds ∅.
End reporter.
