(* ===== verification/VolumeConditionProofs.v ===== *)
(** * The volume condition reporter keeps its promises

    What is asked of the driver, what is recorded and when; the names of attached
    volumes; the paths kubelet uses. *)

From S2P Require Import Prelude.
From S2P Require Import GoErrors.
From S2P Require Import GoText.
From S2P Require Import GoURL.
From S2P Require Import GoJSON.
From S2P Require Import GoJSONValue.
From S2P Require Import GoCrypto.
From S2P Require Import ApiTypes.
From S2P Require Import ControllerUtil.
From S2P Require Import StringFacts.
From S2P Require Import VolumeCondition.
From S2P Require Sidecar.

(** ** Names of attached volumes *)

(** A name is taken for a volume of driver [d] with handle [id] exactly when it is
    the name Kubernetes gives to that volume, and neither has a separator in it. *)
Theorem attached_name_exact name d id :
  newAttachedCSIVolume name = inr (mkCSIVolume d id) <->
  name = "kubernetes.io/csi/" +:+ d +:+ "^" +:+ id /\ lacks_byte "^" d = true /\ lacks_byte "^" id = true.
Proof.
  unfold newAttachedCSIVolume. destruct (String.prefix csiDriverPrefix name) eqn:Hp; cbn [negb].
  - apply prefix_drop in Hp. rewrite Hp. rewrite drop_bytes_app.
    set (rest := drop_bytes (String.length csiDriverPrefix) name).
    change ("^" +:+ id) with (String "^" id). transitivity (split "^" rest = [d; id]).
    + destruct (split "^" rest) as [|a [|b [|]]]; split; try done; by intros [= -> ->].
    + rewrite split_two. split; [by intros (-> & ?)|]. intros (Heq & ?). split; [|done].
      apply (f_equal (drop_bytes (String.length csiDriverPrefix))) in Heq. by rewrite !drop_bytes_app in Heq.
  - split; [done|]. intros [-> _]. assert (String.prefix csiDriverPrefix ("kubernetes.io/csi/" +:+ d +:+ "^" +:+ id) = true) as Hp';
      [|congruence]. apply prefix_drop. by rewrite drop_bytes_app.
Qed.

(** ** What the history tells *)

Definition condition_of (c : CSICondition) : VolumeCondition :=
  mkVolumeCondition (negb c.(Abnormal)) c.(cc_Message).

(** A condition the driver gave, with its volume. *)
Definition stat_of (c : {e & canswer e}) : option (string * VolumeCondition) :=
  match c with
  | existT e r =>
    match e return canswer e -> option (string * VolumeCondition) with
    | CVolumeStats id _ => fun r => match r with inr (Some c) => Some (id, condition_of c) | _ => None end
    | _ => fun _ => None
    end r
  end.

(** The volumes found attached. *)
Definition listing_of (c : {e & canswer e}) : option (list CSIVolume) :=
  match c with
  | existT e r =>
    match e return canswer e -> option (list CSIVolume) with
    | CGetNode _ => fun r => match r with inr l => Some (csi_volumes l) | inl _ => None end
    | _ => fun _ => None
    end r
  end.

Definition ids (l : list CSIVolume) : list string := GetVolumeID <$> l.

(** The last condition the driver gave for a volume, unless the volume was found
    detached since. *)
Fixpoint known (h : chist) (id : string) : option VolumeCondition :=
  match h with
  | [] => None
  | c :: h =>
    match stat_of c, listing_of c with
    | Some (id', vc), _ => if bool_decide (id' = id) then Some vc else known h id
    | None, Some l => if bool_decide (id ∈ ids l) then known h id else None
    | None, None => known h id
    end
  end.

(** Calls that say nothing about conditions or attachments. *)
Definition neutral (e : cevent) : Prop :=
  match e with CVolumeStats _ _ | CGetNode _ => False | _ => True end.

Lemma neutral_known h h' id : extends neutral h h' -> known h' id = known h id.
Proof.
  intros (t & -> & Ht). induction Ht as [|[e r] t He Ht IH]; [done|]. cbn [known app].
  destruct e; try done; exact IH.
Qed.

Definition answered (h : chist) (e : cevent) (r : canswer e) : Prop := existT e r ∈ h.
Arguments answered h e r : clear implicits.

Lemma answered_extends P h h' e r : extends P h h' -> answered h e r -> answered h' e r.
Proof. intros (t & -> & _) Hin. apply elem_of_app. by right. Qed.

(** [fresh h id vc]: the driver's last answer is [vc] for the volume [id], and it is
    news: it differs from what was known before. *)
Definition fresh (h : chist) (id : string) (vc : VolumeCondition) : Prop :=
  exists h0 path c, extends neutral (existT (CVolumeStats id path) (inr (Some c)) :: h0) h /\
    vc = condition_of c /\ known h0 id ≠ Some vc.

Lemma fresh_extends h h' id vc : extends neutral h h' -> fresh h id vc -> fresh h' id vc.
Proof.
  intros Hext (h0 & path & c & Hh & ? & ?). exists h0, path, c. split; [|done]. by eapply extends_trans.
Qed.

Section reports.
Context (drv : csiDriver) (node : string) (recs : list conditionRecorder).
Let d := drv.(drv_name).

(** kubelet's file says that volume [id] of this driver is mounted for [pvName]. *)
Definition mounted (h : chist) (id file pvName : string) : Prop :=
  exists data, answered h (CReadFile file) (inr data) /\ kubelet.vol_data data = Some (d, pvName, id).

Lemma mounted_extends P h h' id file pv : extends P h h' -> mounted h id file pv -> mounted h' id file pv.
Proof. intros Hext (data & Ha & Hv). exists data. split; [|done]. by eapply answered_extends. Qed.

(** The path the driver is asked about: of a driver that stages its volumes, a
    staging path that the mount table has; of another, the publish path beside
    kubelet's file for the volume. *)
Definition path_ok (h : chist) (id path : string) : Prop :=
  if drv.(supportsNodeStageVolume) then
    (path = kubelet.globalmount d id \/ path = Filepath.Join [kubelet.globalmount d id; id]) /\
    exists mps, answered h CMounts (inr mps) /\ path ∈ mps
  else exists file pv, mounted h id file pv /\ path = ReplaceAll file "vol_data.json" "mount".

(** What is recorded of [pv] is fresh news about a volume of that name. *)
Definition news (h : chist) (pvName : string) (vc : VolumeCondition) : Prop :=
  exists id file name pv, fresh h id vc /\ mounted h id file name /\
    answered h (CGetPV name) (inr pv) /\ pv.(rpv_Name) = pvName.

Definition report_guard (h : chist) (e : cevent) : Prop :=
  match e with
  | CVolumeStats id path =>
    path_ok h id path /\ exists l, head (observe listing_of h) = Some l /\ mkCSIVolume d id ∈ l
  | CGetNode name => name = node
  | CInfof format name => logRecorder ∈ recs /\ exists vc, news h name vc /\ vc.(IsHealthy) = true /\
      format = "persistent volume %q is healthy" +:+ (if bool_decide (vc.(GetMessage) = "") then "" else ": " +:+ vc.(GetMessage))
  | CWarningf format name message => logRecorder ∈ recs /\
    exists vc, news h name vc /\ vc.(IsHealthy) = false /\ format = "persistent volume %q is not healthy: %v" /\
      message = vc.(GetMessage)
  | CEvent host pvc t reason message => eventRecorder host ∈ recs /\
    exists vc id file name pv claim, fresh h id vc /\ mounted h id file name /\
      answered h (CGetPV name) (inr pv) /\ pv.(ClaimRef) = Some claim /\
      answered h (CGetPVC claim.(nn_Namespace) claim.(nn_Name)) (inr pvc) /\
      reason = GetReason vc /\ message = vc.(GetMessage) /\
      t = if vc.(IsHealthy) then EventTypeNormal else EventTypeWarning
  | _ => True
  end.

(** *** kubelet *)

Lemma isMountPoint_wp h path :
  wp report_guard (fun h' o => extends neutral h h' /\ match o with
    | Done true => exists mps, answered h' CMounts (inr mps) /\ path ∈ mps
    | Done false => True
    | Panicked _ => False
    end) h (kubelet.isMountPoint path).
Proof.
  unfold kubelet.isMountPoint. apply wp_call; [done|]. intros [err|mps]; (split; [by apply extends_one|]); [done|].
  destruct (contains mps path) eqn:Hc; [|done]. apply contains_true in Hc. exists mps. split; [by left|done].
Qed.

Lemma find_vol_data_wp h id files :
  wp report_guard (fun h' o => extends neutral h h' /\ match o with
    | Done (inr (path, pv)) => exists file, mounted h' id file pv /\ path = ReplaceAll file "vol_data.json" "mount"
    | Done (inl _) => True
    | Panicked _ => False
    end) h (kubelet.find_vol_data d id files).
Proof.
  revert h. induction files as [|file files IH]; intros h; [by split; [apply extends_refl|]|]. cbn [kubelet.find_vol_data].
  apply wp_call; [done|]. intros r.
  assert (extends neutral h (existT (CReadFile file) r :: h)) as Hone by by apply extends_one.
  assert (forall A (Q : chist -> outcome A -> Prop) p, wp report_guard (fun h' o => extends neutral (existT (CReadFile file) r :: h) h' /\ Q h' o)
    (existT (CReadFile file) r :: h) p -> wp report_guard (fun h' o => extends neutral h h' /\ Q h' o) (existT (CReadFile file) r :: h) p) as Hmore.
  { intros A Q p Hp. eapply wp_post; [exact Hp|]. intros h' o [Hext HQ]. split; [by eapply extends_trans|done]. }
  destruct r as [err|data]; cbn [mbind prog_bind]; [apply Hmore, IH|].
  destruct (kubelet.vol_data data) as [[[d' pv] id']|] eqn:Hv; [|apply Hmore, IH].
  destruct (negb _ || negb _) eqn:Hmatch; [apply Hmore, IH|].
  apply orb_false_iff in Hmatch as [H1%negb_false_iff%bool_decide_eq_true H2%negb_false_iff%bool_decide_eq_true]. subst.
  split; [done|]. exists file. split; [|done]. exists data. split; [by left|done].
Qed.

Lemma getPublishDetails_wp h id :
  wp report_guard (fun h' o => extends neutral h h' /\ match o with
    | Done (inr (path, pv)) => exists file, mounted h' id file pv /\ path = ReplaceAll file "vol_data.json" "mount"
    | Done (inl _) => True
    | Panicked _ => False
    end) h (kubelet.getPublishDetails d id).
Proof.
  unfold kubelet.getPublishDetails. apply wp_call; [done|]. intros [err|files]; cbn [mbind prog_bind].
  - split; [by apply extends_one|done].
  - eapply wp_post; [apply find_vol_data_wp|]. intros h' o [Hext Ho]. split; [|done].
    eapply extends_trans; [|exact Hext]. by apply extends_one.
Qed.

(** *** The driver *)

(** [asked h id h' o]: the outcome of asking for the condition of volume [id]. *)
Definition asked (h : chist) (id : string) (h' : chist) (o : outcome (error + option VolumeCondition)) : Prop :=
  match o with
  | Done (inr (Some vc)) => exists h0 path c, extends neutral h h0 /\
      h' = existT (CVolumeStats id path) (inr (Some c)) :: h0 /\ vc = condition_of c
  | Done (inl _) => (forall i, known h' i = known h i) /\ head (observe listing_of h') = head (observe listing_of h)
  | _ => False
  end.

Lemma listing_extends h h' : extends neutral h h' -> observe listing_of h' = observe listing_of h.
Proof. intros Hext. apply (observe_extends listing_of neutral); [done|]. by intros []. Qed.

Lemma GetStagingPath_wp h id : drv.(supportsNodeStageVolume) = true ->
  wp report_guard (fun h' o => extends neutral h h' /\ match o with
    | Done (inr path) => path_ok h' id path
    | Done (inl _) => True
    | Panicked _ => False
    end) h (kubelet.GetStagingPath d id).
Proof.
  intros Hs. unfold kubelet.GetStagingPath, path_ok. rewrite Hs.
  eapply wp_seq; [apply isMountPoint_wp|]. intros h1 [[]|m] [H1 Ho1]; cbn [after]; [|..|done].
  { split; [done|]. split; [by left|done]. }
  eapply wp_seq; [apply isMountPoint_wp|]. intros h2 [[]|m] [H2 Ho2]; cbn [after]; [|..|done];
    (split; [by eapply extends_trans|]); [|done]. split; [by right|done].
Qed.

Lemma csi_GetVolumeCondition_wp h id l :
  head (observe listing_of h) = Some l -> mkCSIVolume d id ∈ l ->
  wp report_guard (asked h id) h (csi_GetVolumeCondition drv (mkCSIVolume d id)).
Proof.
  intros Hl Hin. unfold csi_GetVolumeCondition. cbn [GetVolumeID].
  eapply (wp_seq _ _ (fun h' o => extends neutral h h' /\ match o with
    | Done (inr path) => path_ok h' id path
    | Done (inl _) => True
    | Panicked _ => False
    end)).
  - destruct (supportsNodeStageVolume drv) eqn:Hs.
    + eapply wp_seq; [by apply GetStagingPath_wp|]. intros h1 [[err|p]|m] Ho; done.
    + unfold kubelet.GetPublishPath. apply wp_assoc. eapply wp_seq; [apply getPublishDetails_wp|].
      intros h1 [[err|[p pv]]|m] [Hext Ho]; cbn; [by split| |done]. split; [done|].
      unfold path_ok. rewrite Hs. destruct Ho as (file & Hm & ->). by exists file, pv.
  - intros h1 [[err|path]|m] [Hext Ho]; cbn [after]; [|..|done].
    { split; [intros i; exact (neutral_known h h1 i Hext)|]. exact (f_equal head (listing_extends h h1 Hext)). }
    apply wp_call.
    + split; [done|]. exists l. split; [|done]. by rewrite (listing_extends h h1).
    + intros [err|[c|]]; cbn [mbind prog_bind]; cbn.
      * split; [intros i; exact (neutral_known h h1 i Hext)|]. exact (f_equal head (listing_extends h h1 Hext)).
      * by exists h1, path, c.
      * split; [intros i; exact (neutral_known h h1 i Hext)|]. exact (f_equal head (listing_extends h h1 Hext)).
Qed.

(** *** Recording *)

(** Once the volume is resolved: news to record about [pv]. *)
Definition to_record (h : chist) (pv : ReportedPV) (vc : VolumeCondition) : Prop :=
  exists id file name, fresh h id vc /\ mounted h id file name /\ answered h (CGetPV name) (inr pv).

Lemma to_record_extends h h' pv vc : extends neutral h h' -> to_record h pv vc -> to_record h' pv vc.
Proof.
  intros Hext (id & file & name & Hf & Hm & Ha). exists id, file, name. split_and!;
    [by eapply fresh_extends|by eapply mounted_extends|by eapply answered_extends].
Qed.

Lemma record_wp h rec pv vc : rec ∈ recs -> to_record h pv vc ->
  wp report_guard (fun h' o => extends neutral h h' /\ exists err, o = Done err) h (record rec pv vc).
Proof.
  intros Hin Hrec. pose proof Hrec as (id & file & name & Hf & Hm & Ha).
  assert (news h pv.(rpv_Name) vc) as Hnews by (by exists id, file, name, pv).
  destruct rec as [|host]; cbn [record].
  - unfold log_record. destruct (IsHealthy vc) eqn:Hh; (apply wp_call; [|intros r; split; [by apply extends_one|by eexists]]).
    + split; [done|]. exists vc. split_and!; [done..|]. by repeat case_bool_decide; simplify_eq; rewrite ?H.
    + split; [done|]. by exists vc.
  - unfold event_record. destruct (ClaimRef pv) as [claim|] eqn:Hc; [|split; [apply extends_refl|by eexists]].
    apply wp_call; [done|]. intros [err|pvc]; cbn [mbind prog_bind]; [split; [by apply extends_one|by eexists]|].
    assert (extends neutral h (existT (CGetPVC (nn_Namespace claim) (nn_Name claim)) (inr pvc) :: h)) as Hone by by apply extends_one.
    apply wp_call; [|intros r; split; [by apply extends_cons|by eexists]].
    split; [done|]. exists vc, id, file, name, pv, claim. split_and!; try done;
      [by eapply fresh_extends|by eapply mounted_extends|by eapply answered_extends|by left|by destruct (IsHealthy vc)].
Qed.

Lemma record_all_wp h rs pv vc : rs ⊆ recs -> to_record h pv vc ->
  wp report_guard (fun h' o => extends neutral h h' /\ o = Done tt) h (record_all rs pv vc).
Proof.
  revert h. induction rs as [|rec rs IH]; intros h Hsub Hrec; [by split; [apply extends_refl|]|]. cbn [record_all].
  eapply wp_seq; [apply record_wp; [set_solver|done]|]. intros h1 [err|m] [Hext [? ?]]; [|done]. cbn [after].
  eapply wp_post; [apply IH; [set_solver|by eapply to_record_extends]|].
  intros h2 o [Hext2 Ho]. split; [by eapply extends_trans|done].
Qed.

Let cvr := mkReporter (csi_Driver drv) node recs.

Lemma recordVolumeCondition_wp h id vc : fresh h id vc ->
  wp report_guard (fun h' o => extends neutral h h' /\ o = Done tt) h (recordVolumeCondition cvr id vc).
Proof.
  intros Hf. unfold recordVolumeCondition, kubelet.ResolvePersistentVolumeName. apply wp_assoc.
  eapply wp_seq; [apply getPublishDetails_wp|]. intros h1 [[err|[path name]]|m] [Hext Ho]; cbn; [by split| |done].
  destruct Ho as (file & Hm & _). split; [done|]. intros [err|pv]; cbn [mbind prog_bind].
  - split; [by apply extends_cons|done].
  - eapply wp_post; [apply record_all_wp; [done|]|].
    + exists id, file, name. split_and!; [|by eapply mounted_extends; [apply (extends_one neutral)|]|by left].
      eapply fresh_extends; [|exact Hf]. by apply extends_cons.
    + intros h2 o [Hext2 Ho]. split; [|done]. eapply extends_trans; [|exact Hext2]. by apply extends_cons.
Qed.

(** *** The cache *)

(** During a round over [l]: the cache knows what is known of its volumes, and
    nothing is known of the others. *)
Definition in_round (l : list CSIVolume) (m : cache) (h : chist) : Prop :=
  head (observe listing_of h) = Some l /\
  forall id, if bool_decide (id ∈ ids l) then mjoin (m !! id) = known h id else known h id = None.

(** Between two rounds: the cache knows what is known. *)
Definition between_rounds (m : cache) (h : chist) : Prop := forall id, mjoin (m !! id) = known h id.

Lemma in_round_neutral l m h h' :
  head (observe listing_of h') = head (observe listing_of h) -> (forall id, known h' id = known h id) ->
  in_round l m h -> in_round l m h'.
Proof. intros Hl Hk [H1 H2]. split; [by rewrite Hl|]. intros id. rewrite Hk. apply H2. Qed.

Lemma prune_lookup m l id :
  mjoin (pruneConditionCache m l !! id) = if bool_decide (id ∈ ids l) then mjoin (m !! id) else None.
Proof.
  unfold pruneConditionCache.
  assert (forall acc : cache, foldl (fun c v => <[v.(GetVolumeID) := mjoin (m !! v.(GetVolumeID))]> c) acc l !! id =
    if bool_decide (id ∈ ids l) then Some (mjoin (m !! id)) else acc !! id) as Hfold.
  { induction l as [|v l IH]; intros acc; [by rewrite bool_decide_false by set_solver|]. cbn [foldl]. rewrite IH.
    destruct (decide (id ∈ ids l)) as [Hin|Hin].
    - rewrite !bool_decide_true by (set_solver || done). done.
    - rewrite (bool_decide_false (id ∈ ids l)) by done. destruct (decide (v.(GetVolumeID) = id)) as [<-|Hne].
      + rewrite bool_decide_true by set_solver. by rewrite lookup_insert_eq.
      + rewrite bool_decide_false by (unfold ids in *; set_solver). by rewrite lookup_insert_ne. }
  rewrite Hfold. case_bool_decide; [done|]. by rewrite lookup_empty.
Qed.

Lemma prune_between l m h : in_round l m h -> between_rounds (pruneConditionCache m l) h.
Proof. intros [_ H] id. rewrite prune_lookup. specialize (H id). by case_bool_decide. Qed.

(** A condition is an update exactly when it differs from the one in the cache. *)
Lemma isUpdated_spec m id vc m' b : isUpdatedVolumeCondition m id vc = (m', b) ->
  (b = true <-> mjoin (m !! id) ≠ Some vc) /\ mjoin (m' !! id) = Some vc /\
  forall i, i ≠ id -> m' !! i = m !! i.
Proof.
  unfold isUpdatedVolumeCondition. destruct (mjoin (m !! id)) as [last|] eqn:Hl.
  - destruct (negb _ || negb _) eqn:Hd; intros [= <- <-].
    + rewrite lookup_insert_eq. split_and!; [|done|intros; by rewrite lookup_insert_ne].
      split; [|done]. intros _ [= ->]. by rewrite !bool_decide_true in Hd.
    + apply orb_false_iff in Hd as [H1%negb_false_iff%bool_decide_eq_true H2%negb_false_iff%bool_decide_eq_true].
      destruct last as [lh lm], vc as [vh vm]. simpl in *. subst. rewrite Hl. split_and!; [|done..]. naive_solver.
  - intros [= <- <-]. rewrite lookup_insert_eq. split_and!; [done..|intros; by rewrite lookup_insert_ne].
Qed.

(** *** The loop *)

Lemma in_round_answer l m m' h h0 id path c b :
  in_round l m h -> id ∈ ids l -> extends neutral h h0 ->
  isUpdatedVolumeCondition m id (condition_of c) = (m', b) ->
  let h' := existT (CVolumeStats id path) (inr (Some c)) :: h0 in
  in_round l m' h' /\ (b = true -> fresh h' id (condition_of c)).
Proof.
  intros [Hl Hin] Hid Hext (Hb & Hnew & Hold)%isUpdated_spec h'.
  assert (known h0 id = mjoin (m !! id)) as Hk.
  { rewrite (neutral_known h h0 id Hext). specialize (Hin id). by rewrite bool_decide_true in Hin by done. }
  split.
  - split; [by rewrite <- Hl, <- (listing_extends h h0)|]. intros i. specialize (Hin i).
    unfold h'. cbn [known stat_of]. destruct (decide (id = i)) as [<-|Hne].
    + by rewrite !bool_decide_true.
    + rewrite (bool_decide_false (id = i)), (neutral_known h h0 i Hext), Hold by done. done.
  - intros Hup. exists h0, path, c. split_and!; [apply extends_refl|done|]. rewrite Hk. by apply Hb.
Qed.

Lemma check_volume_wp l m h v : in_round l m h -> v ∈ l ->
  wp report_guard (fun h' o => exists m', o = Done m' /\ in_round l m' h') h (check_volume cvr m v).
Proof.
  intros Hr Hv. unfold check_volume. case_bool_decide as Hd; cbn [negb]; [|by exists m].
  destruct v as [d' id]. cbn in Hd. subst d'. eapply wp_seq; [apply (csi_GetVolumeCondition_wp h id l); [apply Hr|done]|].
  intros h1 [[err|[vc|]]|msg] Ho; cbn [after asked] in *; [| |done..].
  - destruct Ho as [Hk Hl]. exists m. split; [done|]. by eapply in_round_neutral.
  - destruct Ho as (h0 & path & c & Hext & -> & ->). cbn [GetVolumeID].
    destruct (isUpdatedVolumeCondition m id (condition_of c)) as [m' b] eqn:Hu.
    destruct (in_round_answer l m m' h h0 id path c b) as [Hr' Hf]; [done|by apply (list_elem_of_fmap_2 GetVolumeID _ (mkCSIVolume d id))|done..|].
    destruct b; cbn [negb]; [|by exists m'].
    eapply wp_seq; [by apply recordVolumeCondition_wp, Hf|]. intros h2 o [Hext2 ->]. cbn [after].
    exists m'. split; [done|]. eapply in_round_neutral; [|intros i; by apply neutral_known|exact Hr'].
    exact (f_equal head (listing_extends _ h2 Hext2)).
Qed.

Lemma check_volumes_wp l vs m h : in_round l m h -> vs ⊆ l ->
  wp report_guard (fun h' o => exists m', o = Done m' /\ in_round l m' h') h (check_volumes cvr m vs).
Proof.
  revert m h. induction vs as [|v vs IH]; intros m h Hr Hsub; cbn [check_volumes]; [by exists m|].
  eapply wp_seq; [apply check_volume_wp; [done|set_solver]|]. intros h1 o (m1 & -> & Hr1). cbn [after].
  apply IH; [done|set_solver].
Qed.

Lemma ticks_wp rounds m h : between_rounds m h ->
  wp report_guard (fun _ o => exists r, o = Done r) h (ticks cvr rounds m).
Proof.
  revert m h. induction rounds as [|rounds IH]; intros m h Hb; cbn [ticks]; [by eexists|].
  apply wp_call; [done|]. intros []. cbn [mbind prog_bind]. unfold tick, ListCSIVolumes.
  apply wp_assoc, wp_assoc, wp_call; [done|]. intros [err|attached]; cbn [mbind prog_bind mret prog_ret]; [by eexists|].
  apply wp_assoc. eapply wp_seq; [apply (check_volumes_wp (csi_volumes attached)); [|done]|].
  - split; [done|]. intros id. cbn [known stat_of listing_of]. rewrite (Hb id). by case_bool_decide.
  - intros h1 o (m1 & -> & Hr). cbn [after mret prog_ret mbind prog_bind]. by apply IH, prune_between.
Qed.

(** C19: For as long as the reporter runs, whatever the node, kubelet, the driver and
    the API server answer: the driver is asked only about its own volumes that are
    attached to this node, at a staging path that the mount table has or, for a driver
    that does not stage, at the publish path that kubelet's data gives for the volume;
    what is recorded (logged with its text, or an event of the claim, by a configured
    recorder) is the driver's last answer, about the volume it is recorded for, and
    differs from what was last known of that volume; and the reporter never panics. *)
Theorem reporter_contract (ρ : env canswer) rounds interval :
  let '(h, o) := run ρ [] (Run cvr rounds interval) in
  guarded report_guard h /\ exists r, o = Done r.
Proof.
  assert (wp report_guard (fun _ o => exists r, o = Done r) [] (Run cvr rounds interval)) as Hwp.
  { unfold Run. case_match; [by eexists|]. apply ticks_wp. intros id. by rewrite lookup_empty. }
  pose proof (wp_run _ _ _ [] Hwp I ρ) as H. by destruct (run ρ [] _).
Qed.

(** ** An abnormal volume is reported *)

Lemma find_vol_data_np id files : no_panic (kubelet.find_vol_data d id files).
Proof. induction files as [|f files IH]; cbn [kubelet.find_vol_data]; np_solve. Qed.

Lemma record_all_np rs pv vc : no_panic (record_all rs pv vc).
Proof.
  induction rs as [|r rs IH]; cbn [record_all]; [done|]. apply no_panic_bind; [|done].
  destruct r; cbn [record]; unfold log_record, event_record; np_solve.
Qed.

Lemma check_volume_np m v : no_panic (check_volume cvr m v).
Proof.
  pose proof find_vol_data_np. pose proof record_all_np.
  unfold check_volume, recordVolumeCondition, kubelet.ResolvePersistentVolumeName, kubelet.getPublishDetails.
  cbn [driver cvr csi_Driver GetVolumeCondition GetDrivername]. unfold csi_GetVolumeCondition, kubelet.GetStagingPath,
    kubelet.isMountPoint, kubelet.GetPublishPath, kubelet.getPublishDetails. np_solve; auto.
Qed.

Section cooperative.
(** Answers that lead from the volume [id] to its claim, whatever the other calls
    are answered: the volume is attached, the driver says it is abnormal, a file of
    kubelet's names its PersistentVolume (those before it do not match) and an event
    recorder is configured. *)
Context (ρ : env canswer).
Context (id message host file pvName path : string) (attached before files : list string).
Context (data : string) (pv : ReportedPV) (claim pvc : NamespacedName).

(** A file that the search passes over: unreadable, unusable or of another volume. *)
Definition passed_over (f : string) : Prop :=
  forall h, match ρ h (CReadFile f) with
    | inl _ => True
    | inr data => forall d' name id', kubelet.vol_data data = Some (d', name, id') -> ~ (d' = d /\ id' = id)
    end.

(** The path at which the driver is asked. *)
Definition volume_at : Prop :=
  if drv.(supportsNodeStageVolume) then
    exists mps, (forall h, ρ h CMounts = inr mps) /\
      (kubelet.globalmount d id ∈ mps /\ path = kubelet.globalmount d id \/
       (kubelet.globalmount d id ∉ mps) /\ Filepath.Join [kubelet.globalmount d id; id] ∈ mps /\
         path = Filepath.Join [kubelet.globalmount d id; id])
  else path = ReplaceAll file "vol_data.json" "mount".

Definition leads_to_claim : Prop :=
  (forall h, ρ h (CGetNode node) = inr attached) /\ mkCSIVolume d id ∈ csi_volumes attached /\
  volume_at /\ (forall h, ρ h (CVolumeStats id path) = inr (Some (mkCSICondition true message))) /\
  (forall h, ρ h (CGlob kubelet.vol_data_pattern) = inr (before ++ file :: files)) /\ Forall passed_over before /\
  (forall h, ρ h (CReadFile file) = inr data) /\ kubelet.vol_data data = Some (d, pvName, id) /\
  (forall h, ρ h (CGetPV pvName) = inr pv) /\ pv.(ClaimRef) = Some claim /\
  (forall h, ρ h (CGetPVC claim.(nn_Namespace) claim.(nn_Name)) = inr pvc) /\
  eventRecorder host ∈ recs.
Context (Hcoop : leads_to_claim).
Let vc := mkVolumeCondition false message.
Let warning : {e & canswer e} := existT (CEvent host pvc EventTypeWarning "VolumeConditionAbnormal" message) tt.

(** The search finds the file. *)
Lemma find_run l h : Forall passed_over l -> exists h',
  run ρ h (kubelet.find_vol_data d id (l ++ file :: files)) =
    (h', Done (inr (ReplaceAll file "vol_data.json" "mount", pvName))).
Proof.
  destruct Hcoop as (_ & _ & _ & _ & _ & _ & Hf & Hv & _). intros Hl. revert h.
  induction Hl as [|f l Hp _ IH]; intros h; cbn [app kubelet.find_vol_data mbind prog_bind call run].
  - rewrite Hf. cbn [mbind prog_bind]. rewrite Hv, !bool_decide_true by done. by eexists.
  - specialize (Hp h). destruct (ρ h (CReadFile f)) as [err|data']; cbn [mbind prog_bind]; [apply IH|].
    destruct (kubelet.vol_data data') as [[[d' name] id']|]; [|apply IH].
    specialize (Hp d' name id' eq_refl). destruct (_ || _) eqn:Hm; [apply IH|].
    apply orb_false_iff in Hm as [H1%negb_false_iff%bool_decide_eq_true H2%negb_false_iff%bool_decide_eq_true]. by destruct Hp.
Qed.

Lemma details_run h : exists h',
  run ρ h (kubelet.getPublishDetails d id) = (h', Done (inr (ReplaceAll file "vol_data.json" "mount", pvName))).
Proof.
  pose proof find_run as Hfind. destruct Hcoop as (_ & _ & _ & _ & Hg & Hbefore & _).
  unfold kubelet.getPublishDetails. cbn [mbind prog_bind call run]. rewrite Hg. by apply Hfind.
Qed.

Lemma condition_run h : exists h',
  run ρ h (csi_GetVolumeCondition drv (mkCSIVolume d id)) = (h', Done (inr (Some vc))).
Proof.
  pose proof details_run as Hdet. destruct Hcoop as (_ & _ & Hat & Hst & _). unfold csi_GetVolumeCondition. rewrite run_bind.
  cbn [GetVolumeID]. change (drv_name drv) with d. unfold volume_at in Hat. destruct (supportsNodeStageVolume drv).
  - destruct Hat as (mps & Hm & Hpath). rewrite run_bind. unfold kubelet.GetStagingPath, kubelet.isMountPoint.
    cbn [mbind prog_bind call run mret prog_ret]. rewrite Hm. destruct Hpath as [[Hin ->]|(Hno & Hin & ->)].
    + rewrite (proj2 (contains_true _ _) Hin). cbn [mbind prog_bind call run mret prog_ret]. rewrite Hst. by eexists.
    + rewrite (proj2 (contains_false _ _) Hno). cbn [mbind prog_bind call run mret prog_ret]. rewrite Hm.
      rewrite (proj2 (contains_true _ _) Hin). cbn [mbind prog_bind call run mret prog_ret]. rewrite Hst. by eexists.
  - rewrite Hat in Hst. unfold kubelet.GetPublishPath. rewrite !run_bind. destruct (Hdet h) as [h1 ->].
    cbn [mbind prog_bind call run mret prog_ret]. rewrite Hst. by eexists.
Qed.

Lemma record_all_warns rs h : eventRecorder host ∈ rs -> warning ∈ (run ρ h (record_all rs pv vc)).1.
Proof.
  destruct Hcoop as (_ & _ & _ & _ & _ & _ & _ & _ & _ & Hc & Hpvc & _).
  revert h. induction rs as [|r rs IH]; intros h Hin; [by apply not_elem_of_nil in Hin|]. cbn [record_all].
  apply elem_of_cons in Hin as [<-|Hin]; rewrite run_bind.
  - cbn [record]. unfold event_record. rewrite Hc. cbn [mbind prog_bind call run]. rewrite Hpvc.
    cbn [mbind prog_bind call run negb IsHealthy vc mret prog_ret].
    match goal with |- context [run ρ ?h2 (record_all rs pv vc)] => destruct (run ρ h2 (record_all rs pv vc)) as [h' o] eqn:Hr end.
    apply (run_keeps _ _ _ _ _ warning) in Hr; [done|].
    match goal with |- context [ρ ?h1 (CEvent ?a ?b ?c ?e ?f)] => destruct (ρ h1 (CEvent a b c e f)) end. by left.
  - destruct (run_done (record r pv vc) ρ h) as (h' & a & ->); [|by apply IH].
    destruct r; cbn [record]; unfold log_record, event_record; np_solve.
Qed.

Lemma check_warns m h : mjoin (m !! id) ≠ Some vc ->
  warning ∈ (run ρ h (check_volume cvr m (mkCSIVolume d id))).1.
Proof.
  pose proof condition_run as Hcond. pose proof details_run as Hdet. pose proof record_all_warns as Hwarn.
  destruct Hcoop as (_ & _ & _ & _ & _ & _ & _ & _ & Hpv & _ & _ & Hrec).
  intros Hnew. unfold check_volume. cbn [driver cvr csi_Driver GetVolumeCondition GetDrivername GetDriver GetVolumeID].
  rewrite bool_decide_true by done. cbn [negb]. rewrite run_bind. destruct (Hcond h) as [h1 ->].
  destruct (isUpdatedVolumeCondition m id vc) as [m' b] eqn:Hu. apply isUpdated_spec in Hu as [Hb _].
  rewrite (proj2 Hb Hnew). cbn [negb]. rewrite run_bind.
  unfold recordVolumeCondition, kubelet.ResolvePersistentVolumeName. rewrite !run_bind.
  cbn [driver cvr csi_Driver GetDrivername recorders]. change (drv_name drv) with d.
  destruct (Hdet h1) as [h2 ->]. cbn [mbind prog_bind call run mret prog_ret]. rewrite Hpv.
  match goal with |- context [run ρ ?h3 (record_all recs pv vc)] =>
    pose proof (Hwarn recs h3 Hrec) as Hw; destruct (run ρ h3 (record_all recs pv vc)) as [h4 [[]|]] end; exact Hw.
Qed.

(** A check of another volume leaves the entry of this one alone. *)
Lemma check_other m w h : w ≠ mkCSIVolume d id -> exists h' m',
  run ρ h (check_volume cvr m w) = (h', Done m') /\ m' !! id = m !! id.
Proof.
  intros Hne. destruct (run_done (check_volume cvr m w) ρ h (check_volume_np m w)) as (h' & m' & Hrun).
  exists h', m'. split; [done|].
  assert (wp (fun _ _ => True) (fun _ o => forall m', o = Done m' -> m' !! id = m !! id) h (check_volume cvr m w)) as Hwp.
  { unfold check_volume. case_bool_decide as Hd; cbn [negb]; [|by intros ? [= <-]].
    eapply wp_seq; [apply (calls_wp (fun _ => True)); [apply calls_any|done]|].
    intros h1 [[err|[c|]]|msg] _; cbn [after]; [by intros ? [= <-]| |by intros ? [= <-]|done].
    destruct (isUpdatedVolumeCondition m (GetVolumeID w) c) as [m1 b] eqn:Hu. apply isUpdated_spec in Hu as (_ & _ & Hold).
    assert (m1 !! id = m !! id) as Hm1.
    { apply Hold. intros ->. apply Hne. destruct w as [wd wi]. cbn in Hd. by subst. }
    destruct b; cbn [negb]; [|by intros ? [= <-]].
    eapply wp_seq; [apply (calls_wp (fun _ => True)); [apply calls_any|done]|].
    intros h2 [[]|msg] _; cbn [after]; [by intros ? [= <-]|done]. }
  destruct (wp_run _ _ _ h Hwp (guarded_any h) ρ) as [_ HQ].
  rewrite Hrun in HQ. by apply HQ.
Qed.

Lemma check_volumes_warn vs m h : mjoin (m !! id) ≠ Some vc -> mkCSIVolume d id ∈ vs ->
  warning ∈ (run ρ h (check_volumes cvr m vs)).1.
Proof.
  revert m h. induction vs as [|w vs IH]; intros m h Hnew Hin; [by apply not_elem_of_nil in Hin|].
  cbn [check_volumes]. rewrite run_bind. destruct (decide (w.(GetDriver) = d /\ w.(GetVolumeID) = id)) as [[H1 H2]|Hne].
  - assert (w = mkCSIVolume d id) as -> by (destruct w; simpl in *; by subst).
    pose proof (check_warns m h Hnew) as Hw. destruct (run ρ h _) as [h1 [m1|]]; [|done].
    destruct (run ρ h1 (check_volumes cvr m1 vs)) as [h2 o] eqn:Hr. by apply (run_keeps _ _ _ _ _ warning) in Hr.
  - apply elem_of_cons in Hin as [<-|Hin]; [by destruct Hne|].
    destruct (check_other m w h) as (h1 & m1 & -> & Hm1); [by intros ->; apply Hne|]. apply IH; [by rewrite Hm1|done].
Qed.
End cooperative.

(** C34: An abnormal volume of which this was not known is reported in the next round,
    as a warning about its claim: given that it is attached and mounted, that one of
    kubelet's files names its PersistentVolume (whichever files come before it), that
    the volume and its claim can be read and that an event recorder is configured,
    and whatever happens with the other volumes, files and recorders. *)
Theorem abnormal_volume_reported (ρ : env canswer) id message host file pvName path attached before files data pv claim pvc m h :
  leads_to_claim ρ id message host file pvName path attached before files data pv claim pvc ->
  mjoin (m !! id) ≠ Some (mkVolumeCondition false message) ->
  existT (CEvent host pvc EventTypeWarning "VolumeConditionAbnormal" message) tt ∈ (run ρ h (tick cvr m)).1.
Proof.
  intros Hcoop Hnew. pose proof Hcoop as (Hn & Hin & _). unfold tick, ListCSIVolumes. rewrite !run_bind. cbn [call run].
  cbn [localNode cvr]. rewrite Hn. cbn [mret prog_ret run]. rewrite run_bind.
  match goal with |- context [run ?ρ ?h1 (check_volumes cvr m _)] =>
    pose proof (check_volumes_warn ρ id message host file pvName path attached before files data pv claim pvc Hcoop
      (csi_volumes attached) m h1 Hnew Hin) as Hw; by destruct (run ρ h1 (check_volumes cvr m _)) as [h2 [m2|]] end.
Qed.
End reports.

(** ** One place for a volume *)

Lemma path_split_app p r :
  Filepath.split (p +:+ "/" +:+ r) =
  let '(x, xs) := Filepath.split p in let '(a, l) := Filepath.split r in (x, xs ++ a :: l).
Proof.
  induction p as [|c p IH].
  - change (Filepath.split (String "/" r) = let '(a, l) := Filepath.split r in ("", a :: l)).
    cbn [Filepath.split]. by destruct (Filepath.split r).
  - rewrite app_cons_string. cbn [Filepath.split]. rewrite IH. destruct (Filepath.split p), (Filepath.split r).
    by case_match.
Qed.

(** Two spellings of one rooted directory are the same before any path. *)
Lemma Clean_same_dir p p' r :
  String.prefix "/" p = true -> String.prefix "/" p' = true ->
  foldl (Filepath.push true) [] ((Filepath.split p).1 :: (Filepath.split p).2) =
  foldl (Filepath.push true) [] ((Filepath.split p').1 :: (Filepath.split p').2) ->
  Filepath.Clean (p +:+ "/" +:+ r) = Filepath.Clean (p' +:+ "/" +:+ r).
Proof.
  intros Hp Hp' Hfold. unfold Filepath.Clean. rewrite !path_split_app.
  assert (forall q, String.prefix "/" q = true -> exists q', q = String "/" q') as Hroot.
  { intros [|c q]; [done|]. cbn [String.prefix]. destruct (ascii_dec "/" c) as [<-|]; [by eexists|done]. }
  destruct (Hroot p Hp) as [q ->], (Hroot p' Hp') as [q' ->].
  destruct (Filepath.split (String "/" q)) as [x xs], (Filepath.split (String "/" q')) as [y ys], (Filepath.split r) as [a l].
  cbn [fst snd] in Hfold. rewrite !app_cons_string. cbv iota beta.
  rewrite (app_comm_cons xs), (app_comm_cons ys), !foldl_app, Hfold. done.
Qed.

Definition defaultStagingPath := "/var/lib/kubelet/plugins/kubernetes.io/csi/".

(** The side-car's node service and the reporter look for a staged volume in the
    same directory, with the default staging path. *)
Theorem staging_paths_agree csi :
  Sidecar.getStagingTargetPath defaultStagingPath csi =
  kubelet.globalmount csi.(Sidecar.sc_Driver) csi.(Sidecar.sc_VolumeHandle).
Proof.
  unfold Sidecar.getStagingTargetPath, kubelet.globalmount, Filepath.Join.
  set (hash := Sha256.hex _). 
  assert (forall l, filter (fun e : string => e ≠ "") (defaultStagingPath :: l) =
    defaultStagingPath :: filter (fun e : string => e ≠ "") l) as -> by done.
  assert (forall l, filter (fun e : string => e ≠ "") (kubelet.basedir :: kubelet.pluginPath :: kubelet.csiPath :: l) =
    kubelet.basedir :: kubelet.pluginPath :: kubelet.csiPath :: filter (fun e : string => e ≠ "") l) as -> by done.
  assert (exists w ws, filter (fun e : string => e ≠ "") [Sidecar.sc_Driver csi; hash; "globalmount"] = w :: ws) as (w & ws & ->).
  { destruct (filter _ _) as [|w ws] eqn:E; [|by eexists _, _]. exfalso.
    assert ("globalmount" ∈ @nil string) as []%not_elem_of_nil. rewrite <- E. apply list_elem_of_filter. set_solver. }
  change (Filepath.join (defaultStagingPath :: w :: ws)) with (defaultStagingPath +:+ "/" +:+ Filepath.join (w :: ws)).
  change (Filepath.join (kubelet.basedir :: kubelet.pluginPath :: kubelet.csiPath :: w :: ws))
    with ((kubelet.basedir +:+ "/" +:+ kubelet.pluginPath +:+ "/" +:+ kubelet.csiPath) +:+ "/" +:+ Filepath.join (w :: ws)).
  by apply Clean_same_dir.
Qed.

(** ** A node with one volume *)
Module Demo.
Definition drv : csiDriver := mkCsiDriver "rbd.csi" true true.
Definition reporter : volumeConditionReporter :=
  mkReporter (csi_Driver drv) "worker-1" [logRecorder; eventRecorder "worker-1"].
Definition volData : string := "{" +:+ q "driverName" +:+ ":" +:+ q "rbd.csi" +:+ "," +:+
  q "specVolID" +:+ ":" +:+ q "pvc-1" +:+ "," +:+ q "volumeHandle" +:+ ":" +:+ q "vol-1" +:+ "}".
Definition pv : ReportedPV := mkReportedPV "pvc-1" (Some (mkNamespacedName "ns" "data")).
Definition mount := Eval vm_compute in kubelet.globalmount "rbd.csi" "vol-1".
Definition file := "/var/lib/kubelet/pods/u/volumes/kubernetes.io~csi/pvc-1/vol_data.json".

(** [found] says whether the PersistentVolume can be read. *)
Definition world (found : bool) (e : cevent) : canswer e :=
  match e return canswer e with
  | CTick => tt
  | CGetNode _ => inr ["kubernetes.io/csi/rbd.csi^vol-1"; "kubernetes.io/nfs/x"]
  | CMounts => inr ["/"; mount]
  | CGlob _ => inr [file]
  | CReadFile _ => inr volData
  | CNewClient _ => None
  | CPluginInfo => inr "rbd.csi"
  | CNodeCapabilities => inr [4%Z; 1%Z]
  | CVolumeStats _ _ => inr (Some (mkCSICondition true "stale"))
  | CGetPV _ => if found then inr pv else inl (ErrorString "timeout")
  | CGetPVC ns name => inr (mkNamespacedName ns name)
  | CEvent _ _ _ _ _ | CInfof _ _ | CWarningf _ _ _ => tt
  end.

Definition event_of (c : {e & canswer e}) : option (NamespacedName * EventType * string * string) :=
  match projT1 c with CEvent _ pvc t reason m => Some (pvc, t, reason, m) | _ => None end.

(** Three rounds, one event. *)
Example reported_once :
  observe event_of (run (fun _ => world true) [] (Run reporter 3 1)).1 =
  [(mkNamespacedName "ns" "data", EventTypeWarning, "VolumeConditionAbnormal", "stale")].
Proof. vm_compute. reflexivity. Qed.

(** A condition counts as reported before it is recorded: if reading the
    PersistentVolume fails in the first round, the condition is not recorded in the
    later ones either. *)
Lemma unrecorded_condition_lost :
  observe event_of (run (fun h => world (6 <? length h)) [] (Run reporter 3 1)).1 = [] /\
  run (fun h => world (6 <? length h)) (repeat (existT CTick tt) 7) (call (CGetPV "pvc-1")) =
    (existT (CGetPV "pvc-1") (inr pv) :: repeat (existT CTick tt) 7, Done (inr pv)).
Proof. split; vm_compute; reflexivity. Qed.

(** The file of another volume comes first. *)
Definition other := "/var/lib/kubelet/pods/t/volumes/kubernetes.io~csi/pvc-2/vol_data.json".
Definition otherData : string := "{" +:+ q "driverName" +:+ ":" +:+ q "rbd.csi" +:+ "," +:+
  q "specVolID" +:+ ":" +:+ q "pvc-2" +:+ "," +:+ q "volumeHandle" +:+ ":" +:+ q "vol-2" +:+ "}".
Definition two_files (e : cevent) : canswer e :=
  match e return canswer e with
  | CGlob _ => inr [other; file]
  | CReadFile f => if bool_decide (f = other) then inr otherData else inr volData
  | e => world true e
  end.

Lemma abnormal_volume_reported_witness :
  existT (CEvent "worker-1" (mkNamespacedName "ns" "data") EventTypeWarning "VolumeConditionAbnormal" "stale") tt ∈
  (run (fun _ => two_files) [] (tick reporter ∅)).1.
Proof.
  apply (abnormal_volume_reported drv "worker-1" [logRecorder; eventRecorder "worker-1"] (fun _ => two_files)
    "vol-1" "stale" "worker-1" file "pvc-1" mount ["kubernetes.io/csi/rbd.csi^vol-1"; "kubernetes.io/nfs/x"]
    [other] [] volData pv (mkNamespacedName "ns" "data") (mkNamespacedName "ns" "data") ∅ []); [|done].
  split_and!; try reflexivity; [by left| | |right; left].
  - exists ["/"; mount]. split; [reflexivity|]. left. split; [right; left|reflexivity].
  - apply Forall_singleton. intros h. change (two_files (CReadFile other)) with (inr otherData : error + string).
    intros d' name id' Hv. vm_compute in Hv. injection Hv as <- <- <-. intros [_ [=]].
Defined.
End Demo.
