(* ===== verification/SidecarMain.v ===== *)
(** * The side-car process

    src/sidecar/main.go, src/sidecar/internal/server/server.go, and what main.go
    uses of csi-lib-utils' leaderelection.  The goroutines that main starts are
    programs of their own ([watcher], [reporter], [Start]): main's run records that
    they were started. *)

From S2P Require Import Prelude.
From S2P Require Import GoErrors.
From S2P Require Import GoStrconv.
From S2P Require Import GoURL.
From S2P Require Import GoText.
From S2P Require Config.
From S2P Require Import ControllerUtil.
From S2P Require Import SidecarEndpoint.
From S2P Require VolumeCondition.
From S2P Require Import SidecarNode.

(** ** server.go *)

(** The services of src/internal/sidecar/service. *)
Inductive SidecarService :=
| IdentityServer
| ReclaimSpaceServer (stagingPath : string)
| NetworkFenceServer
| ReplicationServer
| EncryptionKeyRotationServer
| VolumeGroupServer.

Record SidecarServer := mkServer {
  scheme : string;
  endpoint : string;
  services : list SidecarService;
  enableAuthChecks : bool
}.

Definition NewSidecarServer (ip port : string) (enableAuthChecks : bool) : SidecarServer :=
  mkServer "tcp" (ip +:+ ":" +:+ port) [] enableAuthChecks.

Definition RegisterService (ss : SidecarServer) (svc : SidecarService) : SidecarServer :=
  mkServer ss.(scheme) ss.(endpoint) (ss.(services) ++ [svc]) ss.(enableAuthChecks).

(** ** The outside world of the process *)

(** The lock of a leader election: a Lease, and who wants to hold it. *)
Record lock := mkLock {
  lock_Namespace : string;
  lock_Name : string;
  lock_Identity : string;
  lock_LeaseDuration : Z;
  lock_RenewDeadline : Z;
  lock_RetryPeriod : Z
}.

(** How grpc.Server.Serve returns. *)
Inductive serve_end := ServeNil | ErrServerStopped | ServeError (err : error).

Inductive goroutine :=
| GoWatcher (m : Manager)                 (* nodeMgr.DispatchWatcher *)
| GoReporter                              (* the volume condition reporter *)
| GoServer (ss : SidecarServer).          (* sidecarServer.Start *)

Inductive pevent :=
| PNode (e : devent)                      (* the CSI driver and the API server, as in SidecarNode *)
| PReporter (e : VolumeCondition.cevent)
| PPrintVersion
| PConnect (address : string)             (* client.New *)
| PInClusterConfig | PNewForConfig
| PGo (g : goroutine)
| PGenerateSelfSignedCert
| PNewServer (tls interceptor : bool)     (* grpc.NewServer with its options *)
| PRegister (svc : SidecarService)
| PListen (scheme endpoint : string)
| PServe
| PHostname
| PGetenv (name : string)
| PReadFile (name : string)
| PRunOrDie (l : lock)                    (* client-go's election: until leadership is lost *)
| PGracefulStop.

Definition panswer (e : pevent) : Type :=
  match e with
  | PNode e => danswer e
  | PReporter e => VolumeCondition.canswer e
  | PPrintVersion | PGo _ | PNewServer _ _ | PRegister _ | PRunOrDie _ | PGracefulStop => unit
  | PConnect _ | PInClusterConfig | PNewForConfig | PGenerateSelfSignedCert | PListen _ _ => option error
  | PServe => serve_end
  | PHostname | PReadFile _ => error + string
  | PGetenv _ => string
  end.

Abbreviation PM := (prog panswer).
Abbreviation phist := (history panswer).

Definition node {A} (p : DM A) : PM A := embed (R' := panswer) PNode (fun _ r => r) p.
Definition reporting {A} (p : VolumeCondition.CM A) : PM A := embed (R' := panswer) PReporter (fun _ r => r) p.

(** klog.Fatalf ends the process, as a panic does. *)
Definition Fatalf {A} (msg : string) : PM A := Panic ("fatal: " +:+ msg).

(** ** server.go: Start, serve and Stop *)

Definition serve (ss : SidecarServer) : PM unit :=
  r ← call PServe;
  match r with
  | ServeError err => Fatalf ("Failed to setup CSI-Addons server: " +:+ Error err)
  | ServeNil | ErrServerStopped => mret tt
  end.

Fixpoint register_all (svcs : list SidecarService) : PM unit :=
  match svcs with
  | [] => mret tt
  | svc :: svcs => _ ← call (PRegister svc); register_all svcs
  end.

(** The gRPC server, with TLS and the interceptor of the token package or with
    neither. *)
Definition new_grpc_server (ss : SidecarServer) : PM unit :=
  if ss.(enableAuthChecks) then
    err ← call PGenerateSelfSignedCert;
    match err with
    | Some err => Panic ("Failed to generate self-signed certificate: " +:+ Error err)
    | None => call (PNewServer true true)
    end
  else call (PNewServer false false).

Definition Start (ss : SidecarServer) : PM unit :=
  _ ← new_grpc_server ss;
  _ ← register_all ss.(services);
  err ← call (PListen ss.(scheme) ss.(endpoint));
  match err with
  | Some err => Fatalf ("failed to listen on " +:+ ss.(endpoint) +:+ " (" +:+ ss.(scheme) +:+ "): " +:+ Error err)
  | None => serve ss
  end.

(** [server] says whether Start has created the gRPC server. *)
Definition Stop (server : bool) : PM unit := if negb server then mret tt else call PGracefulStop.

(** ** csi-lib-utils: leaderelection *)

(** [None] is the index-out-of-range panic on the empty name. *)
Definition sanitizeName (name : string) : option string :=
  let name := Config.replace_runes (String.length name) name in
  match Config.last_byte name with
  | None => None
  | Some c => Some (if bool_decide (c = "-"%char) then name +:+ "X" else name)
  end.

Record leaderElection := mkElection {
  lockName : string;
  identity : string;
  namespace : string;
  leaseDuration : Z;
  renewDeadline : Z;
  retryPeriod : Z
}.

Definition NewLeaderElection (lockName : string) : leaderElection :=
  mkElection lockName "" "" (second * 15) (second * 10) (second * 5).
Definition WithIdentity (l : leaderElection) (identity : string) : leaderElection :=
  mkElection l.(lockName) identity l.(namespace) l.(leaseDuration) l.(renewDeadline) l.(retryPeriod).
Definition WithNamespace (l : leaderElection) (namespace : string) : leaderElection :=
  mkElection l.(lockName) l.(identity) namespace l.(leaseDuration) l.(renewDeadline) l.(retryPeriod).
Definition WithLeaseDuration (l : leaderElection) (d : Z) : leaderElection :=
  mkElection l.(lockName) l.(identity) l.(namespace) d l.(renewDeadline) l.(retryPeriod).
Definition WithRenewDeadline (l : leaderElection) (d : Z) : leaderElection :=
  mkElection l.(lockName) l.(identity) l.(namespace) l.(leaseDuration) d l.(retryPeriod).
Definition WithRetryPeriod (l : leaderElection) (d : Z) : leaderElection :=
  mkElection l.(lockName) l.(identity) l.(namespace) l.(leaseDuration) l.(renewDeadline) d.

Definition namespaceFile := "/var/run/secrets/kubernetes.io/serviceaccount/namespace".

Definition inClusterNamespace : PM string :=
  ns ← call (PGetenv "POD_NAMESPACE");
  if bool_decide (ns ≠ "") then mret ns
  else
  r ← call (PReadFile namespaceFile);
  mret match r with
       | inl _ => "default"
       | inr data => let ns := TrimSpace data in if (0 <? String.length ns) then ns else "default"
       end.

Definition sanitized {A} (name : string) (k : string -> PM A) : PM A :=
  match sanitizeName name with None => Panic "index out of range [-1]" | Some name => k name end.

(** The election proper; creating the lock of type "leases" cannot fail. *)
Definition run_elected (l : leaderElection) : PM (option error) :=
  ns ← (if bool_decide (l.(namespace) = "") then inClusterNamespace else mret l.(namespace));
  sanitized l.(identity) (fun id =>
  sanitized l.(lockName) (fun name =>
    _ ← call (PRunOrDie (mkLock ns name id l.(leaseDuration) l.(renewDeadline) l.(retryPeriod)));
    mret None)).

Definition election_Run (l : leaderElection) : PM (option error) :=
  if bool_decide (l.(identity) = "") then
    r ← call PHostname;
    match r with
    | inl err => mret (Some (ErrorString ("error getting the default leader identity: " +:+ Error err)))
    | inr id => run_elected (WithIdentity l id)
    end
  else run_elected l.

(** ** main.go *)

Definition volumeConditionLogRecorder := "log".
Definition volumeConditionPVCEventRecorder := "pvcEvent".
Definition defaultVolumeConditionRecorders :=
  volumeConditionLogRecorder +:+ "," +:+ volumeConditionPVCEventRecorder.

(** The command line, as flag.Parse leaves it. *)
Record flags := mkFlags {
  csiAddonsAddress : string;
  nodeID : string;
  stagingPath : string;
  controllerPort : string;
  controllerIP : string;
  podName : string;
  podNamespace : string;
  podUID : string;
  showVersion : bool;
  leaderElectionNamespace : string;
  leaderElectionLeaseDuration : Z;
  leaderElectionRenewDeadline : Z;
  leaderElectionRetryPeriod : Z;
  flag_enableAuth : bool;
  enableVolumeCondition : bool;
  volumeConditionInterval : Z;
  volumeConditionRecorders : string
}.

(** The loop over the names of the recorders. *)
Fixpoint recorderOptions (names : list string) : PM (list VolumeCondition.RecorderOption) :=
  match names with
  | [] => mret []
  | vcr :: names =>
    if bool_decide (vcr = volumeConditionLogRecorder) then
      opts ← recorderOptions names; mret (VolumeCondition.WithLogRecorder :: opts)
    else if bool_decide (vcr = volumeConditionPVCEventRecorder) then
      opts ← recorderOptions names; mret (VolumeCondition.WithEventRecorder :: opts)
    else Fatalf ("condition recorder " +:+ go_quote vcr +:+ " is unknown")
  end.

Section main.
Context (f : flags).

Definition nodeMgr (controllerEndpoint : string) : Manager :=
  mkManager f.(nodeID) controllerEndpoint f.(podName) f.(podNamespace) f.(podUID).

(** The goroutine of the watcher; the loops take the given numbers of rounds and
    answer [None] while they run. *)
Definition watcher (zone : Z -> Z) (turns rounds polls : nat) (m : Manager) : PM (option unit) :=
  r ← node (DispatchWatcher m zone turns rounds polls);
  match r with
  | None => mret None
  | Some err => Fatalf ("failed to start watcher due to error: " +:+ Error err)
  end.

(** The goroutine of the volume condition reporter. *)
Definition reporter (rounds : nat) : PM (option unit) :=
  r ← node GetDriverName;
  match r with
  | inl err => Fatalf ("failed to get the drivername from the CSI-plugin: " +:+ Error err)
  | inr driver =>
    opts ← recorderOptions (split "," f.(volumeConditionRecorders));
    r ← reporting (VolumeCondition.NewVolumeConditionReporter f.(nodeID) driver opts);
    match r with
    | inl err => Fatalf ("failed to create volume condition reporter: " +:+ Error err)
    | inr rep =>
      r ← reporting (VolumeCondition.Run rep rounds f.(volumeConditionInterval));
      match r with
      | None => mret None
      | Some err => Fatalf ("failed to start volume condition reporter: " +:+ Error err)
      end
    end
  end.

Definition sidecarServer : SidecarServer :=
  foldl RegisterService (NewSidecarServer f.(controllerIP) f.(controllerPort) f.(flag_enableAuth))
    [IdentityServer; ReclaimSpaceServer f.(stagingPath); NetworkFenceServer; ReplicationServer;
     EncryptionKeyRotationServer; VolumeGroupServer].

Definition election (leaseName : string) : leaderElection :=
  let le := NewLeaderElection leaseName in
  let le := if bool_decide (f.(podName) ≠ "") then WithIdentity le f.(podName) else le in
  let le := if bool_decide (f.(leaderElectionNamespace) ≠ "") then WithNamespace le f.(leaderElectionNamespace) else le in
  let le := WithLeaseDuration le f.(leaderElectionLeaseDuration) in
  let le := WithRenewDeadline le f.(leaderElectionRenewDeadline) in
  WithRetryPeriod le f.(leaderElectionRetryPeriod).

(** The last part of main: serve, and compete for the lease of the driver. *)
Definition lead : PM unit :=
  r ← node GetDriverName;
  match r with
  | inl err => Fatalf ("Failed to get the drivername from the CSI-plugin: " +:+ Error err)
  | inr driver =>
    match Config.NormalizeLeaseName driver with
    | None => Panic "index out of range [-1]"
    | Some base =>
      let leaseName := base +:+ "-csi-addons" in
      err ← election_Run (election leaseName);
      match err with
      | Some err => Fatalf ("Failed to run as a leader: " +:+ Error err)
      | None => Fatalf ("Lost leader status: lease name " +:+ go_quote leaseName +:+
                        ", no longer receiving CONTROLLER_REQUESTS")
      end
    end
  end.

Definition serve_and_lead : PM unit :=
  r ← node HasControllerService;
  match r with
  | inl err => Fatalf ("Failed to check if the CSI-plugin supports CONTROLLER_SERVICE: " +:+ Error err)
  | inr false => Start sidecarServer
  | inr true => _ ← call (PGo (GoServer sidecarServer)); lead
  end.

(** [Some]: main returned; [None]: the driver was never ready in [probes] probes. *)
Definition main (probes : nat) : PM (option unit) :=
  if f.(showVersion) then _ ← call PPrintVersion; mret (Some tt)
  else
  match BuildEndpointURL f.(controllerIP) f.(controllerPort) f.(podName) f.(podNamespace) with
  | inl err => Fatalf ("Failed to validate controller endpoint: " +:+ Error err)
  | inr controllerEndpoint =>
    err ← call (PConnect f.(csiAddonsAddress));
    match err with
    | Some err => Fatalf ("Failed to connect to " +:+ go_quote f.(csiAddonsAddress) +:+ " : " +:+ Error err)
    | None =>
      r ← node (Probe probes);
      match r with
      | None => mret None
      | Some (Some err) => Fatalf ("Failed to probe driver: " +:+ Error err)
      | Some None =>
        err ← call PInClusterConfig;
        match err with
        | Some err => Fatalf ("Failed to get cluster config: " +:+ Error err)
        | None =>
          err ← call PNewForConfig;
          match err with
          | Some err => Fatalf ("Failed to create client: " +:+ Error err)
          | None =>
            _ ← call (PGo (GoWatcher (nodeMgr controllerEndpoint)));
            _ ← (if f.(enableVolumeCondition) then call (PGo GoReporter) else mret tt);
            _ ← serve_and_lead;
            mret (Some tt)
          end
        end
      end
    end
  end.
End main.
