(* ===== verification/SidecarMainProofs.v ===== *)
(** * The side-car process: proofs

    The order of the start-up, the server that is offered, and the election: the
    lease a side-car competes for is the one in which the manager looks for the
    leader, and the holder it writes there is the key of its connection. *)

From S2P Require Import Prelude.
From S2P Require Import GoErrors.
From S2P Require Import GoStrconv.
From S2P Require Import GoURL.
From S2P Require Import GoText.
From S2P Require Import GoJSON.
From S2P Require Config.
From S2P Require Import ApiTypes.
From S2P Require Import CsiaddonsTypes.
From S2P Require Import Effects.
From S2P Require Import ControllerUtil.
From S2P Require Import StringFacts.
From S2P Require Connection.
From S2P Require CSIAddonsNodeController.
From S2P Require CSIAddonsNodeProofs.
From S2P Require Import SidecarEndpoint.
From S2P Require Sidecar.
From S2P Require Import SidecarNode.
From S2P Require Import SidecarMain.

(** ** What a start-up promises *)

Definition driver_ready (h : phist) : Prop :=
  existT (PNode (DDriver Sidecar.CProbe)) (inr None) ∈ h \/
  existT (PNode (DDriver Sidecar.CProbe)) (inr (Some true)) ∈ h.

Definition service_of (c : {e : pevent & panswer e}) : option SidecarService :=
  match projT1 c with PRegister svc => Some svc | _ => None end.

Section contract.
Context (f : flags).

(** The services of a side-car. *)
Definition offered : list SidecarService :=
  [IdentityServer; ReclaimSpaceServer f.(stagingPath); NetworkFenceServer; ReplicationServer;
   EncryptionKeyRotationServer; VolumeGroupServer].

Definition listens (ss : SidecarServer) : Prop :=
  ss = mkServer "tcp" (f.(controllerIP) +:+ ":" +:+ f.(controllerPort)) offered f.(flag_enableAuth).

(** The lease for the driver that answered, and this pod as its candidate. *)
Definition candidate (h : phist) (l : lock) : Prop :=
  exists driver base, existT (PNode (DDriver Sidecar.CGetIdentity)) (inr driver) ∈ h /\
    Config.NormalizeLeaseName driver = Some base /\ l.(lock_Name) = base +:+ "-csi-addons" /\
    (f.(podName) ≠ "" -> Config.NormalizeLeaseName f.(podName) = Some l.(lock_Identity)) /\
    (f.(leaderElectionNamespace) ≠ "" -> l.(lock_Namespace) = f.(leaderElectionNamespace)) /\
    l.(lock_LeaseDuration) = f.(leaderElectionLeaseDuration) /\ l.(lock_RenewDeadline) = f.(leaderElectionRenewDeadline) /\
    l.(lock_RetryPeriod) = f.(leaderElectionRetryPeriod).

(** When the gRPC server may be set up: in main once the driver is ready; the
    goroutine is started only then ([GoServer] below), so it may at once. *)
Context (serves : phist -> Prop) (serves_cons : forall c h, serves h -> serves (c :: h)).

Definition process_contract (h : phist) (e : pevent) : Prop :=
  match e with
  | PGo (GoWatcher m) =>
    driver_ready h /\ m.(mgr_Node) = f.(nodeID) /\ m.(PodName) = f.(podName) /\
    m.(PodNamespace) = f.(podNamespace) /\ m.(PodUID) = f.(podUID) /\
    BuildEndpointURL f.(controllerIP) f.(controllerPort) f.(podName) f.(podNamespace) = inr m.(mgr_Endpoint)
  | PGo GoReporter => f.(enableVolumeCondition) = true /\ driver_ready h
  | PGo (GoServer ss) => listens ss /\ driver_ready h
  | PNewServer tls interceptor => serves h /\ tls = f.(flag_enableAuth) /\ interceptor = f.(flag_enableAuth)
  | PRegister svc => serves h /\ existT (PNewServer f.(flag_enableAuth) f.(flag_enableAuth)) tt ∈ h
  | PListen s ep =>
    serves h /\ s = "tcp" /\ ep = f.(controllerIP) +:+ ":" +:+ f.(controllerPort) /\ reverse (observe service_of h) = offered
  | PServe => serves h /\ existT (PListen "tcp" (f.(controllerIP) +:+ ":" +:+ f.(controllerPort))) None ∈ h
  | PRunOrDie l =>
    candidate h l /\
    (exists ss, listens ss /\ existT (PGo (GoServer ss)) tt ∈ h) /\
    exists caps, existT (PNode (DDriver Sidecar.CGetCapabilities)) (inr caps) ∈ h /\
      CapService Service_CONTROLLER_SERVICE ∈ caps
  | _ => True
  end.

Lemma offered_by_main : listens (sidecarServer f).
Proof. done. Qed.

(** ** The gRPC server *)

Lemma register_all_wp (Q : phist -> outcome unit -> Prop) svcs h : serves h ->
  existT (PNewServer f.(flag_enableAuth) f.(flag_enableAuth)) tt ∈ h ->
  (forall h', serves h' -> existT (PNewServer f.(flag_enableAuth) f.(flag_enableAuth)) tt ∈ h' ->
     observe service_of h' = reverse svcs ++ observe service_of h -> Q h' (Done tt)) ->
  wp process_contract Q h (register_all svcs).
Proof.
  revert h. induction svcs as [|svc svcs IH]; intros h Hr Hs HQ; [by apply HQ|]. split; [done|]. intros [].
  apply IH; [by apply serves_cons|by right|]. intros h' Hr' Hs' Hobs. apply HQ; [done..|].
  by rewrite Hobs, observe_cons, reverse_cons, <- app_assoc.
Qed.

Lemma Start_wp h : serves h -> observe service_of h = [] ->
  wp process_contract (fun h' o => match o with Done _ => existT PServe ServeNil ∈ h' \/ existT PServe ErrServerStopped ∈ h'
                                   | Panicked _ => True end) h (Start (sidecarServer f)).
Proof.
  intros Hr Hobs. unfold Start.
  apply (wp_seq _ _ (fun h' o => match o with
    | Done _ => serves h' /\ observe service_of h' = [] /\ existT (PNewServer f.(flag_enableAuth) f.(flag_enableAuth)) tt ∈ h'
    | Panicked _ => True end)).
  { unfold new_grpc_server. cbn [enableAuthChecks sidecarServer foldl RegisterService NewSidecarServer].
    destruct (flag_enableAuth f) eqn:Ha; [split; [done|]; intros [err|]; [done|]|];
      (split; [by cbn; rewrite Ha; auto|]); intros []; (split_and!; [by auto|by rewrite !observe_cons|by left]). }
  intros h1 [[]|m] Hh1; [|done]. destruct Hh1 as (Hr1 & Hobs1 & Hs).
  apply wp_bind, register_all_wp; [done..|]. intros h2 Hr2 Hs2 Hobs2. rewrite Hobs1, app_nil_r in Hobs2.
  split; [split_and!; [done..|by rewrite Hobs2, reverse_involutive]|]. intros [err|]; [done|].
  split; [split; [by apply serves_cons|by left]|]. intros [| |err]; [by left; left|by right; left|done].
Qed.

(** ** The election *)

Lemma normalized_chars d base : Config.NormalizeLeaseName d = Some base -> Config.string_forall Config.lease_char base = true.
Proof.
  unfold Config.NormalizeLeaseName. pose proof (Config.replace_runes_lease (String.length d) d) as Hr.
  destruct (Config.last_byte _); [|done]. case_bool_decide; intros [= <-]; [|done].
  by rewrite Config.string_forall_app, Hr.
Qed.

(** The name of the lease goes through unchanged. *)
Lemma sanitize_lease d base : Config.NormalizeLeaseName d = Some base ->
  sanitizeName (base +:+ "-csi-addons") = Some (base +:+ "-csi-addons").
Proof.
  intros Hd%normalized_chars. unfold sanitizeName. rewrite Config.replace_runes_id.
  - change "-csi-addons" with ("-csi-addon" +:+ "s"). rewrite <- (app_assoc_string base).
    by rewrite Config.last_byte_snoc.
  - done.
  - by rewrite Config.string_forall_app, Hd.
Qed.

(** Everything is in place for an election. *)
Definition electable (h : phist) : Prop :=
  (exists ss, listens ss /\ existT (PGo (GoServer ss)) tt ∈ h) /\
  exists caps, existT (PNode (DDriver Sidecar.CGetCapabilities)) (inr caps) ∈ h /\
    CapService Service_CONTROLLER_SERVICE ∈ caps.

Lemma electable_cons c h : electable h -> electable (c :: h).
Proof.
  intros [(ss & Hss & Hin) (caps & Hcaps & Hc)].
  split; [exists ss; by split; [|right]|exists caps; by split; [right|]].
Qed.

(** The driver of a history, and the lease of that driver. *)
Definition leases (h : phist) (driver base : string) : Prop :=
  existT (PNode (DDriver Sidecar.CGetIdentity)) (inr driver) ∈ h /\ Config.NormalizeLeaseName driver = Some base.

Lemma leases_cons c h driver base : leases h driver base -> leases (c :: h) driver base.
Proof. intros [Hin Hb]. split; [by right|done]. Qed.

(** The times of the command line. *)
Definition timed (l : leaderElection) : Prop :=
  l.(leaseDuration) = f.(leaderElectionLeaseDuration) /\ l.(renewDeadline) = f.(leaderElectionRenewDeadline) /\
  l.(retryPeriod) = f.(leaderElectionRetryPeriod).

Lemma compete_wp h l ns driver base : electable h -> leases h driver base ->
  l.(lockName) = base +:+ "-csi-addons" -> timed l ->
  (f.(podName) ≠ "" -> l.(identity) = f.(podName)) ->
  (f.(leaderElectionNamespace) ≠ "" -> ns = f.(leaderElectionNamespace)) ->
  wp process_contract (fun _ _ => True) h (sanitized l.(identity) (fun id => sanitized l.(lockName) (fun name =>
    _ ← call (PRunOrDie (mkLock ns name id l.(leaseDuration) l.(renewDeadline) l.(retryPeriod))); mret (@None error)))).
Proof.
  intros Hel [Hd Hb] Hname (Ht1 & Ht2 & Ht3) Hid Hns. unfold sanitized. destruct (sanitizeName (identity l)) as [id|] eqn:Hsan; [|done].
  rewrite Hname, (sanitize_lease _ _ Hb). split; [|done]. split; [|done]. exists driver, base.
  split_and!; [done..| |done|done|done|done]. intros Hpod. rewrite <- (Hid Hpod). exact Hsan.
Qed.

Lemma run_elected_wp h l driver base : electable h -> leases h driver base ->
  l.(lockName) = base +:+ "-csi-addons" -> timed l ->
  (f.(podName) ≠ "" -> l.(identity) = f.(podName)) ->
  (f.(leaderElectionNamespace) ≠ "" -> l.(namespace) = f.(leaderElectionNamespace)) ->
  wp process_contract (fun _ _ => True) h (run_elected l).
Proof.
  intros Hel Hl Hname Ht Hid Hns. unfold run_elected. case_bool_decide as Hempty; [|by eapply compete_wp].
  assert (f.(leaderElectionNamespace) ≠ "" -> forall ns, ns = f.(leaderElectionNamespace)) as Hunset.
  { intros Hne. by rewrite <- Hns in Hne. }
  unfold inClusterNamespace. apply wp_assoc. split; [done|]. intros ns. cbn [mbind prog_bind].
  case_bool_decide; [by eapply compete_wp; [apply electable_cons|apply leases_cons|..]; auto|].
  split; [done|]. intros r.
  eapply compete_wp; [by repeat apply electable_cons|by repeat apply leases_cons|by auto..].
Qed.

Lemma election_fields leaseName :
  (election f leaseName).(lockName) = leaseName /\ (election f leaseName).(identity) = f.(podName) /\
  (election f leaseName).(namespace) = f.(leaderElectionNamespace) /\ timed (election f leaseName).
Proof.
  unfold election. repeat case_bool_decide; cbn; split_and!; try done;
    destruct (decide (f.(podName) = "")), (decide (f.(leaderElectionNamespace) = "")); congruence || naive_solver.
Qed.

(** The election never ends well. *)
Lemma lead_wp h : electable h -> wp process_contract (fun _ o => exists m, o = Panicked m) h (lead f).
Proof.
  intros Hel. unfold lead. split; [done|]. intros [err|driver]; [by eexists|]. cbn.
  case_bool_decide as Hne; [by eexists|]. cbn.
  destruct (Config.NormalizeLeaseName driver) as [base|] eqn:Hb; [|by eexists].
  apply wp_bind. eapply (wp_post _ (fun _ _ => True)); [|intros h' [[err|]|m] _; by eexists].
  destruct (election_fields (base +:+ "-csi-addons")) as (Hname & Hid & Hns & Ht).
  set (h' := existT _ _ :: h).
  assert (electable h') as Hel' by by apply electable_cons.
  assert (leases h' driver base) as Hl by (split; [left|done]).
  unfold election_Run. case_bool_decide as Hempty; [|by eapply run_elected_wp].
  split; [done|]. intros [err|id]; [done|].
  eapply run_elected_wp; [by apply electable_cons|by apply leases_cons|done|done| |done]. intros Hpod. congruence.
Qed.

(** ** main *)

(** A program of the driver and the API server says nothing to this contract. *)
Lemma node_quiet {A} (p : DM A) h :
  wp process_contract (fun h' _ => extends (fun e => exists d, e = PNode d) h h') h (node p).
Proof. apply calls_wp; [apply calls_embed; eauto|]. by intros ? ? [d ->]. Qed.

Lemma Probe_wp probes h :
  wp process_contract (fun h' o => match o with
    | Done (Some None) => driver_ready h' | _ => True end) h (node (Probe probes)).
Proof.
  revert h. induction probes as [|probes IH]; intros h; [done|]. split; [done|]. intros [err|ready].
  - cbn. destruct (FromError err) as [[c m] ok]. destruct ok; [|done]. cbn. case_bool_decide; [|done].
    split; [done|]. intros []. apply IH.
  - destruct ready as [[]|]; [by right; left| |by left; left]. split; [done|]. intros []. apply IH.
Qed.

Lemma driver_ready_cons c h : driver_ready h -> driver_ready (c :: h).
Proof. intros [H|H]; [left|right]; by right. Qed.

(** main returns after its server was stopped, or has printed its version. *)
Definition process_ends (h : phist) (o : outcome (option unit)) : Prop :=
  match o with
  | Done (Some _) => f.(showVersion) = true \/ existT PServe ServeNil ∈ h \/ existT PServe ErrServerStopped ∈ h
  | _ => True
  end.

Lemma serve_and_lead_wp h : serves h -> driver_ready h -> observe service_of h = [] ->
  wp process_contract (fun h' o => match o with
    | Done _ => existT PServe ServeNil ∈ h' \/ existT PServe ErrServerStopped ∈ h'
    | Panicked _ => True end) h (serve_and_lead f).
Proof.
  intros Hserves Hr Hobs. unfold serve_and_lead. split; [done|]. intros [err|caps]; [done|]. cbn.
  destruct (existsb _ caps) eqn:Hc.
  - split; [split; [done|by apply driver_ready_cons]|]. intros [].
    eapply wp_post; [apply lead_wp|by intros h' o [m ->]]. split; [eexists; split; [done|left]|].
    exists caps. split; [by right; left|].
    apply existsb_exists in Hc as (c & Hin%list_elem_of_In & Hc). destruct c as [t| | | | | |]; try done.
    apply Z.eqb_eq in Hc. by subst.
  - apply Start_wp; [by apply serves_cons|by rewrite observe_cons].
Qed.
End contract.

Lemma sidecar_main_wp f probes : wp (process_contract f driver_ready) (process_ends f) [] (main f probes).
Proof.
  unfold main. destruct (showVersion f) eqn:Hv; [by split; [|left]|].
  destruct (BuildEndpointURL _ _ _ _) as [err|ep] eqn:Hb; [done|]. split; [done|]. intros [err|]; [done|]. cbn [mbind prog_bind].
  apply wp_bind. eapply wp_post; [apply wp_and; [apply (Probe_wp f driver_ready probes)|apply node_quiet]|].
  intros h1 [[[err|]|]|m] [Hr Hext]; [done| |done..]. 
  assert (observe service_of h1 = []) as Hobs.
  { rewrite (observe_extends service_of _ _ _ Hext); [done|]. by intros e r [d ->]. }
  split; [done|]. intros [err|]; [done|]. split; [done|]. intros [err|]; [done|].
  split; [by split; [do 2 apply driver_ready_cons|]|]. intros []. cbn [mbind prog_bind].
  apply (wp_seq _ _ (fun h' _ => driver_ready h' /\ observe service_of h' = [])).
  - destruct (enableVolumeCondition f) eqn:Hvc; [split; [by split; [|do 3 apply driver_ready_cons]|]; intros []|];
      (split; [by repeat apply driver_ready_cons|by rewrite !observe_cons]).
  - intros h2 [[]|m] [Hr2 Hobs2]; [|done]. eapply wp_seq; [by apply serve_and_lead_wp; [apply driver_ready_cons|..]|].
    intros h3 [[]|m] H3; [|done]. by right.
Qed.

(** C20: Whatever the flags, the driver and the API server answer: the watcher, the
    reporter and the goroutine of the server are started, and a server that main runs
    itself is created, listens and serves, only once the driver said that it is
    ready, with the endpoint and the identity of the command line; the server listens
    only after it was created, with TLS and the token interceptor exactly when
    authorization is enabled, and after all six services were registered; a leader
    election is run only for a driver with the CONTROLLER_SERVICE, after the goroutine
    of the server was started, for the lease of that driver's name, with the pod as
    its candidate and the times of the command line.  The process returns only when
    its server was stopped, or when it was asked for its version. *)
Theorem sidecar_startup ρ ρ' f probes :
  guarded (process_contract f driver_ready) (run ρ [] (main f probes)).1 /\
  process_ends f (run ρ [] (main f probes)).1 (run ρ [] (main f probes)).2 /\
  guarded (process_contract f (fun _ => True)) (run ρ' [] (Start (sidecarServer f))).1.
Proof.
  destruct (wp_run _ _ _ [] (sidecar_main_wp f probes) I ρ) as [Hg He]. split_and!; [done..|].
  by apply (wp_run _ _ _ [] (Start_wp f (fun _ => True) (fun _ _ H => H) [] I eq_refl)).
Qed.

Lemma elected_candidate f probes ρ l :
  existT (PRunOrDie l) tt ∈ (run ρ [] (main f probes)).1 ->
  exists h, candidate f h l /\ forall c, c ∈ h -> c ∈ (run ρ [] (main f probes)).1.
Proof.
  intros Hin. destruct (wp_run _ _ _ [] (sidecar_main_wp f probes) I ρ) as [Hg _].
  induction (run ρ [] (main f probes)).1 as [|[e r] h IH]; [by apply not_elem_of_nil in Hin|].
  destruct Hg as [He Hg]. apply elem_of_cons in Hin as [Heq|Hin].
  - simplify_eq. destruct He as [Hc _]. exists h. split; [done|]. intros. by right.
  - destruct (IH Hin Hg) as (h' & Hc & Hsub). exists h'. split; [done|]. intros. right. auto.
Qed.

(** ** The manager finds the leader *)

Section finding.
Import Connection.

Lemma first_namespace_known d l k c ns :
  (k, c) ∈ l -> c.(DriverName) = d -> (forall k c, (k, c) ∈ l -> c.(DriverName) = d -> c.(conn_Namespace) = ns) ->
  first_namespace d l = Some ns.
Proof.
  induction l as [|[k' c'] l IH]; intros Hin Hd Hall; [by apply not_elem_of_nil in Hin|]. cbn.
  case_bool_decide as Hc; [f_equal; apply (Hall k'); [left|done]|].
  apply elem_of_cons in Hin as [Heq|Hin]; [by simplify_eq|]. apply IH; [done..|]. intros. eapply Hall; [by right|done].
Qed.

(** The manager's pool holds the connection of the leader, and the lease names it. *)
Lemma leader_lookup (ρ : env answer) cp driver base ns holder conn cc lease :
  (forall h, ρ h EReadPool = cp) ->
  (forall k c, cp !! k = Some c -> c.(DriverName) = driver -> c.(conn_Namespace) = ns) ->
  cp !! (ns +:+ "/" +:+ holder) = Some conn -> conn.(DriverName) = driver ->
  conn.(Client) = Some cc -> (forall h, ρ h (EGetState cc) = NotShutdown) ->
  Config.NormalizeLeaseName driver = Some base ->
  (forall h, ρ h (EGet KLease (mkNamespacedName ns (base +:+ "-csi-addons"))) = inr lease) ->
  obj_Namespace lease = ns -> lease.(HolderIdentity) = Some holder -> holder ≠ "" ->
  (run ρ [] (GetLeaderByDriver driver)).2 = Done (inr conn).
Proof.
  intros Hcp Hns Hconn Hd Hcl Hst Hb Hlease Hlns Hh Hne.
  unfold GetLeaderByDriver, getNamespaceByDriverName, get_obj. cbn [call mbind prog_bind run]. rewrite Hcp.
  rewrite (first_namespace_known driver _ (ns +:+ "/" +:+ holder) conn ns);
    [|by apply elem_of_map_range|done|intros k c Hkc%elem_of_map_range; by eapply Hns].
  cbn [call mbind prog_bind run mret prog_ret]. rewrite Hb. cbn [call mbind prog_bind run]. rewrite Hlease, Hh.
  cbn [call mbind prog_bind run default]. rewrite bool_decide_false by done.
  cbn [call mbind prog_bind run]. rewrite Hcp.
  replace (cp !! _) with (Some conn) by (subst ns; exact (eq_sym Hconn)). cbn iota beta. unfold Connect. rewrite Hcl.
  cbn [call mbind prog_bind run]. rewrite Hst. done.
Qed.

Lemma normalized_nonempty name base : Config.NormalizeLeaseName name = Some base -> base ≠ "".
Proof.
  unfold Config.NormalizeLeaseName. destruct (Config.last_byte _) as [c|] eqn:Hl; [|done].
  case_bool_decide; intros [= <-] Hempty; [by destruct (Config.replace_runes _ _)|]. by rewrite Hempty in Hl.
Qed.

(** The manager's world: its pool, in which every connection of the driver is of the
    namespace [ns] and the node's is alive, and the lease as its holder wrote it. *)
Definition manager_sees (ρ : env answer) (n : CSIAddonsNode) (l : lock) (conn : Connection) : Prop :=
  exists cp key cc lease,
    (forall h, ρ h EReadPool = cp) /\
    (forall k c, cp !! k = Some c -> c.(DriverName) = conn.(DriverName) -> c.(conn_Namespace) = obj_Namespace n) /\
    CSIAddonsNodeProofs.node_key n key /\ cp !! key = Some conn /\
    conn.(Client) = Some cc /\ (forall h, ρ h (EGetState cc) = NotShutdown) /\
    (forall h, ρ h (EGet KLease (mkNamespacedName l.(lock_Namespace) l.(lock_Name))) = inr lease) /\
    obj_Namespace lease = l.(lock_Namespace) /\ lease.(HolderIdentity) = Some l.(lock_Identity).

(** C7: The manager finds the leader: when a side-car has won the election it competes
    in, and the manager has connected to the node object that the side-car announced
    for its pod, then looking up the leader of the driver by the lease yields the
    connection of exactly that node.  Required are: a pod with valid names and no
    controller IP on its command line, the lease in the namespace of the pod, every
    pooled connection of the driver in that namespace, and the node's connection
    alive.  The two processes derive the name of the lease
    from the driver's name, and the holder and the key of the pool from the
    pod's name, independently of each other. *)
Theorem leader_is_found ρ f probes l ρ' (n : CSIAddonsNode) conn :
  existT (PRunOrDie l) tt ∈ (run ρ [] (main f probes)).1 ->
  (forall driver, existT (PNode (DDriver Sidecar.CGetIdentity)) (inr driver) ∈ (run ρ [] (main f probes)).1 ->
     driver = conn.(DriverName)) ->
  all_bytes name_byte f.(SidecarMain.podName) = true -> f.(SidecarMain.podName) ≠ "" ->
  all_bytes label_byte f.(podNamespace) = true -> f.(podNamespace) ≠ "" ->
  BuildEndpointURL "" f.(controllerPort) f.(SidecarMain.podName) f.(podNamespace) = inr n.(node_Driver).(drv_EndPoint) ->
  obj_Namespace n = f.(podNamespace) -> l.(lock_Namespace) = f.(podNamespace) ->
  manager_sees ρ' n l conn ->
  (run ρ' [] (GetLeaderByDriver conn.(DriverName))).2 = Done (inr conn).
Proof.
  intros Hl Hdrv Hp Hpne Hns Hnne Hep Hn Hlns (cp & key & cc & lease & Hcp & Hall & Hkey & Hconn & Hcl & Hst & Hlease & Hlease_ns & Hh).
  destruct (elected_candidate _ _ _ _ Hl) as (h & (driver & base & Hid & Hbase & Hname & Hident & _) & Hsub).
  apply Hsub, Hdrv in Hid. subst driver. specialize (Hident Hpne). rewrite Hname in Hlease.
  pose proof (endpoint_roundtrip f.(controllerPort) _ _ Hp Hpne Hns Hnne) as Hparse. rewrite Hep in Hparse.
  destruct Hparse as (port & _ & Hparse), Hkey as (ns & pod & port' & base' & Hparse' & Hbase' & ->).
  rewrite Hparse in Hparse'. injection Hparse' as <- <- <-. rewrite Hident in Hbase'. injection Hbase' as <-.
  eapply (leader_lookup ρ' cp _ base l.(lock_Namespace) l.(lock_Identity)); try done.
  - intros k c Hk Hd. rewrite Hlns, <- Hn. by eapply Hall.
  - by rewrite Hlns, <- Hn.
  - by eapply normalized_nonempty.
Qed.

(** The manager reads leases only in the namespace of a connection of the driver:
    a lease in another namespace (--leader-election-namespace) is never read. *)
Lemma leases_read_beside_connections ρ driver :
  guarded (fun h e => match e with
    | EGet KLease key => exists cp k c, existT EReadPool cp ∈ h /\ cp !! k = Some c /\
        c.(DriverName) = driver /\ nn_Namespace key = c.(conn_Namespace)
    | _ => True
    end) (run ρ [] (GetLeaderByDriver driver)).1.
Proof.
  apply wp_guarded. unfold GetLeaderByDriver, getNamespaceByDriverName, get_obj, Connect, dial, fetchCapabilities.
  repeat wp_step; try done. simplify_eq.
  apply first_namespace_spec in Heqo as (k & v & Hkv%elem_of_map_range & Hd & <-).
  eexists _, k, v. split_and!; [by right; left|done..].
Qed.
End finding.

Module Demo.
Definition plugin_flags : flags :=
  mkFlags "/run/csi-addons/socket" "node-1" "/var/lib/kubelet" "9070" "" "plugin-abc" "storage" "uid"
    false "" (second * 15) (second * 10) (second * 5) true true minute defaultVolumeConditionRecorders.

(** A driver with the CONTROLLER_SERVICE, in the namespace of the pod. *)
Definition driver_world : env panswer := fun _ e =>
  match e return panswer e with
  | PNode (DDriver Sidecar.CProbe) => inr (Some true)
  | PNode (DDriver Sidecar.CGetCapabilities) => inr [CapService Service_CONTROLLER_SERVICE]
  | PNode (DDriver Sidecar.CGetIdentity) => inr "rbd.csi.ceph.com"
  | PNode (DDriver _) => inl (ErrorString "unexpected")
  | PNode (DApi e) => refused e
  | PNode (DGetPod _ _) => inl (ErrorString "unexpected")
  | PNode (DGetReplicaSet _ _) => inl (ErrorString "unexpected")
  | PNode (DAddToScheme | DNewClient | DNewDynamic | DWatch _ _) => None
  | PNode DNextEvent => None
  | PNode (DStopWatch | DSleep _) => tt
  | PNode (DSelect _ _) => Expired
  | PReporter (VolumeCondition.CTick) => tt
  | PReporter (VolumeCondition.CGetNode _ | VolumeCondition.CMounts | VolumeCondition.CGlob _) => inr []
  | PReporter (VolumeCondition.CReadFile _ | VolumeCondition.CPluginInfo) => inr ""
  | PReporter (VolumeCondition.CNewClient _) => None
  | PReporter (VolumeCondition.CNodeCapabilities) => inr []
  | PReporter (VolumeCondition.CVolumeStats _ _) => inr None
  | PReporter (VolumeCondition.CGetPV _) => inl (ErrorString "unexpected")
  | PReporter (VolumeCondition.CGetPVC _ _) => inl (ErrorString "unexpected")
  | PReporter (VolumeCondition.CEvent _ _ _ _ _ | VolumeCondition.CInfof _ _ | VolumeCondition.CWarningf _ _ _) => tt
  | PPrintVersion | PGo _ | PNewServer _ _ | PRegister _ | PRunOrDie _ | PGracefulStop => tt
  | PConnect _ | PInClusterConfig | PNewForConfig | PGenerateSelfSignedCert | PListen _ _ => None
  | PServe => ServeNil
  | PHostname | PReadFile _ => inr "host"
  | PGetenv _ => "storage"
  end.

Definition plugin_lock : lock :=
  mkLock "storage" "rbd-csi-ceph-com-csi-addons" "plugin-abc" (second * 15) (second * 10) (second * 5).

(** The election the run ends in. *)
Example election_of_plugin :
  head (run driver_world [] (main plugin_flags 3)).1 = Some (existT (PRunOrDie plugin_lock) tt).
Proof. vm_compute. reflexivity. Qed.

Definition plugin_node : CSIAddonsNode :=
  mkNode (new_meta "storage" "node-1-storage-deployment-plugin")
    (mkNodeDriver "rbd.csi.ceph.com" "pod://plugin-abc.storage:9070" "node-1") (mkNodeStatus "" "" "" [] []).

Definition plugin_client := mkClientConn 1 "10.0.0.1:9070" true.
Definition plugin_conn : Connection :=
  mkConnection (Some plugin_client) [] "storage" "node-1-storage-deployment-plugin" "node-1" "rbd.csi.ceph.com" minute true
    "10.0.0.1:9070" "node-1-storage-deployment-plugin".

Definition manager_world : env answer := fun _ e =>
  match e return answer e with
  | EReadPool => {["storage/plugin-abc" := plugin_conn]}
  | EGetState _ => NotShutdown
  | EGet k key =>
    match k return answer (EGet k key) with
    | KLease => inr (mkLease (new_meta "storage" "rbd-csi-ceph-com-csi-addons") (Some "plugin-abc"))
    | k => refused (EGet k key)
    end
  | e => refused e
  end.

Definition identity_of (c : {e : pevent & panswer e}) : option string :=
  match c with existT (PNode (DDriver Sidecar.CGetIdentity)) (inr d) => Some d | _ => None end.

Lemma leader_is_found_witness :
  (run manager_world [] (Connection.GetLeaderByDriver "rbd.csi.ceph.com")).2 = Done (inr plugin_conn).
Proof.
  apply (leader_is_found driver_world plugin_flags 3 plugin_lock manager_world plugin_node plugin_conn); try reflexivity; try done.
  - apply (list_elem_of_lookup_2 _ 0). vm_compute. reflexivity.
  - intros driver Hin. remember (run driver_world [] (main plugin_flags 3)).1 as h eqn:Hh. vm_compute in Hh. subst h.
    repeat (apply elem_of_cons in Hin as [Hin|Hin]; [by apply (f_equal identity_of) in Hin; cbn in Hin; simplify_eq|]). by apply not_elem_of_nil in Hin.
  - exists {["storage/plugin-abc" := plugin_conn]}, "storage/plugin-abc", plugin_client,
      (mkLease (new_meta "storage" "rbd-csi-ceph-com-csi-addons") (Some "plugin-abc")).
    split_and!; try reflexivity.
    + intros k c Hk _. apply (lookup_singleton_Some (M := gmap string)) in Hk as [_ <-]. reflexivity.
    + exists "storage", "plugin-abc", "9070", "plugin-abc". split_and!; vm_compute; reflexivity.
Defined.
End Demo.
