(* ===== verification/Tool.v ===== *)
(** * The csi-addons tool

    src/cmd/csi-addons: runs one operation of the side-car's services, with its
    request taken from the command line, against the CSI driver's socket. *)

From S2P Require Import Prelude.
From S2P Require Import GoErrors.
From S2P Require Import GoURL.
From S2P Require Import GoCrypto.
From S2P Require Import ControllerUtil.
From S2P Require Import Effects.
From S2P Require Sidecar.
Import Sidecar (sevent, sanswer, SM, SDriver, SSecret, SPV).

(** ** The outside world of the tool *)

(** What the tool prints besides constant text. *)
Inductive shown :=
| ShowString (s : string) | ShowIdentity (name : string) | ShowCapabilities (l : list Capability)
| ShowProbe (ready : option bool) | ShowUsage (u : Sidecar.Usage) | ShowGroup (g : VolumeGroup)
| ShowInfo (i : GetVolumeReplicationInfoResponse).

Inductive tevent :=
| TService (e : sevent)                  (* what the services ask for *)
| TNewClient (endpoint : string)         (* grpc.NewClient *)
| TCloseClient
| TKubernetesClient                      (* the in-cluster configuration and its client *)
| TReplicationClient
| TGetContent (name : string)            (* the group handle of a VolumeGroupReplicationContent *)
| TPrintf (format : string) (args : list shown).

Definition tanswer (e : tevent) : Type :=
  match e with
  | TService e => sanswer e
  | TNewClient _ | TCloseClient | TKubernetesClient | TReplicationClient => option error
  | TGetContent _ => error + string
  | TPrintf _ _ => unit
  end.

Abbreviation TM := (prog tanswer).
Abbreviation thist := (history tanswer).

(** A handler of the services, called in this process. *)
Definition serve {A} (p : SM A) : TM A := embed (R' := tanswer) TService (fun _ r => r) p.

(** log.Fatalf ends the process, as a panic does; deferred calls are not made. *)
Definition Fatalf {A} (msg : string) : TM A := Panic ("fatal: " +:+ msg).

(** ** main.go *)

Record command := mkCommand {
  endpoint : string;
  stagingPath : string;
  operation_name : string;
  persistentVolume : string;
  volumeGroupReplicationContent : string;
  drivername : string;
  secret : string;
  cidrs : string;
  clusterid : string;
  legacy : bool;
  volumeGroupName : string;
  volumeGroupID : string;
  parameters : string;
  volumeIDs : string
}.

(** The interface, less Connect and Close, which all operations share: Init fills
    the fields of the operation, Execute uses them. *)
Record operation := mkOperation {
  fields : Type;
  Init : command -> TM (error + fields);
  Execute : fields -> TM (option error)
}.

Definition Connect (endpoint : string) : TM unit :=
  err ← call (TNewClient endpoint);
  match err with
  | Some err => Panic ("failed to connect to " +:+ go_quote endpoint +:+ ": " +:+ Error err)
  | None => mret tt
  end.
Definition Close : TM (option error) := call TCloseClient.

Definition getKubernetesClient : TM unit :=
  err ← call TKubernetesClient;
  match err with Some err => Panic (Error err) | None => mret tt end.

(** replicationClient.go *)
Definition getVolumeReplicationClient : TM unit :=
  err ← call TReplicationClient;
  match err with Some err => Panic (Error err) | None => mret tt end.
Definition getVolumeGroupReplicationContent (name : string) : TM (error + string) := call (TGetContent name).

Definition registerOperation (operations : gmap string operation) (name : string) (op : operation)
    : gmap string operation * option error :=
  if bool_decide (is_Some (operations !! name)) then
    (operations, Some (ErrorString ("operation " +:+ go_quote name +:+ " is already registered")))
  else (<[name := op]> operations, None).

(** [p], and [d] when [p] panics. *)
Fixpoint on_panic {A} (p : TM A) (d : TM unit) : TM A :=
  match p with
  | Ret a => Ret a
  | Panic m => _ ← d; Panic m
  | Call e k => Call e (fun r => on_panic (k r) d)
  end.

(** Once Init has succeeded, Close is deferred: it runs after Execute, and when
    Execute panics, but not when log.Fatalf ends the process. *)
Definition run_operation (op : operation) (c : command) : TM unit :=
  _ ← Connect c.(endpoint);
  r ← op.(Init) c;
  match r with
  | inl err => Fatalf ("ERROR: failed to initialize " +:+ go_quote c.(operation_name) +:+ ": " +:+ Error err)
  | inr fs =>
    err ← on_panic (op.(Execute) fs) (_ ← Close; mret tt);
    match err with
    | Some err => Fatalf ("ERROR: failed to execute " +:+ go_quote c.(operation_name) +:+ ": " +:+ Error err)
    | None => _ ← Close; mret tt
    end
  end.

Definition main (operations : gmap string operation) (c : command) : TM unit :=
  match operations !! c.(operation_name) with
  | None => Fatalf ("ERROR: operation " +:+ go_quote c.(operation_name) +:+ " not found")
  | Some op => run_operation op c
  end.

(** A service call, and what is printed of its answer. *)
Definition print_result {A} (r : error + A) (format : string) (args : A -> list shown) : TM (option error) :=
  match r with
  | inl err => mret (Some err)
  | inr a => _ ← call (TPrintf format (args a)); mret None
  end.

(** ** identity.go *)

Definition GetIdentity : operation := mkOperation unit (fun _ => mret (inr tt)) (fun _ =>
  r ← serve Sidecar.GetIdentity; print_result r "identity: %+v" (fun n => [ShowIdentity n])).
Definition GetCapabilities : operation := mkOperation unit (fun _ => mret (inr tt)) (fun _ =>
  r ← serve Sidecar.GetCapabilities; print_result r "capabilities: %+v" (fun l => [ShowCapabilities l])).
Definition Probe : operation := mkOperation unit (fun _ => mret (inr tt)) (fun _ =>
  r ← serve Sidecar.Probe; print_result r "probe succeeded: %+v" (fun b => [ShowProbe b])).

Section tool.
(** accessmodes.ToCSIAccessMode, as for the services. *)
Context (ToCSIAccessMode : list string -> error + Z).

(** ** reclaimspace.go, encryptionkeyrotation.go *)

Definition ControllerReclaimSpace : operation := mkOperation string
  (fun c => mret (if bool_decide (c.(persistentVolume) = "")
                  then inl (ErrorString "persistentvolume name is not set") else inr c.(persistentVolume)))
  (fun pv =>
    _ ← getKubernetesClient;
    r ← serve (Sidecar.ControllerReclaimSpace pv);
    print_result r "space reclaimed for %q: %+v" (fun u => [ShowString pv; ShowUsage u])).

(** The volume and its staging target path. *)
Definition nodeReclaimSpaceInit (c : command) : error + string * string :=
  if bool_decide (c.(persistentVolume) = "") then inl (ErrorString "persistentvolume name is not set")
  else if bool_decide (c.(stagingPath) = "") then inl (ErrorString "stagingpath is not set")
  else if negb c.(legacy) then
    if bool_decide (c.(drivername) = "") then inl (ErrorString "drivername is not set")
    else inr (c.(persistentVolume), c.(stagingPath) +:+ "/" +:+ c.(drivername) +:+ "/" +:+
                Sha256.hex c.(persistentVolume) +:+ "/globalmount")
  else inr (c.(persistentVolume), c.(stagingPath) +:+ "/pv/" +:+ c.(persistentVolume) +:+ "/globalmount").

Definition NodeReclaimSpace : operation := mkOperation (string * string)
  (fun c => mret (nodeReclaimSpaceInit c))
  (fun nrs =>
    _ ← getKubernetesClient;
    r ← serve (Sidecar.NodeReclaimSpace ToCSIAccessMode nrs.2 nrs.1);
    print_result r "space reclaimed for %q: %+v" (fun u => [ShowString nrs.1; ShowUsage u])).

(** The service never answers nil without an error. *)
Definition EncryptionKeyRotation : operation := mkOperation string
  (fun c => mret (if bool_decide (c.(persistentVolume) = "")
                  then inl (ErrorString "PersistentVolume name is not set") else inr c.(persistentVolume)))
  (fun pv =>
    _ ← getKubernetesClient;
    r ← serve (Sidecar.EncryptionKeyRotate ToCSIAccessMode pv);
    print_result r "Encryption key rotation successful for pv: %s" (fun _ => [ShowString pv])).
End tool.

(** ** volumegroup.go: parsing *)

Definition parseSecret (s : string) : error + string * string :=
  match split "/" s with
  | [namespace; name] =>
    if bool_decide (namespace = "") then inl (ErrorString "secret namespace is not set")
    else if bool_decide (name = "") then inl (ErrorString "secret name is not set")
    else inr (namespace, name)
  | _ => inl (ErrorString "secret should be specified in the format `namespace/name`")
  end.

Fixpoint parse_pairs (params : gmap string string) (pairs : list string) : error + gmap string string :=
  match pairs with
  | [] => inr params
  | p :: pairs =>
    match cut "=" p with
    | (key, Some value) => parse_pairs (<[key := value]> params) pairs
    | (_, None) => inl (ErrorString ("invalid parameter : " +:+ p))
    end
  end.

Definition parseParameters (paramString : string) : error + gmap string string :=
  if bool_decide (paramString = "") then inr ∅ else parse_pairs ∅ (split "," paramString).

(** ** networkfence.go *)

Record networkFenceBase := mkFence {
  nf_parameters : gmap string string; nf_secretName : string; nf_secretNamespace : string; nf_cidrs : list string
}.

Definition networkFenceInit (c : command) : error + networkFenceBase :=
  if bool_decide (c.(clusterid) = "") then inl (ErrorString "clusterID not set")
  else
  match parseSecret c.(secret) with
  | inl err => inl err
  | inr (ns, name) =>
    let l := split "," c.(cidrs) in
    if bool_decide (l = [""]) then inl (ErrorString "cidrs not set")
    else inr (mkFence {["clusterID" := c.(clusterid)]} name ns l)
  end.

Definition NetworkFence : operation := mkOperation networkFenceBase (fun c => mret (networkFenceInit c)) (fun ns =>
  _ ← getKubernetesClient;
  r ← serve (Sidecar.FenceClusterNetwork ns.(nf_parameters) ns.(nf_cidrs) ns.(nf_secretName) ns.(nf_secretNamespace));
  print_result r "Network fence successful" (fun _ => [])).

Definition NetworkUnFence : operation := mkOperation networkFenceBase (fun c => mret (networkFenceInit c)) (fun ns =>
  _ ← getKubernetesClient;
  r ← serve (Sidecar.UnFenceClusterNetwork ns.(nf_parameters) ns.(nf_cidrs) ns.(nf_secretName) ns.(nf_secretNamespace));
  print_result r "Network unfence successful" (fun _ => [])).

(** ** replication.go *)

Record VolumeReplicationBase := mkRep {
  rep_parameters : gmap string string; rep_secretName : string; rep_secretNamespace : string;
  rep_volumeID : string; rep_groupID : string
}.

Definition replicationInit (c : command) : TM (error + VolumeReplicationBase) :=
  if bool_decide (c.(clusterid) = "") then mret (inl (ErrorString "clusterID not set"))
  else
  match parseSecret c.(secret) with
  | inl err => mret (inl err)
  | inr (ns, name) =>
    let rep := mkRep {["clusterID" := c.(clusterid)]} name ns in
    let pvName := c.(persistentVolume) in
    let vgrcName := c.(volumeGroupReplicationContent) in
    if bool_decide (pvName ≠ "") && bool_decide (vgrcName ≠ "") then
      mret (inl (ErrorString "only one of persistentVolume or volumeGroupReplicationContent should be set"))
    else if bool_decide (pvName ≠ "") then
      _ ← getKubernetesClient;
      r ← call (TService (SPV pvName));
      match r with
      | inl _ => mret (inl (ErrorString ("failed to get pv " +:+ go_quote pvName)))
      | inr pv =>
        match pv.(Sidecar.spv_CSI) with
        | None => mret (inl (ErrorString ("pv " +:+ go_quote pvName +:+ " is not a CSI volume")))
        | Some csi =>
          if bool_decide (csi.(Sidecar.sc_VolumeHandle) = "") then mret (inl (ErrorString "volume ID is not set"))
          else mret (inr (rep csi.(Sidecar.sc_VolumeHandle) ""))
        end
      end
    else if bool_decide (vgrcName ≠ "") then
      _ ← getVolumeReplicationClient;
      r ← getVolumeGroupReplicationContent vgrcName;
      match r with
      | inl _ => mret (inl (ErrorString ("failed to get VolumeGroupReplicationContent " +:+ go_quote vgrcName)))
      | inr handle =>
        if bool_decide (handle = "") then mret (inl (ErrorString "volume group ID is not set"))
        else mret (inr (rep "" handle))
      end
    else mret (inl (ErrorString "either persistentVolume or volumeGroupReplicationContent should be set"))
  end.

(** Fills the source it is given; [None] for a nil pointer. *)
Definition setReplicationSource (v : VolumeReplicationBase) (req : option (option ReplicationSource))
    : error + option (option ReplicationSource) :=
  match req with
  | None => inl (ErrorString "replication source is not set")
  | Some _ =>
    if bool_decide (v.(rep_volumeID) ≠ "") && bool_decide (v.(rep_groupID) ≠ "") then
      inl (ErrorString "only one of volumeID or groupID should be set")
    else if bool_decide (v.(rep_volumeID) ≠ "") then inr (Some (Some (SourceVolume v.(rep_volumeID))))
    else if bool_decide (v.(rep_groupID) ≠ "") then inr (Some (Some (SourceVolumeGroup v.(rep_groupID))))
    else inl (ErrorString "both volumeID and groupID is not set")
  end.

(** The common part of the six Execute methods: the request has no source message
    when it is filled. *)
Definition replicationOperation {A} (handler : Sidecar.proto_ReplicationRequest -> SM (error + A))
    (format : string) (args : VolumeReplicationBase -> A -> list shown) : operation :=
  mkOperation VolumeReplicationBase replicationInit (fun rep =>
    _ ← getKubernetesClient;
    match setReplicationSource rep None with
    | inl err => mret (Some err)
    | inr source =>
      r ← serve (handler (Sidecar.mkProtoReplication source "" false ∅ rep.(rep_secretName) rep.(rep_secretNamespace)));
      print_result r format (args rep)
    end).

Definition EnableVolumeReplication : operation :=
  replicationOperation Sidecar.EnableVolumeReplication "Enable Volume Replication operation successful" (fun _ _ => []).
Definition DisableVolumeReplication : operation :=
  replicationOperation Sidecar.DisableVolumeReplication "Disable Volume Replication operation successful" (fun _ _ => []).
Definition PromoteVolume : operation :=
  replicationOperation Sidecar.PromoteVolume "Promote Volume operation successful" (fun _ _ => []).
Definition DemoteVolume : operation :=
  replicationOperation Sidecar.DemoteVolume "Demote Volume operation successful" (fun _ _ => []).
Definition ResyncVolume : operation :=
  replicationOperation Sidecar.ResyncVolume "Resync Volume operation successful" (fun _ _ => []).
Definition GetVolumeReplicationInfo : operation :=
  replicationOperation Sidecar.GetVolumeReplicationInfo "replication info for %q: %+v"
    (fun rep i => [ShowString rep.(rep_volumeID); ShowInfo i]).

(** ** volumegroup.go: operations *)

Record VolumeGroupBase := mkGroupBase {
  gb_volumeGroupID : string; gb_volumeGroupName : string; gb_secretName : string; gb_secretNamespace : string;
  gb_parameters : gmap string string; gb_volumeIDs : list string
}.
Definition no_group : VolumeGroupBase := mkGroupBase "" "" "" "" ∅ [].

Definition SetVolumeGroupID (vgb : VolumeGroupBase) (id : string) : error + VolumeGroupBase :=
  if bool_decide (id = "") then inl (ErrorString "volumeGroupID is not set")
  else inr (mkGroupBase id vgb.(gb_volumeGroupName) vgb.(gb_secretName) vgb.(gb_secretNamespace)
              vgb.(gb_parameters) vgb.(gb_volumeIDs)).
Definition SetVolumeGroupName (vgb : VolumeGroupBase) (name : string) : error + VolumeGroupBase :=
  if bool_decide (name = "") then inl (ErrorString "volumeGroupName is not set")
  else inr (mkGroupBase vgb.(gb_volumeGroupID) name vgb.(gb_secretName) vgb.(gb_secretNamespace)
              vgb.(gb_parameters) vgb.(gb_volumeIDs)).
Definition SetSecret (vgb : VolumeGroupBase) (s : string) : error + VolumeGroupBase :=
  match parseSecret s with
  | inl err => inl (WrapError ("failed to parse secret: " +:+ Error err) err)
  | inr (ns, name) => inr (mkGroupBase vgb.(gb_volumeGroupID) vgb.(gb_volumeGroupName) name ns
                            vgb.(gb_parameters) vgb.(gb_volumeIDs))
  end.
Definition SetParameters (vgb : VolumeGroupBase) (s : string) : error + VolumeGroupBase :=
  match parseParameters s with
  | inl err => inl (WrapError ("failed to parse parameters: " +:+ Error err) err)
  | inr params => inr (mkGroupBase vgb.(gb_volumeGroupID) vgb.(gb_volumeGroupName) vgb.(gb_secretName)
                        vgb.(gb_secretNamespace) params vgb.(gb_volumeIDs))
  end.
Definition SetVolumeIDs (vgb : VolumeGroupBase) (s : string) : VolumeGroupBase :=
  if bool_decide (s ≠ "") then
    mkGroupBase vgb.(gb_volumeGroupID) vgb.(gb_volumeGroupName) vgb.(gb_secretName) vgb.(gb_secretNamespace)
      vgb.(gb_parameters) (split "," s)
  else vgb.

(** The next setter, unless one has failed. *)
Definition then_set (r : error + VolumeGroupBase) (f : VolumeGroupBase -> error + VolumeGroupBase)
    : error + VolumeGroupBase :=
  match r with inl err => inl err | inr vgb => f vgb end.

Definition createInit (c : command) : error + VolumeGroupBase :=
  then_set (then_set (then_set (SetVolumeGroupName no_group c.(volumeGroupName))
    (fun g => SetParameters g c.(parameters)))
    (fun g => SetSecret g c.(secret)))
    (fun g => inr (SetVolumeIDs g c.(volumeIDs))).
Definition modifyInit (c : command) : error + VolumeGroupBase :=
  then_set (then_set (then_set (SetVolumeGroupID no_group c.(volumeGroupID))
    (fun g => inr (SetVolumeIDs g c.(volumeIDs))))
    (fun g => SetSecret g c.(secret)))
    (fun g => SetParameters g c.(parameters)).
(** DeleteVolumeGroup and ControllerGetVolumeGroup. *)
Definition groupInit (c : command) : error + VolumeGroupBase :=
  then_set (SetVolumeGroupID no_group c.(volumeGroupID)) (fun g => SetSecret g c.(secret)).

Definition CreateVolumeGroup : operation := mkOperation VolumeGroupBase (fun c => mret (createInit c)) (fun g =>
  _ ← getKubernetesClient;
  r ← serve (Sidecar.CreateVolumeGroup g.(gb_volumeGroupName) g.(gb_volumeIDs) g.(gb_parameters)
               g.(gb_secretName) g.(gb_secretNamespace));
  print_result r "Volume Group created: %+v" (fun vg => [ShowGroup vg])).
Definition ModifyVolumeGroupMembership : operation := mkOperation VolumeGroupBase (fun c => mret (modifyInit c)) (fun g =>
  _ ← getKubernetesClient;
  r ← serve (Sidecar.ModifyVolumeGroupMembership g.(gb_volumeGroupID) g.(gb_volumeIDs) g.(gb_parameters)
               g.(gb_secretName) g.(gb_secretNamespace));
  print_result r "Volume Group Membership modified for %+v" (fun vg => [ShowGroup vg])).
Definition DeleteVolumeGroup : operation := mkOperation VolumeGroupBase (fun c => mret (groupInit c)) (fun g =>
  _ ← getKubernetesClient;
  r ← serve (Sidecar.DeleteVolumeGroup g.(gb_volumeGroupID) g.(gb_secretName) g.(gb_secretNamespace));
  print_result r "Volume Group Deleted." (fun _ => [])).
Definition ControllerGetVolumeGroup : operation := mkOperation VolumeGroupBase (fun c => mret (groupInit c)) (fun g =>
  _ ← getKubernetesClient;
  r ← serve (Sidecar.ControllerGetVolumeGroup g.(gb_volumeGroupID) g.(gb_secretName) g.(gb_secretNamespace));
  print_result r "Controller Volume Group Info: %+v" (fun vg => [ShowGroup vg])).

(** ** The table of operations, as the package variables register them *)

Section table.
Context (ToCSIAccessMode : list string -> error + Z).

Definition registrations : list (string * operation) := [
  ("EncryptionKeyRotation", EncryptionKeyRotation ToCSIAccessMode);
  ("GetIdentity", GetIdentity); ("GetCapabilities", GetCapabilities); ("Probe", Probe);
  ("NetworkFence", NetworkFence); ("NetworkUnFence", NetworkUnFence);
  ("ControllerReclaimSpace", ControllerReclaimSpace); ("NodeReclaimSpace", NodeReclaimSpace ToCSIAccessMode);
  ("EnableVolumeReplication", EnableVolumeReplication); ("DisableVolumeReplication", DisableVolumeReplication);
  ("PromoteVolume", PromoteVolume); ("DemoteVolume", DemoteVolume); ("ResyncVolume", ResyncVolume);
  ("GetVolumeReplicationInfo", GetVolumeReplicationInfo);
  ("CreateVolumeGroup", CreateVolumeGroup); ("ModifyVolumeGroupMembership", ModifyVolumeGroupMembership);
  ("DeleteVolumeGroup", DeleteVolumeGroup); ("ControllerGetVolumeGroup", ControllerGetVolumeGroup)].

(** The errors of registerOperation are discarded. *)
Definition operations : gmap string operation :=
  foldl (fun ops r => (registerOperation ops r.1 r.2).1) ∅ registrations.
End table.
