(* ===== verification/ToolProofs.v ===== *)
(** * The csi-addons tool sends what the command line says *)

From S2P Require Import Prelude.
From S2P Require Import GoErrors.
From S2P Require Import GoURL.
From S2P Require Import GoText.
From S2P Require Import GoNet.
From S2P Require Import GoJSON.
From S2P Require Import GoCrypto.
From S2P Require Import ControllerUtil.
From S2P Require Import StringFacts.
From S2P Require Import Effects.
From S2P Require Sidecar.
Import Sidecar (sevent, sanswer, SM, SDriver, SSecret, SPV, shist).
From S2P Require Import Tool.

(** ** The table *)

Lemma register_lookup (l : list (string * operation)) (ops : gmap string operation) n :
  NoDup l.*1 -> (forall r, r ∈ l -> ops !! r.1 = None) ->
  foldl (fun ops r => (registerOperation ops r.1 r.2).1) ops l !! n =
    match list_find (fun r => r.1 = n) l with Some (_, r) => Some r.2 | None => ops !! n end.
Proof.
  revert ops. induction l as [|[k op] l IH]; intros ops Hnd Hfresh; [done|]. cbn [foldl list_find].
  inversion Hnd as [|? ? Hk Hnd']; subst. unfold registerOperation at 2. cbn [fst snd].
  assert (ops !! k = None) as Hnone by (apply (Hfresh (k, op)); by left).
  rewrite bool_decide_false by (rewrite Hnone; by intros [? ?]).
  rewrite IH; [|done|].
  - cbn [fst]. case_decide as Hd.
    + cbn in Hd. subst. destruct (list_find _ l) as [[i r]|] eqn:Hf; cbn.
      * apply list_find_Some in Hf as (Hi & Hr & _). destruct Hk. rewrite <- Hr. apply list_elem_of_fmap_2.
        by eapply list_elem_of_lookup_2.
      * by rewrite lookup_insert_eq.
    + cbn in Hd. destruct (list_find _ l) as [[i r]|]; cbn; [done|]. by rewrite lookup_insert_ne.
  - intros r Hr. cbn [fst]. rewrite lookup_insert_ne; [by apply Hfresh; right|].
    intros ->. apply Hk. by apply list_elem_of_fmap_2.
Qed.

(** ** Secrets and parameters *)

(** A secret is namespace and name, neither of them empty, around one slash. *)
Lemma parseSecret_exact s ns name :
  parseSecret s = inr (ns, name) <->
  s = ns +:+ "/" +:+ name /\ ns ≠ "" /\ name ≠ "" /\ lacks_byte "/" ns = true /\ lacks_byte "/" name = true.
Proof.
  change ("/" +:+ name) with (String "/" name). unfold parseSecret. split.
  - destruct (split "/" s) as [|a [|b [|]]] eqn:Hs; try done. apply split_two in Hs as (-> & Ha & Hb).
    do 2 (case_bool_decide; [done|]). by intros [= -> ->].
  - intros (-> & Hn & Hm & Ha & Hb). rewrite (proj2 (split_two "/" _ ns name)) by done.
    by rewrite !bool_decide_false.
Qed.

(** The text of a list of parameters. *)
Definition print_parameters (l : list (string * string)) : string :=
  join "," ((fun p => p.1 +:+ "=" +:+ p.2) <$> l).

Definition printable (p : string * string) : Prop :=
  lacks_byte "=" p.1 = true /\ lacks_byte "," p.1 = true /\ lacks_byte "," p.2 = true.

Lemma parse_pairs_print (l : list (string * string)) m : Forall printable l ->
  parse_pairs m ((fun p => p.1 +:+ "=" +:+ p.2) <$> l) = inr (foldl (fun m p => <[p.1 := p.2]> m) m l).
Proof.
  intros Hl. revert m. induction Hl as [|[k v] l (He & _) Hl IH]; intros m; [done|]. cbn [fmap list_fmap parse_pairs foldl].
  cbn [fst snd] in *. change ("=" +:+ v) with (String "=" v). rewrite cut_app by done. apply IH.
Qed.

(** Parameters are read back as they are written; a later value of a key wins. *)
Theorem parameters_roundtrip (l : list (string * string)) :
  Forall printable l ->
  parseParameters (print_parameters l) = inr (foldl (fun m p => <[p.1 := p.2]> m) ∅ l).
Proof.
  intros Hl. destruct l as [|p l]; [done|]. unfold parseParameters.
  assert (split "," (print_parameters (p :: l)) = ((fun p => p.1 +:+ "=" +:+ p.2) <$> p :: l)) as Hs.
  { apply (split_join ","); [done|]. apply Forall_fmap. eapply Forall_impl; [exact Hl|].
    intros [k v] (_ & H1 & H2). unfold lacks_byte in *. cbn in *. by rewrite !all_bytes_app, H1, H2. }
  rewrite bool_decide_false; [by rewrite Hs; apply parse_pairs_print|]. intros E. rewrite E in Hs.
  inversion Hl as [|? ? (He & _)]; subst. injection Hs as Hs _. destruct (p.1); done.
Qed.

(** ** What is sent *)

(** The services' calls in a history of the tool. *)
Definition service_of (c : {e & tanswer e}) : option {e & sanswer e} :=
  match c with
  | existT e r =>
    match e return tanswer e -> option {e & sanswer e} with
    | TService e => fun r => Some (existT e r)
    | _ => fun _ => None
    end r
  end.
Definition services (h : thist) : shist := omap service_of h.

Section contract.
Context (toMode : list string -> error + Z) (c : command).

(** The secret named on the command line, as it was read. *)
Definition secret_read (h : shist) (data : gmap string string) : Prop :=
  exists ns name, c.(secret) = ns +:+ "/" +:+ name /\ ns ≠ "" /\ name ≠ "" /\
    existT (SSecret ns name) (inr data) ∈ h.

(** The PersistentVolume named on the command line, and its CSI volume. *)
Definition volume_read (h : shist) (pv : Sidecar.SidecarPV) (csi : Sidecar.SidecarCSI) : Prop :=
  existT (SPV c.(persistentVolume)) (inr pv) ∈ h /\ pv.(Sidecar.spv_CSI) = Some csi.

(** The data of the volume's node stage secret, if it has one. *)
Definition stage_secret_read (h : shist) (csi : Sidecar.SidecarCSI) (data : gmap string string) : Prop :=
  match csi.(Sidecar.sc_NodeStageSecretRef) with
  | None => data = ∅
  | Some ref => existT (SSecret ref.(Sidecar.sr_Namespace) ref.(Sidecar.sr_Name)) (inr data) ∈ h
  end.

(** The directory that the tool computes from the name of the PersistentVolume, and
    the path of the volume that the service takes below it. *)
Definition computed_directory : string :=
  if c.(legacy) then c.(stagingPath) +:+ "/pv/" +:+ c.(persistentVolume) +:+ "/globalmount"
  else c.(stagingPath) +:+ "/" +:+ c.(drivername) +:+ "/" +:+ Sha256.hex c.(persistentVolume) +:+ "/globalmount".
Definition computed_path (csi : Sidecar.SidecarCSI) (block : bool) : string :=
  if block then Filepath.Join [computed_directory; "volumeDevices"; "staging"; c.(persistentVolume)]
  else Filepath.Join [computed_directory; csi.(Sidecar.sc_Driver); Sha256.hex csi.(Sidecar.sc_VolumeHandle); "globalmount"].

Definition listed (s : string) : list string := if bool_decide (s = "") then [] else split "," s.

(** The driver is sent [q] only for the operation that is asked for, and with the
    values of the command line. *)
Definition requested (h : shist) (q : Sidecar.csi_call) : Prop :=
  let op := c.(operation_name) in
  match q with
  | Sidecar.CGetIdentity => op = "GetIdentity"
  | Sidecar.CGetCapabilities => op = "GetCapabilities"
  | Sidecar.CProbe => op = "Probe"
  | Sidecar.CFence ps l data => op = "NetworkFence" /\ secret_read h data /\
      ps = {["clusterID" := c.(clusterid)]} /\ c.(clusterid) ≠ "" /\ l = split "," c.(cidrs) /\ l ≠ [""]
  | Sidecar.CUnfence ps l data => op = "NetworkUnFence" /\ secret_read h data /\
      ps = {["clusterID" := c.(clusterid)]} /\ c.(clusterid) ≠ "" /\ l = split "," c.(cidrs) /\ l ≠ [""]
  | Sidecar.CCreateGroup name ids ps data => op = "CreateVolumeGroup" /\ secret_read h data /\
      name = c.(volumeGroupName) /\ name ≠ "" /\ ids = listed c.(volumeIDs) /\ parseParameters c.(parameters) = inr ps
  | Sidecar.CModifyGroup id ids ps data => op = "ModifyVolumeGroupMembership" /\ secret_read h data /\
      id = c.(volumeGroupID) /\ id ≠ "" /\ ids = listed c.(volumeIDs) /\ parseParameters c.(parameters) = inr ps
  | Sidecar.CDeleteGroup id data => op = "DeleteVolumeGroup" /\ secret_read h data /\ id = c.(volumeGroupID) /\ id ≠ ""
  | Sidecar.CGetGroup id data =>
      op = "ControllerGetVolumeGroup" /\ secret_read h data /\ id = c.(volumeGroupID) /\ id ≠ ""
  | Sidecar.CControllerReclaim id ps data => op = "ControllerReclaimSpace" /\
      exists pv csi, volume_read h pv csi /\ id = csi.(Sidecar.sc_VolumeHandle) /\
        ps = csi.(Sidecar.sc_VolumeAttributes) /\ stage_secret_read h csi data
  | Sidecar.CNodeReclaim id path cap data => op = "NodeReclaimSpace" /\
      exists pv csi m mode, volume_read h pv csi /\ id = csi.(Sidecar.sc_VolumeHandle) /\
        toMode pv.(Sidecar.spv_AccessModes) = inr m /\ pv.(Sidecar.spv_VolumeMode) = Some mode /\
        path = computed_path csi (bool_decide (mode = "Block")) /\
        cap = Sidecar.mkCapability m (Some (bool_decide (mode = "Block"))) /\ stage_secret_read h csi data
  | Sidecar.CRotateKey id ps cap data => op = "EncryptionKeyRotation" /\
      exists pv csi m, volume_read h pv csi /\ id = csi.(Sidecar.sc_VolumeHandle) /\
        ps = csi.(Sidecar.sc_VolumeAttributes) /\ toMode pv.(Sidecar.spv_AccessModes) = inr m /\
        cap = Sidecar.mkCapability m None /\ stage_secret_read h csi data
  | _ => False
  end.

Definition sguard (h : shist) (e : sevent) : Prop :=
  match e with
  | SDriver q => requested h q
  | SPV name => name = c.(persistentVolume)
  | _ => True
  end.
Definition tool_guard (h : thist) (e : tevent) : Prop :=
  match e with
  | TService e => sguard (services h) e
  | TNewClient e => e = c.(endpoint)
  | TGetContent name => name = c.(volumeGroupReplicationContent)
  | _ => True
  end.

(** [safe h p]: every request of [p] is as it should be. *)
Abbreviation safe := (wp tool_guard (fun _ _ => True)).
Abbreviation ssafe := (wp sguard (fun _ _ => True)).

Lemma serve_safe {A} (p : SM A) h : ssafe (services h) p -> safe h (serve p).
Proof. by apply (wp_embed (R' := tanswer) TService (fun _ r => r) services). Qed.

Lemma print_safe {A} (r : error + A) format args h : safe h (print_result r format args).
Proof. destruct r; [done|]. by split. Qed.

Lemma seq_safe {A B} (p : TM A) (f : A -> TM B) h : safe h p -> (forall h' a, safe h' (f a)) -> safe h (p ≫= f).
Proof. intros Hp Hf. eapply wp_seq; [exact Hp|]. intros h' [a|m] _; [apply Hf|done]. Qed.

Lemma client_safe h : safe h getKubernetesClient.
Proof. split; [done|]. by intros []. Qed.

(** A deferred Close. *)
Lemma on_panic_wp {A} G (Q Q' : thist -> outcome A -> Prop) (p : TM A) d h :
  wp G Q h p -> (forall h a, Q h (Done a) -> Q' h (Done a)) ->
  (forall h m, Q h (Panicked m) -> wp G Q' h (d ≫= fun _ => Panic m)) -> wp G Q' h (on_panic p d).
Proof.
  intros Hp Hdone Hpanic. revert h Hp. induction p as [a|m|e k IH]; intros h; cbn; [apply Hdone|apply Hpanic|].
  intros [He Hk]. split; [done|]. intros r. apply IH, Hk.
Qed.

Lemma on_panic_safe {A} (p : TM A) h : safe h p -> safe h (on_panic p (_ ← Close; mret tt)).
Proof. intros Hp. eapply on_panic_wp; [exact Hp|done|]. intros h' m _. by split. Qed.

(** An operation whose Init only looks at the command line. *)
Lemma plain_safe {F A} (init : command -> error + F) (handler : F -> SM (error + A)) (format : string)
    (args : F -> A -> list shown) h :
  (forall fs h, init c = inr fs -> ssafe h (handler fs)) ->
  safe h (run_operation (mkOperation F (fun c => mret (init c)) (fun fs =>
    _ ← getKubernetesClient; r ← serve (handler fs); print_result r format (args fs))) c).
Proof.
  intros Hh. unfold run_operation. apply seq_safe; [split; [done|by intros []]|]. intros h1 _.
  cbn [Init Execute mret prog_ret mbind prog_bind]. destruct (init c) as [err|fs] eqn:Hi; [done|].
  apply seq_safe; [apply on_panic_safe|intros h2 [err|]; [done|]; apply seq_safe; [by split|done]].
  apply seq_safe; [apply client_safe|]. intros h2 _. apply seq_safe; [by apply serve_safe, Hh|].
  intros h3 r. apply print_safe.
Qed.

Lemma identity_safe {A} (handler : SM (error + A)) format args h :
  (forall h, ssafe h handler) ->
  safe h (run_operation (mkOperation unit (fun _ => mret (inr tt)) (fun _ =>
    r ← serve handler; print_result r format args)) c).
Proof.
  intros Hh. unfold run_operation. apply seq_safe; [split; [done|by intros []]|]. intros h1 _.
  cbn [Init Execute mret prog_ret mbind prog_bind].
  apply seq_safe; [apply on_panic_safe|intros h2 [err|]; [done|]; apply seq_safe; [by split|done]].
  apply seq_safe; [by apply serve_safe|]. intros h3 r. apply print_safe.
Qed.

(** The replication operations send nothing: their request has no source. *)
Lemma replication_safe {A} (handler : Sidecar.proto_ReplicationRequest -> SM (error + A)) format args h :
  safe h (run_operation (replicationOperation handler format args) c).
Proof.
  unfold run_operation. apply seq_safe; [split; [done|by intros []]|]. intros h1 _.
  apply seq_safe; [|intros h2 [err|rep]; [done|]].
  - cbn [Init replicationOperation]. unfold replicationInit, getKubernetesClient, getVolumeReplicationClient,
      getVolumeGroupReplicationContent. repeat wp_step; done.
  - apply seq_safe; [apply on_panic_safe|intros h3 [err|]; [done|]; apply seq_safe; [by split|done]].
    cbn [Execute replicationOperation]. apply seq_safe; [apply client_safe|]. done.
Qed.

Lemma secret_member ns name data (h : shist) : parseSecret c.(secret) = inr (ns, name) ->
  existT (SSecret ns name) (inr data) ∈ h -> secret_read h data.
Proof. intros (Hs & Hn & Hm & _)%parseSecret_exact Hin. by exists ns, name. Qed.

Lemma fence_init fs : networkFenceInit c = inr fs ->
  parseSecret c.(secret) = inr (fs.(nf_secretNamespace), fs.(nf_secretName)) /\
  fs.(nf_parameters) = {["clusterID" := c.(clusterid)]} /\ c.(clusterid) ≠ "" /\
  fs.(nf_cidrs) = split "," c.(cidrs) /\ fs.(nf_cidrs) ≠ [""].
Proof.
  unfold networkFenceInit. case_bool_decide; [done|]. destruct (parseSecret _) as [|[ns name]]; [done|].
  case_bool_decide; [done|]. by intros [= <-].
Qed.

(** What the setters of the group operations leave. *)
Lemma group_init fs : groupInit c = inr fs ->
  parseSecret c.(secret) = inr (fs.(gb_secretNamespace), fs.(gb_secretName)) /\
  fs.(gb_volumeGroupID) = c.(volumeGroupID) /\ c.(volumeGroupID) ≠ "".
Proof.
  unfold groupInit, SetVolumeGroupID, SetSecret. case_bool_decide; [done|]. cbn [then_set].
  destruct (parseSecret _) as [|[ns name]]; [done|]. by intros [= <-].
Qed.

Lemma volume_ids g : (SetVolumeIDs g c.(volumeIDs)).(gb_volumeIDs) =
  if bool_decide (c.(volumeIDs) = "") then g.(gb_volumeIDs) else split "," c.(volumeIDs).
Proof. unfold SetVolumeIDs. by repeat case_bool_decide. Qed.

Lemma create_init fs : createInit c = inr fs ->
  parseSecret c.(secret) = inr (fs.(gb_secretNamespace), fs.(gb_secretName)) /\
  fs.(gb_volumeGroupName) = c.(volumeGroupName) /\ c.(volumeGroupName) ≠ "" /\
  fs.(gb_volumeIDs) = listed c.(volumeIDs) /\ parseParameters c.(parameters) = inr fs.(gb_parameters).
Proof.
  unfold createInit, SetVolumeGroupName, SetParameters, SetSecret, listed. case_bool_decide; [done|]. cbn [then_set].
  destruct (parseParameters _) as [|ps]; [done|]. cbn [then_set]. destruct (parseSecret _) as [|[ns name]]; [done|].
  cbn [then_set]. intros [= <-]. rewrite volume_ids. unfold SetVolumeIDs. by repeat case_bool_decide.
Qed.

Lemma modify_init fs : modifyInit c = inr fs ->
  parseSecret c.(secret) = inr (fs.(gb_secretNamespace), fs.(gb_secretName)) /\
  fs.(gb_volumeGroupID) = c.(volumeGroupID) /\ c.(volumeGroupID) ≠ "" /\
  fs.(gb_volumeIDs) = listed c.(volumeIDs) /\ parseParameters c.(parameters) = inr fs.(gb_parameters).
Proof.
  unfold modifyInit, SetVolumeGroupID, SetParameters, SetSecret, listed. case_bool_decide; [done|]. cbn [then_set].
  destruct (parseSecret _) as [|[ns name]]; [done|]. cbn [then_set]. destruct (parseParameters _) as [|ps]; [done|].
  intros [= <-]. cbn. rewrite volume_ids. unfold SetVolumeIDs. by repeat case_bool_decide.
Qed.

Lemma operations_listed n op : operations toMode !! n = Some op <-> (n, op) ∈ registrations toMode.
Proof.
  assert (NoDup (registrations toMode).*1) as Hnd by (apply (bool_decide_unpack _); vm_compute; exact I).
  unfold operations. rewrite register_lookup by (done || intros; apply lookup_empty).
  destruct (list_find _ _) as [[i [k op']]|] eqn:Hf.
  - apply list_find_Some in Hf as (Hi & Hk & _). cbn in Hk. subst k. apply list_elem_of_lookup_2 in Hi as Hin. cbn.
    split; [by intros [= <-]|]. intros Hin'. f_equal.
    by injection (NoDup_fmap_inj fst (registrations toMode) (n, op') (n, op) Hnd Hin Hin' eq_refl).
  - rewrite lookup_empty. split; [done|]. intros Hin. apply list_find_None in Hf.
    by destruct (proj1 (Forall_forall _ _) Hf (n, op) Hin).
Qed.

(** What each operation adds to its parsed command line. *)
Ltac handler_safe :=
  unfold Sidecar.FenceClusterNetwork, Sidecar.UnFenceClusterNetwork, Sidecar.CreateVolumeGroup,
    Sidecar.ModifyVolumeGroupMembership, Sidecar.DeleteVolumeGroup, Sidecar.ControllerGetVolumeGroup,
    Sidecar.ControllerReclaimSpace, Sidecar.NodeReclaimSpace, Sidecar.EncryptionKeyRotate,
    Sidecar.stage_secret, Sidecar.with_secret, Sidecar.GetSecret, Sidecar.drive;
  repeat wp_step; try done; cbn [sguard requested].

Ltac volume_safe :=
  repeat match goal with H : (match ?r with inl _ => _ | inr _ => _ end) = inr _ |- _ => destruct r; [done|]; injection H as -> end;
  split; [congruence|]; repeat eexists; try eassumption; try reflexivity;
  unfold stage_secret_read, computed_path, computed_directory, Sidecar.getStagingTargetPath;
  repeat match goal with H : _ = Some _ |- _ => rewrite H | H : _ = None |- _ => rewrite H | H : _ = true |- _ => rewrite H
    | H : _ = false |- _ => rewrite H end;
  rewrite ?elem_of_cons; try tauto; try done.

Lemma main_safe h : safe h (main (operations toMode) c).
Proof.
  unfold main. destruct (operations toMode !! c.(operation_name)) as [op|] eqn:Hop; [|done].
  apply operations_listed in Hop. unfold registrations in Hop.
  repeat (apply elem_of_cons in Hop as [[= Hn ->]|Hop]); [..|by apply not_elem_of_nil in Hop].
  all: try apply replication_safe.
  all: try (apply identity_safe; intros h1; by split).
  - apply (plain_safe (fun c => if bool_decide _ then inl _ else inr _)). intros fs h1. case_bool_decide; [done|]. intros [= <-].
    handler_safe. all: volume_safe.
  - apply plain_safe. intros fs h1 (Hs & -> & ? & -> & ?)%fence_init. handler_safe.
    split_and!; try done. eapply secret_member; [exact Hs|by left].
  - apply plain_safe. intros fs h1 (Hs & -> & ? & -> & ?)%fence_init. handler_safe.
    split_and!; try done. eapply secret_member; [exact Hs|by left].
  - apply (plain_safe (fun c => if bool_decide _ then inl _ else inr _)). intros fs h1. case_bool_decide; [done|]. intros [= <-].
    handler_safe. all: volume_safe.
  - apply plain_safe. intros fs h1. unfold nodeReclaimSpaceInit. intros Hi.
    assert (fs = (c.(persistentVolume), computed_directory)) as ->.
    { unfold computed_directory. by destruct (legacy c); repeat case_match; simplify_eq. }
    cbn [fst snd]. handler_safe. all: volume_safe.
  - apply plain_safe. intros fs h1 (Hs & -> & ? & -> & Hp)%create_init. handler_safe.
    split_and!; try done. eapply secret_member; [exact Hs|by left].
  - apply plain_safe. intros fs h1 (Hs & -> & ? & -> & Hp)%modify_init. handler_safe.
    split_and!; try done. eapply secret_member; [exact Hs|by left].
  - apply plain_safe. intros fs h1 (Hs & -> & ?)%group_init. handler_safe.
    split_and!; try done. eapply secret_member; [exact Hs|by left].
  - apply plain_safe. intros fs h1 (Hs & -> & ?)%group_init. handler_safe.
    split_and!; try done. eapply secret_member; [exact Hs|by left].
Qed.

(** C31: Whatever the driver and the API server answer, the tool connects only to the
    endpoint of the command line and sends the driver only the operation that is asked
    for there: with the group, volumes, parameters, addresses and secret given there,
    or with the handle, attributes, access mode and stage secret of the
    PersistentVolume named there.  The path of NodeReclaimSpace is the one the service
    derives below a directory that the tool computes from the volume's name, which is
    not where kubelet stages the volume ([Demo.node_reclaim_path_doubled]). *)
Theorem tool_sends_what_is_asked (ρ : env tanswer) :
  guarded tool_guard (run ρ [] (main (operations toMode) c)).1.
Proof. apply wp_guarded, main_safe. Qed.

(** ** The replication operations *)

Definition no_service_call (e : tevent) : Prop := match e with TService (SDriver _) => False | _ => True end.

(** C39: None of the six replication operations can succeed: the request is created
    without the message its source is written to, and the attempt to write it is
    refused, so the driver is never asked. *)
Theorem replication_operations_fail (ρ : env tanswer) :
  c.(operation_name) ∈ ["EnableVolumeReplication"; "DisableVolumeReplication"; "PromoteVolume"; "DemoteVolume";
    "ResyncVolume"; "GetVolumeReplicationInfo"] ->
  let '(h, o) := run ρ [] (main (operations toMode) c) in
  Forall (fun e => no_service_call (projT1 e)) h /\ exists m, o = Panicked m.
Proof.
  assert (forall A (handler : Sidecar.proto_ReplicationRequest -> SM (error + A)) format args,
    let '(h, o) := run ρ [] (run_operation (replicationOperation handler format args) c) in
    Forall (fun e => no_service_call (projT1 e)) h /\ exists m, o = Panicked m) as Hrep.
  { intros A handler format args.
    assert (wp (fun _ => no_service_call) (fun _ o => exists m, o = Panicked m) []
      (run_operation (replicationOperation handler format args) c)) as Hwp.
    { unfold run_operation, Connect. cbn [Init Execute replicationOperation setReplicationSource].
      unfold replicationInit, getKubernetesClient, getVolumeReplicationClient, getVolumeGroupReplicationContent, Fatalf.
      repeat wp_step; try done; try (by eexists).
      all: split; [done|]; intros [err|]; cbn; [split; [done|]; intros _|]; by eexists. }
    pose proof (wp_run _ _ _ [] Hwp I ρ) as [Hg Ho]. destruct (run ρ [] _) as [h o]. split; [|done]. clear -Hg.
    induction h as [|[e r] h IH]; [done|]. destruct Hg. constructor; [done|by apply IH]. }
  intros Hin. unfold main.
  assert (exists A (handler : Sidecar.proto_ReplicationRequest -> SM (error + A)) format args,
    operations toMode !! c.(operation_name) = Some (replicationOperation handler format args)) as (A & hd & fmt & args & ->);
    [|apply Hrep].
  repeat (apply elem_of_cons in Hin as [->|Hin]); [..|by apply not_elem_of_nil in Hin];
    eexists _, _, _, _; apply operations_listed;
    unfold registrations, EnableVolumeReplication, DisableVolumeReplication, PromoteVolume, DemoteVolume, ResyncVolume,
      GetVolumeReplicationInfo;
    repeat first [apply list_elem_of_here|apply list_elem_of_further].
Qed.
End contract.

(** ** Command lines *)
Module Demo.
Definition toMode : list string -> error + Z := fun _ => inr 1%Z.
Definition base (op : string) : command :=
  mkCommand "unix:///tmp/csi-addons.sock" "/var/lib/kubelet/plugins/kubernetes.io/csi/" op "pv-1" "" "rbd.csi"
    "ns/secret" "10.0.0.1/32,10.0.0.2/32" "cluster" false "" "" "" "".

(** Every call succeeds. *)
Definition world : env tanswer := fun _ e =>
  match e return tanswer e with
  | TService e =>
    match e return sanswer e with
    | SSecret _ _ => inr {["key" := "value"]}
    | SPV _ => inr (Sidecar.mkSidecarPV (Some (Sidecar.mkSidecarCSI "rbd.csi" "vol-1" ∅ None)) ["ReadWriteOnce"] (Some "Filesystem"))
    | SDriver q =>
      match q return error + Sidecar.csi_response q with
      | Sidecar.CFence _ _ _ | Sidecar.CUnfence _ _ _ => inr tt
      | Sidecar.CNodeReclaim _ _ _ _ => inr (Some (Sidecar.mkUsage None None))
      | _ => inl (ErrorString "unexpected")
      end
    | Sidecar.STokenReview _ => inr false
    end
  | TNewClient _ | TCloseClient | TKubernetesClient | TReplicationClient => None
  | TGetContent _ => inr "group-1"
  | TPrintf _ _ => tt
  end.

Definition driver_call (e : {e & tanswer e}) : option Sidecar.csi_call :=
  match projT1 e with TService (SDriver q) => Some q | _ => None end.

Example fences : observe driver_call (run world [] (main (operations toMode) (base "NetworkFence"))).1 =
  [Sidecar.CFence {["clusterID" := "cluster"]} ["10.0.0.1/32"; "10.0.0.2/32"] {["key" := "value"]}].
Proof. vm_compute. reflexivity. Qed.

Lemma replication_operations_fail_witness :
  let '(h, o) := run world [] (main (operations toMode) (base "PromoteVolume")) in
  Forall (fun e => no_service_call (projT1 e)) h /\ exists m, o = Panicked m.
Proof. apply (replication_operations_fail toMode (base "PromoteVolume") world). vm_compute. right. right. left. Defined.

Lemma parameters_roundtrip_witness :
  parseParameters "pool=rbd,mode=a=b" = inr (<["mode" := "a=b"]> (<["pool" := "rbd"]> ∅)).
Proof. apply (parameters_roundtrip [("pool", "rbd"); ("mode", "a=b")]). by repeat constructor. Defined.

(** The tool computes a staging target path from the name of the PersistentVolume and
    hands it to the service as the staging path, below which the service looks for
    the volume once more: the path it sends is not where the volume is staged. *)
Lemma node_reclaim_path_doubled :
  exists path rest, observe driver_call (run world [] (main (operations toMode) (base "NodeReclaimSpace"))).1 =
    [Sidecar.CNodeReclaim "vol-1" path (Sidecar.mkCapability 1 (Some false)) rest] /\
  path = Filepath.Join ["/var/lib/kubelet/plugins/kubernetes.io/csi/"; "rbd.csi"; Sha256.hex "pv-1"; "globalmount";
                        "rbd.csi"; Sha256.hex "vol-1"; "globalmount"].
Proof. eexists _, _. split; [vm_compute; reflexivity|]. vm_compute. reflexivity. Qed.
End Demo.
