(* ===== verification/Watches.v ===== *)
(** * What wakes a controller

    The SetupWithManager methods of the controllers: the field indexes they
    register, the CRDs they wait for and the watches they declare with
    controller-runtime's builder
    (src/vendor/sigs.k8s.io/controller-runtime/pkg/builder, handler, predicate
    and internal/source).  A watch has a kind, predicates that drop events and a
    handler that turns an event into requests; [requests] says which requests
    of a controller an event makes.  An object that exists when the manager
    starts arrives as a [CreateEvent].

    The informers hand each watch objects of its own kind, so the type
    assertions of the predicates, handlers and index functions succeed and are
    left out, and so are their nil checks. *)

From S2P Require Import Prelude.
From S2P Require Import GoErrors.
From S2P Require Import Config.
From S2P Require Import ApiTypes.
From S2P Require Import CsiaddonsTypes.
From S2P Require Import Effects.
From S2P Require Import ControllerUtil.
From S2P Require Import ManagerMain.
From S2P Require Import NetworkFenceController.
From S2P Require Import JobController.
From S2P Require Import CronJobController.
From S2P Require Import PVCController.
From S2P Require Import VolumeGroupReplicationController.

(** ** Objects of any kind *)

Definition meta_of (k : kind) : obj_of k -> ObjectMeta :=
  match k with
  | KVolumeReplication => vr_meta
  | KVolumeReplicationClass | KVolumeGroupReplicationClass => class_meta
  | KVolumeGroupReplication => vgr_meta
  | KVolumeGroupReplicationContent => vgrc_meta
  | KPersistentVolumeClaim => pvc_meta
  | KPersistentVolume => pv_meta
  | KLease => lease_meta
  | KCSIAddonsNode => node_meta
  | KNetworkFence => nf_meta
  | KNetworkFenceClass => nfc_meta
  | KReclaimSpaceJob => rsj_meta
  | KReclaimSpaceCronJob => rscj_meta
  | KEncryptionKeyRotationJob => krj_meta
  | KEncryptionKeyRotationCronJob => krcj_meta
  | KVolumeAttachment => va_meta
  | KPod => pod_meta
  | KNamespace => ns_meta
  | KStorageClass => sc_meta
  end.

(** The metadata of an object is an object of its own to the helpers that read
    nothing else. *)
#[global, refine] Instance Meta_HasMeta : HasMeta ObjectMeta := {| meta m := m; set_meta _ m := m |}.
Proof. done. Defined.

Definition key_of (m : ObjectMeta) : NamespacedName := mkNamespacedName m.(Namespace) m.(Name).

(** The group and kind the scheme has for the kinds that own others. *)
Definition group_kind (k : kind) : string * string :=
  match k with
  | KVolumeReplication => ("replication.storage.openshift.io", "VolumeReplication")
  | KVolumeReplicationClass => ("replication.storage.openshift.io", "VolumeReplicationClass")
  | KVolumeGroupReplication => ("replication.storage.openshift.io", "VolumeGroupReplication")
  | KVolumeGroupReplicationClass => ("replication.storage.openshift.io", "VolumeGroupReplicationClass")
  | KVolumeGroupReplicationContent => ("replication.storage.openshift.io", "VolumeGroupReplicationContent")
  | KPersistentVolumeClaim => ("", "PersistentVolumeClaim")
  | KPersistentVolume => ("", "PersistentVolume")
  | KLease => ("coordination.k8s.io", "Lease")
  | KCSIAddonsNode => ("csiaddons.openshift.io", "CSIAddonsNode")
  | KNetworkFence => ("csiaddons.openshift.io", "NetworkFence")
  | KNetworkFenceClass => ("csiaddons.openshift.io", "NetworkFenceClass")
  | KReclaimSpaceJob => ("csiaddons.openshift.io", "ReclaimSpaceJob")
  | KReclaimSpaceCronJob => ("csiaddons.openshift.io", "ReclaimSpaceCronJob")
  | KEncryptionKeyRotationJob => ("csiaddons.openshift.io", "EncryptionKeyRotationJob")
  | KEncryptionKeyRotationCronJob => ("csiaddons.openshift.io", "EncryptionKeyRotationCronJob")
  | KVolumeAttachment => ("storage.k8s.io", "VolumeAttachment")
  | KPod => ("", "Pod")
  | KNamespace => ("", "Namespace")
  | KStorageClass => ("storage.k8s.io", "StorageClass")
  end.

(** ** Predicates *)

Definition predicate (k : kind) : Type := watch_event (obj_of k) -> bool.

(** predicate.Funcs with an UpdateFunc only: a function that is not set accepts. *)
Definition UpdateFunc {k : kind} (f : obj_of k -> obj_of k -> bool) : predicate k :=
  fun e => match e with UpdateEvent old new => f old new | _ => true end.

(** predicate.Funcs with an UpdateFunc, and a CreateFunc that rejects. *)
Definition UpdateNotCreate {k : kind} (f : obj_of k -> obj_of k -> bool) : predicate k :=
  fun e => match e with UpdateEvent old new => f old new | CreateEvent _ => false | _ => true end.

Definition GenerationChangedPredicate (k : kind) : predicate k :=
  UpdateFunc (fun old new => negb (bool_decide ((meta_of k new).(Generation) = (meta_of k old).(Generation)))).

Definition AnnotationChangedPredicate (k : kind) : predicate k :=
  UpdateFunc (fun old new => negb (bool_decide ((meta_of k new).(Annotations) = (meta_of k old).(Annotations)))).

Definition Or (ps : list (forall k, predicate k)) (k : kind) : predicate k :=
  fun e => existsb (fun p : forall k, predicate k => p k e) ps.

(** ** Handlers *)

Definition handler (k : kind) : Type := watch_event (obj_of k) -> M (list NamespacedName).

Definition EnqueueRequestForObject (k : kind) : handler k :=
  fun e => match e with
           | CreateEvent o | UpdateEvent _ o | DeleteEvent o | GenericEvent o => mret [key_of (meta_of k o)]
           end.

(** A map of requests: each one is added once. *)
Fixpoint add_requests (reqs new : list NamespacedName) : list NamespacedName :=
  match new with
  | [] => reqs
  | r :: new => add_requests (if bool_decide (r ∈ reqs) then reqs else reqs ++ [r]) new
  end.

Definition EnqueueRequestsFromMapFunc {k : kind} (toRequests : obj_of k -> M (list NamespacedName)) : handler k :=
  fun e =>
    match e with
    | CreateEvent o | DeleteEvent o | GenericEvent o => reqs ← toRequests o; mret (add_requests [] reqs)
    | UpdateEvent old new =>
      reqs ← toRequests old;
      reqs' ← toRequests new;
      mret (add_requests (add_requests [] reqs) reqs')
    end.

Section owner.
(** The REST mapper: whether the owner's kind is namespaced in the API version
    of the reference. *)
Variable RESTMapping : kind -> string -> error + bool.

(** getOwnerReconcileRequest for the controller of [obj]. *)
Definition getOwnerReconcileRequest (ownerType : kind) (m : ObjectMeta) : list NamespacedName :=
  match GetControllerOf m with
  | None => []
  | Some ref =>
    match ParseGroup ref.(or_APIVersion) with
    | None => []
    | Some group =>
      if bool_decide (ref.(or_Kind) = (group_kind ownerType).2) && bool_decide (group = (group_kind ownerType).1) then
        match RESTMapping ownerType ref.(or_APIVersion) with
        | inl _ => []
        | inr namespaced => [mkNamespacedName (if namespaced then m.(Namespace) else "") ref.(or_Name)]
        end
      else []
    end
  end.

Definition EnqueueRequestForOwner (ownerType k : kind) : handler k :=
  fun e =>
    match e with
    | CreateEvent o | DeleteEvent o | GenericEvent o =>
      mret (add_requests [] (getOwnerReconcileRequest ownerType (meta_of k o)))
    | UpdateEvent old new =>
      mret (add_requests (add_requests [] (getOwnerReconcileRequest ownerType (meta_of k old)))
              (getOwnerReconcileRequest ownerType (meta_of k new)))
    end.

(** ** The builder *)

(** What one SetupWithManager tells the builder. *)
Record builder := mkBuilder {
  For : kind;
  for_predicates : list (predicate For);
  Owns : list {k : kind & list (predicate k)};
  watchesInput : list {k : kind & (handler k * list (predicate k))%type};
  globalPredicates : list (forall k, predicate k);
  WithOptions : option Z             (* MaxConcurrentReconciles *)
}.

Definition source : Type := {k : kind & (handler k * list (predicate k))%type}.

(** doWatch: the event filters of the builder come before those of each watch. *)
Definition doWatch (b : builder) : list source :=
  let globals k := map (fun p : forall k, predicate k => p k) b.(globalPredicates) in
  existT b.(For) (EnqueueRequestForObject b.(For), globals b.(For) ++ b.(for_predicates)) ::
  map (fun own : {k : kind & list (predicate k)} =>
         existT (projT1 own) (EnqueueRequestForOwner b.(For) (projT1 own), globals (projT1 own) ++ projT2 own) : source)
      b.(Owns) ++
  map (fun w : source => existT (projT1 w) ((projT2 w).1, globals (projT1 w) ++ (projT2 w).2) : source)
      b.(watchesInput).

(** OnAdd, OnUpdate and OnDelete of one source. *)
Definition on_event {k : kind} (h : handler k) (ps : list (predicate k)) (e : watch_event (obj_of k))
    : M (list NamespacedName) :=
  if forallb (fun p => p e) ps then h e else mret [].

(** The watches of kind [k]. *)
Definition source_in (k : kind) (s : source) : option (handler k * list (predicate k)) :=
  match decide (projT1 s = k) with
  | left H => Some (eq_rect (projT1 s) (fun k => (handler k * list (predicate k))%type) (projT2 s) k H)
  | right _ => None
  end.
Definition sources_of (k : kind) (b : builder) : list (handler k * list (predicate k)) :=
  omap (source_in k) (doWatch b).

(** The requests that an event on an object of kind [k] adds to the queue. *)
Fixpoint deliver {k : kind} (l : list (handler k * list (predicate k))) (e : watch_event (obj_of k))
    : M (list NamespacedName) :=
  match l with
  | [] => mret []
  | (h, ps) :: l =>
    r ← on_event h ps e;
    rs ← deliver l e;
    mret (r ++ rs)
  end.
Definition requests (b : builder) (k : kind) (e : watch_event (obj_of k)) : M (list NamespacedName) :=
  deliver (sources_of k b) e.
End owner.

(** ** Setting up *)

(** The manager's side of a SetupWithManager: registering a field index, the
    API calls of the waits, and building the controller. *)
Inductive sevent :=
| SIndexField (k : kind) (field : string) (indexFn : obj_of k -> list string)
| SApi (e : event)
| SComplete (b : builder).

Definition sanswer (e : sevent) : Type :=
  match e with
  | SIndexField _ _ _ | SComplete _ => option error
  | SApi e => answer e
  end.

Abbreviation SM := (prog sanswer).

Record index := mkIndex { ix_kind : kind; ix_field : string; indexFn : obj_of ix_kind -> list string }.

(** Registering indexes, up to the first failure. *)
Fixpoint index_fields (indices : list index) : SM (option error) :=
  match indices with
  | [] => mret None
  | ix :: indices =>
    err ← call (SIndexField ix.(ix_kind) ix.(ix_field) ix.(indexFn));
    match err with
    | Some err => mret (Some err)
    | None => index_fields indices
    end
  end.

Definition complete (b : builder) : SM (option (option error)) :=
  err ← call (SComplete b);
  mret (Some err).

(** The calls of a wait, made by the manager's start-up. *)
Definition api {A} (p : M A) : SM A := embed SApi (fun _ r => r) p.

(** *** csiaddonsnode_controller.go *)
Module NodeSetup.
Definition watches (opts : Z) : builder :=
  mkBuilder KCSIAddonsNode [] [] [] [Or [GenerationChangedPredicate; AnnotationChangedPredicate]] (Some opts).
Definition SetupWithManager (opts : Z) : SM (option (option error)) := complete (watches opts).
End NodeSetup.

(** *** networkfence_controller.go *)
Module FenceSetup.
Definition watches (opts : Z) : builder :=
  mkBuilder KNetworkFence [] [] [] [GenerationChangedPredicate] (Some opts).
Definition SetupWithManager (opts : Z) : SM (option (option error)) := complete (watches opts).
End FenceSetup.

(** *** networkfenceclass_controller.go *)
Module FenceClassSetup.
Definition shape {A} (e : watch_event A) : FenceClass.watch_event :=
  match e with
  | CreateEvent _ => FenceClass.CreateEvent
  | UpdateEvent _ _ => FenceClass.UpdateEvent
  | DeleteEvent _ => FenceClass.DeleteEvent
  | GenericEvent _ => FenceClass.GenericEvent
  end.
Definition node_watch : source :=
  existT KCSIAddonsNode
    (EnqueueRequestsFromMapFunc (k:=KCSIAddonsNode) FenceClass.enqueueNFC,
     [fun e : watch_event (obj_of KCSIAddonsNode) => FenceClass.csiAddonsNodePredicate (shape e)]).
Definition watches : builder := mkBuilder KNetworkFenceClass [] [] [node_watch] [] None.
Definition node_index : index := mkIndex KCSIAddonsNode FenceClass.driverName FenceClass.index_node.
Definition class_index : index := mkIndex KNetworkFenceClass FenceClass.provisionerName FenceClass.index_class.
Definition SetupWithManager : SM (option (option error)) :=
  err ← index_fields [node_index];
  match err with
  | Some err => mret (Some (Some (ErrorString ("unable to set up FieldIndexer for CSIAddonsNode Provisioner: " +:+ Error err))))
  | None =>
    err ← index_fields [class_index];
    match err with
    | Some err => mret (Some (Some (ErrorString ("unable to set up FieldIndexer for NetworkFenceClass Provisioner: " +:+ Error err))))
    | None => complete watches
    end
  end.
End FenceClassSetup.

(** *** reclaimspacejob_controller.go, encryptionkeyrotationjob_controller.go *)
Module JobSetup.
(** The watch that fills the cache of the attachments. *)
Definition attachment_watch : source :=
  existT KVolumeAttachment (EnqueueRequestForObject KVolumeAttachment, [SilentPredicate]).
Definition rs_watches (opts : Z) : builder :=
  mkBuilder KReclaimSpaceJob [] [] [attachment_watch] [GenerationChangedPredicate] (Some opts).
Definition kr_watches (opts : Z) : builder :=
  mkBuilder KEncryptionKeyRotationJob [] [] [attachment_watch] [GenerationChangedPredicate] (Some opts).
Definition rs_SetupWithManager (opts : Z) : SM (option (option error)) := complete (rs_watches opts).
Definition kr_SetupWithManager (opts : Z) : SM (option (option error)) := complete (kr_watches opts).
End JobSetup.

(** *** reclaimspacecronjob_controller.go, encryptionkeyrotationcronjob_controller.go *)
Module CronSetup.
Definition rs_watches (opts : Z) : builder :=
  mkBuilder KReclaimSpaceCronJob [] [existT KReclaimSpaceJob []] [] [] (Some opts).
Definition kr_watches (opts : Z) : builder :=
  mkBuilder KEncryptionKeyRotationCronJob [] [existT KEncryptionKeyRotationJob []] [] [] (Some opts).
Definition rs_index : index := mkIndex KReclaimSpaceJob JobOwnerKey ReclaimSpaceCron.owner_index.
Definition kr_index : index := mkIndex KEncryptionKeyRotationJob JobOwnerKey KeyRotationCron.owner_index.

(** Both register one index first. *)
Definition index_and_complete (indices : list index) (b : builder) : SM (option (option error)) :=
  err ← index_fields indices;
  match err with
  | Some err => mret (Some (Some err))
  | None => complete b
  end.
Definition rs_SetupWithManager (opts : Z) : SM (option (option error)) :=
  index_and_complete [rs_index] (rs_watches opts).
Definition kr_SetupWithManager (opts : Z) : SM (option (option error)) :=
  index_and_complete [kr_index] (kr_watches opts).
End CronSetup.

(** *** persistentvolumeclaim_controller.go *)
Module ClaimSetup.
Definition annotations : list string :=
  [RsCronJobScheduleTimeAnnotation; KrcJobScheduleTimeAnnotation; KrEnableAnnotation].
Definition annotationPredicate (k : kind) : predicate k :=
  UpdateFunc (fun old new =>
    PVCReconciler.createAnnotationPredicate annotations (Some (meta_of k old)) (Some (meta_of k new))).
Definition class_watch : source :=
  existT KStorageClass
    (EnqueueRequestsFromMapFunc (k:=KStorageClass) PVCReconciler.storageClassEventHandler,
     [annotationPredicate KStorageClass]).
Definition watches (opts : Z) : builder :=
  mkBuilder KPersistentVolumeClaim []
    [existT KReclaimSpaceCronJob []; existT KEncryptionKeyRotationCronJob []]
    [class_watch] [annotationPredicate] (Some opts).

(** The three field indexes. *)
Definition indices : list index :=
  [mkIndex KReclaimSpaceCronJob JobOwnerKey ExtractOwnerNameFromPVCObj;
   mkIndex KEncryptionKeyRotationCronJob JobOwnerKey ExtractOwnerNameFromPVCObj;
   mkIndex KPersistentVolumeClaim "spec.storageClassName" storage_class_index].
Definition setupIndexers : SM (option error) := index_fields indices.

Definition SetupWithManager (opts : Z) : SM (option (option error)) :=
  err ← setupIndexers;
  match err with
  | Some err => mret (Some (Some err))
  | None => complete (watches opts)
  end.
End ClaimSetup.

(** *** pvc_new_controller.go *)
Module NewClaimSetup.
Definition class_watch : source :=
  existT KStorageClass
    (EnqueueRequestsFromMapFunc (k:=KStorageClass) ScMapFunc, [StorageClassPredicate]).
(** The watch that fills the cache of the volumes. *)
Definition volume_watch : source :=
  existT KPersistentVolume (EnqueueRequestForObject KPersistentVolume, [SilentPredicate]).
Definition watches (opts : Z) : builder :=
  mkBuilder KPersistentVolumeClaim []
    [existT KReclaimSpaceCronJob []; existT KEncryptionKeyRotationCronJob []]
    [class_watch; volume_watch] [] (Some opts).

Definition indices : list index := [mkIndex KPersistentVolumeClaim StorageClassIndex storage_class_index].
Definition SetupPVCControllerIndexers : SM (option error) := index_fields indices.

Definition SetupWithManager (opts : Z) : SM (option (option error)) :=
  err ← SetupPVCControllerIndexers;
  match err with
  | Some err => mret (Some (Some err))
  | None => complete (watches opts)
  end.
End NewClaimSetup.

(** *** volumereplication_controller.go *)
Module ReplicationSetup.
Definition watches (opts : Z) : builder :=
  mkBuilder KVolumeReplication [] [] [] [GenerationChangedPredicate] (Some opts).
Definition SetupWithManager (fuel : nat) (opts : Z) : SM (option (option error)) :=
  r ← api (waitForCrds fuel);
  match r with
  | Some None => complete (watches opts)
  | r => mret r
  end.
End ReplicationSetup.

(** *** volumegroupreplication_controller.go *)
Module GroupSetup.
Section selectors.
Variable labels_Parse : string -> error + string.
Variable Matches : string -> gmap string string -> bool.

(** The owned kinds are watched for the cache only. *)
Definition skipUpdates {k : kind} : predicate k := fun _ => false.

Definition lift_outcome {A} (o : outcome A) : M A :=
  match o with Done a => mret a | Panicked m => Panic m end.

Definition content_watch : source :=
  existT KVolumeGroupReplicationContent
    (EnqueueRequestsFromMapFunc (k:=KVolumeGroupReplicationContent)
       (fun c : VGRC => lift_outcome (enqueueVGRRequest c.(vgrc_meta).(Annotations))),
     [UpdateNotCreate (k:=KVolumeGroupReplicationContent) (fun old new => watchOnlySpecUpdates (Some old) (Some new))]).
Definition replication_watch : source :=
  existT KVolumeReplication
    (EnqueueRequestsFromMapFunc (k:=KVolumeReplication)
       (fun vr : VolumeReplication => lift_outcome (enqueueVGRRequest vr.(vr_meta).(Annotations))),
     [UpdateNotCreate (k:=KVolumeReplication) (fun old new => watchOnlyStatusUpdates (Some old) (Some new))]).
Definition claim_watch : source :=
  existT KPersistentVolumeClaim
    (EnqueueRequestsFromMapFunc (k:=KPersistentVolumeClaim)
       (fun pvc : PersistentVolumeClaim => enqueueVGRForPVCRequest labels_Parse Matches pvc.(pvc_meta).(Labels)),
     [GenerationChangedPredicate KPersistentVolumeClaim]).

Definition watches : builder :=
  mkBuilder KVolumeGroupReplication [GenerationChangedPredicate KVolumeGroupReplication]
    [existT KVolumeGroupReplicationContent [skipUpdates]; existT KVolumeReplication [skipUpdates]]
    [content_watch; replication_watch; claim_watch] [] None.

Definition SetupWithManager (fuel : nat) : SM (option (option error)) :=
  r ← api (waitForGroupCrds fuel);
  match r with
  | Some None => complete watches
  | r => mret r
  end.
End selectors.
End GroupSetup.

(** *** volumegroupreplicationcontent_controller.go *)
Module ContentSetup.
Definition watches : builder := mkBuilder KVolumeGroupReplicationContent [] [] [] [] None.
Definition SetupWithManager : SM (option (option error)) := complete watches.
End ContentSetup.

(** ** The controllers of the manager *)
Section all.
Variable labels_Parse : string -> error + string.
Variable Matches : string -> gmap string string -> bool.

(** The SetupWithManager that main calls for a reconciler; [opts] is what main
    passes (the three that take no options are passed none). *)
Definition SetupWithManager (fuel : nat) (r : reconciler) (opts : Z) : SM (option (option error)) :=
  match r with
  | CSIAddonsNodeReconciler _ _ _ => NodeSetup.SetupWithManager opts
  | ReclaimSpaceJobReconciler _ _ => JobSetup.rs_SetupWithManager opts
  | NetworkFenceReconciler _ _ => FenceSetup.SetupWithManager opts
  | ReclaimSpaceCronJobReconciler => CronSetup.rs_SetupWithManager opts
  | PVCReconiler _ => NewClaimSetup.SetupWithManager opts
  | PersistentVolumeClaimReconciler _ _ => ClaimSetup.SetupWithManager opts
  | VolumeReplicationReconciler _ _ => ReplicationSetup.SetupWithManager fuel opts
  | VolumeGroupReplicationReconciler _ _ => GroupSetup.SetupWithManager labels_Parse Matches fuel
  | VolumeGroupReplicationContentReconciler _ _ => ContentSetup.SetupWithManager
  | EncryptionKeyRotationJobReconciler _ _ => JobSetup.kr_SetupWithManager opts
  | EncryptionKeyRotationCronJobReconciler => CronSetup.kr_SetupWithManager opts
  | NetworkFenceClassReconciler => FenceClassSetup.SetupWithManager
  end.
End all.
