(* ===== verification/WatchesProofs.v ===== *)
(** * What wakes a controller: theorems

    Setting up registers the field indexes a controller lists by, waits for its
    CRDs and then declares its watches; the reconcilers list by no other index.
    What a controller creates wakes it again when it changes; what a controller
    writes to its own object does not wake it. *)

From S2P Require Import Prelude.
From S2P Require Import GoErrors.
From S2P Require Import GoStrconv.
From S2P Require Import GoTime.
From S2P Require Import Config.
From S2P Require Import ApiTypes.
From S2P Require Import CsiaddonsTypes.
From S2P Require Import Effects.
From S2P Require Import ControllerUtil.
From S2P Require Import StringFacts.
From S2P Require Import SidecarNode.
From S2P Require Import CSIAddonsNodeController.
From S2P Require Import CSIAddonsNodeProofs.
From S2P Require Import ManagerMain.
From S2P Require Import NetworkFenceController.
From S2P Require Import NetworkFenceProofs.
From S2P Require Import JobController.
From S2P Require Import JobProofs.
From S2P Require Import CronJobController.
From S2P Require Import CronJobProofs.
From S2P Require Import PVCController.
From S2P Require Import PVCProofs.
From S2P Require Import Pipeline.
From S2P Require Import VolumeReplicationController.
From S2P Require Import VolumeReplicationProofs.
From S2P Require Import VolumeGroupReplicationController.
From S2P Require Import VolumeGroupReplicationProofs.
From S2P Require Import VolumeGroupReplicationContentController.
From S2P Require Import VolumeGroupReplicationContentProofs.
From S2P Require Import Watches.

(** ** Setting up *)

(** The kind that a controller reconciles. *)
Definition main_kind (r : reconciler) : kind :=
  match r with
  | CSIAddonsNodeReconciler _ _ _ => KCSIAddonsNode
  | ReclaimSpaceJobReconciler _ _ => KReclaimSpaceJob
  | NetworkFenceReconciler _ _ => KNetworkFence
  | ReclaimSpaceCronJobReconciler => KReclaimSpaceCronJob
  | PVCReconiler _ | PersistentVolumeClaimReconciler _ _ => KPersistentVolumeClaim
  | VolumeReplicationReconciler _ _ => KVolumeReplication
  | VolumeGroupReplicationReconciler _ _ => KVolumeGroupReplication
  | VolumeGroupReplicationContentReconciler _ _ => KVolumeGroupReplicationContent
  | EncryptionKeyRotationJobReconciler _ _ => KEncryptionKeyRotationJob
  | EncryptionKeyRotationCronJobReconciler => KEncryptionKeyRotationCronJob
  | NetworkFenceClassReconciler => KNetworkFenceClass
  end.

Section declares.
Context (labels_Parse : string -> error + string) (Matches : string -> gmap string string -> bool).

(** The watches that a controller declares. *)
Definition watches_of (r : reconciler) (opts : Z) : builder :=
  match r with
  | CSIAddonsNodeReconciler _ _ _ => NodeSetup.watches opts
  | ReclaimSpaceJobReconciler _ _ => JobSetup.rs_watches opts
  | NetworkFenceReconciler _ _ => FenceSetup.watches opts
  | ReclaimSpaceCronJobReconciler => CronSetup.rs_watches opts
  | PVCReconiler _ => NewClaimSetup.watches opts
  | PersistentVolumeClaimReconciler _ _ => ClaimSetup.watches opts
  | VolumeReplicationReconciler _ _ => ReplicationSetup.watches opts
  | VolumeGroupReplicationReconciler _ _ => GroupSetup.watches labels_Parse Matches
  | VolumeGroupReplicationContentReconciler _ _ => ContentSetup.watches
  | EncryptionKeyRotationJobReconciler _ _ => JobSetup.kr_watches opts
  | EncryptionKeyRotationCronJobReconciler => CronSetup.kr_watches opts
  | NetworkFenceClassReconciler => FenceClassSetup.watches
  end.
End declares.

(** The field indexes a controller needs, and the kinds it waits for. *)
Definition needed (r : reconciler) : list (kind * string) :=
  match r with
  | ReclaimSpaceCronJobReconciler => [(KReclaimSpaceJob, JobOwnerKey)]
  | EncryptionKeyRotationCronJobReconciler => [(KEncryptionKeyRotationJob, JobOwnerKey)]
  | PVCReconiler _ => [(KPersistentVolumeClaim, StorageClassIndex)]
  | PersistentVolumeClaimReconciler _ _ =>
    [(KReclaimSpaceCronJob, JobOwnerKey); (KEncryptionKeyRotationCronJob, JobOwnerKey);
     (KPersistentVolumeClaim, "spec.storageClassName")]
  | NetworkFenceClassReconciler =>
    [(KCSIAddonsNode, FenceClass.driverName); (KNetworkFenceClass, FenceClass.provisionerName)]
  | _ => []
  end.
Definition awaited (r : reconciler) : list kind :=
  match r with
  | VolumeReplicationReconciler _ _ => [KVolumeReplicationClass; KVolumeReplication]
  | VolumeGroupReplicationReconciler _ _ =>
    [KVolumeGroupReplicationClass; KVolumeGroupReplication; KVolumeGroupReplicationContent]
  | _ => []
  end.

Abbreviation shist := (history sanswer).

(** The indexes registered so far. *)
Definition index_of (c : {e : sevent & sanswer e}) : option (kind * string) :=
  match c with existT (SIndexField k f _) None => Some (k, f) | _ => None end.
Definition registered (h : shist) : list (kind * string) := observe index_of h.

(** The kinds that could be listed. *)
Definition listed_of (c : {e : sevent & sanswer e}) : option kind :=
  match c with
  | existT (SApi e) r =>
    match e return answer e -> option kind with
    | EList k None _ => fun r => match r with inr _ => Some k | inl _ => None end
    | _ => fun _ => None
    end r
  | _ => None
  end.
Definition listed (h : shist) : list kind := observe listed_of h.

(** The controller is built last, once its indexes are registered and its CRDs
    are there. *)
Definition setup_contract (r : reconciler) (b0 : builder) (h : shist) (e : sevent) : Prop :=
  match e with
  | SIndexField k f _ => (k, f) ∈ needed r /\ (k, f) ∉ registered h
  | SApi (EList k None ns) => k ∈ awaited r
  | SApi (ESleep d) => d = (5 * second)%Z
  | SApi _ => False
  | SComplete b => b = b0 /\ reverse (registered h) = needed r /\
      forall k, k ∈ awaited r -> k ∈ listed h
  end.

(** Setting up succeeds exactly when the controller was built; an error is one
    that the manager or the API server answered, or wraps one. *)
Definition setup_ends (h : shist) (o : outcome (option (option error))) : Prop :=
  match o with
  | Done (Some None) => exists b, head h = Some (existT (SComplete b) None)
  | Done (Some (Some err)) => exists c, head h = Some c /\
      match c with
      | existT (SIndexField _ _ _ | SComplete _) a => a ≠ None
      | existT (SApi e) _ => exists k ns, e = EList k None ns
      end
  | Done None => exists d, head h = Some (existT (SApi (ESleep d)) tt)
  | Panicked _ => False
  end.

Section setup.
Context (labels_Parse : string -> error + string) (Matches : string -> gmap string string -> bool).
Context (r : reconciler) (b : builder).

Definition api_only (e : sevent) : Prop := match e with SApi _ => True | _ => False end.

Lemma registered_api h h' : extends api_only h h' -> registered h' = registered h.
Proof. intros Hext. apply (observe_extends _ _ _ _ Hext). by intros []. Qed.

Lemma listed_grows P h h' k : extends P h h' -> k ∈ listed h -> k ∈ listed h'.
Proof. intros (t & -> & _). unfold listed, observe. rewrite omap_app, elem_of_app. by right. Qed.

(** What waiting for kind [k] leaves behind. *)
Definition waited (fuel : nat) (k : kind) (h h' : shist) (o : outcome (option (option error))) : Prop :=
  extends api_only h h' /\ exists res, o = Done res /\
  match res with
  | Some None => k ∈ listed h'
  | Some (Some _) => exists ns a, head h' = Some (existT (SApi (EList k None ns)) a)
  | None => fuel = 0%nat /\ h' = h \/ exists d, head h' = Some (existT (SApi (ESleep d)) tt)
  end.

Lemma wait_wp fuel k h :
  k ∈ awaited r -> wp (setup_contract r b) (waited fuel k h) h (api (WaitForVolumeReplicationResource fuel k)).
Proof.
  intros Hk. revert h. induction fuel as [|fuel IH]; intros h; simpl.
  { split; [apply extends_refl|]. exists None. split; [done|by left]. }
  split; [done|]. intros [err|l]; simpl.
  - destruct (negb (as_nomatch err)); simpl.
    + split; [by apply extends_one|]. eexists. split; [done|]. by eexists _, _.
    + split; [done|]. intros []. eapply wp_post; [apply IH|].
      intros h' o (Hext & res & -> & Hres). split.
      { eapply extends_trans; [|exact Hext]. by apply extends_cons; [apply extends_one|]. }
      exists res. split; [done|]. destruct res as [[|]|]; [done..|]. right.
      destruct Hres as [[-> ->]|Hres]; [by eexists|done].
  - split; [by apply extends_one|]. eexists. split; [done|]. apply list_elem_of_here.
Qed.

Lemma wp_api_bind {A B} G Q (p : M A) (f : A -> M B) h :
  wp G Q h (api p ≫= fun a => api (f a)) -> wp G Q h (api (p ≫= f)).
Proof. revert h. induction p as [a|m|e k IH]; intros h; [done..|]. intros [He Hk]. split; [done|]. intros a. apply IH, Hk. Qed.

(** What the waits for the kinds [ks] leave behind, from history [h0]. *)
Definition all_waited (ks : list kind) (h0 h' : shist) (o : outcome (option (option error))) : Prop :=
  extends api_only h0 h' /\ exists res, o = Done res /\
  match res with
  | Some None => forall k, k ∈ ks -> k ∈ listed h'
  | Some (Some _) => exists k ns a, head h' = Some (existT (SApi (EList k None ns)) a)
  | None => exists d, head h' = Some (existT (SApi (ESleep d)) tt)
  end.

(** One wait before others. *)
Lemma wait_then fuel k ks next h0 h :
  k ∈ awaited r -> extends api_only h0 h ->
  (forall h', extends api_only h0 h' -> extends api_only h h' -> k ∈ listed h' ->
     wp (setup_contract r b) (all_waited ks h0) h' (api next)) ->
  wp (setup_contract r b) (all_waited ks h0) h
    (api (res ← WaitForVolumeReplicationResource (S fuel) k;
          match res with Some None => next | res => mret res end)).
Proof.
  intros Hk Hext Hnext. apply wp_api_bind. eapply wp_seq; [by apply wait_wp|].
  intros h' o (Hext' & res & -> & Hres). pose proof (extends_trans _ _ _ _ Hext Hext') as Hall.
  destruct res as [[err|]|]; cbn [after].
  - split; [done|]. eexists. split; [done|]. destruct Hres as (ns & a & ?). eauto.
  - by apply Hnext.
  - split; [done|]. eexists. split; [done|]. by destruct Hres as [[? _]|?].
Qed.

(** The last wait. *)
Lemma wait_last fuel k ks h0 h :
  k ∈ awaited r -> extends api_only h0 h -> (forall k', k' ∈ ks -> k' = k \/ k' ∈ listed h) ->
  wp (setup_contract r b) (all_waited ks h0) h (api (WaitForVolumeReplicationResource (S fuel) k)).
Proof.
  intros Hk Hext Hks. eapply wp_post; [by apply wait_wp|].
  intros h' o (Hext' & res & -> & Hres). split; [by eapply extends_trans|]. exists res. split; [done|].
  destruct res as [[err|]|].
  - destruct Hres as (ns & a & ?). eauto.
  - intros k' [->|Hin]%Hks; [done|]. by eapply listed_grows.
  - by destruct Hres as [[? _]|?].
Qed.

Lemma waitForCrds_wp fuel h : awaited r = [KVolumeReplicationClass; KVolumeReplication] ->
  wp (setup_contract r b) (all_waited (awaited r) h) h (api (waitForCrds (S fuel))).
Proof.
  intros Haw. apply wait_then; [rewrite Haw; set_solver|apply extends_refl|]. intros h1 Hext _ Hl.
  apply wait_last; rewrite ?Haw; [set_solver|done|]. set_solver.
Qed.

Lemma waitForGroupCrds_wp fuel h :
  awaited r = [KVolumeGroupReplicationClass; KVolumeGroupReplication; KVolumeGroupReplicationContent] ->
  wp (setup_contract r b) (all_waited (awaited r) h) h (api (waitForGroupCrds (S fuel))).
Proof.
  intros Haw. apply wait_then; [rewrite Haw; set_solver|apply extends_refl|]. intros h1 Hext1 _ Hl1.
  apply wait_then; [rewrite Haw; set_solver|done|]. intros h2 Hext2 Hext12 Hl2.
  pose proof (listed_grows _ _ _ _ Hext12 Hl1) as Hl.
  apply wait_last; rewrite ?Haw; [set_solver|done|]. set_solver.
Qed.

(** Building after the waits. *)
Lemma complete_wp h :
  reverse (registered h) = needed r -> (forall k, k ∈ awaited r -> k ∈ listed h) ->
  wp (setup_contract r b) setup_ends h (complete b).
Proof. intros Hr Hl. split; [done|]. intros [err|]; [by eexists; split|by eexists]. Qed.

Lemma wait_complete_wp p :
  needed r = [] ->
  (forall h, wp (setup_contract r b) (all_waited (awaited r) h) h (api p)) ->
  wp (setup_contract r b) setup_ends []
    (res ← api p; match res with Some None => complete b | res => mret res end).
Proof.
  intros Hn Hp. eapply wp_seq; [apply Hp|]. intros h' o (Hext & res & -> & Hres).
  destruct res as [[err|]|]; cbn [after].
  - destruct Hres as (k & ns & a & Hh). eexists. split; [exact Hh|]. by exists k, ns.
  - apply complete_wp; [|done]. by rewrite (registered_api [] h' Hext), Hn.
  - destruct Hres as [d Hd]. by exists d.
Qed.

(** Registering indexes. *)
Lemma index_fields_wp (l : list index) h :
  let names := map (fun ix => (ix.(ix_kind), ix.(ix_field))) l in
  (forall i, i ∈ names -> i ∈ needed r /\ i ∉ registered h) -> NoDup names ->
  wp (setup_contract r b) (fun h' o => exists err, o = Done err /\
    match err with
    | None => registered h' = reverse names ++ registered h
    | Some err => exists k f fn, head h' = Some (existT (SIndexField k f fn) (Some err))
    end) h (index_fields l).
Proof.
  cbv zeta. revert h. induction l as [|ix l IH]; intros h Hin Hnd; simpl.
  { by exists None. }
  apply NoDup_cons in Hnd as [Hfresh Hnd]. split; [apply Hin; left|]. intros [err|]; simpl.
  - eexists. split; [done|]. by eexists _, _, _.
  - eapply wp_post; [apply IH; [|done]|].
    + intros i Hi. destruct (Hin i) as [Hn Hr]; [by right|]. split; [done|].
      intros [->|Hr']%elem_of_cons; [by apply Hfresh|by apply Hr].
    + intros h' o ([err|] & -> & Hres); eexists; (split; [done|]); [done|].
      rewrite Hres, reverse_cons, <- app_assoc. done.
Qed.

Lemma index_complete_wp (l : list index) wrap :
  awaited r = [] ->
  map (fun ix => (ix.(ix_kind), ix.(ix_field))) l = needed r -> NoDup (needed r) ->
  wp (setup_contract r b) setup_ends []
    (err ← index_fields l; match err with Some err => mret (Some (Some (wrap err))) | None => complete b end).
Proof.
  intros Ha Hl Hnd. eapply wp_seq.
  - apply index_fields_wp; rewrite Hl; [|done]. intros i Hi. split; [done|]. apply not_elem_of_nil.
  - intros h' o ([err|] & -> & Hres); cbn [after].
    + destruct Hres as (k & f & fn & Hh). by eexists; split.
    + apply complete_wp; [|by rewrite Ha; intros k Hk%elem_of_nil].
      rewrite Hres, Hl. cbn. by rewrite app_nil_r, reverse_involutive.
Qed.
End setup.

(** The class controller registers its two indexes one by one. *)
Lemma fence_class_setup_wp :
  wp (setup_contract NetworkFenceClassReconciler FenceClassSetup.watches) setup_ends [] FenceClassSetup.SetupWithManager.
Proof.
  split; [by split; [left|apply not_elem_of_nil]|]. intros [err|]; [by eexists|].
  split; [split; [right; left|by apply (bool_decide_unpack _); vm_compute]|]. intros [err|]; [by eexists|].
  by apply complete_wp.
Qed.

Lemma setup_run labels_Parse Matches fuel r opts ρ :
  guarded (setup_contract r (watches_of labels_Parse Matches r opts)) (fst (run ρ [] (SetupWithManager labels_Parse Matches (S fuel) r opts))) /\
  setup_ends (fst (run ρ [] (SetupWithManager labels_Parse Matches (S fuel) r opts)))
    (snd (run ρ [] (SetupWithManager labels_Parse Matches (S fuel) r opts))).
Proof.
  apply wp_run; [|done]. destruct r; cbn [SetupWithManager].
  all: first [ by apply complete_wp
             | apply (index_complete_wp _ _ _ (fun err => err)); [done..|]; by apply (bool_decide_unpack _); vm_compute
             | apply wait_complete_wp; [done..|]; intros; by apply waitForCrds_wp
             | apply wait_complete_wp; [done..|]; intros; by apply waitForGroupCrds_wp
             | idtac ].
  apply fence_class_setup_wp.
Qed.

(** Setting up a controller registers exactly the field indexes of the
    controller, once each, and waits for its CRDs, before it builds the
    controller for its kind; it succeeds exactly when the building does, and
    otherwise stops at the first failure. *)
Theorem setup_with_manager_contract labels_Parse Matches fuel r opts ρ :
  For (watches_of labels_Parse Matches r opts) = main_kind r /\
  guarded (setup_contract r (watches_of labels_Parse Matches r opts)) (fst (run ρ [] (SetupWithManager labels_Parse Matches (S fuel) r opts))) /\
  setup_ends (fst (run ρ [] (SetupWithManager labels_Parse Matches (S fuel) r opts)))
    (snd (run ρ [] (SetupWithManager labels_Parse Matches (S fuel) r opts))).
Proof. split; [by destruct r|]. apply setup_run. Qed.

(** What a set-up has registered, when it succeeded and in general. *)
Lemma setup_registers labels_Parse Matches fuel r opts ρ h :
  run ρ [] (SetupWithManager labels_Parse Matches (S fuel) r opts) = (h, Done (Some None)) -> reverse (registered h) = needed r.
Proof.
  intros Hr. destruct (setup_run labels_Parse Matches fuel r opts ρ) as [HG HE]. rewrite Hr in HG, HE.
  destruct HE as [b Hb]. destruct h as [|c h]; [done|]. injection Hb as ->. by destruct HG as [(_ & Hreg & _) _].
Qed.

Lemma guarded_registered r b h : guarded (setup_contract r b) h -> registered h ⊆ needed r.
Proof.
  induction h as [|[[k f g| |] a] h IH]; [set_solver|..]; intros [He Hh]; specialize (IH Hh).
  - destruct He as [He _]. unfold registered in *. rewrite observe_cons. destruct a; cbn; set_solver.
  - exact IH.
  - exact IH.
Qed.

(** ** Listing by index *)

(** A program that satisfies a guard makes only the calls the guard allows. *)
Lemma wp_only {A} (G : hist -> event -> Prop) Q (P : event -> Prop) (p : M A) h :
  wp G Q h p -> (forall h e, G h e -> P e) -> calls P p.
Proof. intros Hwp HP. revert h Hwp. induction p as [a|m|e k IH]; intros h; [done..|]. intros [He Hk]. split; [by eapply HP|]. eauto. Qed.

(** Listings by field use a registered index. *)
Definition by_index (l : list (kind * string)) (e : event) : Prop :=
  match e with EListField k f _ _ => (k, f) ∈ l | _ => True end.

Lemma by_index_mono l l' e : (forall i, i ∈ l -> i ∈ l') -> by_index l e -> by_index l' e.
Proof. destruct e; cbn; auto. Qed.

Lemma needed_NoDup r : NoDup (needed r).
Proof. destruct r; by apply (bool_decide_unpack _); vm_compute. Qed.

Lemma needed_disjoint r r' i : reconciles r ≠ reconciles r' -> i ∈ needed r -> i ∉ needed r'.
Proof.
  intros Hne. revert i. apply Forall_forall, (bool_decide_unpack _). destruct r, r'; try done; by vm_compute.
Qed.

Section reconcilers.
Context (json_error : string -> error) (cap_String : Capability -> string) (int64_overflow : SpecFloat.spec_float -> Z).
Context (ParseStandard : string -> error + (Z -> Z)) (zone : Z -> Z) (gvk : kind -> error + string * string).
Context (LabelSelectorAsSelector : option LabelSelector -> error + string).

(** The reconciler that the manager runs. *)
Definition Reconcile_of (r : reconciler) : NamespacedName -> M (Result * option error) :=
  match r with
  | CSIAddonsNodeReconciler _ auth base => CSIAddonsNodeController.Reconcile auth base json_error cap_String
  | ReclaimSpaceJobReconciler _ timeout => ReclaimSpace.Reconcile timeout int64_overflow
  | NetworkFenceReconciler _ timeout => Fence.Reconcile timeout
  | ReclaimSpaceCronJobReconciler => ReclaimSpaceCron.Reconcile ParseStandard zone (gvk KReclaimSpaceJob) (gvk KReclaimSpaceCronJob)
  | PVCReconiler _ => PVCReconiler.Reconcile (gvk KPersistentVolumeClaim)
  | PersistentVolumeClaimReconciler _ precedence => PVCReconciler.Reconcile ParseStandard precedence (gvk KPersistentVolumeClaim)
  | VolumeReplicationReconciler _ timeout => VolumeReplicationController.Reconcile timeout
  | VolumeGroupReplicationReconciler _ max =>
    VolumeGroupReplicationController.Reconcile LabelSelectorAsSelector (gvk KVolumeGroupReplication) max
  | VolumeGroupReplicationContentReconciler _ timeout => VolumeGroupReplicationContentController.Reconcile timeout
  | EncryptionKeyRotationJobReconciler _ timeout => KeyRotation.Reconcile timeout
  | EncryptionKeyRotationCronJobReconciler =>
    KeyRotationCron.Reconcile ParseStandard zone (gvk KEncryptionKeyRotationJob) (gvk KEncryptionKeyRotationCronJob)
  | NetworkFenceClassReconciler => FenceClass.Reconcile json_error
  end.

Lemma feature_calls kc `{CronJob (obj_of kc)} g pvc (child : obj_of kc) s v l :
  calls (by_index l) (PVCReconiler.reconcileFeature g kc pvc child s v).
Proof. unfold PVCReconiler.reconcileFeature, get_obj, delete_ignoring_missing. calls_solve. Qed.
Hint Resolve feature_calls : calls.

Lemma new_claim_calls g req l : calls (by_index l) (PVCReconiler.Reconcile g req).
Proof. unfold PVCReconiler.Reconcile, PVCReconiler.reconcile_features, get_obj. calls_solve. Qed.

(** The cron library rejects the empty string. *)
Lemma Reconcile_by_index r req : (exists err, ParseStandard "" = inl err) -> calls (by_index (needed r)) (Reconcile_of r req).
Proof.
  intros Hempty. destruct r; cbn [Reconcile_of needed].
  - eapply wp_only; [apply CSIAddonsNodeProofs.node_reconcile_wp|]. by intros h [].
  - eapply wp_only; [apply lifecycle_wp, ReclaimSpaceProofs.reclaim_work|]. intros h [] [(j & _ & _ & Hp)|Hp]; done.
  - eapply wp_only; [apply FenceProofs.fence_reconcile_wp|]. by intros h [].
  - eapply wp_only; [apply reconcile_cron_wp|]. intros h [] He; try done. destruct He as (-> & -> & _). left.
  - apply new_claim_calls.
  - eapply wp_only; [by apply PVCContract.pvc_reconcile_wp|].
    intros h [] [Hq|He]; try done. destruct He as ([-> | ->] & -> & _); set_solver.
  - eapply wp_only; [apply Reconcile_wp|]. by intros h [].
  - eapply wp_only; [apply group_Reconcile_wp|]. by intros h [].
  - eapply wp_only; [apply content_Reconcile_wp|]. by intros h [].
  - eapply wp_only; [apply lifecycle_wp, KeyRotationProofs.rotate_work|]. intros h [] [(j & _ & _ & Hp)|Hp]; done.
  - eapply wp_only; [apply reconcile_cron_wp|]. intros h [] He; try done. destruct He as (-> & -> & _). left.
  - eapply wp_only; [apply FenceClassProofs.class_reconcile_wp|]. intros h [] He; try done. destruct He as (-> & -> & _). left.
Qed.

End reconcilers.

Section declared.
Context (labels_Parse : string -> error + string) (Matches : string -> gmap string string -> bool).
Context (RESTMapping : kind -> string -> error + bool).

(** The handlers list by these indexes too. *)
Lemma mapped_calls {k} P (f : obj_of k -> M (list NamespacedName)) e :
  (forall o, calls P (f o)) -> calls P (EnqueueRequestsFromMapFunc f e).
Proof. intros Hf. destruct e; simpl; calls_solve; apply Hf. Qed.

Lemma deliver_calls {k} P (l : list (handler k * list (predicate k))) e :
  (forall hp, hp ∈ l -> calls P (hp.1 e)) -> calls P (deliver l e).
Proof.
  induction l as [|[h ps] l IH]; intros Hl; simpl; [done|]. apply calls_bind.
  - unfold on_event. case_match; [|done]. by apply (Hl (h, ps)); left.
  - intros rs. apply calls_bind; [|done]. apply IH. intros hp Hin. by apply Hl; right.
Qed.

Lemma source_in_spec k (s : source) hp : source_in k s = Some hp -> s = existT k hp.
Proof.
  unfold source_in. destruct s as [k' hp']. simpl. destruct (decide (k' = k)) as [->|]; [|done].
  by intros [= <-].
Qed.

Definition source_calls (P : event -> Prop) (s : source) : Prop := forall e, calls P ((projT2 s).1 e).

Lemma requests_calls P b k e :
  Forall (source_calls P) b.(watchesInput) -> calls P (requests RESTMapping b k e).
Proof.
  intros Hw. assert (Forall (source_calls P) (doWatch RESTMapping b)) as Hall.
  { unfold doWatch. apply Forall_cons. split; [by intros []|]. apply Forall_app. split.
    - apply Forall_map, Forall_true. by intros own [].
    - apply Forall_map. eapply Forall_impl; [exact Hw|]. by intros w Hs. }
  apply deliver_calls. intros hp Hin. unfold sources_of in Hin.
  apply list_elem_of_omap in Hin as (s & Hs & ->%source_in_spec).
  by apply (proj1 (Forall_forall _ _) Hall _ Hs).
Qed.

Lemma requests_by_index r opts k e : calls (by_index (needed r)) (requests RESTMapping (watches_of labels_Parse Matches r opts) k e).
Proof.
  apply requests_calls. destruct r; cbn -[by_index needed]; repeat (apply Forall_cons; split); try done; intros ev;
    try (by destruct ev); apply mapped_calls; intros o.
  - unfold ScMapFunc. calls_solve. left.
  - unfold PVCReconciler.storageClassEventHandler. calls_solve. set_solver.
  - unfold GroupSetup.lift_outcome. calls_solve.
  - unfold GroupSetup.lift_outcome. calls_solve.
  - unfold enqueueVGRForPVCRequest. calls_solve.
  - unfold FenceClass.enqueueNFC. calls_solve. set_solver.
Qed.
End declared.

(** C22: Every listing by field, in a reconciler or in the mapping of an event to
    requests, uses an index that the controller's own SetupWithManager has
    registered when it succeeds (the cache refuses to list by another one); no
    index is registered twice, neither by one controller nor by two that one
    manager runs (the manager refuses the second). *)
Theorem field_indexes_registered labels_Parse Matches RESTMapping json_error cap_String int64_overflow
    ParseStandard zone gvk LabelSelectorAsSelector fuel r opts ρ h :
  (exists err, ParseStandard "" = inl err) ->
  run ρ [] (SetupWithManager labels_Parse Matches (S fuel) r opts) = (h, Done (Some None)) ->
  (forall req, calls (by_index (registered h)) (Reconcile_of json_error cap_String int64_overflow ParseStandard zone gvk
                                                  LabelSelectorAsSelector r req)) /\
  (forall k e, calls (by_index (registered h)) (requests RESTMapping (watches_of labels_Parse Matches r opts) k e)) /\
  NoDup (registered h) /\
  (forall fuel' r' opts' ρ', reconciles r ≠ reconciles r' -> forall i, i ∈ registered h ->
     i ∉ registered (fst (run ρ' [] (SetupWithManager labels_Parse Matches (S fuel') r' opts')))).
Proof.
  intros Hempty Hrun. apply setup_registers in Hrun as Hreg.
  assert (forall i, i ∈ registered h <-> i ∈ needed r) as Hi by (intros i; rewrite <- Hreg; by rewrite elem_of_reverse).
  split_and!.
  - intros req. eapply calls_mono; [by apply Reconcile_by_index|]. intros e. apply by_index_mono. intros i. apply Hi.
  - intros k e. eapply calls_mono; [apply requests_by_index|]. intros e'. apply by_index_mono. intros i. apply Hi.
  - rewrite <- (reverse_Permutation (registered h)), Hreg. apply needed_NoDup.
  - intros fuel' r' opts' ρ' Hne i H1 H2. apply Hi in H1. eapply (needed_disjoint r r'); [done..|].
    by eapply guarded_registered; [apply setup_run|].
Qed.

(** A manager that accepts everything, and two controllers that index the same
    field of different kinds. *)
Definition accepting : env sanswer :=
  fun _ e => match e return sanswer e with SIndexField _ _ _ => None | SComplete _ => None | SApi e => refused e end.
Lemma field_indexes_registered_witness :
  let r := PersistentVolumeClaimReconciler 0%nat "pvc" in
  let setup r := run accepting [] (SetupWithManager (fun _ => inl (ErrorString "selector")) (fun _ _ => false) 1 r 10%Z) in
  NoDup (registered (fst (setup r))) /\
  (KReclaimSpaceCronJob, JobOwnerKey) ∉ registered (fst (setup ReclaimSpaceCronJobReconciler)).
Proof.
  intros r setup.
  destruct (field_indexes_registered (fun _ => inl (ErrorString "selector")) (fun _ _ => false) (fun _ _ => inr true)
    ErrorString (fun _ => "") (fun _ => 0%Z) (fun _ => inl (ErrorString "empty spec string")) (fun _ => 0%Z)
    (fun _ => inr ("v1", "")) (fun _ => inr "") 0%nat r 10%Z accepting (fst (setup r))) as (_ & _ & Hnd & Hdisj).
  - by eexists.
  - reflexivity.
  - split; [exact Hnd|]. apply Hdisj; [done|]. vm_compute. right; right; left.
Defined.

(** ** Waking *)

Section waking.
Context (RESTMapping : kind -> string -> error + bool).

(** A kind with one watch. *)
Lemma requests_one b k (h : handler k) ps e l :
  sources_of RESTMapping k b = [(h, ps)] -> h e = mret l ->
  requests RESTMapping b k e = mret (if forallb (fun p => p e) ps then l else []).
Proof.
  intros Hs He. unfold requests. rewrite Hs. simpl. unfold on_event.
  destruct (forallb _ _); [|done]. rewrite He. cbn. by rewrite app_nil_r.
Qed.

Lemma requests_rejected b k (h : handler k) ps e :
  sources_of RESTMapping k b = [(h, ps)] -> forallb (fun p => p e) ps = false ->
  requests RESTMapping b k e = mret [].
Proof. intros Hs He. unfold requests. rewrite Hs. simpl. unfold on_event. by rewrite He. Qed.

(** Whether a controller reconciles an object of its kind when it changes. *)
Definition wants (r : reconciler) (old new : ObjectMeta) : bool :=
  match r with
  | CSIAddonsNodeReconciler _ _ _ =>
    bool_decide (new.(Generation) ≠ old.(Generation)) || bool_decide (new.(Annotations) ≠ old.(Annotations))
  | ReclaimSpaceJobReconciler _ _ | EncryptionKeyRotationJobReconciler _ _ | NetworkFenceReconciler _ _
  | VolumeReplicationReconciler _ _ | VolumeGroupReplicationReconciler _ _ =>
    bool_decide (new.(Generation) ≠ old.(Generation))
  | PersistentVolumeClaimReconciler _ _ =>
    AnnotationValueChanged old.(Annotations) new.(Annotations) ClaimSetup.annotations
  | _ => true
  end.
End waking.

(** A controller reconciles each object of its kind when it is created, found
    at the start, or deleted; when it changes, the controllers of jobs, fences,
    replications and groups reconcile it if its generation changed (so not after
    a change of its status or metadata), the node controller also if its
    annotations did, the older claim controller if one of its three annotations
    did, and the others always.  Nothing else is asked of it. *)
Theorem own_events_exact RESTMapping labels_Parse Matches r opts (e : watch_event (obj_of (main_kind r))) :
  requests RESTMapping (watches_of labels_Parse Matches r opts) (main_kind r) e =
  mret match e with
       | CreateEvent o | DeleteEvent o | GenericEvent o => [key_of (meta_of (main_kind r) o)]
       | UpdateEvent old new =>
         if wants r (meta_of (main_kind r) old) (meta_of (main_kind r) new)
         then [key_of (meta_of (main_kind r) new)] else []
       end.
Proof.
  destruct r; cbn [main_kind] in *; destruct e;
    (erewrite requests_one; [|reflexivity|reflexivity]); try done;
    cbn -[bool_decide]; rewrite ?andb_true_r, ?orb_false_r, ?bool_decide_not; done.
Qed.

(** *** Dependents wake their owners *)

(** An event about an object with the owners and the namespace of [m]. *)
Definition concerns {k : kind} (m : ObjectMeta) (e : watch_event (obj_of k)) : Prop :=
  let same (o : obj_of k) := (meta_of k o).(OwnerReferences) = m.(OwnerReferences) /\ (meta_of k o).(Namespace) = m.(Namespace) in
  match e with
  | CreateEvent o | DeleteEvent o | GenericEvent o => same o
  | UpdateEvent old new => same old /\ same new
  end.

Section owners.
Context (RESTMapping : kind -> string -> error + bool).

(** The controller of [m] is the object [key] of kind [owner]. *)
Definition controlled_by (owner : kind) (m : ObjectMeta) (key : NamespacedName) : Prop :=
  exists ref, GetControllerOf m = Some ref /\ ref.(or_Name) = nn_Name key /\ m.(Namespace) = nn_Namespace key /\
    ref.(or_Kind) = (group_kind owner).2 /\ ParseGroup ref.(or_APIVersion) = Some (group_kind owner).1 /\
    RESTMapping owner ref.(or_APIVersion) = inr true.

Lemma owner_request owner m m' key :
  controlled_by owner m key -> m'.(OwnerReferences) = m.(OwnerReferences) -> m'.(Namespace) = m.(Namespace) ->
  getOwnerReconcileRequest RESTMapping owner m' = [key].
Proof.
  intros (ref & Hc & Hn & Hns & Hk & Hg & Hm) Hrefs Hsame. unfold getOwnerReconcileRequest, GetControllerOf in *.
  cbn in *. rewrite Hrefs, Hc, Hg, !bool_decide_true, Hm by done. cbn. rewrite Hn, Hsame, Hns. by destruct key.
Qed.

Lemma owner_handler owner k m key (e : watch_event (obj_of k)) :
  controlled_by owner m key -> concerns m e -> EnqueueRequestForOwner RESTMapping owner k e = mret [key].
Proof.
  intros Hc He. destruct e; cbn in He |- *; destruct_and?;
    repeat (erewrite (owner_request owner m) by done); [done| |done..].
  cbn. by rewrite bool_decide_true by set_solver.
Qed.

(** A watch of owned objects adds the owner, unless a predicate drops the event. *)
Lemma owned_requests b k ps m key (e : watch_event (obj_of k)) :
  controlled_by b.(For) m key -> concerns m e ->
  sources_of RESTMapping k b = [(EnqueueRequestForOwner RESTMapping b.(For) k, ps)] ->
  requests RESTMapping b k e = mret (if forallb (fun p => p e) ps then [key] else []).
Proof. intros Hc He Hs. by eapply requests_one; [exact Hs|apply (owner_handler _ _ m)]. Qed.

(** What SetControllerReference leaves on an object that had no owner. *)
Lemma controller_set owner apiVersion kd {O A} `{HasMeta O} `{HasMeta A} (p : O) (child o : A) :
  SetControllerReference (inr (apiVersion, kd)) p child = (o, None) ->
  (meta child).(OwnerReferences) = [] -> obj_Namespace child = obj_Namespace p ->
  group_kind owner = (default "" (ParseGroup apiVersion), kd) -> ParseGroup apiVersion ≠ None ->
  RESTMapping owner apiVersion = inr true ->
  controlled_by owner (meta o) (obj_key p).
Proof.
  intros Hset Hrefs Hns Hgk Hpg Hrm. unfold SetControllerReference in Hset.
  destruct (validateOwner _ _); [done|]. unfold GetControllerOf in Hset. rewrite Hrefs in Hset. cbn in Hset.
  injection Hset as <-. exists (mkOwnerReference apiVersion kd (obj_Name p) (meta p).(UID) (Some true) (Some true)).
  unfold GetControllerOf. cbn. rewrite meta_set_meta. cbn. rewrite Hgk. cbn.
  split_and!; [done..| |done]. by destruct (ParseGroup apiVersion).
Qed.
End owners.

(** The job of a cron job is controlled by it. *)
Lemma job_controlled RESTMapping kc kj `{CronJob (obj_of kc)} `{Job (obj_of kj)} zone v kd blank (c : obj_of kc) t (j : obj_of kj) :
  (forall (j : obj_of kj) m, job_Spec (set_meta j m) = job_Spec j) ->
  constructJob kc kj zone (inr (v, kd)) blank c t = inr j ->
  group_kind kc = (default "" (ParseGroup v), kd) -> ParseGroup v ≠ None -> RESTMapping kc v = inr true ->
  controlled_by RESTMapping kc (meta j) (obj_key c).
Proof.
  intros Hlaw Hj Hgk Hpg Hrm. apply (constructJob_spec kc kj) in Hj as (_ & Hns & v' & kd' & [= <- <-] & Hown); [|done].
  eexists. split; [exact Hown|]. cbn. rewrite Hgk. split_and!; [done..| |done]. cbn. by destruct (ParseGroup v).
Qed.

(** An event about a cron job that a claim controls. *)
Lemma claim_child_wakes RESTMapping opts kc m key (e : watch_event (obj_of kc)) :
  controlled_by RESTMapping KPersistentVolumeClaim m key -> concerns m e ->
  kc ∈ [KReclaimSpaceCronJob; KEncryptionKeyRotationCronJob] ->
  requests RESTMapping (NewClaimSetup.watches opts) kc e = mret [key] /\
  requests RESTMapping (ClaimSetup.watches opts) kc e =
    mret (if ClaimSetup.annotationPredicate kc e then [key] else []).
Proof.
  intros Hc He Hk. rewrite <- (andb_true_r (ClaimSetup.annotationPredicate kc e)).
  repeat (apply elem_of_cons in Hk as [->|Hk]); [..|by apply elem_of_nil in Hk].
  1,2: split; [by apply (owned_requests RESTMapping (NewClaimSetup.watches opts) _ [] m)
              |by apply (owned_requests RESTMapping (ClaimSetup.watches opts) _ [_] m)].
Qed.

Definition claim_gvk : error + string * string := inr ("v1", "PersistentVolumeClaim").

(** C23: What a controller creates wakes it: an event about a job that a cron job
    controller made asks for exactly its cron job, and one about a cron job that a
    claim controller made for exactly its claim, as long as the owner references that
    were set are left alone and the REST mapper knows the owner's kind in the one API
    version the reference names.  The older claim controller, whose filter applies to
    all it watches, misses the updates of a cron job that leave its three annotations
    alone. *)
Theorem dependents_wake_owners RESTMapping opts :
  RESTMapping KReclaimSpaceCronJob apiGVStr = inr true -> RESTMapping KEncryptionKeyRotationCronJob apiGVStr = inr true ->
  RESTMapping KPersistentVolumeClaim "v1" = inr true ->
  (forall zone (c : ReclaimSpaceCronJob) t j (e : watch_event (obj_of KReclaimSpaceJob)),
     ReclaimSpaceCron.constructRSJobForCronJob zone (inr (apiGVStr, "ReclaimSpaceCronJob")) c t = inr j ->
     concerns j.(rsj_meta) e ->
     requests RESTMapping (CronSetup.rs_watches opts) KReclaimSpaceJob e = mret [obj_key c]) /\
  (forall zone (c : EncryptionKeyRotationCronJob) t j (e : watch_event (obj_of KEncryptionKeyRotationJob)),
     KeyRotationCron.constructEncryptionKeyRotationJob zone (inr (apiGVStr, "EncryptionKeyRotationCronJob")) c t = inr j ->
     concerns j.(krj_meta) e ->
     requests RESTMapping (CronSetup.kr_watches opts) KEncryptionKeyRotationJob e = mret [obj_key c]) /\
  (forall (pvc : PersistentVolumeClaim) (child o : ReclaimSpaceCronJob) (e : watch_event (obj_of KReclaimSpaceCronJob)),
     SetControllerReference claim_gvk pvc child = (o, None) ->
     child.(rscj_meta).(OwnerReferences) = [] -> obj_Namespace child = obj_Namespace pvc -> concerns o.(rscj_meta) e ->
     requests RESTMapping (NewClaimSetup.watches opts) KReclaimSpaceCronJob e = mret [obj_key pvc] /\
     requests RESTMapping (ClaimSetup.watches opts) KReclaimSpaceCronJob e =
       mret (if ClaimSetup.annotationPredicate KReclaimSpaceCronJob e then [obj_key pvc] else [])) /\
  (forall (pvc : PersistentVolumeClaim) (child o : EncryptionKeyRotationCronJob)
      (e : watch_event (obj_of KEncryptionKeyRotationCronJob)),
     SetControllerReference claim_gvk pvc child = (o, None) ->
     child.(krcj_meta).(OwnerReferences) = [] -> obj_Namespace child = obj_Namespace pvc -> concerns o.(krcj_meta) e ->
     requests RESTMapping (NewClaimSetup.watches opts) KEncryptionKeyRotationCronJob e = mret [obj_key pvc] /\
     requests RESTMapping (ClaimSetup.watches opts) KEncryptionKeyRotationCronJob e =
       mret (if ClaimSetup.annotationPredicate KEncryptionKeyRotationCronJob e then [obj_key pvc] else [])).
Proof.
  intros Hrs Hkr Hpvc. split_and!.
  - intros zone c t j e Hj He. apply (owned_requests RESTMapping (CronSetup.rs_watches opts) _ [] j.(rsj_meta) _ e); [|done..].
    apply (job_controlled RESTMapping KReclaimSpaceCronJob KReclaimSpaceJob _ _ _ _ c _ j) in Hj; [exact Hj|done..].
  - intros zone c t j e Hj He. apply (owned_requests RESTMapping (CronSetup.kr_watches opts) _ [] j.(krj_meta) _ e); [|done..].
    apply (job_controlled RESTMapping KEncryptionKeyRotationCronJob KEncryptionKeyRotationJob _ _ _ _ c _ j) in Hj;
      [exact Hj|done..].
  - intros pvc child o e Ho Hrefs Hns He. apply (claim_child_wakes _ _ _ o.(rscj_meta)); [|done|set_solver].
    apply (controller_set RESTMapping KPersistentVolumeClaim) in Ho; done.
  - intros pvc child o e Ho Hrefs Hns He. apply (claim_child_wakes _ _ _ o.(krcj_meta)); [|done|set_solver].
    apply (controller_set RESTMapping KPersistentVolumeClaim) in Ho; done.
Qed.

(** The claim "claim" of namespace "ns", and the cron job of sample_cron. *)
Definition sample_claim : PersistentVolumeClaim := mkPVC (new_meta "ns" "claim") "pv" (Some "sc") ClaimBound.
(** A REST mapper that knows one version of each group. *)
Definition one_version (k : kind) (v : string) : error + bool :=
  if bool_decide (v = match k with KPersistentVolumeClaim => "v1" | _ => apiGVStr end) then inr true
  else inl (ErrorString "no matches for kind").
Lemma dependents_wake_owners_witness :
  let child := PVCReconciler.constructRSCronJob "claim-1" "ns" "@daily" "claim" in
  let o := fst (SetControllerReference claim_gvk sample_claim child) in
  requests one_version (NewClaimSetup.watches 1) KReclaimSpaceCronJob (DeleteEvent o) =
  mret [mkNamespacedName "ns" "claim"].
Proof.
  intros child o.
  destruct (dependents_wake_owners one_version 1%Z ltac:(reflexivity) ltac:(reflexivity) ltac:(reflexivity)) as (_ & _ & Hclaim & _).
  apply (Hclaim sample_claim child o (DeleteEvent o)); [vm_compute; reflexivity..|split; reflexivity].
Defined.

(** *** The dependents of a group *)

(** An object that names the group in its annotation. *)
Definition refers_to (vgr : VGR) (m : ObjectMeta) : Prop :=
  m.(Annotations) !! volumeGroupReplicationRef = Some (obj_Namespace vgr +:+ "/" +:+ obj_Name vgr).

Lemma annotation_refers vgr m :
  annotation m volumeGroupReplicationRef = obj_Namespace vgr +:+ "/" +:+ obj_Name vgr -> refers_to vgr m.
Proof.
  unfold refers_to, annotation, map_get. cbn. destruct (_ !! _) as [v|]; cbn; [by intros ->|].
  intros H. by destruct (obj_Namespace vgr).
Qed.

(** What the group controller writes refers to the group. *)
Lemma mutate_content_refers vgr driver l (c c' : VGRC) :
  mutate_content vgr driver l c = (c', None) -> refers_to vgr c'.(vgrc_meta).
Proof.
  intros Hm. apply annotation_refers. unfold mutate_content in Hm. destruct (_ && _); [done|].
  destruct (is_new c); injection Hm as <-.
  - change (annotation (SetMetaDataAnnotation c volumeGroupReplicationRef (obj_Namespace vgr +:+ "/" +:+ obj_Name vgr))
              volumeGroupReplicationRef = obj_Namespace vgr +:+ "/" +:+ obj_Name vgr).
    by rewrite annotation_SetMeta, decide_True.
  - change (annotation (mark_content (obj_Namespace vgr +:+ "/" +:+ obj_Name vgr) driver c) volumeGroupReplicationRef =
            obj_Namespace vgr +:+ "/" +:+ obj_Name vgr).
    unfold mark_content. rewrite annotation_SetMeta, decide_False by done.
    case_bool_decide; [done|]. cbn [negb]. by rewrite annotation_SetMeta, decide_True.
Qed.

Lemma mutate_vr_refers gvk vgr vr vr' :
  is_new vr = true -> mutate_vr gvk vgr vr = (vr', None) -> refers_to vgr vr'.(vr_meta).
Proof.
  intros Hnew. unfold mutate_vr, SetOwnerReference. rewrite Hnew. destruct (validateOwner _ _); [done|].
  destruct gvk as [|[v k]]; [done|]. intros [= <-]. apply lookup_singleton_eq.
Qed.

(** An existing replication keeps its annotations. *)
Lemma mutate_vr_keeps gvk vgr vr vr' :
  is_new vr = false -> mutate_vr gvk vgr vr = (vr', None) -> vr'.(vr_meta).(Annotations) = vr.(vr_meta).(Annotations).
Proof.
  intros Hold. unfold mutate_vr, SetOwnerReference. rewrite Hold. destruct (validateOwner _ _); [done|].
  destruct gvk as [|[v k]]; [done|]. by intros [= <-].
Qed.

(** Kubernetes names: not empty, no slash. *)
Definition proper_name (s : string) : Prop := s ≠ "" /\ "/"%char ∉ String.list_ascii_of_string s.

Lemma enqueue_refers vgr m :
  proper_name (obj_Namespace vgr) -> proper_name (obj_Name vgr) -> refers_to vgr m ->
  GroupSetup.lift_outcome (enqueueVGRRequest m.(Annotations)) = mret [obj_key vgr].
Proof.
  intros [Hns Hs1] [Hn Hs2] Hr. unfold refers_to in Hr. rewrite <- (insert_id _ _ _ Hr).
  by rewrite (proj1 (enqueueVGRRequest_roundtrip m.(Annotations))).
Qed.

(** The mapping of both watches, on objects of one group. *)
Lemma mapped_group {k} (f : obj_of k -> M (list NamespacedName)) vgr (e : watch_event (obj_of k)) :
  match e with
  | CreateEvent o | DeleteEvent o | GenericEvent o => f o = mret [obj_key vgr]
  | UpdateEvent old new => f old = mret [obj_key vgr] /\ f new = mret [obj_key vgr]
  end -> EnqueueRequestsFromMapFunc f e = mret [obj_key vgr].
Proof.
  destruct e; cbn; [intros ->; done| |intros ->; done..].
  intros [-> ->]. cbn. by rewrite bool_decide_true by set_solver.
Qed.

(** A kind that is owned, for the cache only, and watched. *)
Lemma requests_two RESTMapping b k (h h' : handler k) ps e l :
  sources_of RESTMapping k b = [(h, [GroupSetup.skipUpdates]); (h', ps)] -> h' e = mret l ->
  requests RESTMapping b k e = mret (if forallb (fun p => p e) ps then l else []).
Proof.
  intros Hs He. unfold requests. rewrite Hs. simpl. unfold on_event. cbn.
  destruct (forallb _ _); [|done]. rewrite He. cbn. by rewrite app_nil_r.
Qed.

Lemma refers_events {k} vgr m (f : obj_of k -> gmap string string) (e : watch_event (obj_of k)) :
  proper_name (obj_Namespace vgr) -> proper_name (obj_Name vgr) -> refers_to vgr m ->
  match e with
  | CreateEvent o | DeleteEvent o | GenericEvent o => f o = m.(Annotations)
  | UpdateEvent old new => f old = m.(Annotations) /\ f new = m.(Annotations)
  end ->
  EnqueueRequestsFromMapFunc (fun o => GroupSetup.lift_outcome (enqueueVGRRequest (f o))) e = mret [obj_key vgr].
Proof.
  intros Hns Hn Hr He. apply mapped_group. pose proof (enqueue_refers vgr m Hns Hn Hr) as Hq.
  destruct e; [by rewrite He| |by rewrite He..]. by destruct He as [-> ->].
Qed.

(** An object without the annotation maps to no group. *)
Lemma unannotated_events {k} (f : obj_of k -> gmap string string) m (e : watch_event (obj_of k)) :
  m !! volumeGroupReplicationRef = None ->
  match e with
  | CreateEvent o | DeleteEvent o | GenericEvent o => f o = m
  | UpdateEvent old new => f old = m /\ f new = m
  end ->
  EnqueueRequestsFromMapFunc (fun o => GroupSetup.lift_outcome (enqueueVGRRequest (f o))) e = mret [].
Proof.
  intros Hno He. assert (enqueueVGRRequest m = Done []) as Hq by (unfold enqueueVGRRequest; by rewrite Hno).
  destruct e; cbn; [by rewrite He, Hq| |by rewrite He, Hq..]. destruct He as [-> ->]. by rewrite Hq.
Qed.

Section group.
Context (RESTMapping : kind -> string -> error + bool).
Context (labels_Parse : string -> error + string) (Matches : string -> gmap string string -> bool).
Abbreviation group_watches := (GroupSetup.watches labels_Parse Matches).

(** C24: The content of a group and the replication that its controller created wake
    the group, while they keep the annotation that refers to it: the content when its
    specification changes (the handle of the driver's group, for one) or it goes, the
    replication when its status changes or it goes; other changes of theirs do not.
    The content gets the annotation at every write of the controller, the replication
    only when it is created: one that existed before keeps its annotations, and
    without that annotation never wakes the group. *)
Theorem group_dependents_wake_group (vgr : VGR) :
  proper_name (obj_Namespace vgr) -> proper_name (obj_Name vgr) ->
  (forall driver handles (c c' : VGRC), mutate_content vgr driver handles c = (c', None) -> refers_to vgr c'.(vgrc_meta)) /\
  (forall gvk vr vr', mutate_vr gvk vgr vr = (vr', None) ->
     if is_new vr then refers_to vgr vr'.(vr_meta) else vr'.(vr_meta).(Annotations) = vr.(vr_meta).(Annotations)) /\
  (forall old new : VGRC, refers_to vgr old.(vgrc_meta) -> new.(vgrc_meta).(Annotations) = old.(vgrc_meta).(Annotations) ->
     requests RESTMapping group_watches KVolumeGroupReplicationContent (UpdateEvent old new) =
       mret (if bool_decide (old.(vgrc_Spec) = new.(vgrc_Spec)) then [] else [obj_key vgr]) /\
     requests RESTMapping group_watches KVolumeGroupReplicationContent (DeleteEvent old) = mret [obj_key vgr] /\
     requests RESTMapping group_watches KVolumeGroupReplicationContent (CreateEvent old) = mret []) /\
  (forall old new : VolumeReplication, refers_to vgr old.(vr_meta) -> new.(vr_meta).(Annotations) = old.(vr_meta).(Annotations) ->
     requests RESTMapping group_watches KVolumeReplication (UpdateEvent old new) =
       mret (if bool_decide (old.(vr_Status) = new.(vr_Status)) then [] else [obj_key vgr]) /\
     requests RESTMapping group_watches KVolumeReplication (DeleteEvent old) = mret [obj_key vgr] /\
     requests RESTMapping group_watches KVolumeReplication (CreateEvent old) = mret []) /\
  (forall old new : VolumeReplication, old.(vr_meta).(Annotations) !! volumeGroupReplicationRef = None ->
     new.(vr_meta).(Annotations) = old.(vr_meta).(Annotations) ->
     requests RESTMapping group_watches KVolumeReplication (UpdateEvent old new) = mret [] /\
     requests RESTMapping group_watches KVolumeReplication (DeleteEvent old) = mret []).
Proof.
  intros Hns Hn. split_and!.
  - intros *. apply mutate_content_refers.
  - intros gvk vr vr' Hm. destruct (is_new vr) eqn:Hnew; [by eapply mutate_vr_refers|by eapply mutate_vr_keeps].
  - intros old new Hr Hsame. split_and!;
      (erewrite requests_two; [|reflexivity|by eapply refers_events]); cbn; rewrite ?andb_true_r; [|done..].
    by destruct (bool_decide _).
  - intros old new Hr Hsame. split_and!;
      (erewrite requests_two; [|reflexivity|by eapply refers_events]); cbn; rewrite ?andb_true_r; [|done..].
    by destruct (bool_decide _).
  - intros old new Hno Hsame. split; (erewrite requests_two; [|reflexivity|by eapply unannotated_events]); by case_match.
Qed.
End group.

(** A group "g" of namespace "ns" whose driver has returned a handle. *)
Definition sample_group : VGR :=
  mkVGR "" "VolumeGroupReplication" (new_meta "ns" "g") (mkVGRSpec "class" "vr-class" "" "" None "primary" false false)
    (mkVGRStatus (mkVRStatus "" "" [] 0 None None None None None) None).
Definition sample_content (handle : string) : VGRC :=
  mkVGRC (set_Annotations (new_meta "" "content") {[ volumeGroupReplicationRef := "ns/g" ]})
    (mkVGRCSpec None handle "driver" "class" ∅ []) [].
Lemma group_dependents_wake_group_witness :
  requests (fun _ _ => inr true) (GroupSetup.watches inr (fun _ _ => true)) KVolumeGroupReplicationContent
    (UpdateEvent (sample_content "") (sample_content "handle")) = mret [mkNamespacedName "ns" "g"].
Proof.
  destruct (group_dependents_wake_group (fun _ _ => inr true) inr (fun _ _ => true) sample_group) as (_ & _ & Hc & _).
  - split; [done|]. by apply (bool_decide_unpack _); vm_compute.
  - split; [done|]. by apply (bool_decide_unpack _); vm_compute.
  - by destruct (Hc (sample_content "") (sample_content "handle")) as [-> _].
Defined.

(** A claim whose labels come to match the selector of a group is not noticed:
    the controller is asked for the group when such a claim is created, but not
    when a claim is relabelled, which leaves its generation alone. *)
Theorem relabelled_claim_unnoticed RESTMapping labels_Parse Matches (ρ : env answer) vgrs
    (old new : PersistentVolumeClaim) (vgr : VGR) :
  (forall h, ρ h (EList KVolumeGroupReplication None "") = inr vgrs) ->
  new.(pvc_meta).(Labels) ≠ ∅ -> first_match labels_Parse Matches new.(pvc_meta).(Labels) vgrs = [obj_key vgr] ->
  new.(pvc_meta).(Generation) = old.(pvc_meta).(Generation) ->
  snd (run ρ [] (requests RESTMapping (GroupSetup.watches labels_Parse Matches) KPersistentVolumeClaim (CreateEvent new))) =
    Done [obj_key vgr] /\
  requests RESTMapping (GroupSetup.watches labels_Parse Matches) KPersistentVolumeClaim (UpdateEvent old new) = mret [].
Proof.
  intros Hl Hne Hm Hg. split.
  - change (requests RESTMapping (GroupSetup.watches labels_Parse Matches) KPersistentVolumeClaim (CreateEvent new)) with
      (r ← (reqs ← enqueueVGRForPVCRequest labels_Parse Matches new.(pvc_meta).(Labels); mret (add_requests [] reqs));
       rs ← mret []; mret (r ++ rs) : M (list NamespacedName)).
    unfold enqueueVGRForPVCRequest. rewrite bool_decide_false by done. cbn. rewrite Hl. cbn. by rewrite Hm.
  - eapply requests_rejected; [reflexivity|]. cbn -[bool_decide]. by rewrite bool_decide_true by done.
Qed.

(** *** The nodes *)

(** Requests that differ are all added. *)
Lemma add_requests_nodup reqs new : NoDup (reqs ++ new) -> add_requests reqs new = reqs ++ new.
Proof.
  revert reqs. induction new as [|r new IH]; intros reqs Hnd; simpl; [by rewrite app_nil_r|].
  rewrite bool_decide_false; [by rewrite IH, <- app_assoc; [|rewrite <- app_assoc]|].
  apply NoDup_app in Hnd as (_ & Hd & _). intros Hr. apply (Hd r Hr). left.
Qed.

(** The node controller sees every change of the annotations. *)
Lemma annotated_node RESTMapping opts (n n' : CSIAddonsNode) :
  n'.(node_meta).(Annotations) ≠ n.(node_meta).(Annotations) -> obj_key n' = obj_key n ->
  requests RESTMapping (NodeSetup.watches opts) KCSIAddonsNode (UpdateEvent n n') = mret [obj_key n].
Proof.
  intros Ha Hk. erewrite requests_one; [|reflexivity|reflexivity]. cbn -[bool_decide].
  rewrite (bool_decide_false (Annotations _ = _)) by done. rewrite orb_true_r. cbn. by rewrite <- Hk.
Qed.

(** A node whose side-car is new to the cluster gets the classes of its driver,
    and changes of its annotations reach the node controller: when a side-car
    renews its announcement (the time it writes differs from the last one), and
    when the class controller adds or removes a class.  The class controller
    itself looks at nodes only when they appear. *)
Theorem nodes_wake_controllers RESTMapping opts (ρ : env answer) (n : CSIAddonsNode) :
  (forall mgr zone node o h h' o',
     run ρ h (mutate_node mgr zone node o) = (h', Done (o', None)) ->
     annotation o lastUpdatedAt ≠ FormatRFC3339 (zone (ρ h ENow)) (ρ h ENow) ->
     requests RESTMapping (NodeSetup.watches opts) KCSIAddonsNode (UpdateEvent o o') = mret [obj_key o]) /\
  (forall v, (meta n).(Annotations) !! networkFenceClassAnnotationKey ≠ v ->
     requests RESTMapping (NodeSetup.watches opts) KCSIAddonsNode (UpdateEvent n (FenceClass.set_annotation n v)) = mret [obj_key n]) /\
  (forall classes h, NoDup (obj_Name <$> classes) ->
     ρ h (EListField KNetworkFenceClass FenceClass.provisionerName n.(node_Driver).(drv_Name) "") = inr classes ->
     snd (run ρ h (requests RESTMapping FenceClassSetup.watches KCSIAddonsNode (CreateEvent n))) =
       Done (mkNamespacedName "" ∘ obj_Name <$> classes)) /\
  (forall n', requests RESTMapping FenceClassSetup.watches KCSIAddonsNode (UpdateEvent n n') = mret []) /\
  requests RESTMapping FenceClassSetup.watches KCSIAddonsNode (DeleteEvent n) = mret [].
Proof.
  split_and!; [..|done|done].
  - intros mgr zone node o h h' o' Hrun Hne. unfold mutate_node in Hrun. destruct (is_deleting o); [done|].
    cbn in Hrun. injection Hrun as <- <-. apply annotated_node; [|done..]. cbn.
    intros Heq. apply Hne. unfold annotation, map_get. cbn. rewrite <- Heq. by rewrite lookup_insert_eq.
  - intros v Hne. apply annotated_node; [|done..]. cbn. intros Heq. apply Hne. cbn. rewrite <- Heq.
    destruct v; [apply lookup_insert_eq|apply lookup_delete_eq].
  - intros classes h Hnd Hl.
    change (requests RESTMapping FenceClassSetup.watches KCSIAddonsNode (CreateEvent n)) with
      (r ← (reqs ← FenceClass.enqueueNFC n; mret (add_requests [] reqs));
       rs ← mret []; mret (r ++ rs) : M (list NamespacedName)).
    unfold FenceClass.enqueueNFC. cbn. rewrite Hl. cbn. rewrite add_requests_nodup; [by rewrite app_nil_r|].
    change (NoDup ((mkNamespacedName "" ∘ obj_Name) <$> classes)). rewrite list_fmap_compose.
    apply NoDup_fmap_2; [by intros a b [= ->]|done].
Qed.

(** A node that the class "class" is added to. *)
Definition sample_node : CSIAddonsNode :=
  mkNode (new_meta "ns" "node") (mkNodeDriver "driver" "pod://sidecar.ns:9070" "worker") (mkNodeStatus "" "" "" [] []).
Lemma nodes_wake_controllers_witness :
  requests (fun _ _ => inr true) (NodeSetup.watches 1) KCSIAddonsNode
    (UpdateEvent sample_node (FenceClass.set_annotation sample_node (Some "class"))) =
  mret [mkNamespacedName "ns" "node"].
Proof.
  destruct (nodes_wake_controllers (fun _ _ => inr true) 1%Z (fun _ => refused) sample_node) as (_ & Hset & _).
  apply Hset. vm_compute. congruence.
Defined.
