(* ===== verification/GoHeap.v ===== *)
(** * Go memory

    The part of Go's memory model that decides what two objects share: structs
    and scalars are values, pointers, slices and maps refer to cells of a heap.
    A slice is a window of an array.  [view] reads the contents of a value of a
    given type, [reach] the cells it depends on; [deepcopy] is the copy that
    follows the type.  The combinators [copy_ptr], [copy_slice], [copy_map] and
    [struct_copy] are the statements that generated copy functions consist of.

    Cells are allocated when their contents are known, rather than before:
    addresses cannot be compared across allocations, so the order does not
    matter. *)

From S2P Require Import Prelude.
Local Set Warnings "-register-all".

Definition loc : Type := positive.

(** ** Types and values *)

Inductive basic := BString | BBool | BByte | BInt (bits : nat) | BTime | BDec.

Inductive scalar :=
| SString (s : string) | SBool (b : bool) | SInt (z : Z)
| STime (ns : Z)                       (* time.Time: a value; its zone is shared and never written *)
| SDec (unscaled scale : Z).           (* inf.Dec *)

Definition has_basic (b : basic) (s : scalar) : bool :=
  match b, s with
  | BString, SString _ | BBool, SBool _ | BTime, STime _ | BDec, SDec _ _ => true
  | BByte, SInt z => bool_decide (0 <= z < 256)%Z
  | BInt n, SInt z => bool_decide (- 2 ^ (Z.of_nat n - 1) <= z < 2 ^ (Z.of_nat n - 1))%Z
  | _, _ => false
  end.

Inductive ty :=
| TBasic (b : basic)
| TPtr (t : ty)
| TSlice (t : ty)
| TMap                                 (* map[string]string *)
| TStruct (fields : list (string * ty)).

Inductive value :=
| VScalar (s : scalar)
| VPtr (p : option loc)
| VSlice (s : option (loc * nat * nat))    (* array, offset, length *)
| VMap (m : option loc)
| VStruct (fields : list (string * value)).

Inductive cell :=
| CVal (v : value)
| CArr (l : list value)
| CMap (m : gmap string string).

Abbreviation heap := (gmap loc cell).

(** The contents of a value: nil is told apart from what is empty. *)
Inductive tree :=
| XScalar (s : scalar)
| XNil
| XPtr (x : tree)
| XSlice (l : list tree)
| XMap (m : gmap string string)
| XStruct (fields : list (string * tree)).

Fixpoint view (h : heap) (t : ty) (v : value) {struct t} : option tree :=
  match t, v with
  | TBasic b, VScalar s => if has_basic b s then Some (XScalar s) else None
  | TPtr _, VPtr None => Some XNil
  | TPtr t, VPtr (Some l) => match h !! l with Some (CVal x) => XPtr <$> view h t x | _ => None end
  | TSlice _, VSlice None => Some XNil
  | TSlice t, VSlice (Some (l, off, len)) =>
    match h !! l with
    | Some (CArr a) => if (off + len <=? length a)%nat then XSlice <$> mapM (view h t) (take len (drop off a)) else None
    | _ => None
    end
  | TMap, VMap None => Some XNil
  | TMap, VMap (Some l) => match h !! l with Some (CMap m) => Some (XMap m) | _ => None end
  | TStruct fs, VStruct vs =>
    XStruct <$>
    (fix go (fs : list (string * ty)) (vs : list (string * value)) : option (list (string * tree)) :=
       match fs, vs with
       | [], [] => Some []
       | (n, t) :: fs, (n', v) :: vs =>
         if bool_decide (n = n') then
           match view h t v, go fs vs with Some x, Some xs => Some ((n, x) :: xs) | _, _ => None end
         else None
       | _, _ => None
       end) fs vs
  | _, _ => None
  end.

Fixpoint reach (h : heap) (t : ty) (v : value) {struct t} : gset loc :=
  match t, v with
  | TPtr t, VPtr (Some l) => {[ l ]} ∪ match h !! l with Some (CVal x) => reach h t x | _ => ∅ end
  | TSlice t, VSlice (Some (l, off, len)) =>
    {[ l ]} ∪ match h !! l with Some (CArr a) => ⋃ map (reach h t) (take len (drop off a)) | _ => ∅ end
  | TMap, VMap (Some l) => {[ l ]}
  | TStruct fs, VStruct vs =>
    (fix go (fs : list (string * ty)) (vs : list (string * value)) : gset loc :=
       match fs, vs with
       | (_, t) :: fs, (_, v) :: vs => reach h t v ∪ go fs vs
       | _, _ => ∅
       end) fs vs
  | _, _ => ∅
  end.

(** ** Programs on the heap; [None] is a crash. *)

Definition HM (A : Type) : Type := heap -> option (A * heap).
#[global] Instance HM_ret : MRet HM := fun A a h => Some (a, h).
#[global] Instance HM_bind : MBind HM := fun A B f p h =>
  match p h with Some (a, h') => f a h' | None => None end.

Definition crash {A} : HM A := fun _ => None.
Definition load (l : loc) : HM cell := fun h => match h !! l with Some c => Some (c, h) | None => None end.
Definition alloc (c : cell) : HM loc := fun h => let l := fresh (dom h) in Some (l, <[l := c]> h).

Fixpoint each {A B} (f : A -> HM B) (l : list A) : HM (list B) :=
  match l with
  | [] => mret []
  | a :: l => b ← f a; bs ← each f l; mret (b :: bs)
  end.

(** ** The statements of a copy function *)

(** [out.F = in.F]. *)
Definition assign (v : value) : HM value := mret v.

(** [if in.F != nil { *out = new(T); copy **in into **out }]. *)
Definition copy_ptr (f : value -> HM value) (v : value) : HM value :=
  match v with
  | VPtr None => mret v
  | VPtr (Some l) =>
    c ← load l;
    match c with
    | CVal x => y ← f x; l' ← alloc (CVal y); mret (VPtr (Some l'))
    | _ => crash
    end
  | _ => crash
  end.

(** The elements of a slice. *)
Definition elements (v : value) : HM (option (list value)) :=
  match v with
  | VSlice None => mret None
  | VSlice (Some (l, off, len)) =>
    c ← load l;
    match c with
    | CArr a => if (off + len <=? length a)%nat then mret (Some (take len (drop off a))) else crash
    | _ => crash
    end
  | _ => crash
  end.

(** [if in.F != nil { *out = make([]T, len( *in)); copy( *out, *in) }]. *)
Definition copy_slice (v : value) : HM value :=
  e ← elements v;
  match e with
  | None => mret v
  | Some l => l' ← alloc (CArr l); mret (VSlice (Some (l', 0, length l)))
  end.

(** [if in.F != nil { *out = make([]T, len( *in)); for i := range *in { copy ( *in)[i] into ( *out)[i] } }]. *)
Definition copy_slice_with (f : value -> HM value) (v : value) : HM value :=
  e ← elements v;
  match e with
  | None => mret v
  | Some l => ys ← each f l; l' ← alloc (CArr ys); mret (VSlice (Some (l', 0, length ys)))
  end.

(** [if in.F != nil { *out = make(map[string]string, len( *in)); for key, val := range *in { ( *out)[key] = val } }]:
    whatever the order, the new map ends with the entries of the old one. *)
Definition copy_map (v : value) : HM value :=
  match v with
  | VMap None => mret v
  | VMap (Some l) =>
    c ← load l;
    match c with
    | CMap m => l' ← alloc (CMap m); mret (VMap (Some l'))
    | _ => crash
    end
  | _ => crash
  end.

Fixpoint field (n : string) (fs : list (string * value)) : option value :=
  match fs with
  | [] => None
  | (n', v) :: fs => if bool_decide (n = n') then Some v else field n fs
  end.
Fixpoint set_field (n : string) (v : value) (fs : list (string * value)) : list (string * value) :=
  match fs with
  | [] => []
  | (n', w) :: fs => if bool_decide (n = n') then (n', v) :: fs else (n', w) :: set_field n v fs
  end.

(** [*out = *in], then one statement per field. *)
Fixpoint assign_fields (stmts : list (string * (value -> HM value))) (inn out : list (string * value))
    : HM (list (string * value)) :=
  match stmts with
  | [] => mret out
  | (n, f) :: stmts =>
    match field n inn with
    | None => crash
    | Some x => y ← f x; assign_fields stmts inn (set_field n y out)
    end
  end.
Definition struct_copy (stmts : list (string * (value -> HM value))) (v : value) : HM value :=
  match v with
  | VStruct fs => out ← assign_fields stmts fs fs; mret (VStruct out)
  | _ => crash
  end.

(** ** The copy that follows the type *)
Fixpoint deepcopy (t : ty) : value -> HM value :=
  match t with
  | TBasic _ => assign
  | TPtr t => copy_ptr (deepcopy t)
  | TSlice t => copy_slice_with (deepcopy t)
  | TMap => copy_map
  | TStruct fs =>
    struct_copy ((fix go (fs : list (string * ty)) : list (string * (value -> HM value)) :=
                    match fs with [] => [] | (n, t) :: fs => (n, deepcopy t) :: go fs end) fs)
  end.

(** ** Facts *)

(** Induction on types, through the fields of a struct. *)
Section ty_induction.
Context (P : ty -> Prop) (Hbasic : forall b, P (TBasic b)) (Hptr : forall t, P t -> P (TPtr t))
  (Hslice : forall t, P t -> P (TSlice t)) (Hmap : P TMap)
  (Hstruct : forall fs, Forall (fun f => P f.2) fs -> P (TStruct fs)).

Fixpoint ty_ind' (t : ty) : P t :=
  match t with
  | TBasic b => Hbasic b
  | TPtr t => Hptr t (ty_ind' t)
  | TSlice t => Hslice t (ty_ind' t)
  | TMap => Hmap
  | TStruct fs => Hstruct fs
    ((fix go (fs : list (string * ty)) : Forall (fun f => P f.2) fs :=
        match fs with
        | [] => Forall_nil_2 _
        | f :: fs => Forall_cons_2 _ f fs (ty_ind' f.2) (go fs)
        end) fs)
  end.
End ty_induction.

(** The fields of a struct. *)
Fixpoint view_fields (h : heap) (fs : list (string * ty)) (vs : list (string * value)) : option (list (string * tree)) :=
  match fs, vs with
  | [], [] => Some []
  | (n, t) :: fs, (n', v) :: vs =>
    if bool_decide (n = n') then
      match view h t v, view_fields h fs vs with Some x, Some xs => Some ((n, x) :: xs) | _, _ => None end
    else None
  | _, _ => None
  end.
Fixpoint reach_fields (h : heap) (fs : list (string * ty)) (vs : list (string * value)) : gset loc :=
  match fs, vs with
  | (_, t) :: fs, (_, v) :: vs => reach h t v ∪ reach_fields h fs vs
  | _, _ => ∅
  end.
Definition copy_stmts (fs : list (string * ty)) : list (string * (value -> HM value)) :=
  map (fun f => (f.1, deepcopy f.2)) fs.

Lemma view_struct h fs vs : view h (TStruct fs) (VStruct vs) = XStruct <$> view_fields h fs vs.
Proof.
  cbn [view]. f_equal. revert vs. induction fs as [|[n t] fs IH]; intros [|[n' v] vs]; try done.
  cbn. destruct (bool_decide _); [|done]. destruct (view h t v); [|done]. by rewrite IH.
Qed.

Lemma reach_struct h fs vs : reach h (TStruct fs) (VStruct vs) = reach_fields h fs vs.
Proof.
  cbn [reach]. revert vs. induction fs as [|[n t] fs IH]; intros [|[n' v] vs]; try done.
  cbn. by rewrite IH.
Qed.

Lemma deepcopy_struct fs : deepcopy (TStruct fs) = struct_copy (copy_stmts fs).
Proof. cbn [deepcopy]. f_equal. induction fs as [|[n t] fs IH]; [done|]. cbn. by rewrite IH. Qed.

(** Field names differ, everywhere in a type. *)
Inductive wf : ty -> Prop :=
| wf_basic b : wf (TBasic b)
| wf_ptr t : wf t -> wf (TPtr t)
| wf_slice t : wf t -> wf (TSlice t)
| wf_map : wf TMap
| wf_struct fs : NoDup fs.*1 -> Forall (fun f => wf f.2) fs -> wf (TStruct fs).

(** *** Contents depend on the cells within reach only *)

Lemma view_frame h h' t : forall v x,
  view h t v = Some x -> (forall l, l ∈ reach h t v -> h' !! l = h !! l) ->
  view h' t v = Some x /\ reach h' t v = reach h t v.
Proof.
  induction t as [b|t IH|t IH| |fs IH] using ty_ind'; intros v x Hv Hr.
  - by destruct v.
  - destruct v as [|[l|]| | |]; try done. cbn in *. rewrite Hr by set_solver.
    destruct (h !! l) as [[y| |]|] eqn:Hl; try done. destruct (view h t y) as [x'|] eqn:Hy; [|done].
    destruct (IH y x' Hy) as [-> ->]; [set_solver|]. done.
  - destruct v as [| |[[[l off] len]|]| |]; try done. cbn in *. rewrite Hr by set_solver.
    destruct (h !! l) as [[|a|]|] eqn:Hl; try done. destruct (_ <=? _)%nat; [|done].
    destruct (mapM _ _) as [xs|] eqn:Hm; [|done]. injection Hv as <-.
    assert (mapM (view h' t) (take len (drop off a)) = Some xs /\
            map (reach h' t) (take len (drop off a)) = map (reach h t) (take len (drop off a))) as [-> ->]; [|done].
    assert (forall l, l ∈ ⋃ map (reach h t) (take len (drop off a)) -> h' !! l = h !! l) as Hr' by set_solver.
    clear Hr. revert xs Hm Hr'. generalize (take len (drop off a)). intros ys.
    induction ys as [|y ys IHys]; intros xs Hm Hr'; [done|]. cbn in *.
    destruct (view h t y) as [x'|] eqn:Hy; [|done]. cbn in Hm. destruct (mapM (view h t) ys) as [xs'|]; [|done].
    destruct (IH y x' Hy) as [-> ->]; [set_solver|]. destruct (IHys xs' eq_refl) as [Hm' ->]; [set_solver|].
    cbn. by rewrite Hm'.
  - destruct v as [| | |[l|]|]; try done. cbn in *. by rewrite Hr by set_solver.
  - destruct v as [| | | |vs]; try done. rewrite !view_struct, !reach_struct in *.
    destruct (view_fields h fs vs) as [xs|] eqn:Hm; [|done]. injection Hv as <-.
    assert (view_fields h' fs vs = Some xs /\ reach_fields h' fs vs = reach_fields h fs vs) as [-> ->]; [|done].
    revert vs xs Hm Hr. induction IH as [|[n t] fs Ht _ IHfs]; intros [|[n' v] vs] xs Hm Hr; try done.
    cbn in *. destruct (bool_decide _); [|done]. destruct (view h t v) as [x'|] eqn:Hy; [|done].
    destruct (view_fields h fs vs) as [xs'|] eqn:Hvs; [|done].
    destruct (Ht v x' Hy) as [-> ->]; [set_solver|]. destruct (IHfs vs xs' Hvs) as [-> ->]; [set_solver|]. done.
Qed.

Lemma reach_dom h t : forall v x, view h t v = Some x -> reach h t v ⊆ dom h.
Proof.
  induction t as [b|t IH|t IH| |fs IH] using ty_ind'; intros v x Hv.
  - by destruct v.
  - destruct v as [|[l|]| | |]; try done. cbn in *. destruct (h !! l) as [[y| |]|] eqn:Hl; try done.
    apply elem_of_dom_2 in Hl. destruct (view h t y) as [x'|] eqn:Hy; [|done]. apply IH in Hy. set_solver.
  - destruct v as [| |[[[l off] len]|]| |]; try done. cbn in *. destruct (h !! l) as [[|a|]|] eqn:Hl; try done.
    apply elem_of_dom_2 in Hl. destruct (_ <=? _)%nat; [|done]. destruct (mapM _ _) as [xs|] eqn:Hm; [|done]. clear Hv.
    apply union_subseteq. split; [set_solver|]. revert xs Hm. generalize (take len (drop off a)). intros ys.
    induction ys as [|y ys IHys]; intros xs Hm; [set_solver|]. cbn in *.
    destruct (view h t y) as [x'|] eqn:Hy; [|done]. cbn in Hm. destruct (mapM (view h t) ys) as [xs'|]; [|done].
    apply IH in Hy. specialize (IHys xs' eq_refl). set_solver.
  - destruct v as [| | |[l|]|]; try done. cbn in *. destruct (h !! l) as [c|] eqn:Hl; [|done].
    apply elem_of_dom_2 in Hl. set_solver.
  - destruct v as [| | | |vs]; try done. rewrite view_struct in Hv. rewrite reach_struct.
    destruct (view_fields h fs vs) as [xs|] eqn:Hm; [|done]. clear Hv.
    revert vs xs Hm. induction IH as [|[n t] fs Ht _ IHfs]; intros [|[n' v] vs] xs Hm; try done.
    cbn in *. destruct (bool_decide _); [|done]. destruct (view h t v) as [x'|] eqn:Hy; [|done].
    destruct (view_fields h fs vs) as [xs'|] eqn:Hvs; [|done]. apply Ht in Hy. apply IHfs in Hvs. set_solver.
Qed.

Lemma view_grows h h' t v x :
  view h t v = Some x -> h ⊆ h' -> view h' t v = Some x /\ reach h' t v = reach h t v.
Proof.
  intros Hv Hsub. apply view_frame; [done|]. intros l Hl. pose proof (reach_dom _ _ _ _ Hv) as Hd.
  apply Hd, elem_of_dom in Hl as [c Hc]. rewrite Hc. by eapply lookup_weaken.
Qed.

Lemma view_fields_grows h h' fs vs xs :
  view_fields h fs vs = Some xs -> h ⊆ h' ->
  view_fields h' fs vs = Some xs /\ reach_fields h' fs vs = reach_fields h fs vs.
Proof.
  intros Hv Hsub. destruct (view_grows h h' (TStruct fs) (VStruct vs) (XStruct xs)) as [Hv' Hr'].
  - by rewrite view_struct, Hv.
  - done.
  - rewrite view_struct in Hv'. rewrite !reach_struct in Hr'.
    destruct (view_fields h' fs vs) as [xs'|]; [|done]. by injection Hv' as ->.
Qed.

(** *** The copy is faithful and fresh *)

(** [v'] in [h'] is a copy of what had contents [x] in [h]. *)
Definition copied (t : ty) (h : heap) (x : tree) (v' : value) (h' : heap) : Prop :=
  h ⊆ h' /\ view h' t v' = Some x /\ reach h' t v' ## dom h.

Lemma alloc_fresh (h : heap) (c : cell) : let l := fresh (dom h) in h ⊆ (<[l := c]> h) /\ (l ∉ dom h) /\ (h !! l = None).
Proof.
  intros l. assert (l ∉ dom h) as Hl by apply is_fresh. apply not_elem_of_dom in Hl as Hn.
  split_and!; [by apply insert_subseteq|done|done].
Qed.

Lemma copied_later t h h1 h2 x v : copied t h x v h1 -> h1 ⊆ h2 -> copied t h x v h2.
Proof.
  intros (Hsub & Hv & Hr) Hsub'. destruct (view_grows _ _ _ _ _ Hv Hsub') as [Hv' Hr'].
  split_and!; [by etrans|done|by rewrite Hr'].
Qed.

(** A list of copies, made one after the other. *)
Lemma each_ok t f h0 : forall l h xs,
  h0 ⊆ h ->
  (forall h v x, h0 ⊆ h -> view h t v = Some x -> exists v' h', f v h = Some (v', h') /\ h ⊆ h' /\ copied t h0 x v' h') ->
  mapM (view h t) l = Some xs ->
  exists ys h', each f l h = Some (ys, h') /\ h ⊆ h' /\ length ys = length l /\
    mapM (view h' t) ys = Some xs /\ ⋃ map (reach h' t) ys ## dom h0.
Proof.
  induction l as [|v l IH]; intros h xs Hsub Hf Hm; cbn in *.
  { injection Hm as <-. exists [], h. split_and!; try done; set_solver. }
  destruct (view h t v) as [x|] eqn:Hv; [|done]. cbn in Hm. destruct (mapM (view h t) l) as [xs'|] eqn:Hl; [|done].
  injection Hm as <-. destruct (Hf h v x Hsub Hv) as (v' & h1 & Hfv & Hsub1 & Hc).
  assert (mapM (view h1 t) l = Some xs') as Hl1.
  { clear -Hl Hsub1. revert xs' Hl. induction l as [|a l IH]; intros xs' Hl; [done|]. cbn in *.
    destruct (view h t a) as [xa|] eqn:Ha; [|done]. cbn in Hl. destruct (mapM (view h t) l) as [xs|]; [|done].
    destruct (view_grows _ _ _ _ _ Ha Hsub1) as [-> _]. cbn. by rewrite (IH xs). }
  destruct (IH h1 xs') as (ys & h2 & Hys & Hsub2 & Hlen & Hm2 & Hr2); [by etrans|done|done|].
  exists (v' :: ys), h2. unfold mbind, HM_bind. rewrite Hfv, Hys. cbn.
  destruct (copied_later _ _ _ _ _ _ Hc Hsub2) as (_ & Hv2 & Hrv). rewrite Hv2. cbn. rewrite Hm2. cbn.
  split_and!; [done|by etrans|by rewrite Hlen|done|set_solver].
Qed.

(** Copying the fields in order. *)
Fixpoint copy_fields (fs : list (string * ty)) (vs : list (string * value)) : HM (list (string * value)) :=
  match fs, vs with
  | (n, t) :: fs, (n', v) :: vs => y ← deepcopy t v; ys ← copy_fields fs vs; mret ((n, y) :: ys)
  | _, _ => mret []
  end.

Lemma field_app n pre vs : n ∉ pre.*1 -> field n (pre ++ vs) = field n vs.
Proof. induction pre as [|[n' v] pre IH]; intros Hn; [done|]. cbn in *. rewrite bool_decide_false by set_solver. apply IH. set_solver. Qed.

Lemma set_field_app n y pre vs : n ∉ pre.*1 -> set_field n y (pre ++ vs) = pre ++ set_field n y vs.
Proof. induction pre as [|[n' v] pre IH]; intros Hn; [done|]. cbn in *. rewrite bool_decide_false by set_solver. rewrite IH by set_solver. done. Qed.

(** The statements of a copy function: one for each field that has references,
    in order, and none or a plain assignment for the others. *)
Section statements.
Context (good : ty -> (value -> HM value) -> Prop) (flat : ty -> Prop).
Inductive covers : list (string * ty) -> list (string * (value -> HM value)) -> Prop :=
| covers_nil : covers [] []
| covers_stmt n t fs f stmts : good t f -> covers fs stmts -> covers ((n, t) :: fs) ((n, f) :: stmts)
| covers_skip n t fs stmts : flat t -> covers fs stmts -> covers ((n, t) :: fs) stmts.
End statements.

(** [f] copies values of type [t] as the type says. *)
Definition copies (t : ty) (f : value -> HM value) : Prop :=
  forall h v x, view h t v = Some x -> f v h = deepcopy t v h.

(** Without references there is nothing to copy. *)
Definition flat (t : ty) : Prop := forall h v x, view h t v = Some x -> deepcopy t v h = Some (v, h).

(** Copying a field does not disturb the others. *)
Definition grows (t : ty) : Prop :=
  forall h v x, view h t v = Some x -> exists v' h', deepcopy t v h = Some (v', h') /\ h ⊆ h'.

Lemma assign_fields_covers fs stmts : covers copies flat fs stmts -> Forall (fun f => grows f.2) fs -> NoDup fs.*1 ->
  forall inn pre vs h xs, view_fields h fs vs = Some xs ->
  (forall n, n ∈ fs.*1 -> n ∉ pre.*1) -> (forall n, n ∈ fs.*1 -> field n inn = field n vs) ->
  assign_fields stmts inn (pre ++ vs) h = (ys ← copy_fields fs vs; mret (pre ++ ys)) h.
Proof.
  induction 1 as [|n t fs f stmts Hf _ IH|n t fs stmts Hflat _ IH]; intros Hg Hnd inn pre vs h xs Hv Hpre Hinn.
  - destruct vs; [|done]. by cbn.
  - destruct vs as [|[n' v] vs]; [done|]. cbn in Hv. case_bool_decide as Heq; [subst n'|done].
    destruct (view h t v) as [x|] eqn:Hx; [|done]. destruct (view_fields h fs vs) as [xs'|] eqn:Hxs; [|done].
    apply Forall_cons in Hg as [Hgt Hg]. apply NoDup_cons in Hnd as [Hn Hnd]. cbn [fst snd] in *.
    destruct (Hgt h v x Hx) as (v' & h' & Hd & Hsub).
    cbn [assign_fields]. rewrite Hinn by left. cbn [field]. rewrite bool_decide_true by done.
    unfold mbind, HM_bind. rewrite (Hf h v x Hx), Hd. cbn [copy_fields]. unfold mbind, HM_bind. rewrite Hd.
    rewrite set_field_app by (apply Hpre; left). cbn [set_field]. rewrite bool_decide_true by done.
    destruct (view_fields_grows _ _ _ _ _ Hxs Hsub) as [Hxs' _].
    replace (pre ++ (n, v') :: vs) with ((pre ++ [(n, v')]) ++ vs) by by rewrite <- app_assoc.
    rewrite (IH Hg Hnd inn _ vs h' xs' Hxs').
    + unfold mbind, HM_bind. destruct (copy_fields fs vs h') as [[ys h'']|]; [|done]. cbn. by rewrite <- app_assoc.
    + intros m Hm. rewrite fmap_app, elem_of_app. cbn. intros [Hp|Hp%list_elem_of_singleton];
        [by apply (Hpre m); [right|]|by subst].
    + intros m Hm. rewrite Hinn by by right. cbn. rewrite bool_decide_false; [done|]. by intros ->.
  - destruct vs as [|[n' v] vs]; [done|]. cbn in Hv. case_bool_decide as Heq; [subst n'|done].
    destruct (view h t v) as [x|] eqn:Hx; [|done]. destruct (view_fields h fs vs) as [xs'|] eqn:Hxs; [|done].
    apply Forall_cons in Hg as [Hgt Hg]. apply NoDup_cons in Hnd as [Hn Hnd]. cbn [fst snd] in *.
    replace (pre ++ (n, v) :: vs) with ((pre ++ [(n, v)]) ++ vs) by by rewrite <- app_assoc.
    rewrite (IH Hg Hnd inn _ vs h xs' Hxs).
    + cbn [copy_fields]. unfold mbind, HM_bind. rewrite (Hflat h v x Hx).
      destruct (copy_fields fs vs h) as [[ys h'']|]; [|done]. cbn. by rewrite <- app_assoc.
    + intros m Hm. rewrite fmap_app, elem_of_app. cbn. intros [Hp|Hp%list_elem_of_singleton];
        [by apply (Hpre m); [right|]|by subst].
    + intros m Hm. rewrite Hinn by by right. cbn. rewrite bool_decide_false; [done|]. by intros ->.
Qed.

Lemma covers_all fs : covers copies flat fs (copy_stmts fs).
Proof. induction fs as [|[n t] fs IH]; [constructor|]. by apply covers_stmt. Qed.

(** One cell more, referring to fresh copies only. *)
Lemma alloc_copied (h0 h : heap) (c : cell) (r : gset loc) :
  h0 ⊆ h -> r ## dom h0 -> let l := fresh (dom h) in h0 ⊆ (<[l := c]> h) /\ {[l]} ∪ r ## dom h0.
Proof.
  intros Hsub Hr l. destruct (alloc_fresh h c) as (Hs & Hd & _). split; [by etrans|].
  apply subseteq_dom in Hsub. set_solver.
Qed.

Lemma copy_ptr_ok t f h v x :
  (forall v x, view h t v = Some x -> exists v' h', f v h = Some (v', h') /\ copied t h x v' h') ->
  view h (TPtr t) v = Some x -> exists v' h', copy_ptr f v h = Some (v', h') /\ copied (TPtr t) h x v' h'.
Proof.
  intros Hf Hv. destruct v as [|[l|]| | |]; try done; cbn in Hv.
  - destruct (h !! l) as [[y| |]|] eqn:Hl; try done. destruct (view h t y) as [x'|] eqn:Hy; [|done]. injection Hv as <-.
    destruct (Hf y x' Hy) as (v' & h' & Hfy & Hsub & Hv' & Hr').
    unfold copy_ptr, load, mbind, HM_bind. rewrite Hl, Hfy. cbn. eexists _, _. split; [done|].
    destruct (alloc_fresh h' (CVal v')) as (Hs & _ & _). destruct (view_grows _ _ _ _ _ Hv' Hs) as [Hv2 Hr2].
    destruct (alloc_copied h h' (CVal v') (reach h' t v') Hsub Hr') as [Hs' Hd'].
    split_and!; [done| |]; cbn; rewrite lookup_insert_eq; [by rewrite Hv2|by rewrite Hr2].
  - injection Hv as <-. exists (VPtr None), h. split; [done|]. split_and!; [done..|]. cbn. set_solver.
Qed.

Lemma copy_slice_ok t f h v x :
  (forall h1 v x, h ⊆ h1 -> view h1 t v = Some x -> exists v' h', f v h1 = Some (v', h') /\ h1 ⊆ h' /\ copied t h x v' h') ->
  view h (TSlice t) v = Some x -> exists v' h', copy_slice_with f v h = Some (v', h') /\ copied (TSlice t) h x v' h'.
Proof.
  intros Hf Hv. destruct v as [| |[[[l off] len]|]| |]; try done; cbn in Hv.
  - destruct (h !! l) as [[|a|]|] eqn:Hl; try done. destruct (off + len <=? length a)%nat eqn:Hb; [|done].
    destruct (mapM _ _) as [xs|] eqn:Hm; [|done]. injection Hv as <-.
    destruct (each_ok t f h (take len (drop off a)) h xs) as (ys & h' & Hys & Hsub & Hlen & Hm' & Hr'); [done..|].
    unfold copy_slice_with, elements, load, mbind, HM_bind. rewrite Hl, Hb. cbn. rewrite Hys. eexists _, _. split; [done|].
    destruct (alloc_fresh h' (CArr ys)) as (Hs & _ & _).
    destruct (alloc_copied h h' (CArr ys) _ Hsub Hr') as [Hs' Hd'].
    assert (mapM (view (<[fresh (dom h') := CArr ys]> h') t) ys = Some xs /\
            map (reach (<[fresh (dom h') := CArr ys]> h') t) ys = map (reach h' t) ys) as [Hm2 Hr2].
    { revert Hm' Hs. generalize (<[fresh (dom h') := CArr ys]> h'). clear. intros h2. revert xs.
      induction ys as [|y ys IH]; intros xs Hm Hs; [done|]. cbn in *.
      destruct (view h' t y) as [x|] eqn:Hy; [|done]. cbn in Hm. destruct (mapM _ ys) as [xs'|] eqn:Hxs; [|done].
      destruct (view_grows _ _ _ _ _ Hy Hs) as [-> ->]. destruct (IH xs' eq_refl Hs) as [Hm2 ->]. cbn. by rewrite Hm2. }
    split_and!; [done| |]; cbn; rewrite lookup_insert_eq, take_ge by done; [|by rewrite drop_0, Hr2].
    by rewrite (proj2 (Nat.leb_le _ _)), drop_0, Hm2 by lia.
  - injection Hv as <-. exists (VSlice None), h. split; [done|]. split_and!; [done..|]. cbn. set_solver.
Qed.

Lemma copy_map_ok h v x :
  view h TMap v = Some x -> exists v' h', copy_map v h = Some (v', h') /\ copied TMap h x v' h'.
Proof.
  intros Hv. destruct v as [| | |[l|]|]; try done; cbn in Hv.
  - destruct (h !! l) as [[| |m]|] eqn:Hl; try done. injection Hv as <-.
    unfold copy_map, load, mbind, HM_bind. rewrite Hl. cbn. eexists _, _. split; [done|].
    destruct (alloc_copied h h (CMap m) ∅) as [Hs' Hd']; [done|set_solver|].
    split_and!; [done| |]; cbn; [by rewrite lookup_insert_eq|]. set_solver.
  - injection Hv as <-. exists (VMap None), h. split; [done|]. split_and!; [done..|]. cbn. set_solver.
Qed.

(** A copy made later is also fresh for what was there before. *)
Lemma copied_earlier t h0 h x v' h' : h0 ⊆ h -> copied t h x v' h' -> h ⊆ h' /\ copied t h0 x v' h'.
Proof.
  intros Hsub (Hs & Hv & Hr). apply subseteq_dom in Hsub as Hd. split; [done|].
  split_and!; [by etrans|done|set_solver].
Qed.

(** [faithful t]: the copy of a value of type [t] has the same contents, and
    reaches no cell that existed before. *)
Definition faithful (t : ty) : Prop := forall h v x, view h t v = Some x ->
  exists v' h', deepcopy t v h = Some (v', h') /\ copied t h x v' h'.

Lemma faithful_grows t : faithful t -> grows t.
Proof. intros Hf h v x Hv. destruct (Hf h v x Hv) as (v' & h' & Hd & Hs & _). eauto. Qed.

Lemma copy_fields_ok fs : Forall (fun f => faithful f.2) fs -> forall h vs xs,
  view_fields h fs vs = Some xs ->
  exists ys h', copy_fields fs vs h = Some (ys, h') /\ h ⊆ h' /\ view_fields h' fs ys = Some xs /\
    reach_fields h' fs ys ## dom h.
Proof.
  induction 1 as [|[n t] fs Ht _ IH]; intros h vs xs Hv.
  { destruct vs; [|done]. exists [], h. split_and!; try done; cbn; set_solver. }
  cbn [snd] in Ht. destruct vs as [|[n' v] vs]; [done|]. cbn in Hv. case_bool_decide as Heq; [subst n'|done].
  destruct (view h t v) as [x|] eqn:Hx; [|done]. destruct (view_fields h fs vs) as [xs'|] eqn:Hxs; [|done].
  injection Hv as <-. destruct (Ht h v x Hx) as (v' & h1 & Hd & Hc). pose proof Hc as (Hsub1 & _).
  destruct (view_fields_grows _ _ _ _ _ Hxs Hsub1) as [Hxs1 _].
  destruct (IH h1 vs xs' Hxs1) as (ys & h2 & Hys & Hsub2 & Hv2 & Hr2).
  exists ((n, v') :: ys), h2. cbn. unfold mbind, HM_bind. rewrite Hd, Hys. cbn.
  destruct (copied_later _ _ _ _ _ _ Hc Hsub2) as (_ & Hvv & Hrv). apply subseteq_dom in Hsub1 as Hdom.
  rewrite bool_decide_true, Hvv, Hv2 by done. split_and!; [done|by etrans|done|set_solver].
Qed.

Lemma copy_struct fs stmts : Forall (fun f => faithful f.2) fs -> NoDup fs.*1 -> covers copies flat fs stmts ->
  forall h vs xs, view_fields h fs vs = Some xs ->
  struct_copy stmts (VStruct vs) h = (ys ← copy_fields fs vs; mret (VStruct ys)) h.
Proof.
  intros Hf Hnd Hc h vs xs Hv. unfold struct_copy, mbind, HM_bind.
  pose proof (assign_fields_covers fs stmts Hc) as Ha. specialize (fun H1 H2 => Ha H1 H2 vs [] vs h xs Hv).
  cbn in Ha. rewrite Ha; try done.
  - unfold mbind, HM_bind. by destruct (copy_fields fs vs h) as [[ys h']|].
  - eapply Forall_impl; [exact Hf|]. intros f. apply faithful_grows.
  - intros n _. set_solver.
Qed.

Theorem deepcopy_faithful t : wf t -> faithful t.
Proof.
  induction t as [b|t IH|t IH| |fs IH] using ty_ind'; intros Hwf h v x Hv; inversion Hwf as [|? Ht|? Ht| |? Hnd Hfs]; subst.
  - exists v, h. split; [done|]. split_and!; [done..|]. destruct v; cbn; set_solver.
  - apply copy_ptr_ok; [|done]. intros v1 x1. by apply IH.
  - apply copy_slice_ok; [|done]. intros h1 v1 x1 Hsub Hv1. destruct (IH Ht h1 v1 x1 Hv1) as (v' & h' & Hd & Hc).
    exists v', h'. split; [done|]. by eapply copied_earlier.
  - by apply copy_map_ok.
  - destruct v as [| | | |vs]; try done. rewrite view_struct in Hv.
    destruct (view_fields h fs vs) as [xs|] eqn:Hxs; [|done]. injection Hv as <-.
    assert (Forall (fun f => faithful f.2) fs) as Hall.
    { clear -IH Hfs. induction IH as [|f fs Hf _ IHfs]; [constructor|]. inversion Hfs; subst. constructor; auto. }
    destruct (copy_fields_ok fs Hall h vs xs Hxs) as (ys & h' & Hys & Hsub & Hv' & Hr').
    exists (VStruct ys), h'. rewrite deepcopy_struct, (copy_struct fs _ Hall Hnd (covers_all fs) h vs xs Hxs).
    unfold mbind, HM_bind. rewrite Hys. split; [done|]. split_and!; [done|by rewrite view_struct, Hv'|by rewrite reach_struct].
Qed.

(** ** Copy functions that follow their type *)

(** Executable versions of [wf] and [flat]. *)
Fixpoint wfb (t : ty) : bool :=
  match t with
  | TBasic _ | TMap => true
  | TPtr t | TSlice t => wfb t
  | TStruct fs => bool_decide (NoDup fs.*1) &&
    (fix go (fs : list (string * ty)) : bool := match fs with [] => true | (_, t) :: fs => wfb t && go fs end) fs
  end.
Fixpoint flatb (t : ty) : bool :=
  match t with
  | TBasic _ => true
  | TStruct fs => (fix go (fs : list (string * ty)) : bool := match fs with [] => true | (_, t) :: fs => flatb t && go fs end) fs
  | _ => false
  end.

Lemma wfb_wf t : wfb t = true -> wf t.
Proof.
  induction t as [b|t IH|t IH| |fs IH] using ty_ind'; cbn; intros Hb; [constructor|constructor; auto..|constructor|].
  apply andb_prop in Hb as [Hnd Hb]. constructor; [by eapply bool_decide_eq_true_1|]. clear Hnd.
  induction IH as [|[n t] fs Ht _ IHfs]; [constructor|]. apply andb_prop in Hb as [Hb1 Hb2]. constructor; auto.
Qed.

Lemma flatb_flat t : wf t -> flatb t = true -> flat t.
Proof.
  induction t as [b|t IH|t IH| |fs IH] using ty_ind'; intros Hwf Hb h v x Hv; try done.
  destruct v as [| | | |vs]; try done. rewrite view_struct in Hv. inversion Hwf as [| | | |? Hnd Hfs]; subst.
  destruct (view_fields h fs vs) as [xs|] eqn:Hxs; [|done].
  assert (Forall (fun f => faithful f.2) fs) as Hall by (eapply Forall_impl; [exact Hfs|]; intros f; apply deepcopy_faithful).
  rewrite deepcopy_struct, (copy_struct fs _ Hall Hnd (covers_all fs) h vs xs Hxs).
  assert (copy_fields fs vs h = Some (vs, h)) as Hc; [|unfold mbind, HM_bind; by rewrite Hc].
  clear Hv Hwf Hnd Hall. cbn in Hb. revert vs xs Hxs.
  induction IH as [|[n t] fs Ht _ IHfs]; intros [|[n' v] vs] xs Hxs; try done. cbn in *.
  apply Forall_cons in Hfs as [Hwt Hfs]. apply andb_prop in Hb as [Hb1 Hb2]. case_bool_decide as Heq; [subst n'|done].
  destruct (view h t v) as [y|] eqn:Hy; [|done]. destruct (view_fields h fs vs) as [ys|] eqn:Hys; [|done].
  unfold mbind, HM_bind. by rewrite (Ht Hwt Hb1 h v y Hy), (IHfs Hb2 Hfs vs ys Hys).
Qed.

Lemma copies_deepcopy t : copies t (deepcopy t).
Proof. by intros h v x. Qed.

Lemma copies_assign t : wfb t = true -> flatb t = true -> copies t assign.
Proof. intros Hw Hf h v x Hv. by rewrite (flatb_flat t (wfb_wf t Hw) Hf h v x Hv). Qed.

Lemma copies_ptr t f : copies t f -> copies (TPtr t) (copy_ptr f).
Proof.
  intros Hf h v x Hv. destruct v as [|[l|]| | |]; try done. cbn in Hv |- *. unfold load, mbind, HM_bind.
  destruct (h !! l) as [[y| |]|]; try done. destruct (view h t y) as [x'|] eqn:Hy; [|done]. by rewrite (Hf h y x' Hy).
Qed.

Lemma each_copies t f : wf t -> copies t f -> forall l h xs,
  mapM (view h t) l = Some xs -> each f l h = each (deepcopy t) l h.
Proof.
  intros Hwf Hf l. induction l as [|v l IH]; intros h xs Hm; [done|]. cbn in *.
  destruct (view h t v) as [x|] eqn:Hv; [|done]. cbn in Hm. destruct (mapM (view h t) l) as [xs'|] eqn:Hl; [|done].
  unfold mbind, HM_bind. rewrite (Hf h v x Hv). destruct (deepcopy_faithful t Hwf h v x Hv) as (v' & h' & -> & Hsub & _).
  erewrite IH; [done|]. instantiate (1 := xs'). clear -Hl Hsub. revert xs' Hl.
  induction l as [|a l IH]; intros xs' Hl; [done|]. cbn in *.
  destruct (view h t a) as [y|] eqn:Ha; [|done]. cbn in Hl. destruct (mapM (view h t) l) as [ys|]; [|done].
  destruct (view_grows _ _ _ _ _ Ha Hsub) as [-> _]. cbn. by rewrite (IH ys).
Qed.

Lemma copies_slice_with t f : wfb t = true -> copies t f -> copies (TSlice t) (copy_slice_with f).
Proof.
  intros Hw Hf h v x Hv. destruct v as [| |[[[l off] len]|]| |]; try done. cbn in Hv |- *.
  unfold copy_slice_with, elements, load, mbind, HM_bind. destruct (h !! l) as [[|a|]|]; try done.
  destruct (_ <=? _)%nat; [|done]. destruct (mapM _ _) as [xs|] eqn:Hm; [|done].
  cbn. by rewrite (each_copies t f (wfb_wf t Hw) Hf _ h xs Hm).
Qed.

Lemma each_assign l h : each assign l h = Some (l, h).
Proof. induction l as [|v l IH]; [done|]. cbn. unfold mbind, HM_bind. cbn. by rewrite IH. Qed.

Lemma copies_slice t : wfb t = true -> flatb t = true -> copies (TSlice t) copy_slice.
Proof.
  intros Hw Hf h v x Hv. rewrite <- (copies_slice_with t assign Hw (copies_assign t Hw Hf) h v x Hv).
  unfold copy_slice, copy_slice_with, mbind, HM_bind. destruct (elements v h) as [[[l|] h']|]; try done.
  by rewrite each_assign.
Qed.

Lemma copies_map : copies TMap copy_map.
Proof. by intros h v x. Qed.

Lemma copies_struct fs stmts : wfb (TStruct fs) = true -> covers copies flat fs stmts -> copies (TStruct fs) (struct_copy stmts).
Proof.
  intros Hw Hc h v x Hv. apply wfb_wf in Hw. inversion Hw as [| | | |? Hnd Hfs]; subst.
  assert (Forall (fun f => faithful f.2) fs) as Hall by (eapply Forall_impl; [exact Hfs|]; intros f; apply deepcopy_faithful).
  destruct v as [| | | |vs]; try done. rewrite view_struct in Hv. destruct (view_fields h fs vs) as [xs|] eqn:Hxs; [|done].
  by rewrite deepcopy_struct, (copy_struct fs _ Hall Hnd Hc h vs xs Hxs), (copy_struct fs _ Hall Hnd (covers_all fs) h vs xs Hxs).
Qed.

Lemma covers_flat n t fs stmts : wfb t = true -> flatb t = true -> covers copies flat fs stmts -> covers copies flat ((n, t) :: fs) stmts.
Proof. intros Hw Hf. apply covers_skip. by apply flatb_flat; [apply wfb_wf|]. Qed.

(** [solve_copies] proves [copies T f] for the source text of [f]: one statement
    per field that has references. *)
Create HintDb copies discriminated.
#[export] Hint Resolve copies_ptr copies_slice_with copies_slice copies_map copies_assign : copies.
#[export] Hint Resolve eq_refl : copies.

Ltac solve_covers :=
  repeat first
    [ apply covers_nil
    | apply covers_stmt; [solve [eauto with copies nocore]|]
    | apply covers_flat; [reflexivity|reflexivity|] ].
Ltac solve_copies := apply copies_struct; [reflexivity|solve_covers].
