(* ===== verification/ObjectTypes.v ===== *)
(** * The Go types of the API objects

    The structs of src/api with their fields, in order, and what they use of
    apimachinery's metav1 and resource packages and of core/v1 (vendored).  A
    named string type is a string.  time.Time is a scalar (its one pointer, to the
    zone, is never written through), and so are the digits of an inf.Dec. *)

From S2P Require Import Prelude.
From S2P Require Import GoHeap.

Abbreviation TString := (TBasic BString).
Abbreviation TBool := (TBasic BBool).
Abbreviation TInt32 := (TBasic (BInt 32)).
Abbreviation TInt64 := (TBasic (BInt 64)).
Abbreviation TTime := (TBasic BTime).

(** ** metav1 *)
Definition TypeMeta_type : ty := TStruct [("Kind", TString); ("APIVersion", TString)].

Definition ListMeta_type : ty :=
  TStruct [("SelfLink", TString); ("ResourceVersion", TString); ("Continue", TString);
   ("RemainingItemCount", TPtr TInt64)].

Definition OwnerReference_type : ty :=
  TStruct [("APIVersion", TString); ("Kind", TString); ("Name", TString); ("UID", TString);
   ("Controller", TPtr TBool); ("BlockOwnerDeletion", TPtr TBool)].

Definition FieldsV1_type : ty := TStruct [("Raw", TSlice (TBasic BByte))].

Definition ManagedFieldsEntry_type : ty :=
  TStruct [("Manager", TString); ("Operation", TString); ("APIVersion", TString); ("Time", TPtr TTime);
   ("FieldsType", TString); ("FieldsV1", TPtr FieldsV1_type); ("Subresource", TString)].

Definition ObjectMeta_type : ty :=
  TStruct [("Name", TString); ("GenerateName", TString); ("Namespace", TString); ("SelfLink", TString);
   ("UID", TString); ("ResourceVersion", TString); ("Generation", TInt64); ("CreationTimestamp", TTime);
   ("DeletionTimestamp", TPtr TTime); ("DeletionGracePeriodSeconds", TPtr TInt64); ("Labels", TMap);
   ("Annotations", TMap); ("OwnerReferences", TSlice OwnerReference_type); ("Finalizers", TSlice TString);
   ("ManagedFields", TSlice ManagedFieldsEntry_type)].

Definition Condition_type : ty :=
  TStruct [("Type", TString); ("Status", TString); ("ObservedGeneration", TInt64);
   ("LastTransitionTime", TTime); ("Reason", TString); ("Message", TString)].

Definition LabelSelectorRequirement_type : ty :=
  TStruct [("Key", TString); ("Operator", TString); ("Values", TSlice TString)].

Definition LabelSelector_type : ty :=
  TStruct [("MatchLabels", TMap); ("MatchExpressions", TSlice LabelSelectorRequirement_type)].

(** ** core/v1 and resource *)
Definition ObjectReference_type : ty :=
  TStruct [("Kind", TString); ("Namespace", TString); ("Name", TString); ("UID", TString);
   ("APIVersion", TString); ("ResourceVersion", TString); ("FieldPath", TString)].

Definition LocalObjectReference_type : ty := TStruct [("Name", TString)].

Definition TypedLocalObjectReference_type : ty :=
  TStruct [("APIGroup", TPtr TString); ("Kind", TString); ("Name", TString)].

Definition Quantity_type : ty :=
  TStruct [("i", TStruct [("value", TInt64); ("scale", TInt32)]); ("d", TStruct [("Dec", TPtr (TBasic BDec))]);
   ("s", TString); ("Format", TString)].

(** ** src/api/csiaddons/v1alpha1 *)
Module CsiAddons.

Definition CSIAddonsNodeDriver_type : ty :=
  TStruct [("Name", TString); ("EndPoint", TString); ("NodeID", TString)].

Definition CSIAddonsNodeSpec_type : ty :=
  TStruct [("Driver", CSIAddonsNodeDriver_type)].

Definition ClientDetail_type : ty :=
  TStruct [("Id", TString); ("Cidrs", TSlice TString)].

Definition NetworkFenceClientStatus_type : ty :=
  TStruct [("NetworkFenceClassName", TString); ("ClientDetails", TSlice ClientDetail_type)].

Definition CSIAddonsNodeStatus_type : ty :=
  TStruct [("State", TString); ("Message", TString); ("Reason", TString); ("Capabilities", TSlice TString);
   ("NetworkFenceClientStatus", TSlice NetworkFenceClientStatus_type)].

Definition CSIAddonsNode_type : ty :=
  TStruct [("TypeMeta", TypeMeta_type); ("ObjectMeta", ObjectMeta_type); ("Spec", CSIAddonsNodeSpec_type);
   ("Status", CSIAddonsNodeStatus_type)].

Definition CSIAddonsNodeList_type : ty :=
  TStruct [("TypeMeta", TypeMeta_type); ("ListMeta", ListMeta_type); ("Items", TSlice CSIAddonsNode_type)].

Definition SecretSpec_type : ty :=
  TStruct [("Name", TString); ("Namespace", TString)].

Definition NetworkFenceSpec_type : ty :=
  TStruct [("NetworkFenceClassName", TString); ("Driver", TString); ("FenceState", TString);
   ("Cidrs", TSlice TString); ("Secret", SecretSpec_type); ("Parameters", TMap)].

Definition NetworkFenceStatus_type : ty :=
  TStruct [("Result", TString); ("Message", TString); ("Conditions", TSlice Condition_type)].

Definition NetworkFence_type : ty :=
  TStruct [("TypeMeta", TypeMeta_type); ("ObjectMeta", ObjectMeta_type); ("Spec", NetworkFenceSpec_type);
   ("Status", NetworkFenceStatus_type)].

Definition NetworkFenceList_type : ty :=
  TStruct [("TypeMeta", TypeMeta_type); ("ListMeta", ListMeta_type); ("Items", TSlice NetworkFence_type)].

Definition NetworkFenceClassSpec_type : ty :=
  TStruct [("Provisioner", TString); ("Parameters", TMap)].

Definition NetworkFenceClassStatus_type : ty :=
  TStruct [].

Definition NetworkFenceClass_type : ty :=
  TStruct [("TypeMeta", TypeMeta_type); ("ObjectMeta", ObjectMeta_type);
   ("Spec", NetworkFenceClassSpec_type); ("Status", NetworkFenceClassStatus_type)].

Definition NetworkFenceClassList_type : ty :=
  TStruct [("TypeMeta", TypeMeta_type); ("ListMeta", ListMeta_type);
   ("Items", TSlice NetworkFenceClass_type)].

Definition TargetSpec_type : ty :=
  TStruct [("PersistentVolumeClaim", TString)].

Definition ReclaimSpaceJobSpec_type : ty :=
  TStruct [("Target", TargetSpec_type); ("BackoffLimit", TInt32); ("RetryDeadlineSeconds", TInt64);
   ("Timeout", TPtr TInt64)].

Definition ReclaimSpaceJobStatus_type : ty :=
  TStruct [("Result", TString); ("Message", TString); ("ReclaimedSpace", TPtr Quantity_type);
   ("Conditions", TSlice Condition_type); ("Retries", TInt32); ("StartTime", TPtr TTime);
   ("CompletionTime", TPtr TTime)].

Definition ReclaimSpaceJob_type : ty :=
  TStruct [("TypeMeta", TypeMeta_type); ("ObjectMeta", ObjectMeta_type);
   ("Spec", ReclaimSpaceJobSpec_type); ("Status", ReclaimSpaceJobStatus_type)].

Definition ReclaimSpaceJobList_type : ty :=
  TStruct [("TypeMeta", TypeMeta_type); ("ListMeta", ListMeta_type);
   ("Items", TSlice ReclaimSpaceJob_type)].

Definition ReclaimSpaceJobTemplateSpec_type : ty :=
  TStruct [("ObjectMeta", ObjectMeta_type); ("Spec", ReclaimSpaceJobSpec_type)].

Definition ReclaimSpaceCronJobSpec_type : ty :=
  TStruct [("Schedule", TString); ("StartingDeadlineSeconds", TPtr TInt64); ("ConcurrencyPolicy", TString);
   ("Suspend", TPtr TBool); ("JobSpec", ReclaimSpaceJobTemplateSpec_type);
   ("SuccessfulJobsHistoryLimit", TPtr TInt32); ("FailedJobsHistoryLimit", TPtr TInt32)].

Definition ReclaimSpaceCronJobStatus_type : ty :=
  TStruct [("Active", TPtr ObjectReference_type); ("LastScheduleTime", TPtr TTime);
   ("LastSuccessfulTime", TPtr TTime)].

Definition ReclaimSpaceCronJob_type : ty :=
  TStruct [("TypeMeta", TypeMeta_type); ("ObjectMeta", ObjectMeta_type);
   ("Spec", ReclaimSpaceCronJobSpec_type); ("Status", ReclaimSpaceCronJobStatus_type)].

Definition ReclaimSpaceCronJobList_type : ty :=
  TStruct [("TypeMeta", TypeMeta_type); ("ListMeta", ListMeta_type);
   ("Items", TSlice ReclaimSpaceCronJob_type)].

Definition EncryptionKeyRotationJobSpec_type : ty :=
  TStruct [("Target", TargetSpec_type); ("BackoffLimit", TInt32); ("RetryDeadlineSeconds", TInt64);
   ("Timeout", TPtr TInt64)].

Definition EncryptionKeyRotationJobStatus_type : ty :=
  TStruct [("Result", TString); ("Message", TString); ("Conditions", TSlice Condition_type);
   ("Retries", TInt32); ("StartTime", TPtr TTime); ("CompletionTime", TPtr TTime)].

Definition EncryptionKeyRotationJob_type : ty :=
  TStruct [("TypeMeta", TypeMeta_type); ("ObjectMeta", ObjectMeta_type);
   ("Spec", EncryptionKeyRotationJobSpec_type); ("Status", EncryptionKeyRotationJobStatus_type)].

Definition EncryptionKeyRotationJobList_type : ty :=
  TStruct [("TypeMeta", TypeMeta_type); ("ListMeta", ListMeta_type);
   ("Items", TSlice EncryptionKeyRotationJob_type)].

Definition EncryptionKeyRotationJobTemplateSpec_type : ty :=
  TStruct [("ObjectMeta", ObjectMeta_type); ("Spec", EncryptionKeyRotationJobSpec_type)].

Definition EncryptionKeyRotationCronJobSpec_type : ty :=
  TStruct [("Schedule", TString); ("StartingDeadlineSeconds", TPtr TInt64); ("ConcurrencyPolicy", TString);
   ("Suspend", TPtr TBool); ("JobSpec", EncryptionKeyRotationJobTemplateSpec_type);
   ("SuccessfulJobsHistoryLimit", TPtr TInt32); ("FailedJobsHistoryLimit", TPtr TInt32)].

Definition EncryptionKeyRotationCronJobStatus_type : ty :=
  TStruct [("Active", TPtr ObjectReference_type); ("LastScheduleTime", TPtr TTime);
   ("LastSuccessfulTime", TPtr TTime)].

Definition EncryptionKeyRotationCronJob_type : ty :=
  TStruct [("TypeMeta", TypeMeta_type); ("ObjectMeta", ObjectMeta_type);
   ("Spec", EncryptionKeyRotationCronJobSpec_type);
   ("Status", EncryptionKeyRotationCronJobStatus_type)].

Definition EncryptionKeyRotationCronJobList_type : ty :=
  TStruct [("TypeMeta", TypeMeta_type); ("ListMeta", ListMeta_type);
   ("Items", TSlice EncryptionKeyRotationCronJob_type)].

End CsiAddons.


(** ** src/api/replication.storage/v1alpha1 *)
Module Replication.

Definition VolumeReplicationSpec_type : ty :=
  TStruct [("VolumeReplicationClass", TString); ("ReplicationState", TString);
   ("DataSource", TypedLocalObjectReference_type); ("AutoResync", TBool);
   ("ReplicationHandle", TString)].

Definition VolumeReplicationStatus_type : ty :=
  TStruct [("State", TString); ("Message", TString); ("Conditions", TSlice Condition_type);
   ("ObservedGeneration", TInt64); ("LastStartTime", TPtr TTime);
   ("LastCompletionTime", TPtr TTime); ("LastSyncTime", TPtr TTime);
   ("LastSyncBytes", TPtr TInt64); ("LastSyncDuration", TPtr TInt64)].

Definition VolumeReplication_type : ty :=
  TStruct [("TypeMeta", TypeMeta_type); ("ObjectMeta", ObjectMeta_type);
   ("Spec", VolumeReplicationSpec_type); ("Status", VolumeReplicationStatus_type)].

Definition VolumeReplicationList_type : ty :=
  TStruct [("TypeMeta", TypeMeta_type); ("ListMeta", ListMeta_type);
   ("Items", TSlice VolumeReplication_type)].

Definition VolumeReplicationClassSpec_type : ty :=
  TStruct [("Provisioner", TString); ("Parameters", TMap)].

Definition VolumeReplicationClassStatus_type : ty :=
  TStruct [].

Definition VolumeReplicationClass_type : ty :=
  TStruct [("TypeMeta", TypeMeta_type); ("ObjectMeta", ObjectMeta_type);
   ("Spec", VolumeReplicationClassSpec_type); ("Status", VolumeReplicationClassStatus_type)].

Definition VolumeReplicationClassList_type : ty :=
  TStruct [("TypeMeta", TypeMeta_type); ("ListMeta", ListMeta_type);
   ("Items", TSlice VolumeReplicationClass_type)].

Definition VolumeGroupReplicationSource_type : ty :=
  TStruct [("Selector", TPtr LabelSelector_type)].

Definition VolumeGroupReplicationSpec_type : ty :=
  TStruct [("VolumeGroupReplicationClassName", TString); ("VolumeReplicationClassName", TString);
   ("VolumeReplicationName", TString); ("VolumeGroupReplicationContentName", TString);
   ("Source", VolumeGroupReplicationSource_type); ("ReplicationState", TString);
   ("AutoResync", TBool); ("External", TBool)].

Definition VolumeGroupReplicationStatus_type : ty :=
  TStruct [("VolumeReplicationStatus", VolumeReplicationStatus_type);
   ("PersistentVolumeClaimsRefList", TSlice LocalObjectReference_type)].

Definition VolumeGroupReplication_type : ty :=
  TStruct [("TypeMeta", TypeMeta_type); ("ObjectMeta", ObjectMeta_type);
   ("Spec", VolumeGroupReplicationSpec_type); ("Status", VolumeGroupReplicationStatus_type)].

Definition VolumeGroupReplicationList_type : ty :=
  TStruct [("TypeMeta", TypeMeta_type); ("ListMeta", ListMeta_type);
   ("Items", TSlice VolumeGroupReplication_type)].

Definition VolumeGroupReplicationClassSpec_type : ty :=
  TStruct [("Provisioner", TString); ("Parameters", TMap)].

Definition VolumeGroupReplicationClassStatus_type : ty :=
  TStruct [].

Definition VolumeGroupReplicationClass_type : ty :=
  TStruct [("TypeMeta", TypeMeta_type); ("ObjectMeta", ObjectMeta_type);
   ("Spec", VolumeGroupReplicationClassSpec_type);
   ("Status", VolumeGroupReplicationClassStatus_type)].

Definition VolumeGroupReplicationClassList_type : ty :=
  TStruct [("TypeMeta", TypeMeta_type); ("ListMeta", ListMeta_type);
   ("Items", TSlice VolumeGroupReplicationClass_type)].

Definition VolumeGroupReplicationContentSource_type : ty :=
  TStruct [("VolumeHandles", TSlice TString)].

Definition VolumeGroupReplicationContentSpec_type : ty :=
  TStruct [("VolumeGroupReplicationRef", TPtr ObjectReference_type);
   ("VolumeGroupReplicationHandle", TString); ("Provisioner", TString);
   ("VolumeGroupReplicationClassName", TString); ("VolumeGroupAttributes", TMap);
   ("Source", VolumeGroupReplicationContentSource_type)].

Definition VolumeGroupReplicationContentStatus_type : ty :=
  TStruct [("PersistentVolumeRefList", TSlice LocalObjectReference_type)].

Definition VolumeGroupReplicationContent_type : ty :=
  TStruct [("TypeMeta", TypeMeta_type); ("ObjectMeta", ObjectMeta_type);
   ("Spec", VolumeGroupReplicationContentSpec_type);
   ("Status", VolumeGroupReplicationContentStatus_type)].

Definition VolumeGroupReplicationContentList_type : ty :=
  TStruct [("TypeMeta", TypeMeta_type); ("ListMeta", ListMeta_type);
   ("Items", TSlice VolumeGroupReplicationContent_type)].

End Replication.
