(* ===== verification/DeepCopy.v ===== *)
(** * Deep copies

    The generated copy functions of the API objects
    (zz_generated.deepcopy.go of the two packages of src/api), with those of the
    vendored types they call.  A [DeepCopyInto] takes the contents of *in and
    returns those of *out; a [DeepCopy] takes and returns a pointer. *)

From S2P Require Import Prelude.
From S2P Require Import GoHeap.
From S2P Require ObjectTypes.

(** A runtime.Object: no object, or a pointer with its type. *)
Inductive iface := NoObject | Object (type : string) (p : value).

(** [if in == nil { return nil }; out := new(T); in.DeepCopyInto(out); return out]. *)
Definition DeepCopy (into : value -> HM value) : value -> HM value := copy_ptr into.

(** [if c := in.DeepCopy(); c != nil { return c }; return nil]: never a nil
    pointer inside an interface. *)
Definition DeepCopyObject (type : string) (copy : value -> HM value) (v : value) : HM iface :=
  c ← copy v;
  mret match c with
       | VPtr (Some l) => Object type (VPtr (Some l))
       | _ => NoObject
       end.

(** ** Vendored types *)

Definition Time_DeepCopyInto : value -> HM value := assign.
Definition Time_DeepCopy : value -> HM value := DeepCopy Time_DeepCopyInto.

Definition ListMeta_DeepCopyInto : value -> HM value :=
  struct_copy [("RemainingItemCount", copy_ptr assign)].
Definition OwnerReference_DeepCopyInto : value -> HM value :=
  struct_copy [("Controller", copy_ptr assign); ("BlockOwnerDeletion", copy_ptr assign)].
Definition FieldsV1_DeepCopyInto : value -> HM value := struct_copy [("Raw", copy_slice)].
Definition ManagedFieldsEntry_DeepCopyInto : value -> HM value :=
  struct_copy [("Time", Time_DeepCopy); ("FieldsV1", copy_ptr FieldsV1_DeepCopyInto)].
Definition ObjectMeta_DeepCopyInto : value -> HM value :=
  struct_copy [("CreationTimestamp", Time_DeepCopyInto); ("DeletionTimestamp", Time_DeepCopy);
   ("DeletionGracePeriodSeconds", copy_ptr assign); ("Labels", copy_map); ("Annotations", copy_map);
   ("OwnerReferences", copy_slice_with OwnerReference_DeepCopyInto); ("Finalizers", copy_slice);
   ("ManagedFields", copy_slice_with ManagedFieldsEntry_DeepCopyInto)].
Definition Condition_DeepCopyInto : value -> HM value :=
  struct_copy [("LastTransitionTime", Time_DeepCopyInto)].
Definition LabelSelectorRequirement_DeepCopyInto : value -> HM value := struct_copy [("Values", copy_slice)].
Definition LabelSelector_DeepCopyInto : value -> HM value :=
  struct_copy [("MatchLabels", copy_map);
   ("MatchExpressions", copy_slice_with LabelSelectorRequirement_DeepCopyInto)].
Definition TypedLocalObjectReference_DeepCopyInto : value -> HM value :=
  struct_copy [("APIGroup", copy_ptr assign)].

(** [tmp.Set(q.d.Dec)] copies the digits into a new inf.Dec. *)
Definition Quantity_DeepCopy : value -> HM value :=
  struct_copy [("d", struct_copy [("Dec", copy_ptr assign)])].

(** ** src/api/csiaddons/v1alpha1/zz_generated.deepcopy.go *)
Module CsiAddons.
Definition CSIAddonsNodeDriver_DeepCopyInto : value -> HM value :=
  struct_copy [].
Definition CSIAddonsNodeDriver_DeepCopy : value -> HM value := DeepCopy CSIAddonsNodeDriver_DeepCopyInto.
Definition CSIAddonsNodeSpec_DeepCopyInto : value -> HM value :=
  struct_copy [("Driver", assign)].
Definition CSIAddonsNodeSpec_DeepCopy : value -> HM value := DeepCopy CSIAddonsNodeSpec_DeepCopyInto.
Definition ClientDetail_DeepCopyInto : value -> HM value :=
  struct_copy [("Cidrs", copy_slice)].
Definition ClientDetail_DeepCopy : value -> HM value := DeepCopy ClientDetail_DeepCopyInto.
Definition NetworkFenceClientStatus_DeepCopyInto : value -> HM value :=
  struct_copy [("ClientDetails", copy_slice_with ClientDetail_DeepCopyInto)].
Definition NetworkFenceClientStatus_DeepCopy : value -> HM value := DeepCopy NetworkFenceClientStatus_DeepCopyInto.
Definition CSIAddonsNodeStatus_DeepCopyInto : value -> HM value :=
  struct_copy [("Capabilities", copy_slice);
   ("NetworkFenceClientStatus", copy_slice_with NetworkFenceClientStatus_DeepCopyInto)].
Definition CSIAddonsNodeStatus_DeepCopy : value -> HM value := DeepCopy CSIAddonsNodeStatus_DeepCopyInto.
Definition CSIAddonsNode_DeepCopyInto : value -> HM value :=
  struct_copy [("TypeMeta", assign); ("ObjectMeta", ObjectMeta_DeepCopyInto); ("Spec", assign);
   ("Status", CSIAddonsNodeStatus_DeepCopyInto)].
Definition CSIAddonsNode_DeepCopy : value -> HM value := DeepCopy CSIAddonsNode_DeepCopyInto.
Definition CSIAddonsNode_DeepCopyObject : value -> HM iface := DeepCopyObject "CSIAddonsNode" CSIAddonsNode_DeepCopy.
Definition CSIAddonsNodeList_DeepCopyInto : value -> HM value :=
  struct_copy [("TypeMeta", assign); ("ListMeta", ListMeta_DeepCopyInto);
   ("Items", copy_slice_with CSIAddonsNode_DeepCopyInto)].
Definition CSIAddonsNodeList_DeepCopy : value -> HM value := DeepCopy CSIAddonsNodeList_DeepCopyInto.
Definition CSIAddonsNodeList_DeepCopyObject : value -> HM iface := DeepCopyObject "CSIAddonsNodeList" CSIAddonsNodeList_DeepCopy.
Definition SecretSpec_DeepCopyInto : value -> HM value :=
  struct_copy [].
Definition SecretSpec_DeepCopy : value -> HM value := DeepCopy SecretSpec_DeepCopyInto.
Definition NetworkFenceSpec_DeepCopyInto : value -> HM value :=
  struct_copy [("Cidrs", copy_slice); ("Secret", assign); ("Parameters", copy_map)].
Definition NetworkFenceSpec_DeepCopy : value -> HM value := DeepCopy NetworkFenceSpec_DeepCopyInto.
Definition NetworkFenceStatus_DeepCopyInto : value -> HM value :=
  struct_copy [("Conditions", copy_slice_with Condition_DeepCopyInto)].
Definition NetworkFenceStatus_DeepCopy : value -> HM value := DeepCopy NetworkFenceStatus_DeepCopyInto.
Definition NetworkFence_DeepCopyInto : value -> HM value :=
  struct_copy [("TypeMeta", assign); ("ObjectMeta", ObjectMeta_DeepCopyInto);
   ("Spec", NetworkFenceSpec_DeepCopyInto); ("Status", NetworkFenceStatus_DeepCopyInto)].
Definition NetworkFence_DeepCopy : value -> HM value := DeepCopy NetworkFence_DeepCopyInto.
Definition NetworkFence_DeepCopyObject : value -> HM iface := DeepCopyObject "NetworkFence" NetworkFence_DeepCopy.
Definition NetworkFenceList_DeepCopyInto : value -> HM value :=
  struct_copy [("TypeMeta", assign); ("ListMeta", ListMeta_DeepCopyInto);
   ("Items", copy_slice_with NetworkFence_DeepCopyInto)].
Definition NetworkFenceList_DeepCopy : value -> HM value := DeepCopy NetworkFenceList_DeepCopyInto.
Definition NetworkFenceList_DeepCopyObject : value -> HM iface := DeepCopyObject "NetworkFenceList" NetworkFenceList_DeepCopy.
Definition NetworkFenceClassSpec_DeepCopyInto : value -> HM value :=
  struct_copy [("Parameters", copy_map)].
Definition NetworkFenceClassSpec_DeepCopy : value -> HM value := DeepCopy NetworkFenceClassSpec_DeepCopyInto.
Definition NetworkFenceClassStatus_DeepCopyInto : value -> HM value :=
  struct_copy [].
Definition NetworkFenceClassStatus_DeepCopy : value -> HM value := DeepCopy NetworkFenceClassStatus_DeepCopyInto.
Definition NetworkFenceClass_DeepCopyInto : value -> HM value :=
  struct_copy [("TypeMeta", assign); ("ObjectMeta", ObjectMeta_DeepCopyInto);
   ("Spec", NetworkFenceClassSpec_DeepCopyInto); ("Status", assign)].
Definition NetworkFenceClass_DeepCopy : value -> HM value := DeepCopy NetworkFenceClass_DeepCopyInto.
Definition NetworkFenceClass_DeepCopyObject : value -> HM iface := DeepCopyObject "NetworkFenceClass" NetworkFenceClass_DeepCopy.
Definition NetworkFenceClassList_DeepCopyInto : value -> HM value :=
  struct_copy [("TypeMeta", assign); ("ListMeta", ListMeta_DeepCopyInto);
   ("Items", copy_slice_with NetworkFenceClass_DeepCopyInto)].
Definition NetworkFenceClassList_DeepCopy : value -> HM value := DeepCopy NetworkFenceClassList_DeepCopyInto.
Definition NetworkFenceClassList_DeepCopyObject : value -> HM iface := DeepCopyObject "NetworkFenceClassList" NetworkFenceClassList_DeepCopy.
Definition TargetSpec_DeepCopyInto : value -> HM value :=
  struct_copy [].
Definition TargetSpec_DeepCopy : value -> HM value := DeepCopy TargetSpec_DeepCopyInto.
Definition ReclaimSpaceJobSpec_DeepCopyInto : value -> HM value :=
  struct_copy [("Target", assign); ("Timeout", copy_ptr assign)].
Definition ReclaimSpaceJobSpec_DeepCopy : value -> HM value := DeepCopy ReclaimSpaceJobSpec_DeepCopyInto.
Definition ReclaimSpaceJobStatus_DeepCopyInto : value -> HM value :=
  struct_copy [("ReclaimedSpace", copy_ptr Quantity_DeepCopy);
   ("Conditions", copy_slice_with Condition_DeepCopyInto); ("StartTime", Time_DeepCopy);
   ("CompletionTime", Time_DeepCopy)].
Definition ReclaimSpaceJobStatus_DeepCopy : value -> HM value := DeepCopy ReclaimSpaceJobStatus_DeepCopyInto.
Definition ReclaimSpaceJob_DeepCopyInto : value -> HM value :=
  struct_copy [("TypeMeta", assign); ("ObjectMeta", ObjectMeta_DeepCopyInto);
   ("Spec", ReclaimSpaceJobSpec_DeepCopyInto); ("Status", ReclaimSpaceJobStatus_DeepCopyInto)].
Definition ReclaimSpaceJob_DeepCopy : value -> HM value := DeepCopy ReclaimSpaceJob_DeepCopyInto.
Definition ReclaimSpaceJob_DeepCopyObject : value -> HM iface := DeepCopyObject "ReclaimSpaceJob" ReclaimSpaceJob_DeepCopy.
Definition ReclaimSpaceJobList_DeepCopyInto : value -> HM value :=
  struct_copy [("TypeMeta", assign); ("ListMeta", ListMeta_DeepCopyInto);
   ("Items", copy_slice_with ReclaimSpaceJob_DeepCopyInto)].
Definition ReclaimSpaceJobList_DeepCopy : value -> HM value := DeepCopy ReclaimSpaceJobList_DeepCopyInto.
Definition ReclaimSpaceJobList_DeepCopyObject : value -> HM iface := DeepCopyObject "ReclaimSpaceJobList" ReclaimSpaceJobList_DeepCopy.
Definition ReclaimSpaceJobTemplateSpec_DeepCopyInto : value -> HM value :=
  struct_copy [("ObjectMeta", ObjectMeta_DeepCopyInto); ("Spec", ReclaimSpaceJobSpec_DeepCopyInto)].
Definition ReclaimSpaceJobTemplateSpec_DeepCopy : value -> HM value := DeepCopy ReclaimSpaceJobTemplateSpec_DeepCopyInto.
Definition ReclaimSpaceCronJobSpec_DeepCopyInto : value -> HM value :=
  struct_copy [("StartingDeadlineSeconds", copy_ptr assign); ("Suspend", copy_ptr assign);
   ("JobSpec", ReclaimSpaceJobTemplateSpec_DeepCopyInto);
   ("SuccessfulJobsHistoryLimit", copy_ptr assign); ("FailedJobsHistoryLimit", copy_ptr assign)].
Definition ReclaimSpaceCronJobSpec_DeepCopy : value -> HM value := DeepCopy ReclaimSpaceCronJobSpec_DeepCopyInto.
Definition ReclaimSpaceCronJobStatus_DeepCopyInto : value -> HM value :=
  struct_copy [("Active", copy_ptr assign); ("LastScheduleTime", Time_DeepCopy);
   ("LastSuccessfulTime", Time_DeepCopy)].
Definition ReclaimSpaceCronJobStatus_DeepCopy : value -> HM value := DeepCopy ReclaimSpaceCronJobStatus_DeepCopyInto.
Definition ReclaimSpaceCronJob_DeepCopyInto : value -> HM value :=
  struct_copy [("TypeMeta", assign); ("ObjectMeta", ObjectMeta_DeepCopyInto);
   ("Spec", ReclaimSpaceCronJobSpec_DeepCopyInto);
   ("Status", ReclaimSpaceCronJobStatus_DeepCopyInto)].
Definition ReclaimSpaceCronJob_DeepCopy : value -> HM value := DeepCopy ReclaimSpaceCronJob_DeepCopyInto.
Definition ReclaimSpaceCronJob_DeepCopyObject : value -> HM iface := DeepCopyObject "ReclaimSpaceCronJob" ReclaimSpaceCronJob_DeepCopy.
Definition ReclaimSpaceCronJobList_DeepCopyInto : value -> HM value :=
  struct_copy [("TypeMeta", assign); ("ListMeta", ListMeta_DeepCopyInto);
   ("Items", copy_slice_with ReclaimSpaceCronJob_DeepCopyInto)].
Definition ReclaimSpaceCronJobList_DeepCopy : value -> HM value := DeepCopy ReclaimSpaceCronJobList_DeepCopyInto.
Definition ReclaimSpaceCronJobList_DeepCopyObject : value -> HM iface := DeepCopyObject "ReclaimSpaceCronJobList" ReclaimSpaceCronJobList_DeepCopy.
Definition EncryptionKeyRotationJobSpec_DeepCopyInto : value -> HM value :=
  struct_copy [("Target", assign); ("Timeout", copy_ptr assign)].
Definition EncryptionKeyRotationJobSpec_DeepCopy : value -> HM value := DeepCopy EncryptionKeyRotationJobSpec_DeepCopyInto.
Definition EncryptionKeyRotationJobStatus_DeepCopyInto : value -> HM value :=
  struct_copy [("Conditions", copy_slice_with Condition_DeepCopyInto); ("StartTime", Time_DeepCopy);
   ("CompletionTime", Time_DeepCopy)].
Definition EncryptionKeyRotationJobStatus_DeepCopy : value -> HM value := DeepCopy EncryptionKeyRotationJobStatus_DeepCopyInto.
Definition EncryptionKeyRotationJob_DeepCopyInto : value -> HM value :=
  struct_copy [("TypeMeta", assign); ("ObjectMeta", ObjectMeta_DeepCopyInto);
   ("Spec", EncryptionKeyRotationJobSpec_DeepCopyInto);
   ("Status", EncryptionKeyRotationJobStatus_DeepCopyInto)].
Definition EncryptionKeyRotationJob_DeepCopy : value -> HM value := DeepCopy EncryptionKeyRotationJob_DeepCopyInto.
Definition EncryptionKeyRotationJob_DeepCopyObject : value -> HM iface := DeepCopyObject "EncryptionKeyRotationJob" EncryptionKeyRotationJob_DeepCopy.
Definition EncryptionKeyRotationJobList_DeepCopyInto : value -> HM value :=
  struct_copy [("TypeMeta", assign); ("ListMeta", ListMeta_DeepCopyInto);
   ("Items", copy_slice_with EncryptionKeyRotationJob_DeepCopyInto)].
Definition EncryptionKeyRotationJobList_DeepCopy : value -> HM value := DeepCopy EncryptionKeyRotationJobList_DeepCopyInto.
Definition EncryptionKeyRotationJobList_DeepCopyObject : value -> HM iface := DeepCopyObject "EncryptionKeyRotationJobList" EncryptionKeyRotationJobList_DeepCopy.
Definition EncryptionKeyRotationJobTemplateSpec_DeepCopyInto : value -> HM value :=
  struct_copy [("ObjectMeta", ObjectMeta_DeepCopyInto); ("Spec", EncryptionKeyRotationJobSpec_DeepCopyInto)].
Definition EncryptionKeyRotationJobTemplateSpec_DeepCopy : value -> HM value := DeepCopy EncryptionKeyRotationJobTemplateSpec_DeepCopyInto.
Definition EncryptionKeyRotationCronJobSpec_DeepCopyInto : value -> HM value :=
  struct_copy [("StartingDeadlineSeconds", copy_ptr assign); ("Suspend", copy_ptr assign);
   ("JobSpec", EncryptionKeyRotationJobTemplateSpec_DeepCopyInto);
   ("SuccessfulJobsHistoryLimit", copy_ptr assign); ("FailedJobsHistoryLimit", copy_ptr assign)].
Definition EncryptionKeyRotationCronJobSpec_DeepCopy : value -> HM value := DeepCopy EncryptionKeyRotationCronJobSpec_DeepCopyInto.
Definition EncryptionKeyRotationCronJobStatus_DeepCopyInto : value -> HM value :=
  struct_copy [("Active", copy_ptr assign); ("LastScheduleTime", Time_DeepCopy);
   ("LastSuccessfulTime", Time_DeepCopy)].
Definition EncryptionKeyRotationCronJobStatus_DeepCopy : value -> HM value := DeepCopy EncryptionKeyRotationCronJobStatus_DeepCopyInto.
Definition EncryptionKeyRotationCronJob_DeepCopyInto : value -> HM value :=
  struct_copy [("TypeMeta", assign); ("ObjectMeta", ObjectMeta_DeepCopyInto);
   ("Spec", EncryptionKeyRotationCronJobSpec_DeepCopyInto);
   ("Status", EncryptionKeyRotationCronJobStatus_DeepCopyInto)].
Definition EncryptionKeyRotationCronJob_DeepCopy : value -> HM value := DeepCopy EncryptionKeyRotationCronJob_DeepCopyInto.
Definition EncryptionKeyRotationCronJob_DeepCopyObject : value -> HM iface := DeepCopyObject "EncryptionKeyRotationCronJob" EncryptionKeyRotationCronJob_DeepCopy.
Definition EncryptionKeyRotationCronJobList_DeepCopyInto : value -> HM value :=
  struct_copy [("TypeMeta", assign); ("ListMeta", ListMeta_DeepCopyInto);
   ("Items", copy_slice_with EncryptionKeyRotationCronJob_DeepCopyInto)].
Definition EncryptionKeyRotationCronJobList_DeepCopy : value -> HM value := DeepCopy EncryptionKeyRotationCronJobList_DeepCopyInto.
Definition EncryptionKeyRotationCronJobList_DeepCopyObject : value -> HM iface := DeepCopyObject "EncryptionKeyRotationCronJobList" EncryptionKeyRotationCronJobList_DeepCopy.
End CsiAddons.

(** ** src/api/replication.storage/v1alpha1/zz_generated.deepcopy.go *)
Module Replication.
Definition VolumeReplicationSpec_DeepCopyInto : value -> HM value :=
  struct_copy [("DataSource", TypedLocalObjectReference_DeepCopyInto)].
Definition VolumeReplicationSpec_DeepCopy : value -> HM value := DeepCopy VolumeReplicationSpec_DeepCopyInto.
Definition VolumeReplicationStatus_DeepCopyInto : value -> HM value :=
  struct_copy [("Conditions", copy_slice_with Condition_DeepCopyInto); ("LastStartTime", Time_DeepCopy);
   ("LastCompletionTime", Time_DeepCopy); ("LastSyncTime", Time_DeepCopy);
   ("LastSyncBytes", copy_ptr assign); ("LastSyncDuration", copy_ptr assign)].
Definition VolumeReplicationStatus_DeepCopy : value -> HM value := DeepCopy VolumeReplicationStatus_DeepCopyInto.
Definition VolumeReplication_DeepCopyInto : value -> HM value :=
  struct_copy [("TypeMeta", assign); ("ObjectMeta", ObjectMeta_DeepCopyInto);
   ("Spec", VolumeReplicationSpec_DeepCopyInto); ("Status", VolumeReplicationStatus_DeepCopyInto)].
Definition VolumeReplication_DeepCopy : value -> HM value := DeepCopy VolumeReplication_DeepCopyInto.
Definition VolumeReplication_DeepCopyObject : value -> HM iface := DeepCopyObject "VolumeReplication" VolumeReplication_DeepCopy.
Definition VolumeReplicationList_DeepCopyInto : value -> HM value :=
  struct_copy [("TypeMeta", assign); ("ListMeta", ListMeta_DeepCopyInto);
   ("Items", copy_slice_with VolumeReplication_DeepCopyInto)].
Definition VolumeReplicationList_DeepCopy : value -> HM value := DeepCopy VolumeReplicationList_DeepCopyInto.
Definition VolumeReplicationList_DeepCopyObject : value -> HM iface := DeepCopyObject "VolumeReplicationList" VolumeReplicationList_DeepCopy.
Definition VolumeReplicationClassSpec_DeepCopyInto : value -> HM value :=
  struct_copy [("Parameters", copy_map)].
Definition VolumeReplicationClassSpec_DeepCopy : value -> HM value := DeepCopy VolumeReplicationClassSpec_DeepCopyInto.
Definition VolumeReplicationClassStatus_DeepCopyInto : value -> HM value :=
  struct_copy [].
Definition VolumeReplicationClassStatus_DeepCopy : value -> HM value := DeepCopy VolumeReplicationClassStatus_DeepCopyInto.
Definition VolumeReplicationClass_DeepCopyInto : value -> HM value :=
  struct_copy [("TypeMeta", assign); ("ObjectMeta", ObjectMeta_DeepCopyInto);
   ("Spec", VolumeReplicationClassSpec_DeepCopyInto); ("Status", assign)].
Definition VolumeReplicationClass_DeepCopy : value -> HM value := DeepCopy VolumeReplicationClass_DeepCopyInto.
Definition VolumeReplicationClass_DeepCopyObject : value -> HM iface := DeepCopyObject "VolumeReplicationClass" VolumeReplicationClass_DeepCopy.
Definition VolumeReplicationClassList_DeepCopyInto : value -> HM value :=
  struct_copy [("TypeMeta", assign); ("ListMeta", ListMeta_DeepCopyInto);
   ("Items", copy_slice_with VolumeReplicationClass_DeepCopyInto)].
Definition VolumeReplicationClassList_DeepCopy : value -> HM value := DeepCopy VolumeReplicationClassList_DeepCopyInto.
Definition VolumeReplicationClassList_DeepCopyObject : value -> HM iface := DeepCopyObject "VolumeReplicationClassList" VolumeReplicationClassList_DeepCopy.
Definition VolumeGroupReplicationSource_DeepCopyInto : value -> HM value :=
  struct_copy [("Selector", copy_ptr LabelSelector_DeepCopyInto)].
Definition VolumeGroupReplicationSource_DeepCopy : value -> HM value := DeepCopy VolumeGroupReplicationSource_DeepCopyInto.
Definition VolumeGroupReplicationSpec_DeepCopyInto : value -> HM value :=
  struct_copy [("Source", VolumeGroupReplicationSource_DeepCopyInto)].
Definition VolumeGroupReplicationSpec_DeepCopy : value -> HM value := DeepCopy VolumeGroupReplicationSpec_DeepCopyInto.
Definition VolumeGroupReplicationStatus_DeepCopyInto : value -> HM value :=
  struct_copy [("VolumeReplicationStatus", VolumeReplicationStatus_DeepCopyInto);
   ("PersistentVolumeClaimsRefList", copy_slice)].
Definition VolumeGroupReplicationStatus_DeepCopy : value -> HM value := DeepCopy VolumeGroupReplicationStatus_DeepCopyInto.
Definition VolumeGroupReplication_DeepCopyInto : value -> HM value :=
  struct_copy [("TypeMeta", assign); ("ObjectMeta", ObjectMeta_DeepCopyInto);
   ("Spec", VolumeGroupReplicationSpec_DeepCopyInto);
   ("Status", VolumeGroupReplicationStatus_DeepCopyInto)].
Definition VolumeGroupReplication_DeepCopy : value -> HM value := DeepCopy VolumeGroupReplication_DeepCopyInto.
Definition VolumeGroupReplication_DeepCopyObject : value -> HM iface := DeepCopyObject "VolumeGroupReplication" VolumeGroupReplication_DeepCopy.
Definition VolumeGroupReplicationList_DeepCopyInto : value -> HM value :=
  struct_copy [("TypeMeta", assign); ("ListMeta", ListMeta_DeepCopyInto);
   ("Items", copy_slice_with VolumeGroupReplication_DeepCopyInto)].
Definition VolumeGroupReplicationList_DeepCopy : value -> HM value := DeepCopy VolumeGroupReplicationList_DeepCopyInto.
Definition VolumeGroupReplicationList_DeepCopyObject : value -> HM iface := DeepCopyObject "VolumeGroupReplicationList" VolumeGroupReplicationList_DeepCopy.
Definition VolumeGroupReplicationClassSpec_DeepCopyInto : value -> HM value :=
  struct_copy [("Parameters", copy_map)].
Definition VolumeGroupReplicationClassSpec_DeepCopy : value -> HM value := DeepCopy VolumeGroupReplicationClassSpec_DeepCopyInto.
Definition VolumeGroupReplicationClassStatus_DeepCopyInto : value -> HM value :=
  struct_copy [].
Definition VolumeGroupReplicationClassStatus_DeepCopy : value -> HM value := DeepCopy VolumeGroupReplicationClassStatus_DeepCopyInto.
Definition VolumeGroupReplicationClass_DeepCopyInto : value -> HM value :=
  struct_copy [("TypeMeta", assign); ("ObjectMeta", ObjectMeta_DeepCopyInto);
   ("Spec", VolumeGroupReplicationClassSpec_DeepCopyInto); ("Status", assign)].
Definition VolumeGroupReplicationClass_DeepCopy : value -> HM value := DeepCopy VolumeGroupReplicationClass_DeepCopyInto.
Definition VolumeGroupReplicationClass_DeepCopyObject : value -> HM iface := DeepCopyObject "VolumeGroupReplicationClass" VolumeGroupReplicationClass_DeepCopy.
Definition VolumeGroupReplicationClassList_DeepCopyInto : value -> HM value :=
  struct_copy [("TypeMeta", assign); ("ListMeta", ListMeta_DeepCopyInto);
   ("Items", copy_slice_with VolumeGroupReplicationClass_DeepCopyInto)].
Definition VolumeGroupReplicationClassList_DeepCopy : value -> HM value := DeepCopy VolumeGroupReplicationClassList_DeepCopyInto.
Definition VolumeGroupReplicationClassList_DeepCopyObject : value -> HM iface := DeepCopyObject "VolumeGroupReplicationClassList" VolumeGroupReplicationClassList_DeepCopy.
Definition VolumeGroupReplicationContentSource_DeepCopyInto : value -> HM value :=
  struct_copy [("VolumeHandles", copy_slice)].
Definition VolumeGroupReplicationContentSource_DeepCopy : value -> HM value := DeepCopy VolumeGroupReplicationContentSource_DeepCopyInto.
Definition VolumeGroupReplicationContentSpec_DeepCopyInto : value -> HM value :=
  struct_copy [("VolumeGroupReplicationRef", copy_ptr assign); ("VolumeGroupAttributes", copy_map);
   ("Source", VolumeGroupReplicationContentSource_DeepCopyInto)].
Definition VolumeGroupReplicationContentSpec_DeepCopy : value -> HM value := DeepCopy VolumeGroupReplicationContentSpec_DeepCopyInto.
Definition VolumeGroupReplicationContentStatus_DeepCopyInto : value -> HM value :=
  struct_copy [("PersistentVolumeRefList", copy_slice)].
Definition VolumeGroupReplicationContentStatus_DeepCopy : value -> HM value := DeepCopy VolumeGroupReplicationContentStatus_DeepCopyInto.
Definition VolumeGroupReplicationContent_DeepCopyInto : value -> HM value :=
  struct_copy [("TypeMeta", assign); ("ObjectMeta", ObjectMeta_DeepCopyInto);
   ("Spec", VolumeGroupReplicationContentSpec_DeepCopyInto);
   ("Status", VolumeGroupReplicationContentStatus_DeepCopyInto)].
Definition VolumeGroupReplicationContent_DeepCopy : value -> HM value := DeepCopy VolumeGroupReplicationContent_DeepCopyInto.
Definition VolumeGroupReplicationContent_DeepCopyObject : value -> HM iface := DeepCopyObject "VolumeGroupReplicationContent" VolumeGroupReplicationContent_DeepCopy.
Definition VolumeGroupReplicationContentList_DeepCopyInto : value -> HM value :=
  struct_copy [("TypeMeta", assign); ("ListMeta", ListMeta_DeepCopyInto);
   ("Items", copy_slice_with VolumeGroupReplicationContent_DeepCopyInto)].
Definition VolumeGroupReplicationContentList_DeepCopy : value -> HM value := DeepCopy VolumeGroupReplicationContentList_DeepCopyInto.
Definition VolumeGroupReplicationContentList_DeepCopyObject : value -> HM iface := DeepCopyObject "VolumeGroupReplicationContentList" VolumeGroupReplicationContentList_DeepCopy.
End Replication.
