(* ===== verification/DeepCopyProofs.v ===== *)
(** * Deep copies: theorems

    Each generated copy function does what the type of its object says, so a copy
    has the contents of the original and shares no memory with it. *)

From S2P Require Import Prelude.
From S2P Require Import GoHeap.
From S2P Require Import ObjectTypes.
From S2P Require Import DeepCopy.

(** [copies_by_type] proves [copies T f] through the text of [f] and of the copy
    functions it calls. *)
Ltac copies_by_type :=
  repeat match goal with
  | |- copies _ (DeepCopy _) => apply copies_ptr
  | |- copies _ (copy_ptr _) => apply copies_ptr
  | |- copies _ copy_slice => apply copies_slice; reflexivity
  | |- copies _ (copy_slice_with _) => apply copies_slice_with; [reflexivity|]
  | |- copies _ copy_map => apply copies_map
  | |- copies _ assign => apply copies_assign; reflexivity
  | |- copies (TStruct _) (struct_copy _) => apply copies_struct; [reflexivity|]
  | |- covers _ _ [] [] => apply covers_nil
  | |- covers _ _ ((?n, _) :: _) ((?n, _) :: _) => apply covers_stmt
  | |- covers _ _ _ _ => apply covers_flat; [reflexivity|reflexivity|]
  | |- copies _ _ => solve [eauto with copies nocore]
  | |- copies ?t ?f => first [unfold t, f | unfold f]
  end.

(** The types that every object uses. *)
Lemma ObjectMeta_copies : copies ObjectMeta_type ObjectMeta_DeepCopyInto.
Proof. copies_by_type. Qed.
Lemma ListMeta_copies : copies ListMeta_type ListMeta_DeepCopyInto.
Proof. copies_by_type. Qed.
Lemma Condition_copies : copies Condition_type Condition_DeepCopyInto.
Proof. copies_by_type. Qed.
#[export] Hint Resolve ObjectMeta_copies ListMeta_copies Condition_copies : copies.

(** The generated functions, with the types they copy. *)
Definition csiaddons_copies : list (string * ty * (value -> HM value)) :=
  [("CSIAddonsNodeDriver", ObjectTypes.CsiAddons.CSIAddonsNodeDriver_type, DeepCopy.CsiAddons.CSIAddonsNodeDriver_DeepCopyInto);
   ("CSIAddonsNodeSpec", ObjectTypes.CsiAddons.CSIAddonsNodeSpec_type, DeepCopy.CsiAddons.CSIAddonsNodeSpec_DeepCopyInto);
   ("ClientDetail", ObjectTypes.CsiAddons.ClientDetail_type, DeepCopy.CsiAddons.ClientDetail_DeepCopyInto);
   ("NetworkFenceClientStatus", ObjectTypes.CsiAddons.NetworkFenceClientStatus_type, DeepCopy.CsiAddons.NetworkFenceClientStatus_DeepCopyInto);
   ("CSIAddonsNodeStatus", ObjectTypes.CsiAddons.CSIAddonsNodeStatus_type, DeepCopy.CsiAddons.CSIAddonsNodeStatus_DeepCopyInto);
   ("CSIAddonsNode", ObjectTypes.CsiAddons.CSIAddonsNode_type, DeepCopy.CsiAddons.CSIAddonsNode_DeepCopyInto);
   ("CSIAddonsNodeList", ObjectTypes.CsiAddons.CSIAddonsNodeList_type, DeepCopy.CsiAddons.CSIAddonsNodeList_DeepCopyInto);
   ("SecretSpec", ObjectTypes.CsiAddons.SecretSpec_type, DeepCopy.CsiAddons.SecretSpec_DeepCopyInto);
   ("NetworkFenceSpec", ObjectTypes.CsiAddons.NetworkFenceSpec_type, DeepCopy.CsiAddons.NetworkFenceSpec_DeepCopyInto);
   ("NetworkFenceStatus", ObjectTypes.CsiAddons.NetworkFenceStatus_type, DeepCopy.CsiAddons.NetworkFenceStatus_DeepCopyInto);
   ("NetworkFence", ObjectTypes.CsiAddons.NetworkFence_type, DeepCopy.CsiAddons.NetworkFence_DeepCopyInto);
   ("NetworkFenceList", ObjectTypes.CsiAddons.NetworkFenceList_type, DeepCopy.CsiAddons.NetworkFenceList_DeepCopyInto);
   ("NetworkFenceClassSpec", ObjectTypes.CsiAddons.NetworkFenceClassSpec_type, DeepCopy.CsiAddons.NetworkFenceClassSpec_DeepCopyInto);
   ("NetworkFenceClassStatus", ObjectTypes.CsiAddons.NetworkFenceClassStatus_type, DeepCopy.CsiAddons.NetworkFenceClassStatus_DeepCopyInto);
   ("NetworkFenceClass", ObjectTypes.CsiAddons.NetworkFenceClass_type, DeepCopy.CsiAddons.NetworkFenceClass_DeepCopyInto);
   ("NetworkFenceClassList", ObjectTypes.CsiAddons.NetworkFenceClassList_type, DeepCopy.CsiAddons.NetworkFenceClassList_DeepCopyInto);
   ("TargetSpec", ObjectTypes.CsiAddons.TargetSpec_type, DeepCopy.CsiAddons.TargetSpec_DeepCopyInto);
   ("ReclaimSpaceJobSpec", ObjectTypes.CsiAddons.ReclaimSpaceJobSpec_type, DeepCopy.CsiAddons.ReclaimSpaceJobSpec_DeepCopyInto);
   ("ReclaimSpaceJobStatus", ObjectTypes.CsiAddons.ReclaimSpaceJobStatus_type, DeepCopy.CsiAddons.ReclaimSpaceJobStatus_DeepCopyInto);
   ("ReclaimSpaceJob", ObjectTypes.CsiAddons.ReclaimSpaceJob_type, DeepCopy.CsiAddons.ReclaimSpaceJob_DeepCopyInto);
   ("ReclaimSpaceJobList", ObjectTypes.CsiAddons.ReclaimSpaceJobList_type, DeepCopy.CsiAddons.ReclaimSpaceJobList_DeepCopyInto);
   ("ReclaimSpaceJobTemplateSpec", ObjectTypes.CsiAddons.ReclaimSpaceJobTemplateSpec_type, DeepCopy.CsiAddons.ReclaimSpaceJobTemplateSpec_DeepCopyInto);
   ("ReclaimSpaceCronJobSpec", ObjectTypes.CsiAddons.ReclaimSpaceCronJobSpec_type, DeepCopy.CsiAddons.ReclaimSpaceCronJobSpec_DeepCopyInto);
   ("ReclaimSpaceCronJobStatus", ObjectTypes.CsiAddons.ReclaimSpaceCronJobStatus_type, DeepCopy.CsiAddons.ReclaimSpaceCronJobStatus_DeepCopyInto);
   ("ReclaimSpaceCronJob", ObjectTypes.CsiAddons.ReclaimSpaceCronJob_type, DeepCopy.CsiAddons.ReclaimSpaceCronJob_DeepCopyInto);
   ("ReclaimSpaceCronJobList", ObjectTypes.CsiAddons.ReclaimSpaceCronJobList_type, DeepCopy.CsiAddons.ReclaimSpaceCronJobList_DeepCopyInto);
   ("EncryptionKeyRotationJobSpec", ObjectTypes.CsiAddons.EncryptionKeyRotationJobSpec_type, DeepCopy.CsiAddons.EncryptionKeyRotationJobSpec_DeepCopyInto);
   ("EncryptionKeyRotationJobStatus", ObjectTypes.CsiAddons.EncryptionKeyRotationJobStatus_type, DeepCopy.CsiAddons.EncryptionKeyRotationJobStatus_DeepCopyInto);
   ("EncryptionKeyRotationJob", ObjectTypes.CsiAddons.EncryptionKeyRotationJob_type, DeepCopy.CsiAddons.EncryptionKeyRotationJob_DeepCopyInto);
   ("EncryptionKeyRotationJobList", ObjectTypes.CsiAddons.EncryptionKeyRotationJobList_type, DeepCopy.CsiAddons.EncryptionKeyRotationJobList_DeepCopyInto);
   ("EncryptionKeyRotationJobTemplateSpec", ObjectTypes.CsiAddons.EncryptionKeyRotationJobTemplateSpec_type, DeepCopy.CsiAddons.EncryptionKeyRotationJobTemplateSpec_DeepCopyInto);
   ("EncryptionKeyRotationCronJobSpec", ObjectTypes.CsiAddons.EncryptionKeyRotationCronJobSpec_type, DeepCopy.CsiAddons.EncryptionKeyRotationCronJobSpec_DeepCopyInto);
   ("EncryptionKeyRotationCronJobStatus", ObjectTypes.CsiAddons.EncryptionKeyRotationCronJobStatus_type, DeepCopy.CsiAddons.EncryptionKeyRotationCronJobStatus_DeepCopyInto);
   ("EncryptionKeyRotationCronJob", ObjectTypes.CsiAddons.EncryptionKeyRotationCronJob_type, DeepCopy.CsiAddons.EncryptionKeyRotationCronJob_DeepCopyInto);
   ("EncryptionKeyRotationCronJobList", ObjectTypes.CsiAddons.EncryptionKeyRotationCronJobList_type, DeepCopy.CsiAddons.EncryptionKeyRotationCronJobList_DeepCopyInto)].

Definition replication_copies : list (string * ty * (value -> HM value)) :=
  [("VolumeReplicationSpec", ObjectTypes.Replication.VolumeReplicationSpec_type, DeepCopy.Replication.VolumeReplicationSpec_DeepCopyInto);
   ("VolumeReplicationStatus", ObjectTypes.Replication.VolumeReplicationStatus_type, DeepCopy.Replication.VolumeReplicationStatus_DeepCopyInto);
   ("VolumeReplication", ObjectTypes.Replication.VolumeReplication_type, DeepCopy.Replication.VolumeReplication_DeepCopyInto);
   ("VolumeReplicationList", ObjectTypes.Replication.VolumeReplicationList_type, DeepCopy.Replication.VolumeReplicationList_DeepCopyInto);
   ("VolumeReplicationClassSpec", ObjectTypes.Replication.VolumeReplicationClassSpec_type, DeepCopy.Replication.VolumeReplicationClassSpec_DeepCopyInto);
   ("VolumeReplicationClassStatus", ObjectTypes.Replication.VolumeReplicationClassStatus_type, DeepCopy.Replication.VolumeReplicationClassStatus_DeepCopyInto);
   ("VolumeReplicationClass", ObjectTypes.Replication.VolumeReplicationClass_type, DeepCopy.Replication.VolumeReplicationClass_DeepCopyInto);
   ("VolumeReplicationClassList", ObjectTypes.Replication.VolumeReplicationClassList_type, DeepCopy.Replication.VolumeReplicationClassList_DeepCopyInto);
   ("VolumeGroupReplicationSource", ObjectTypes.Replication.VolumeGroupReplicationSource_type, DeepCopy.Replication.VolumeGroupReplicationSource_DeepCopyInto);
   ("VolumeGroupReplicationSpec", ObjectTypes.Replication.VolumeGroupReplicationSpec_type, DeepCopy.Replication.VolumeGroupReplicationSpec_DeepCopyInto);
   ("VolumeGroupReplicationStatus", ObjectTypes.Replication.VolumeGroupReplicationStatus_type, DeepCopy.Replication.VolumeGroupReplicationStatus_DeepCopyInto);
   ("VolumeGroupReplication", ObjectTypes.Replication.VolumeGroupReplication_type, DeepCopy.Replication.VolumeGroupReplication_DeepCopyInto);
   ("VolumeGroupReplicationList", ObjectTypes.Replication.VolumeGroupReplicationList_type, DeepCopy.Replication.VolumeGroupReplicationList_DeepCopyInto);
   ("VolumeGroupReplicationClassSpec", ObjectTypes.Replication.VolumeGroupReplicationClassSpec_type, DeepCopy.Replication.VolumeGroupReplicationClassSpec_DeepCopyInto);
   ("VolumeGroupReplicationClassStatus", ObjectTypes.Replication.VolumeGroupReplicationClassStatus_type, DeepCopy.Replication.VolumeGroupReplicationClassStatus_DeepCopyInto);
   ("VolumeGroupReplicationClass", ObjectTypes.Replication.VolumeGroupReplicationClass_type, DeepCopy.Replication.VolumeGroupReplicationClass_DeepCopyInto);
   ("VolumeGroupReplicationClassList", ObjectTypes.Replication.VolumeGroupReplicationClassList_type, DeepCopy.Replication.VolumeGroupReplicationClassList_DeepCopyInto);
   ("VolumeGroupReplicationContentSource", ObjectTypes.Replication.VolumeGroupReplicationContentSource_type, DeepCopy.Replication.VolumeGroupReplicationContentSource_DeepCopyInto);
   ("VolumeGroupReplicationContentSpec", ObjectTypes.Replication.VolumeGroupReplicationContentSpec_type, DeepCopy.Replication.VolumeGroupReplicationContentSpec_DeepCopyInto);
   ("VolumeGroupReplicationContentStatus", ObjectTypes.Replication.VolumeGroupReplicationContentStatus_type, DeepCopy.Replication.VolumeGroupReplicationContentStatus_DeepCopyInto);
   ("VolumeGroupReplicationContent", ObjectTypes.Replication.VolumeGroupReplicationContent_type, DeepCopy.Replication.VolumeGroupReplicationContent_DeepCopyInto);
   ("VolumeGroupReplicationContentList", ObjectTypes.Replication.VolumeGroupReplicationContentList_type, DeepCopy.Replication.VolumeGroupReplicationContentList_DeepCopyInto)].

Definition generated : list (string * ty * (value -> HM value)) := csiaddons_copies ++ replication_copies.

(** Those of the objects and lists of objects. *)
Definition generated_objects : list (string * ty * (value -> HM value) * (value -> HM iface)) :=
  [("CSIAddonsNode", ObjectTypes.CsiAddons.CSIAddonsNode_type, DeepCopy.CsiAddons.CSIAddonsNode_DeepCopyInto, DeepCopy.CsiAddons.CSIAddonsNode_DeepCopyObject);
   ("CSIAddonsNodeList", ObjectTypes.CsiAddons.CSIAddonsNodeList_type, DeepCopy.CsiAddons.CSIAddonsNodeList_DeepCopyInto, DeepCopy.CsiAddons.CSIAddonsNodeList_DeepCopyObject);
   ("NetworkFence", ObjectTypes.CsiAddons.NetworkFence_type, DeepCopy.CsiAddons.NetworkFence_DeepCopyInto, DeepCopy.CsiAddons.NetworkFence_DeepCopyObject);
   ("NetworkFenceList", ObjectTypes.CsiAddons.NetworkFenceList_type, DeepCopy.CsiAddons.NetworkFenceList_DeepCopyInto, DeepCopy.CsiAddons.NetworkFenceList_DeepCopyObject);
   ("NetworkFenceClass", ObjectTypes.CsiAddons.NetworkFenceClass_type, DeepCopy.CsiAddons.NetworkFenceClass_DeepCopyInto, DeepCopy.CsiAddons.NetworkFenceClass_DeepCopyObject);
   ("NetworkFenceClassList", ObjectTypes.CsiAddons.NetworkFenceClassList_type, DeepCopy.CsiAddons.NetworkFenceClassList_DeepCopyInto, DeepCopy.CsiAddons.NetworkFenceClassList_DeepCopyObject);
   ("ReclaimSpaceJob", ObjectTypes.CsiAddons.ReclaimSpaceJob_type, DeepCopy.CsiAddons.ReclaimSpaceJob_DeepCopyInto, DeepCopy.CsiAddons.ReclaimSpaceJob_DeepCopyObject);
   ("ReclaimSpaceJobList", ObjectTypes.CsiAddons.ReclaimSpaceJobList_type, DeepCopy.CsiAddons.ReclaimSpaceJobList_DeepCopyInto, DeepCopy.CsiAddons.ReclaimSpaceJobList_DeepCopyObject);
   ("ReclaimSpaceCronJob", ObjectTypes.CsiAddons.ReclaimSpaceCronJob_type, DeepCopy.CsiAddons.ReclaimSpaceCronJob_DeepCopyInto, DeepCopy.CsiAddons.ReclaimSpaceCronJob_DeepCopyObject);
   ("ReclaimSpaceCronJobList", ObjectTypes.CsiAddons.ReclaimSpaceCronJobList_type, DeepCopy.CsiAddons.ReclaimSpaceCronJobList_DeepCopyInto, DeepCopy.CsiAddons.ReclaimSpaceCronJobList_DeepCopyObject);
   ("EncryptionKeyRotationJob", ObjectTypes.CsiAddons.EncryptionKeyRotationJob_type, DeepCopy.CsiAddons.EncryptionKeyRotationJob_DeepCopyInto, DeepCopy.CsiAddons.EncryptionKeyRotationJob_DeepCopyObject);
   ("EncryptionKeyRotationJobList", ObjectTypes.CsiAddons.EncryptionKeyRotationJobList_type, DeepCopy.CsiAddons.EncryptionKeyRotationJobList_DeepCopyInto, DeepCopy.CsiAddons.EncryptionKeyRotationJobList_DeepCopyObject);
   ("EncryptionKeyRotationCronJob", ObjectTypes.CsiAddons.EncryptionKeyRotationCronJob_type, DeepCopy.CsiAddons.EncryptionKeyRotationCronJob_DeepCopyInto, DeepCopy.CsiAddons.EncryptionKeyRotationCronJob_DeepCopyObject);
   ("EncryptionKeyRotationCronJobList", ObjectTypes.CsiAddons.EncryptionKeyRotationCronJobList_type, DeepCopy.CsiAddons.EncryptionKeyRotationCronJobList_DeepCopyInto, DeepCopy.CsiAddons.EncryptionKeyRotationCronJobList_DeepCopyObject);
   ("VolumeReplication", ObjectTypes.Replication.VolumeReplication_type, DeepCopy.Replication.VolumeReplication_DeepCopyInto, DeepCopy.Replication.VolumeReplication_DeepCopyObject);
   ("VolumeReplicationList", ObjectTypes.Replication.VolumeReplicationList_type, DeepCopy.Replication.VolumeReplicationList_DeepCopyInto, DeepCopy.Replication.VolumeReplicationList_DeepCopyObject);
   ("VolumeReplicationClass", ObjectTypes.Replication.VolumeReplicationClass_type, DeepCopy.Replication.VolumeReplicationClass_DeepCopyInto, DeepCopy.Replication.VolumeReplicationClass_DeepCopyObject);
   ("VolumeReplicationClassList", ObjectTypes.Replication.VolumeReplicationClassList_type, DeepCopy.Replication.VolumeReplicationClassList_DeepCopyInto, DeepCopy.Replication.VolumeReplicationClassList_DeepCopyObject);
   ("VolumeGroupReplication", ObjectTypes.Replication.VolumeGroupReplication_type, DeepCopy.Replication.VolumeGroupReplication_DeepCopyInto, DeepCopy.Replication.VolumeGroupReplication_DeepCopyObject);
   ("VolumeGroupReplicationList", ObjectTypes.Replication.VolumeGroupReplicationList_type, DeepCopy.Replication.VolumeGroupReplicationList_DeepCopyInto, DeepCopy.Replication.VolumeGroupReplicationList_DeepCopyObject);
   ("VolumeGroupReplicationClass", ObjectTypes.Replication.VolumeGroupReplicationClass_type, DeepCopy.Replication.VolumeGroupReplicationClass_DeepCopyInto, DeepCopy.Replication.VolumeGroupReplicationClass_DeepCopyObject);
   ("VolumeGroupReplicationClassList", ObjectTypes.Replication.VolumeGroupReplicationClassList_type, DeepCopy.Replication.VolumeGroupReplicationClassList_DeepCopyInto, DeepCopy.Replication.VolumeGroupReplicationClassList_DeepCopyObject);
   ("VolumeGroupReplicationContent", ObjectTypes.Replication.VolumeGroupReplicationContent_type, DeepCopy.Replication.VolumeGroupReplicationContent_DeepCopyInto, DeepCopy.Replication.VolumeGroupReplicationContent_DeepCopyObject);
   ("VolumeGroupReplicationContentList", ObjectTypes.Replication.VolumeGroupReplicationContentList_type, DeepCopy.Replication.VolumeGroupReplicationContentList_DeepCopyInto, DeepCopy.Replication.VolumeGroupReplicationContentList_DeepCopyObject)].

Lemma csiaddons_copies_ok : Forall (fun '(_, t, f) => wfb t = true /\ copies t f) csiaddons_copies.
Proof. repeat (apply Forall_cons; split; [split; [reflexivity|copies_by_type]|]). done. Qed.

Lemma replication_copies_ok : Forall (fun '(_, t, f) => wfb t = true /\ copies t f) replication_copies.
Proof. repeat (apply Forall_cons; split; [split; [reflexivity|copies_by_type]|]). done. Qed.

Lemma generated_ok n t f : (n, t, f) ∈ generated -> wf t /\ copies t f.
Proof.
  intros Hin. assert (wfb t = true /\ copies t f) as [Hw Hc]; [|by split; [apply wfb_wf|]].
  apply elem_of_app in Hin as [Hin|Hin];
    [apply (proj1 (Forall_forall _ _) csiaddons_copies_ok _ Hin)|apply (proj1 (Forall_forall _ _) replication_copies_ok _ Hin)].
Qed.

(** C30: Each generated copy function, on a well-typed object, does exactly what the
    copy that follows the type does: no field with a reference is forgotten, and
    none is only assigned. *)
Theorem generated_copies_follow_types n t f h v x :
  (n, t, f) ∈ generated -> view h t v = Some x -> f v h = deepcopy t v h.
Proof. intros Hin. apply (generated_ok n t f Hin). Qed.

(** A copy: [p'] in memory [h'], of the object that [p] points to in [h].  It
    has the same contents; the original keeps its own; no write to the copy,
    wherever it goes, changes the original, and none to what was there before
    changes the copy. *)
Definition independent_copy (t : ty) (h : heap) (p : value) (x : tree) (h' : heap) (p' : value) : Prop :=
  view h' t p' = Some x /\ view h' t p = Some x /\
  (forall l c, l ∈ reach h' t p' -> view (<[l := c]> h') t p = Some x) /\
  (forall l c, l ∈ dom h -> view (<[l := c]> h') t p' = Some x).

Lemma copied_independent t h p x h' p' :
  view h t p = Some x -> copied t h x p' h' -> independent_copy t h p x h' p'.
Proof.
  intros Hv (Hsub & Hv' & Hr). destruct (view_grows _ _ _ _ _ Hv Hsub) as [Hp Hrp].
  pose proof (reach_dom _ _ _ _ Hv) as Hd. split_and!; [done..| |].
  - intros l c Hl. apply (view_frame h'); [done|]. intros l' Hl'. apply lookup_insert_ne. rewrite Hrp in Hl'. set_solver.
  - intros l c Hl. apply (view_frame h'); [done|]. intros l' Hl'. apply lookup_insert_ne. set_solver.
Qed.

(** C25: DeepCopy of every type of the API, on every object, however its parts are
    shared: it returns a copy that is equal to the original and independent of
    it; of nil it returns nil. *)
Theorem deep_copies_independent n t f h p x :
  (n, t, f) ∈ generated -> view h (TPtr t) p = Some x ->
  exists p' h', DeepCopy f p h = Some (p', h') /\ independent_copy (TPtr t) h p x h' p' /\ (p = VPtr None -> p' = p /\ h' = h).
Proof.
  intros Hin Hv. destruct (generated_ok n t f Hin) as [Hwf Hc].
  destruct (deepcopy_faithful (TPtr t) (wf_ptr t Hwf) h p x Hv) as (p' & h' & Hd & Hcp).
  exists p', h'. split; [|split].
  - unfold DeepCopy. by rewrite (copies_ptr t f Hc h p x Hv).
  - by apply copied_independent.
  - intros ->. by injection Hd as <- <-.
Qed.

Lemma copy_ptr_some f l h p' h' : copy_ptr f (VPtr (Some l)) h = Some (p', h') -> exists l', p' = VPtr (Some l').
Proof.
  cbn. unfold load, mbind, HM_bind. destruct (h !! l) as [[y| |]|]; try done. destruct (f y h) as [[y' h1]|]; [|done].
  intros [= <- _]. by eexists.
Qed.

Lemma generated_objects_ok n t f g :
  (n, t, f, g) ∈ generated_objects -> g = DeepCopyObject n (DeepCopy f) /\ wf t /\ copies t f.
Proof.
  intros Hin. assert (Forall (fun '(n, t, f, g) => g = DeepCopyObject n (DeepCopy f) /\ wfb t = true /\ copies t f) generated_objects)
    as Hall; [|destruct (proj1 (Forall_forall _ _) Hall _ Hin) as (-> & Hw & Hc); by split_and!; [|apply wfb_wf|]].
  clear Hin. repeat (apply Forall_cons; split; [split_and!; [reflexivity|reflexivity|copies_by_type]|]). done.
Qed.

(** DeepCopyObject of every object and list: of nil it returns no object (never
    an interface that holds a nil pointer), and of an object an object of the
    same type whose contents are the same and that shares nothing with it. *)
Theorem deep_copy_objects_independent n t f g h :
  (n, t, f, g) ∈ generated_objects ->
  g (VPtr None) h = Some (NoObject, h) /\
  forall l x, view h (TPtr t) (VPtr (Some l)) = Some x ->
    exists p' h', g (VPtr (Some l)) h = Some (Object n p', h') /\ independent_copy (TPtr t) h (VPtr (Some l)) x h' p'.
Proof.
  intros Hin. destruct (generated_objects_ok n t f g Hin) as (-> & Hwf & Hc). split; [done|]. intros l x Hv.
  destruct (deepcopy_faithful (TPtr t) (wf_ptr t Hwf) h _ x Hv) as (p' & h' & Hd & Hcp).
  exists p', h'. split; [|by apply copied_independent].
  rewrite <- (copies_ptr t f Hc h _ x Hv) in Hd. unfold DeepCopyObject, DeepCopy, mbind, HM_bind. rewrite Hd.
  destruct (copy_ptr_some f l h p' h' Hd) as [l' ->]. done.
Qed.

(** Two client details that share one array of CIDRs. *)
Definition sample_heap : heap :=
  {[ 1%positive := CVal (VStruct [("Id", VScalar (SString "a")); ("Cidrs", VSlice (Some (3%positive, 0, 1)))]);
     2%positive := CVal (VStruct [("Id", VScalar (SString "b")); ("Cidrs", VSlice (Some (3%positive, 0, 2)))]);
     3%positive := CArr [VScalar (SString "10.0.0.1/32"); VScalar (SString "10.0.0.2/32")] ]}.
Definition sample_detail : tree :=
  XPtr (XStruct [("Id", XScalar (SString "a")); ("Cidrs", XSlice [XScalar (SString "10.0.0.1/32")])]).

Lemma generated_copies_follow_types_witness :
  let v := VStruct [("Id", VScalar (SString "a")); ("Cidrs", VSlice (Some (3%positive, 0, 1)))] in
  DeepCopy.CsiAddons.ClientDetail_DeepCopyInto v sample_heap = deepcopy ObjectTypes.CsiAddons.ClientDetail_type v sample_heap.
Proof.
  intros v. eapply (generated_copies_follow_types "ClientDetail").
  - right; right; left.
  - vm_compute. reflexivity.
Defined.

Lemma deep_copies_independent_witness :
  exists p' h', DeepCopy DeepCopy.CsiAddons.ClientDetail_DeepCopyInto (VPtr (Some 1%positive)) sample_heap = Some (p', h') /\
    independent_copy (TPtr ObjectTypes.CsiAddons.ClientDetail_type) sample_heap (VPtr (Some 1%positive)) sample_detail h' p'.
Proof.
  destruct (deep_copies_independent "ClientDetail" ObjectTypes.CsiAddons.ClientDetail_type
    DeepCopy.CsiAddons.ClientDetail_DeepCopyInto sample_heap (VPtr (Some 1%positive)) sample_detail) as (p' & h' & Hd & Hi & _).
  - right; right; left.
  - vm_compute. reflexivity.
  - exists p', h'. split; [exact Hd|exact Hi].
Defined.

Lemma deep_copy_objects_independent_witness :
  DeepCopy.CsiAddons.CSIAddonsNode_DeepCopyObject (VPtr None) sample_heap = Some (NoObject, sample_heap).
Proof.
  apply (deep_copy_objects_independent "CSIAddonsNode" ObjectTypes.CsiAddons.CSIAddonsNode_type
    DeepCopy.CsiAddons.CSIAddonsNode_DeepCopyInto DeepCopy.CsiAddons.CSIAddonsNode_DeepCopyObject sample_heap). left.
Defined.
