(* ===== verification/CommandLine.v ===== *)
(** * The command lines

    Go's flag package, and the flags of the three executables: the csi-addons tool
    (src/cmd/csi-addons/main.go), the manager (src/cmd/manager/main.go) and the
    side-car (src/sidecar/main.go).  A flag set maps names to the values the flags
    have so far; the type of a flag is that of its value.  The logging libraries
    of the last two register flags of their own: these are a parameter.  The
    flag set's error handling is ExitOnError. *)

From S2P Require Import Prelude.
From S2P Require Import GoErrors.
From S2P Require Import GoStrconv.
From S2P Require Config.
From S2P Require Tool.
From S2P Require ManagerMain.
From S2P Require SidecarMain.
Local Open Scope Z_scope.

(** ** strconv *)

Definition ParseBool (s : string) : option bool :=
  if bool_decide (s ∈ ["1"; "t"; "T"; "TRUE"; "true"; "True"]) then Some true
  else if bool_decide (s ∈ ["0"; "f"; "F"; "FALSE"; "false"; "False"]) then Some false
  else None.

Definition lower (c : ascii) : Z :=
  let n := Z.of_nat (nat_of_ascii c) in if (65 <=? n) && (n <=? 90) then n + 32 else n.

(** The digits of a number in [base], underscores skipped. *)
Fixpoint based_digits (base acc : Z) (s : string) : option Z :=
  match s with
  | EmptyString => Some acc
  | String c s =>
    if bool_decide (c = "_"%char) then based_digits base acc s
    else
      let d := match digit_value c with
               | Some d => d
               | None => let n := lower c in if (97 <=? n) && (n <=? 122) then n - 97 + 10 else base
               end in
      if d <? base then based_digits base (acc * base + d) s else None
  end.

(** Where the last character left us: a digit or prefix, an underscore, or else. *)
Inductive last_seen := SawStart | SawDigit | SawUnderscore | SawOther.
#[global] Instance last_seen_eq_dec : EqDecision last_seen.
Proof. solve_decision. Defined.

Fixpoint underscores_ok (hex : bool) (i : last_seen) (s : string) : bool :=
  match s with
  | EmptyString => negb (bool_decide (i = SawUnderscore))
  | String c s =>
    let n := lower c in
    if bool_decide (is_Some (digit_value c)) || (hex && ((97 <=? n) && (n <=? 102))) then underscores_ok hex SawDigit s
    else if bool_decide (c = "_"%char) then
      if bool_decide (i = SawDigit) then underscores_ok hex SawUnderscore s else false
    else if bool_decide (i = SawUnderscore) then false
    else underscores_ok hex SawOther s
  end.

(** The base that a prefix asks for, the rest of the number, and whether there
    was a two-letter prefix. *)
Definition base_prefix (s : string) : Z * string * bool :=
  match s with
  | String "0" (String c s2) =>
    let n := lower c in
    let long := negb (bool_decide (s2 = "")) in
    if (n =? 98) && long then (2, s2, true)
    else if (n =? 111) && long then (8, s2, true)
    else if (n =? 120) && long then (16, s2, true)
    else (8, String c s2, false)
  | String "0" s1 => (8, s1, false)
  | _ => (10, s, false)
  end.

(** strconv.ParseInt(s, 0, 64), errors left out. *)
Definition ParseInt (s : string) : option Z :=
  let '(neg, s') :=
    match s with
    | String c s' =>
      if bool_decide (c = "-"%char) then (true, s')
      else if bool_decide (c = "+"%char) then (false, s') else (false, s)
    | EmptyString => (false, s)
    end in
  if bool_decide (s' = "") then None
  else
  let '(base, digits, prefixed) := base_prefix s' in
  match based_digits base 0 digits with
  | None => None
  | Some n =>
    let v := if neg then - n else n in
    if underscores_ok ((base =? 16) && prefixed) (if prefixed then SawDigit else SawStart) (if prefixed then digits else s')
       && ((min_int64 <=? v) && (v <=? max_int64))
    then Some v else None
  end.

(** ** flag *)

Inductive flag_value := FString (s : string) | FBool (b : bool) | FInt (z : Z) | FDuration (d : Z).

Abbreviation FlagSet := (gmap string flag_value).

(** Value.Set; [None] is an error. *)
Definition set_value (v : flag_value) (s : string) : option flag_value :=
  match v with
  | FString _ => Some (FString s)
  | FBool _ => FBool <$> ParseBool s
  | FInt _ => FInt <$> ParseInt s
  | FDuration _ => match ParseDuration s with inr d => Some (FDuration d) | inl _ => None end
  end.

Definition is_bool_flag (v : flag_value) : bool := match v with FBool _ => true | _ => false end.

Inductive parsed :=
| Parsed (fs : FlagSet) (args : list string)
| Exited (code : Z) (msg : string).

(** The name of a flag and its value, if the argument has an equals sign (which
    cannot come first). *)
Fixpoint cut_equals (s : string) : string * option string :=
  match s with
  | EmptyString => ("", None)
  | String c s =>
    if bool_decide (c = "="%char) then ("", Some s)
    else let '(n, v) := cut_equals s in (String c n, v)
  end.
Definition split_flag (name : string) : string * option string :=
  match name with
  | EmptyString => ("", None)
  | String c s => let '(n, v) := cut_equals s in (String c n, v)
  end.

(** What an argument is: not a flag, the end of the flags, or a flag's text. *)
Inductive argument := NotAFlag | EndOfFlags | Flag (name : string).
Definition read_argument (s : string) : argument :=
  match s with
  | String "-" (String "-" EmptyString) => EndOfFlags
  | String "-" (String "-" name) => Flag name
  | String "-" EmptyString => NotAFlag
  | String "-" name => Flag name
  | _ => NotAFlag
  end.

Section parse.
(** The exit code of a Usage function that ends the process itself. *)
Variable usage : option Z.

(** failf prints the error and the usage; Parse then exits with 2. *)
Definition failf (msg : string) : parsed := Exited (default 2 usage) msg.
Definition help : parsed := Exited (default 0 usage) "flag: help requested".

Fixpoint Parse (fs : FlagSet) (args : list string) : parsed :=
  match args with
  | [] => Parsed fs []
  | s :: rest =>
    match read_argument s with
    | NotAFlag => Parsed fs (s :: rest)
    | EndOfFlags => Parsed fs rest
    | Flag text =>
      match text with
      | EmptyString | String "-" _ | String "=" _ => failf ("bad flag syntax: " +:+ s)
      | _ =>
        let '(name, value) := split_flag text in
        match fs !! name with
        | None =>
          if bool_decide (name ∈ ["help"; "h"]) then help
          else failf ("flag provided but not defined: -" +:+ name)
        | Some v =>
          if is_bool_flag v then
            match set_value v (default "true" value) with
            | Some v' => Parse (<[name := v']> fs) rest
            | None => failf ("invalid boolean value " +:+ go_quote (default "true" value) +:+ " for -" +:+ name +:+ ": parse error")
            end
          else
            match value, rest with
            | Some s, _ =>
              match set_value v s with
              | Some v' => Parse (<[name := v']> fs) rest
              | None => failf ("invalid value " +:+ go_quote s +:+ " for flag -" +:+ name)
              end
            | None, s :: rest =>
              match set_value v s with
              | Some v' => Parse (<[name := v']> fs) rest
              | None => failf ("invalid value " +:+ go_quote s +:+ " for flag -" +:+ name)
              end
            | None, [] => failf ("flag needs an argument: -" +:+ name)
            end
        end
      end
    end
  end.
End parse.

(** The variables bound to the flags. *)
Definition string_flag (fs : FlagSet) (n : string) : string := match fs !! n with Some (FString s) => s | _ => "" end.
Definition bool_flag (fs : FlagSet) (n : string) : bool := match fs !! n with Some (FBool b) => b | _ => false end.
Definition int_flag (fs : FlagSet) (n : string) : Z := match fs !! n with Some (FInt z) => z | _ => 0 end.
Definition duration_flag (fs : FlagSet) (n : string) : Z := match fs !! n with Some (FDuration d) => d | _ => 0 end.

(** ** The csi-addons tool *)
Module ToolFlags.
Definition endpoint := "unix:///tmp/csi-addons.sock".
Definition stagingPath := "/var/lib/kubelet/plugins/kubernetes.io/csi/".

Definition defaults : FlagSet :=
  list_to_map
    [("endpoint", FString endpoint); ("stagingpath", FString stagingPath); ("operation", FString "");
     ("persistentvolume", FString ""); ("volumegroupreplicationcontent", FString ""); ("drivername", FString "");
     ("secret", FString ""); ("cidrs", FString ""); ("clusterid", FString ""); ("legacy", FBool false);
     ("version", FBool false); ("volumegroupname", FString ""); ("volumegroupid", FString "");
     ("parameters", FString ""); ("volumeids", FString "")].

(** The fields of cmd. *)
Definition cmd (fs : FlagSet) : Tool.command :=
  let s := string_flag fs in
  Tool.mkCommand (s "endpoint") (s "stagingpath") (s "operation") (s "persistentvolume")
    (s "volumegroupreplicationcontent") (s "drivername") (s "secret") (s "cidrs") (s "clusterid")
    (bool_flag fs "legacy") (s "volumegroupname") (s "volumegroupid") (s "parameters") (s "volumeids").

(** init: its Usage lists the operations and exits with 0. *)
Definition init (args : list string) : Z + Tool.command :=
  match Parse (Some 0) defaults args with
  | Exited code _ => inl code
  | Parsed fs _ => if bool_flag fs "version" then inl 0 else inr (cmd fs)
  end.
End ToolFlags.

(** ** The manager *)
Module ManagerFlags.
Definition defaults (libraries : FlagSet) : FlagSet :=
  let cfg := Config.NewConfig in
  list_to_map
    [("metrics-bind-address", FString "0"); ("health-probe-bind-address", FString ":8081");
     ("leader-elect", FBool false); ("leader-election-lease-duration", FDuration (15 * second));
     ("leader-election-renew-deadline", FDuration (10 * second)); ("leader-election-retry-period", FDuration (5 * second));
     ("reclaim-space-timeout", FDuration cfg.(Config.ReclaimSpaceTimeout));
     ("max-concurrent-reconciles", FInt cfg.(Config.MaxConcurrentReconciles));
     ("namespace", FString cfg.(Config.Namespace)); ("enable-http2", FBool false);
     ("enable-admission-webhooks", FBool false); ("metrics-secure", FBool true); ("version", FBool false);
     ("schedule-precedence", FString Config.SchedulePVC); ("enable-auth", FBool true);
     ("max-group-pvc", FInt cfg.(Config.MaxGroupPVC));
     (Config.CsiaddonsNodeRetryDelayKey, FInt cfg.(Config.CSIAddonsNodeRetryDelay))] ∪ libraries.

(** The variables of main, and the fields of cfg. *)
Definition variables (fs : FlagSet) : ManagerMain.flags :=
  ManagerMain.mkFlags (string_flag fs "metrics-bind-address") (string_flag fs "health-probe-bind-address")
    (bool_flag fs "leader-elect") (bool_flag fs "enable-http2")
    (duration_flag fs "leader-election-lease-duration") (duration_flag fs "leader-election-renew-deadline")
    (duration_flag fs "leader-election-retry-period") (bool_flag fs "version") (bool_flag fs "metrics-secure")
    (bool_flag fs "enable-admission-webhooks") (bool_flag fs "enable-auth")
    (Config.mkConfig (string_flag fs "namespace") (duration_flag fs "reclaim-space-timeout")
       (int_flag fs "max-concurrent-reconciles") (string_flag fs "schedule-precedence") (int_flag fs "max-group-pvc")
       (int_flag fs Config.CsiaddonsNodeRetryDelayKey)).

Definition parse_flags (libraries : FlagSet) (args : list string) : Z + ManagerMain.flags :=
  match Parse None (defaults libraries) args with
  | Exited code _ => inl code
  | Parsed fs _ => inr (variables fs)
  end.
End ManagerFlags.

(** ** The side-car *)
Module SidecarFlags.
Definition minute : Z := 60 * second.
Definition defaults (libraries : FlagSet) : FlagSet :=
  list_to_map
    [("timeout", FDuration (3 * minute)); ("csi-addons-address", FString "/run/csi-addons/socket");
     ("node-id", FString ""); ("stagingpath", FString "/var/lib/kubelet/plugins/kubernetes.io/csi/");
     ("controller-port", FString ""); ("controller-ip", FString ""); ("pod", FString ""); ("namespace", FString "");
     ("pod-uid", FString ""); ("version", FBool false); ("leader-election-namespace", FString "");
     ("leader-election-lease-duration", FDuration (15 * second)); ("leader-election-renew-deadline", FDuration (10 * second));
     ("leader-election-retry-period", FDuration (5 * second)); ("enable-auth", FBool true);
     ("enable-volume-condition", FBool false); ("volume-condition-interval", FDuration minute);
     ("volume-condition-recorders", FString SidecarMain.defaultVolumeConditionRecorders)] ∪ libraries.

Definition variables (fs : FlagSet) : SidecarMain.flags :=
  let s := string_flag fs in
  SidecarMain.mkFlags (s "csi-addons-address") (s "node-id") (s "stagingpath") (s "controller-port") (s "controller-ip")
    (s "pod") (s "namespace") (s "pod-uid") (bool_flag fs "version") (s "leader-election-namespace")
    (duration_flag fs "leader-election-lease-duration") (duration_flag fs "leader-election-renew-deadline")
    (duration_flag fs "leader-election-retry-period") (bool_flag fs "enable-auth") (bool_flag fs "enable-volume-condition")
    (duration_flag fs "volume-condition-interval") (s "volume-condition-recorders").

(** flag.Set("logtostderr", "true") comes before Parse; it fails, and the
    process ends, unless klog has registered the flag. *)
Definition parse_flags (libraries : FlagSet) (args : list string) : Z + SidecarMain.flags :=
  match defaults libraries !! "logtostderr" with
  | None => inl 1
  | Some v =>
    match set_value v "true" with
    | None => inl 1
    | Some v' =>
      match Parse None (<["logtostderr" := v']> (defaults libraries)) args with
      | Exited code _ => inl code
      | Parsed fs _ => inr (variables fs)
      end
    end
  end.
End SidecarFlags.

(** ** Settings *)

(** The ways to write a setting. *)
Inductive setting :=
| Short (name value : string)         (* -name=value *)
| Long (name value : string)          (* --name=value *)
| Apart (name value : string)         (* -name value, for a flag that is not a bool *)
| Switch (name : string).             (* -name, for a bool *)

Definition setting_name (s : setting) : string := match s with Short n _ | Long n _ | Apart n _ | Switch n => n end.
Definition setting_value (s : setting) : string := match s with Short _ v | Long _ v | Apart _ v => v | Switch _ => "true" end.
Definition render (s : setting) : list string :=
  match s with
  | Short n v => ["-" +:+ n +:+ "=" +:+ v]
  | Long n v => ["--" +:+ n +:+ "=" +:+ v]
  | Apart n v => ["-" +:+ n; v]
  | Switch n => ["-" +:+ n]
  end.

(** A name that can be written: not empty, no equals sign, no leading dash. *)
Definition writable (n : string) : bool :=
  match n with
  | EmptyString => false
  | String c _ => negb (bool_decide (c = "-"%char)) && bool_decide ("="%char ∉ String.list_ascii_of_string n)
  end.

Definition fits (s : setting) (v : flag_value) : bool :=
  match s with Apart _ _ => negb (is_bool_flag v) | Switch _ => is_bool_flag v | _ => true end.

(** What the settings, one after the other, make of the flags. *)
Fixpoint apply_settings (fs : FlagSet) (ss : list setting) : option FlagSet :=
  match ss with
  | [] => Some fs
  | s :: ss =>
    match fs !! setting_name s with
    | Some v =>
      if writable (setting_name s) && fits s v then
        match set_value v (setting_value s) with
        | Some v' => apply_settings (<[setting_name s := v']> fs) ss
        | None => None
        end
      else None
    | None => None
    end
  end.

Lemma cut_equals_none n : "="%char ∉ String.list_ascii_of_string n -> cut_equals n = (n, None).
Proof.
  induction n as [|c n IH]; intros Hn; [done|]. cbn -[bool_decide] in *. rewrite bool_decide_false by set_solver.
  by rewrite IH by set_solver.
Qed.

Lemma cut_equals_some n v : "="%char ∉ String.list_ascii_of_string n -> cut_equals (n +:+ "=" +:+ v) = (n, Some v).
Proof.
  induction n as [|c n IH]; intros Hn; [done|].
  change (String c n +:+ "=" +:+ v) with (String c (n +:+ "=" +:+ v)). cbn -[bool_decide] in *.
  rewrite bool_decide_false by set_solver. by rewrite IH by set_solver.
Qed.

Lemma writable_spec n : writable n = true ->
  exists c n', n = String c n' /\ c ≠ "-"%char /\ c ≠ "="%char /\ "="%char ∉ String.list_ascii_of_string n'.
Proof.
  destruct n as [|c n]; [done|]. cbn -[bool_decide]. intros [Hc Hn]%andb_prop. apply negb_true_iff, bool_decide_eq_false in Hc.
  apply bool_decide_eq_true in Hn. cbn in Hn. exists c, n. set_solver.
Qed.

Lemma read_flag c s : c ≠ "-"%char ->
  read_argument ("-" +:+ String c s) = Flag (String c s) /\ read_argument ("--" +:+ String c s) = Flag (String c s).
Proof.
  intros Hc. cbn. split; [|done].
  destruct c as [[] [] [] [] [] [] [] []]; try done.
Qed.

(** A flag's text starts with neither character. *)
Lemma flag_text {A} c (a b : A) : c ≠ "-"%char -> c ≠ "="%char ->
  match c with "-"%char | "="%char => a | _ => b end = b.
Proof. intros Hd He. destruct c as [[] [] [] [] [] [] [] []]; done. Qed.

(** One setting. *)
Lemma Parse_setting usage fs s rest v v' :
  fs !! setting_name s = Some v -> writable (setting_name s) = true -> fits s v = true ->
  set_value v (setting_value s) = Some v' ->
  Parse usage fs (render s ++ rest) = Parse usage (<[setting_name s := v']> fs) rest.
Proof.
  intros Hv Hw Hf Hs. destruct (writable_spec _ Hw) as (c & n & Hn & Hd & He & Hne).
  destruct s as [name value|name value|name value|name]; cbn [setting_name setting_value fits render app] in *; subst name.
  - change ("-" +:+ String c n +:+ "=" +:+ value) with ("-" +:+ String c (n +:+ "=" +:+ value)). cbn [Parse].
    destruct (read_flag c (n +:+ "=" +:+ value) Hd) as [-> _]. rewrite (flag_text c _ _ Hd He).
    cbn [split_flag]. rewrite cut_equals_some, Hv by done. destruct (is_bool_flag v); simpl; by rewrite Hs.
  - change ("--" +:+ String c n +:+ "=" +:+ value) with ("--" +:+ String c (n +:+ "=" +:+ value)). cbn [Parse].
    destruct (read_flag c (n +:+ "=" +:+ value) Hd) as [_ ->]. rewrite (flag_text c _ _ Hd He).
    cbn [split_flag]. rewrite cut_equals_some, Hv by done. destruct (is_bool_flag v); simpl; by rewrite Hs.
  - cbn [Parse]. destruct (read_flag c n Hd) as [-> _]. rewrite (flag_text c _ _ Hd He).
    cbn [split_flag]. rewrite cut_equals_none, Hv by done. apply negb_true_iff in Hf. rewrite Hf. by rewrite Hs.
  - cbn [Parse]. destruct (read_flag c n Hd) as [-> _]. rewrite (flag_text c _ _ Hd He).
    cbn [split_flag]. rewrite cut_equals_none, Hv by done. rewrite Hf. simpl. by rewrite Hs.
Qed.

Lemma Parse_settings usage ss : forall fs fs' rest,
  apply_settings fs ss = Some fs' -> Parse usage fs (concat (map render ss) ++ rest) = Parse usage fs' rest.
Proof.
  induction ss as [|s ss IH]; intros fs fs' rest Ha; cbn [apply_settings map concat] in *; [by injection Ha as ->|].
  destruct (fs !! setting_name s) as [v|] eqn:Hv; [|done]. destruct (writable _ && fits s v) eqn:Hw; [|done].
  apply andb_prop in Hw as [Hw Hf]. destruct (set_value v _) as [v'|] eqn:Hs; [|done].
  rewrite <- app_assoc, (Parse_setting usage fs s _ v v') by done. by apply IH.
Qed.

(** ** Theorems *)

(** A command written out, every flag with its value. *)
Definition command_settings (c : Tool.command) : list setting :=
  [Long "endpoint" c.(Tool.endpoint); Long "stagingpath" c.(Tool.stagingPath); Long "operation" c.(Tool.operation_name);
   Long "persistentvolume" c.(Tool.persistentVolume);
   Long "volumegroupreplicationcontent" c.(Tool.volumeGroupReplicationContent); Long "drivername" c.(Tool.drivername);
   Long "secret" c.(Tool.secret); Long "cidrs" c.(Tool.cidrs); Long "clusterid" c.(Tool.clusterid);
   Long "legacy" (if c.(Tool.legacy) then "true" else "false"); Long "volumegroupname" c.(Tool.volumeGroupName);
   Long "volumegroupid" c.(Tool.volumeGroupID); Long "parameters" c.(Tool.parameters); Long "volumeids" c.(Tool.volumeIDs)].
Definition command_line (c : Tool.command) : list string := concat (map render (command_settings c)).

(** C38: Each command has a command line that the tool reads back as that command,
    whatever its strings contain (dashes, equals signs, nothing at all) and
    whatever follows the end of the flags. *)
Theorem tool_command_line_roundtrip c rest :
  ToolFlags.init (command_line c) = inr c /\ ToolFlags.init (command_line c ++ "--" :: rest) = inr c.
Proof.
  assert (exists fs, apply_settings ToolFlags.defaults (command_settings c) = Some fs /\
            ToolFlags.cmd fs = c /\ bool_flag fs "version" = false) as (fs & Hfs & Hc & Hver).
  { exists (default ∅ (apply_settings ToolFlags.defaults (command_settings c))).
    destruct c as [e s o p g d se ci cl l gn gi pa vi]. destruct l; split_and!; vm_compute; reflexivity. }
  unfold ToolFlags.init, command_line. split.
  - rewrite <- (app_nil_r (concat _)), (Parse_settings _ _ _ _ _ Hfs). cbn. by rewrite Hver, Hc.
  - rewrite (Parse_settings _ _ _ _ _ Hfs). cbn. by rewrite Hver, Hc.
Qed.

(** How a command line is refused. *)
Lemma Parse_exits usage code msg : forall n fs args, (length args <= n)%nat ->
  Parse usage fs args = Exited code msg -> code = default 2 usage \/ code = default 0 usage.
Proof.
  induction n as [|n IH]; intros fs [|s rest] Hlen Hp; try done; [cbn in Hlen; lia|]. cbn in Hlen. cbn [Parse] in Hp.
  destruct (read_argument s) as [| |text]; try done.
  assert (forall m, failf usage m = Exited code msg -> code = default 2 usage \/ code = default 0 usage) as Hfail.
  { intros m [= <- _]. by left. }
  assert (forall fs, Parse usage fs rest = Exited code msg -> code = default 2 usage \/ code = default 0 usage) as Hrest.
  { intros fs'. apply IH. lia. }
  destruct text as [|c text]; [by eapply Hfail|].
  assert (forall p, match c with "-"%char | "="%char => failf usage ("bad flag syntax: " +:+ s) | _ => p end = Exited code msg ->
    p = Exited code msg \/ code = default 2 usage \/ code = default 0 usage) as Hc.
  { intros p Hm. destruct c as [[] [] [] [] [] [] [] []]; auto; right; by eapply Hfail. }
  apply Hc in Hp as [Hp|Hp]; [|done]. destruct (split_flag _) as [name value]. destruct (fs !! name) as [v|].
  - destruct (is_bool_flag v); [destruct (set_value v _); eauto|]. destruct value as [val|]; [destruct (set_value v val); eauto|].
    destruct rest as [|val rest]; [by eapply Hfail|]. destruct (set_value v val); [|by eapply Hfail].
    apply IH in Hp; [done|]. cbn in Hlen. lia.
  - case_bool_decide; [|by eapply Hfail]. injection Hp as <- _. by right.
Qed.

(** The tool exits with status 0 whenever it refuses its command line: an
    unknown flag or a value that does not parse ends like a request for help.
    The manager exits with 2, or 0 for help. *)
Theorem refused_command_lines libraries args code :
  (ToolFlags.init args = inl code -> code = 0) /\
  (ManagerFlags.parse_flags libraries args = inl code -> code = 2 \/ code = 0).
Proof.
  unfold ToolFlags.init, ManagerFlags.parse_flags. split.
  - destruct (Parse (Some 0) _ args) as [fs r|c m] eqn:Hp; [case_match; naive_solver|].
    intros [= <-]. by destruct (Parse_exits _ _ _ _ _ _ (le_n _) Hp).
  - destruct (Parse None _ args) as [fs r|c m] eqn:Hp; [done|]. intros [= <-]. apply (Parse_exits _ _ _ _ _ _ (le_n _) Hp).
Qed.

(** Without arguments the manager runs with its default flags, whatever flags
    the libraries have registered. *)
Theorem manager_defaults_stand libraries : ManagerFlags.parse_flags libraries [] = inr ManagerMain.default_flags.
Proof.
  unfold ManagerFlags.parse_flags, ManagerFlags.variables, ManagerFlags.defaults, string_flag, bool_flag, duration_flag, int_flag.
  cbn [Parse]. rewrite !lookup_union. f_equal.
  repeat match goal with |- context[list_to_map ?l !! ?n] =>
    let v := eval vm_compute in ((list_to_map l : FlagSet) !! n) in change ((list_to_map l : FlagSet) !! n) with v end.
  rewrite !union_Some_l. reflexivity.
Qed.
